(* ===== verification/_CoqProject ===== *)
-Q . S2P
Prelude.v
PyStruct.v
Decoder.v
EventLoop.v
Transport.v
Sensor.v
Lifecycle.v
Invariants.v
Machine.v
Interleaving.v
Schedule.v
Ordering.v
Atomicity.v
Protocol.v
Scenarios.v
Deadlines.v
Timed.v
TimedDeadlines.v
Reported.v
Payloads.v
Host.v
TimedAtomicity.v
Weighing.v
Orphans.v
StaleTimers.v
Early.v
