(* ===== verification/Prelude.v ===== *)
(** * Senssun BLE body scale sensor: a verification development

    The program is one Python module, [src/sensor.py]: a Home Assistant
    sensor entity that keeps a Bluetooth Low Energy connection to a Senssun
    body scale, decodes the notifications the scale pushes, reports the
    stable weight, drops the connection after a minute without a reading,
    and retries a connection that failed after a minute.

    ** Parts of the program and the files that model them

    - [Prelude] (this file): what the other files share.  Python exceptions
      as the type [exn]; a computation that may raise as [result]; a method
      that mutates the object and may raise as the state-and-exception monad
      [M], in which an exception keeps the state reached when it was
      raised, with [try_except] and [try_finally]; Python slicing
      [py_slice]; truth of an integer [truthy]; objects allocated in a
      store and referred to by their index ([alloc]), so that two
      references to one object are two equal indices.
    - [PyStruct]: [struct.unpack] for big-endian formats of the codes
      b, B, h and H, with [pack] as its inverse, over the interface
      [FieldCodec] of a field code.  [sensor.py] calls it at line 67 with
      the format ">bhhb".
    - [Decoder]: the payload decoder, [read_stable] (lines 57-59) and
      [decode_weight] (lines 61-78), and the name spaces of the module
      (lines 1-22) and of the class, through which the call of
      [read_stable] at line 70 is resolved.  The name space is an argument
      of [decode_weight]: [module_globals] is the module as it is written,
      [hoisted_globals] the module with [read_stable] at its top level.
      The other names the methods use ([_LOGGER], [unpack], [round], ...)
      are bound in both and their lookup is left out.  [spec_decode] is the
      decoder the specification describes.
    - [EventLoop]: the timers of [loop.call_later] and the tasks of
      [create_task], as stores of handles with a status (pending,
      cancelled, finished) over the interface [Handle], and the time of
      the loop.
    - [Transport]: the [BleakClient] objects, as a store of clients with a
      link that is up or down and a subscription; each call of the library
      takes its outcome as an argument, because the answer is the
      environment's.
    - [Sensor]: the class [SenssunScaleSensor] (lines 22-165).  The object
      is the record [SenssunScaleSensor], with the attributes of
      [__init__] but [hass] and [_connect_lock] (the lock is part of
      [Sys] in [Interleaving]); a [World] is the object,
      the clients, the loop and the list of what [async_write_ha_state]
      told Home Assistant.  Each method is one definition in the monad [M]
      on worlds, statement by statement: [notification_handler],
      [connect], [_schedule_retry], [_retry_connect], [disconnect],
      [_disconnect], [async_added_to_hass], [async_will_remove_from_hass],
      [async_update], the properties and [async_setup_entry].  For each
      branch of each method a lemma gives the world it leaves
      ([reading_taken], [connected_world], [connect_failed_world],
      [disconnected_world], ...).
    - [Lifecycle]: the sensor in its environment.  An [event] is a call of
      a hook by Home Assistant, a notification or a lost link from the
      transport, a timer or a task run by the loop, or the passage of
      time; [step] runs the method of an event that is [enabled]; [run]
      runs a list of events; [reachable] are the worlds that follow from
      [async_setup_entry].  Reachability takes the answers the transport
      may give to [disconnect()] as a parameter ([any_outcome],
      [reliable]).  Every step is shown to be a sequence of [move]s, the
      blocks of assignments of the methods, so that an invariant is
      proved once per move.
    - [Invariants]: what holds in every reachable world.
    - [Machine]: the connection state machine of the specification
      (section 4.2): [transition] is its table over [ConnectionState] and
      the last known value, with six rows more, which the header of the
      file lists (requests, idle timers and retries in the states in
      which the table expects none); [triggers] gives the rows an event
      of the code goes through; [sim] relates a world to a state of the
      machine.
    - [Interleaving]: the coroutines between their [await] points.
      [connect] and [_disconnect] are cut at their awaits (the lock of
      line 95, [connect()] of line 101, [start_notify] of line 105,
      [disconnect()] of line 143) into the segments [connect_enter],
      [resume_connect], [resume_start_notify], [disconnect_enter] and
      [resume_disconnect]; a [Sys] is a world, the lock
      [self._connect_lock] and the suspended coroutines ([frame]); [sstep]
      lets the loop start a coroutine or resume any suspended one, with
      any other in between.  The lock serves its waiters in the order
      they came, as [asyncio.Lock] does.  A suspended coroutine knows the
      retry task that runs it; [cancel()] on that task (lines 130 and
      159) turns the coroutine into [Cancelled], which ends with
      [CancelledError] when the loop resumes it ([resume_cancelled]).
    - [Schedule]: the states of [Interleaving] that are well formed
      ([sys_ok]), the pieces ([part]) of which every step of the loop is
      a sequence, and the measure [remaining] of the awaits the suspended
      coroutines have left.
    - [Ordering]: notifications against the attempts to connect
      ([hushed]).
    - [Atomicity]: the events of [Lifecycle] as runs of the loop of
      [Interleaving] in which the coroutine an event starts is resumed at
      once ([labels_of], [schedule]).
    - [Protocol]: the machine of the specification against the loop of
      [Interleaving]: the rows of the table a step of the loop goes
      through ([striggers]), the steps on which the code stays within
      the table ([snominal]), and the agreement [ssim] of a state of the
      loop with a state of the machine, in which [Connecting] is the
      state of a sensor whose lock is held.
    - [Scenarios]: runs over time, from a reading to the idle disconnect
      and from a failure to its retry, and the runs that leave the
      behaviour the specification describes.
    - [Deadlines]: the discipline of the loop, which runs what is due
      before time passes ([overdue], [timely]), and what the loop holds
      that will close the link ([closing]) or try again ([retrying]).
    - [Timed]: the loop of [Interleaving] with its clock.  A state
      [Timed] is a [Sys] and the instant at which the timeout of
      [asyncio.wait_for] (line 101, 20 seconds) expires, while a
      coroutine awaits [connect()] ([wait_for]); [tstep] is [sstep]
      restricted to the steps that are [punctual]: time does not pass
      while a timer or a task is due, while the loop has a coroutine
      to resume by itself ([runnable]: one that was cancelled, or the
      first waiter of a lock that is free), or past the expiry of
      [wait_for].  The answers of the transport stay the environment's.
    - [TimedDeadlines]: what the timed loop holds that will let the link
      go ([letting_go]) or try again ([idle_until], [attempt_due]).
    - [Reported]: what the host reads and is told, as a function of the
      notifications of a run: the stable readings of the run
      ([readings], [last_reading]) against the property [state] and the
      states [async_write_ha_state] published ([told]).
    - [Payloads]: the payloads the decoder cannot tell apart, those with
      the same bytes 9 to 14 ([same_fields]), as an equivalence for
      which the decoder, the handler, a step and a run of the loop are
      morphisms.
    - [Host]: the two facts about the order of the calls of Home
      Assistant that the code relies on.  [setup_labels] are the calls
      at set-up, which line 20 chooses ([update_before_add=True]:
      [async_update], then [async_added_to_hass], which calls it again);
      [polled] are the polls, which stop when the entity is removed.
      [polling] is a poll that is suspended inside [connect], [retired]
      the state of an entity that was removed.
    - [TimedAtomicity]: the runs of [Atomicity] on the timed loop
      ([tidle]).
    - [Weighing]: one use of the scale on the timed loop: the first
      poll that connects and subscribes ([subscribed]), one notification
      and the steps that follow it ([weighing]).
    - [Orphans]: the clients that hold a link and that the sensor has
      forgotten ([orphan]), which the [finally] clause of [_disconnect]
      (lines 147-150) leaves behind.
    - [StaleTimers]: the idle timers that are pending and that the
      sensor does not hold ([stale]), which line 112 leaves behind.
    - [Early]: the loop of [Interleaving] with one step more ([estep]):
      a notification that is delivered while [connect] still awaits
      [start_notify].

    ** What is proved

    - [PyStruct]: [unpack] accepts exactly the buffers of [calcsize] bytes;
      every field it returns is in the range of its code; [pack] and
      [unpack] are inverse of each other.
    - [Decoder]: [decode_weight] on every payload: [struct.error] below 15
      bytes, where the specification returns nothing; [NameError] from 15
      bytes on in the module as it is written; once [read_stable] is in
      scope, the decoder of the specification (stability test on bits 7
      and 5 of the control byte, weight field times 100).  The round trip
      from the fields of a payload to the decoded weight; the offsets the
      decoder reads; the stability test on a signed control byte.
    - [Sensor]: for each method, what it does on each branch, errors
      included: a stable reading is reported and re-arms the idle timer; a
      reading that is not stable raises before the first assignment; a
      [connect] that succeeds builds one subscribed client and arms the
      timer; a [connect] that fails never raises and schedules exactly one
      retry; a [start_notify] that fails leaves a connected client that
      no retry replaces; [async_update] on a connected sensor does
      nothing; [_disconnect] and the removal of the entity never raise and
      can be repeated; the removal cancels the retry and no idle timer.
    - [Invariants]: in every reachable world the references of the sensor
      point at existing objects ([refs_ok]); at most one retry is pending
      and the sensor holds it ([one_retry]); nothing waits for more than
      60 seconds ([timing_ok]); what is reported is 100 times a signed
      16-bit integer ([state_ok]); with a [reliable] transport at most one
      client holds a link ([held_link]); in the module as it is written
      nothing is ever reported ([silent]).
    - [Machine]: on every run of [nominal] events the code is simulated
      by the machine of the specification ([run_refines]), and the entity
      is available only while it is connected; each restriction of
      [nominal] (no [start_notify] that fails, no [disconnect()] that
      keeps the link, no link dropped by the peer) is needed.
    - [Interleaving]: the lock is held exactly when one coroutine is
      inside [async with], in every state the loop reaches
      ([sreachable_lock_ok]); a coroutine that nothing interrupts leaves
      the world the method of [Sensor] leaves ([sequential_update],
      [sequential_disconnect]), so that the atomic model is the special
      case; under every interleaving in which [_disconnect] does not run
      ([quiet_single_link]), or runs undisturbed with a transport that
      drops the link ([undisturbed_single_link]), at most one client
      holds a link.  Runs, evaluated, for what the theorems leave out:
      two polls at once build one client; [_disconnect], which does not
      take the lock, overwrites the client a concurrent [connect] has
      stored ([disconnect_races_with_connect]); a retry task that is
      cancelled while it waits for the lock never connects; an entity
      that is removed while its retry task is inside [connect] is left
      with nothing, and one that is removed while a poll is inside
      [connect] goes on to retry ([removal_races_with_connect]).  The
      two races are theorems in [Orphans].
    - [Schedule]: every run of the loop keeps the state well formed
      ([srun_sys_ok]); the invariants of the worlds hold under every
      interleaving; at most one retry is alive, asleep or at work, and
      the sensor holds it ([sreachable_one_live_retry]); the resumptions
      of suspended coroutines end, after at most three per coroutine
      ([resumptions_terminate]); from every state the loop reaches the
      suspended coroutines can be run to their ends, so the lock is never
      held for ever ([sreachable_quiesces]).
    - [Atomicity]: every run of the atomic model is a run of the loop
      that leaves the same world with nothing suspended
      ([run_interleaves]), so the worlds of [Lifecycle] are worlds the
      loop reaches ([reachable_interleaved]).  This relates the two
      models to each other and says nothing of the code by itself: it
      is what makes a theorem of [Interleaving] a theorem of
      [Lifecycle].
    - [Protocol]: under every interleaving of nominal steps the code is
      simulated by the machine of the specification ([srun_refines]),
      and the entity is available only while the sensor holds a client
      with a link ([srun_available_linked]); an entity removed during an
      attempt leaves the table.
    - [Ordering]: no notification is processed while an attempt to
      connect holds the lock, as long as [_disconnect] is not disturbed
      and a subscription takes effect when [connect] resumes
      ([undisturbed_connect_hushed]); a run in which a poll disturbs
      [_disconnect], after which a reading is processed inside an attempt
      ([notification_inside_connect]).
    - [Scenarios]: the idle timer of a reading is due from 60 seconds on
      and its firing ends in a disconnected, unavailable sensor; the retry
      of a failed connection is due from 60 seconds on and connects; the
      retries of a connection that fails any number of times end with the
      first that succeeds, each a minute after the one before
      ([retry_loop_connects]); a run with two pending idle timers, in
      which the older timer closes a new connection early; a run with two
      clients holding a link.
    - [Deadlines]: on every timely run, whatever the order of the other
      events, a link without a further reading is closed 60 seconds after
      the last one at the latest ([idle_timeout_inevitable]), and a
      [connect()] that raised is followed by another attempt within 60
      seconds unless the entity is removed ([retry_inevitable]); a run
      that is not timely keeps the link for an hour.
    - [Timed]: every run of the timed loop is a run of the loop of
      [Interleaving], so that what holds under every interleaving holds
      on it; time always goes on: what is due can be run in no more
      steps than the measure [backlog], after which time may pass
      ([time_goes_on]); the expiry of [wait_for] lies within 20 seconds
      in every state the loop reaches, so that a coroutine that awaits
      [connect()] is resumed within 20 seconds ([connect_gives_up],
      which unfolds the discipline and proves nothing of the code but
      the constant of line 101); and
      [start_notify], which the code awaits with no timeout, keeps the
      lock and an available entity without a subscription for as long
      as the peer is silent ([subscription_unbounded]).
    - [TimedDeadlines]: the two timeouts of the sensor under every
      interleaving.  A linked sensor that gets no further reading calls
      [disconnect()] on the client it holds, or has let it go, 60
      seconds after the last reading at the latest
      ([idle_timeout_lets_go]); a [connect()] that raised is followed by
      another attempt within 60 seconds unless the entity is removed
      ([retry_enters_connect]).
    - [Reported]: under every interleaving the entity reports the last
      stable reading it received, and the host was told every stable
      reading once and in order ([reports_last_reading]); no other
      step touches either, because only [notification_handler] calls
      the decoder.
    - [Payloads]: runs whose notifications agree on bytes 9 to 14 are
      possible together, end in the same state and have the same
      readings ([srun_blind]).  This is congruence for the slice of line
      66, whose bounds [decode_weight_refines_spec] and
      [decode_weight_payload_of] pin; it is there for rewriting.
    - [Host]: removal is final unless a poll is inside [connect]: from
      the call of [async_will_remove_from_hass] on, and as long as the
      host polls no more, no client is built, no retry is pending and
      no coroutine is inside [connect], whatever else happens
      ([removal_final]); at set-up a scale that does not answer is
      dialled twice in a row ([setup_dials_twice]).
    - [TimedAtomicity]: a run of the atomic model is a run of the timed
      loop exactly when it is possible and [timely]
      ([timely_run_punctual]): the condition of [Deadlines] and the
      steps of [Timed] are one discipline.
    - [Weighing]: the report and the deadline together, along one
      weighing: after the first poll subscribed and one stable reading,
      a run without another reading that takes the clock past 60 seconds
      has let the link go by then, and the entity reports the reading
      and the host has been told it once, there and at the end
      ([one_weighing], an instance of [reports_last_reading] and of
      [idle_timeout_lets_go]).
    - [Orphans]: in every state in which [_disconnect] and a [connect]
      are both suspended, the [finally] clause makes the sensor forget
      the client [connect] is connecting, which ends as an orphan of a
      sensor that retries ([disturbed_connect_orphans]); so does the
      removal of an entity while a poll awaits [connect()]
      ([removal_orphans_poll]); a [disconnect()] that raises and keeps
      the link leaves an orphan at once and two links after the next
      poll ([failed_disconnect_two_links]); and under every
      interleaving an orphan stays one until the peer drops the link
      ([orphan_stays]).
    - [StaleTimers]: a timer that is pending and that the sensor does
      not hold is never cancelled, and on the timed loop it has fired
      when the clock is past its instant, whatever readings,
      connections and removals come in between ([stale_timer_fires]).
    - [Early]: with notifications delivered before [connect] resumes,
      the states the loop reaches are still well formed
      ([ereachable_sys_ok]) and the link is still single on undisturbed
      runs ([early_single_link]); a reading is processed inside the
      lock on the first poll ([early_reading_inside_connect]), and the
      timer its handler arms is stale as soon as [connect] resumes
      ([early_reading_leaves_stale_timer]).

    ** Bounds and assumptions

    The delays are those of the code: 60 seconds for the idle timer (lines
    92 and 112) and for the retry interval (line 33).  Time is an integer
    number of seconds; [EvAdvance] lets any amount pass.  No definition
    needs fuel: every method is a finite sequence of statements and [run]
    recurses on the list of events.  Stores only grow: an object that is
    cancelled or forgotten stays in its store with its status.  The
    bound of [resumptions_terminate], three resumptions per suspended
    coroutine, is the number of awaits of [connect] (the lock,
    [connect()], [start_notify]); [_disconnect] has one.  The bound of
    [time_goes_on] is [backlog]: 5 steps for a timer that is due (its
    callback, the task it creates, [_disconnect] and its await), 4 for
    a task that is due, and the awaits the suspended coroutines have
    left; the 20 seconds of [wait_for] are the constant of line 101.

    The module as it is written never decodes a payload: line 70 calls
    [read_stable] by its bare name, which is bound in the class body
    and not in the module, so every payload of 15 bytes or more raises
    [NameError] ([decode_weight_module], [sreachable_module_silent]).
    [hoisted_globals] is the module repaired, with [read_stable] at its
    top level; no such code is under [src/].  A theorem with the
    hypothesis [decode_weight globals data = Ok (Some x)], or a run that
    names [hoisted_globals], is about the repaired module and says
    nothing of the module as it is written: [decode_weight_refines_spec],
    [decode_weight_payload_of], [notification_handler_rearms],
    [idle_timeout_inevitable], [idle_timeout_lets_go], [one_weighing]
    and [early_reading_leaves_stale_timer].  The other theorems hold of
    both, and those on connecting, retrying, removal, orphans and stale
    timers do not depend on decoding.

    In [Sensor], [Lifecycle], [Invariants], [Machine] and [Scenarios] a
    coroutine runs from its first line to its last without another event
    in between; [Interleaving] lifts that assumption for [connect] and
    [_disconnect], and [Atomicity] shows that the first model is the
    second with each coroutine resumed at once.  A task that sleeps can
    run once its sleep is over and a timer once its delay is; that they
    do run before time goes on is the condition [timely] of [Deadlines],
    which the other files do not assume; [Timed] builds the same
    discipline into the steps of the interleaved loop.  The timeout
    of [asyncio.wait_for] (line 101) is part of that discipline: the
    clock does not pass the instant 20 seconds after [connect()] was
    called while the call is awaited; that [wait_for] raises in time
    is assumed of asyncio, not proved.  In [Interleaving] and the
    files on it a subscription takes effect when the coroutine that
    awaits [start_notify] resumes: no notification is delivered
    between the acknowledgement of the peer and that step.
    [undisturbed_connect_hushed] and [srun_refines] depend on it;
    [Early] drops the assumption and shows what holds without.  The time
    [disconnect()] and [start_notify] take is the transport's and has
    no bound in the code: the deadline of [idle_timeout_lets_go] is
    that of the call of [disconnect()], not of its answer.  Of Home
    Assistant [Host] assumes that it calls no hook of an entity it has
    removed; the other files let it call any hook at any time.  A
    [connect()] that raises leaves the client without a link; a
    [disconnect()] that raises may or may not ([DisconnectRaise]); a call
    of the transport that is cancelled leaves the client as it was.
    [CancelledError] is a [BaseException] and no [Exception], as in
    Python 3.8 and later, so that the [except] clauses of [connect] do
    not catch it.

    ** What is not modelled

    The timers of the specification as part of its machine: the code
    does not keep their discipline (a connection opened again leaves two
    idle timers pending, the removal of the entity cancels none), so the
    timers are covered by theorems on the code, in [Sensor], [Scenarios]
    [Deadlines] and [TimedDeadlines].  The timeout of 10 seconds that
    line 100 passes to [BleakClient], which is a parameter of the
    scan inside the library; the model keeps the 20 seconds of
    [asyncio.wait_for] around it.  Interleavings inside
    [notification_handler], [disconnect] and [_schedule_retry], which
    have no [await].  The entity framework of Home Assistant beyond the
    calls of the hooks and the published states: its entity platform,
    the registry, config entries, the period of the polls and the
    states it writes by itself after a poll.  Logging: the [_LOGGER]
    calls write records that nothing in the module reads back, so they
    change neither the state nor the control flow; the call that opens
    [decode_weight] (line 63) is one of them.  The radio.  Of the
    libraries the module calls ([struct], [asyncio], [bleak]) and of
    Python itself only what the module uses is modelled: the format
    codes b, B, h, H in big-endian order; timers, tasks, [sleep],
    [Lock] and [wait_for]; a client with a link and a subscription;
    exceptions, attribute assignment, [try]/[except]/[finally] and the
    resolution of global names.  Nothing more of the program is left to
    model: every statement of [src/sensor.py] but the log calls is a
    definition of the development.

    ** Conventions

    Python integers are [Z]; a signed field of w bits is a [Z] in
    [-2^(w-1), 2^(w-1)); [bytes] is [list byte]; a dictionary of names is
    a [gmap] of strings.  Every definition is executable: the examples
    and the concrete worlds are evaluated by [vm_compute]. *)

From stdpp Require Export base tactics option list numbers strings gmap.
From Stdlib Require Export Strings.Byte.

#[local] Open Scope Z_scope.

(** ** Exceptions and results *)

(** The exception classes the module can meet.  [OtherException] stands for
    any other subclass of [Exception], which the handlers of [connect] and
    [_disconnect] catch as such. *)
Inductive exn : Set :=
  | StructError
  | NameError
  | TypeError
  | AttributeError
  | TimeoutError
  | BleakError
  | ValueError
  | OtherException.

#[export] Instance exn_eq_dec : EqDecision exn.
Proof. solve_decision. Defined.

(** The outcome of evaluating a Python expression: a value, or an exception
    that propagates. *)
Inductive result (A : Type) : Type :=
  | Ok (a : A)
  | Raise (e : exn).

Arguments Ok {A} a.
Arguments Raise {A} e.

#[export] Instance result_eq_dec `{EqDecision A} : EqDecision (result A).
Proof. solve_decision. Defined.

#[export] Instance result_ret : MRet result := λ A a, Ok a.
#[export] Instance result_bind : MBind result := λ A B f m,
  match m with
  | Ok a => f a
  | Raise e => Raise e
  end.
#[export] Instance result_fmap : FMap result := λ A B f m,
  match m with
  | Ok a => Ok (f a)
  | Raise e => Raise e
  end.

Definition is_Ok {A} (r : result A) : bool :=
  match r with Ok _ => true | Raise _ => false end.

Definition raised {A} (r : result A) : option exn :=
  match r with Ok _ => None | Raise e => Some e end.

(** ** Methods: state and exceptions

    A method runs on a state [S] (the object and the objects it refers to).
    What it assigned before an exception stays assigned, so the state is
    returned on both outcomes. *)
Definition M (S A : Type) : Type := S → result A * S.

#[export] Instance M_ret {S} : MRet (M S) := λ A a s, (Ok a, s).
#[export] Instance M_bind {S} : MBind (M S) := λ A B f m s,
  match m s with
  | (Ok a, s') => f a s'
  | (Raise e, s') => (Raise e, s')
  end.

Definition get {S} : M S S := λ s, (Ok s, s).
Definition gets {S A} (f : S → A) : M S A := λ s, (Ok (f s), s).
Definition put {S} (s : S) : M S unit := λ _, (Ok (), s).
Definition modify {S} (f : S → S) : M S unit := λ s, (Ok (), f s).
Definition raise {S A} (e : exn) : M S A := λ s, (Raise e, s).
Definition lift {S A} (r : result A) : M S A := λ s, (r, s).

(** [try: m  except E as e: h e]; the handler [h] answers [None] for an
    exception no clause catches. *)
Definition try_except {S A} (m : M S A) (h : exn → option (M S A)) : M S A :=
  λ s,
    match m s with
    | (Ok a, s') => (Ok a, s')
    | (Raise e, s') =>
        match h e with
        | Some k => k s'
        | None => (Raise e, s')
        end
    end.

(** [try: m  finally: k]: [k] runs on both outcomes; an exception of [k]
    replaces the outcome of [m]. *)
Definition try_finally {S A} (m : M S A) (k : M S unit) : M S A :=
  λ s,
    match m s with
    | (r, s') =>
        match k s' with
        | (Ok _, s'') => (r, s'')
        | (Raise e, s'') => (Raise e, s'')
        end
    end.

(** A block that does nothing. *)
Definition pass {S} : M S unit := mret ().

(** [if c: m] with no else branch. *)
Definition when {S} (c : bool) (m : M S unit) : M S unit :=
  if c then m else pass.

(** The state a method leaves, whatever its outcome. *)
Definition exec {S A} (m : M S A) (s : S) : S := (m s).2.
Definition eval {S A} (m : M S A) (s : S) : result A := (m s).1.

Declare Scope py_scope.
Delimit Scope py_scope with py.
Notation "'try:' m 'except:' h" := (try_except m h)
  (at level 10, m at level 200, h at level 200, only parsing) : py_scope.
Notation "'try:' m 'finally:' k" := (try_finally m k)
  (at level 10, m at level 200, k at level 200, only parsing) : py_scope.
Open Scope py_scope.

(** ** Python slicing and truth *)

(** [l[lo:hi]] for [0 <= lo <= hi]: the indices are clamped to the length,
    so a slice is never an error, only shorter than asked. *)
Definition py_slice {A} (lo hi : nat) (l : list A) : list A :=
  take (hi - lo) (drop lo l).

(** The truth value of an integer: [not n] is [True] exactly for [0]. *)
Definition truthy (n : Z) : bool := negb (n =? 0).

(** [int(b)] of a boolean. *)
Definition int_of_bool (b : bool) : Z := if b then 1 else 0.

(** ** Object stores

    Objects that outlive the reference the sensor holds to them (clients,
    timer handles, tasks) live in a store: a list, an object's identity
    its index.  Allocation appends, so identities are never reused. *)
Definition alloc {A} (h : list A) (x : A) : list A * nat := (h ++ [x], length h).

Arguments alloc : simpl never.

(** ** Automation *)

Create HintDb py discriminated.
Create Rewrite HintDb py.

(** Case analysis on the scrutinee of the first [match] of the goal over a
    [result], a pair or an option. *)
Ltac case_result :=
  match goal with
  | |- context [match ?r with Ok _ => _ | Raise _ => _ end] =>
      let E := fresh "E" in destruct r eqn:E
  | |- context [let '(_, _) := ?p in _] =>
      let E := fresh "E" in destruct p eqn:E
  end.

(** Unfold the monad's operations down to the pairs they compute. *)
Ltac unfold_M :=
  unfold try_except, try_finally, when, pass, exec, eval, gets, get, put, modify,
    raise, lift, mbind, mret, M_bind, M_ret, result_bind, result_ret in *.

(** ** Shared lemmas *)

Section result_laws.
Context {A B C : Type}.

Lemma result_bind_Ok (a : A) (f : A → result B) : Ok a ≫= f = f a.
Proof. reflexivity. Qed.

Lemma result_bind_Raise (e : exn) (f : A → result B) : Raise e ≫= f = Raise e.
Proof. reflexivity. Qed.

Lemma result_bind_ret (m : result A) : m ≫= mret = m.
Proof. by destruct m. Qed.

Lemma result_bind_assoc (m : result A) (f : A → result B) (g : B → result C) :
  (m ≫= f) ≫= g = m ≫= (λ a, f a ≫= g).
Proof. by destruct m. Qed.

(** A bind returns a value exactly when both of its parts do. *)
Lemma result_bind_inv_Ok (m : result A) (f : A → result B) (b : B) :
  m ≫= f = Ok b ↔ ∃ a, m = Ok a ∧ f a = Ok b.
Proof.
  destruct m as [a|e]; simpl; split.
  - eauto.
  - by intros (a' & [= <-] & ?).
  - done.
  - by intros (? & ? & ?).
Qed.

Lemma is_Ok_true (m : result A) : is_Ok m = true ↔ ∃ a, m = Ok a.
Proof. destruct m; simpl; split; [eauto|done|done|by intros [? ?]]. Qed.

Lemma raised_Some (m : result A) (e : exn) : raised m = Some e ↔ m = Raise e.
Proof. destruct m; simpl; split; congruence. Qed.
End result_laws.

Section M_laws.
Context {S A B C : Type}.

Lemma M_bind_ret_l (a : A) (f : A → M S B) (s : S) : (mret a ≫= f) s = f a s.
Proof. reflexivity. Qed.

Lemma M_bind_ret_r (m : M S A) (s : S) : (m ≫= mret) s = m s.
Proof. unfold_M. by destruct (m s) as [[?|?] ?]. Qed.

Lemma M_bind_assoc (m : M S A) (f : A → M S B) (g : B → M S C) (s : S) :
  ((m ≫= f) ≫= g) s = (m ≫= (λ a, f a ≫= g)) s.
Proof. unfold_M. by destruct (m s) as [[?|?] ?]. Qed.

(** An exception skips the rest of the block and keeps the state. *)
Lemma M_bind_raise (e : exn) (f : A → M S B) (s : S) :
  (raise e ≫= f) s = (Raise e, s).
Proof. reflexivity. Qed.

Lemma try_except_Ok (m : M S A) h (s s' : S) (a : A) :
  m s = (Ok a, s') → try_except m h s = (Ok a, s').
Proof. unfold try_except. by intros ->. Qed.

Lemma try_except_caught (m : M S A) h k (s s' : S) (e : exn) :
  m s = (Raise e, s') → h e = Some k → try_except m h s = k s'.
Proof. unfold try_except. by intros -> ->. Qed.

Lemma try_except_uncaught (m : M S A) h (s s' : S) (e : exn) :
  m s = (Raise e, s') → h e = None → try_except m h s = (Raise e, s').
Proof. unfold try_except. by intros -> ->. Qed.

(** Running one statement after another. *)
Lemma exec_bind (m : M S A) (f : A → M S B) (s s' : S) (a : A) :
  m s = (Ok a, s') → exec (m ≫= f) s = exec (f a) s'.
Proof. unfold exec. unfold_M. by intros ->. Qed.

Lemma eval_bind (m : M S A) (f : A → M S B) (s s' : S) (a : A) :
  m s = (Ok a, s') → eval (m ≫= f) s = eval (f a) s'.
Proof. unfold eval. unfold_M. by intros ->. Qed.

Lemma exec_modify (g : S → S) (f : unit → M S B) (s : S) :
  exec (modify g ≫= f) s = exec (f ()) (g s).
Proof. reflexivity. Qed.

(** A [finally] block that cannot raise leaves the outcome of the body. *)
Lemma try_finally_total (m : M S A) (k : M S unit) (s s' s'' : S) r :
  m s = (r, s') → k s' = (Ok (), s'') → try_finally m k s = (r, s'').
Proof. unfold try_finally. by intros -> ->. Qed.
End M_laws.

#[export] Hint Rewrite @result_bind_Ok @result_bind_Raise @M_bind_ret_l
@M_bind_raise : py.

Section slices.
Context {A : Type}.
Implicit Types l : list A.

Lemma length_py_slice lo hi l :
  length (py_slice lo hi l) = ((hi - lo) `min` (length l - lo))%nat.
Proof. unfold py_slice. by rewrite length_take, length_drop. Qed.

(** A slice has the length asked for exactly when the list reaches [hi]. *)
Lemma length_py_slice_full lo hi l :
  (lo ≤ hi)%nat → (hi ≤ length l)%nat →
  length (py_slice lo hi l) = (hi - lo)%nat.
Proof. intros. rewrite length_py_slice. lia. Qed.

Lemma length_py_slice_short lo hi l :
  (length l < hi)%nat → (length (py_slice lo hi l) < hi - lo)%nat ∨ (hi ≤ lo)%nat.
Proof. intros. rewrite length_py_slice. lia. Qed.

Lemma lookup_py_slice lo hi l i :
  (i < hi - lo)%nat → py_slice lo hi l !! i = l !! (lo + i)%nat.
Proof. intros. unfold py_slice. by rewrite lookup_take_lt, lookup_drop. Qed.

(** A slice does not see what lies after [hi]. *)
Lemma py_slice_app_l lo hi l l' :
  (hi ≤ length l)%nat → py_slice lo hi (l ++ l') = py_slice lo hi l.
Proof.
  intros. unfold py_slice.
  destruct (decide (lo ≤ length l)%nat).
  - rewrite drop_app_le by done. rewrite take_app_le; [done|].
    rewrite length_drop. lia.
  - replace (hi - lo)%nat with 0%nat by lia. done.
Qed.

(** Two lists that agree on [lo, hi) have the same slice. *)
Lemma py_slice_ext lo hi l l' :
  (hi ≤ length l)%nat → (hi ≤ length l')%nat →
  (∀ i, (lo ≤ i < hi)%nat → l !! i = l' !! i) →
  py_slice lo hi l = py_slice lo hi l'.
Proof.
  intros Hl Hl' Hi. apply list_eq. intros i.
  destruct (decide (i < hi - lo)%nat).
  - rewrite !lookup_py_slice by done. apply Hi. lia.
  - rewrite !lookup_ge_None_2; [done|rewrite length_py_slice; lia..].
Qed.
End slices.

#[export] Hint Rewrite @length_py_slice : py.

Section stores.
Context {A : Type}.
Implicit Types h : list A.

Lemma alloc_lookup_new h x : (alloc h x).1 !! (alloc h x).2 = Some x.
Proof. unfold alloc. simpl. by rewrite lookup_app_r, Nat.sub_diag. Qed.

Lemma alloc_lookup_old h x i y : h !! i = Some y → (alloc h x).1 !! i = Some y.
Proof. unfold alloc. simpl. apply lookup_app_l_Some. Qed.

(** The identity of a new object is fresh. *)
Lemma alloc_fresh h x : h !! (alloc h x).2 = None.
Proof. unfold alloc. simpl. by apply lookup_ge_None_2. Qed.

Lemma alloc_length h x : length (alloc h x).1 = S (length h).
Proof. unfold alloc. simpl. rewrite length_app. simpl. lia. Qed.

Lemma alloc_lookup h x i :
  (alloc h x).1 !! i = if decide (i = length h) then Some x else h !! i.
Proof.
  unfold alloc. simpl. case_decide as Hi.
  - subst. by rewrite lookup_app_r, Nat.sub_diag.
  - destruct (decide (i < length h)%nat).
    + by rewrite lookup_app_l.
    + rewrite !lookup_ge_None_2; [done|lia|rewrite length_app; simpl; lia].
Qed.
(** Updating the last object of a store. *)
Lemma alter_snoc (f : A → A) h x : alter f (length h) (h ++ [x]) = h ++ [f x].
Proof. by rewrite alter_app_r_alt, Nat.sub_diag. Qed.

Lemma lookup_snoc h x : (h ++ [x]) !! length h = Some x.
Proof. by rewrite lookup_app_r, Nat.sub_diag. Qed.

Lemma lookup_snoc_Some h x i y :
  (h ++ [x]) !! i = Some y ↔ h !! i = Some y ∨ (i = length h ∧ y = x).
Proof.
  destruct (decide (i = length h)) as [->|Hne].
  - rewrite lookup_snoc, (lookup_ge_None_2 h) by done.
    split; [intros [= ->]; by right|by intros [[=]|[_ ->]]].
  - destruct (decide (i < length h)%nat).
    + rewrite lookup_app_l by done. split; [by left|by intros [?|[? _]]].
    + rewrite !lookup_ge_None_2; [|lia|rewrite length_app; simpl; lia].
      split; [done|by intros [?|[? _]]].
Qed.

Lemma lookup_snoc_ne h x i : i ≠ length h → (h ++ [x]) !! i = h !! i.
Proof.
  intros Hne. destruct (decide (i < length h)%nat).
  - by rewrite lookup_app_l.
  - rewrite !lookup_ge_None_2; [done|lia|]. rewrite length_app. simpl. lia.
Qed.

(** Taking out an element on which a test fails does not change whether
    the test holds somewhere. *)
Lemma existsb_delete {B} (f : B → bool) i (xs : list B) x :
  xs !! i = Some x → f x = false → existsb f (delete i xs) = existsb f xs.
Proof.
  revert i. induction xs as [|y xs IH]; intros [|i]; simpl; try done.
  - by intros [= ->] ->.
  - intros Hi Hx. by rewrite (IH i).
Qed.

(** A list without duplicates whose elements are all the one a reference
    holds has at most one element. *)
Lemma held_length (o : option nat) (l : list nat) :
  NoDup l → (∀ x, x ∈ l → o = Some x) → (length l ≤ 1)%nat.
Proof.
  intros Hnd Hl. destruct l as [|x [|y l]]; simpl; [lia..|]. exfalso.
  apply NoDup_cons in Hnd as [Hx _]. apply Hx.
  assert (x = y) as -> by (pose proof (Hl x); pose proof (Hl y); set_solver).
  set_solver.
Qed.

End stores.

#[export] Hint Resolve alloc_lookup_new alloc_lookup_old alloc_fresh : py.
#[export] Hint Rewrite @alter_snoc @lookup_snoc : py.

Section truth.
Lemma truthy_int_of_bool b : truthy (int_of_bool b) = b.
Proof. by destruct b. Qed.

Lemma truthy_false n : truthy n = false ↔ n = 0.
Proof. unfold truthy. destruct (Z.eqb_spec n 0); simpl; split; congruence. Qed.
End truth.

#[export] Hint Rewrite truthy_int_of_bool : py.
