(* ===== verification/PyStruct.v ===== *)
(** * PyStruct: [struct.unpack] for big-endian formats

    [sensor.py] imports [unpack] from Python's [struct] module (line 8) and
    calls it once, at line 67, with the format [">bhhb"].  This file holds
    the part of the module that call needs: formats that start with [>]
    (big-endian, standard sizes, no padding) and are made of the codes
    [b] and [B] (one byte, signed and unsigned) and [h] and [H] (two bytes).

    A field code is described by the interface [FieldCodec]: its size, how
    it decodes and encodes, and the laws that make the two inverse of each
    other.  [unpack] and [pack] are written and proved against the
    interface; the four codes discharge it. *)

From Stdlib Require Import Strings.Ascii.
From S2P Require Import Prelude.

#[local] Open Scope Z_scope.

(** ** Bytes and big-endian integers *)

#[export] Instance byte_inhabited : Inhabited byte := populate x00.

(** The value of a byte, in [0, 256). *)
Definition byte_to_Z (x : byte) : Z := Z.of_N (Byte.to_N x).

(** The byte of value [z mod 256]. *)
Definition Z_to_byte (z : Z) : byte :=
  default x00 (Byte.of_N (Z.to_N (z mod 256))).

(** [int.from_bytes(bs, "big")]: the first byte is the most significant. *)
Definition be_uint (bs : list byte) : Z :=
  foldl (λ acc x, acc * 256 + byte_to_Z x) 0 bs.

(** [u.to_bytes(n, "big")] of [u mod 256^n]. *)
Fixpoint be_bytes (n : nat) (u : Z) : list byte :=
  match n with
  | O => []
  | S n' => be_bytes n' (u / 256) ++ [Z_to_byte u]
  end.

(** The two's complement reading of a [w]-bit pattern [u]. *)
Definition to_signed (w : Z) (u : Z) : Z :=
  if u <? 2 ^ (w - 1) then u else u - 2 ^ w.

(** ** Field codes *)

Class FieldCodec (C : Type) := {
  field_size : C → nat;
  field_decode : C → list byte → Z;
  field_encode : C → Z → list byte;
  field_in_range : C → Z → bool;
  field_encode_length c v : length (field_encode c v) = field_size c;
  field_decode_in_range c bs :
    length bs = field_size c → field_in_range c (field_decode c bs) = true;
  field_decode_encode c v :
    field_in_range c v = true → field_decode c (field_encode c v) = v;
  field_encode_decode c bs :
    length bs = field_size c → field_encode c (field_decode c bs) = bs;
}.

Inductive code : Set := code_b | code_B | code_h | code_H.

#[export] Instance code_eq_dec : EqDecision code.
Proof. solve_decision. Defined.

Definition code_size (c : code) : nat :=
  match c with
  | code_b | code_B => 1
  | code_h | code_H => 2
  end.

Definition code_signed (c : code) : bool :=
  match c with
  | code_b | code_h => true
  | code_B | code_H => false
  end.

Definition code_bits (c : code) : Z := 8 * Z.of_nat (code_size c).

Definition code_decode (c : code) (bs : list byte) : Z :=
  let u := be_uint bs in
  if code_signed c then to_signed (code_bits c) u else u.

Definition code_in_range (c : code) (v : Z) : bool :=
  if code_signed c
  then bool_decide (- 2 ^ (code_bits c - 1) ≤ v < 2 ^ (code_bits c - 1))
  else bool_decide (0 ≤ v < 2 ^ code_bits c).

Definition code_encode (c : code) (v : Z) : list byte :=
  be_bytes (code_size c) (v mod 2 ^ code_bits c).

(** ** Formats *)

(** The codes of a format string: [>] and then one letter per field.  Any
    other string is a [struct.error]. *)
Fixpoint parse_codes (s : string) : result (list code) :=
  match s with
  | EmptyString => Ok []
  | String a s' =>
      c ← match a with
          | "b"%char => Ok code_b
          | "B"%char => Ok code_B
          | "h"%char => Ok code_h
          | "H"%char => Ok code_H
          | _ => Raise StructError
          end;
      cs ← parse_codes s';
      Ok (c :: cs)
  end.

Definition parse_format (s : string) : result (list code) :=
  match s with
  | String ">"%char s' => parse_codes s'
  | _ => Raise StructError
  end.

Section codec.
Context `{FieldCodec C}.

(** [struct.calcsize]: with standard sizes there is no padding. *)
Definition calcsize (f : list C) : nat := sum_list_with field_size f.

Fixpoint unpack_fields (f : list C) (bs : list byte) : list Z :=
  match f with
  | [] => []
  | c :: f' =>
      field_decode c (take (field_size c) bs)
      :: unpack_fields f' (drop (field_size c) bs)
  end.

(** [struct.unpack]: the buffer must have exactly the size of the format. *)
Definition unpack_codes (f : list C) (bs : list byte) : result (list Z) :=
  if decide (length bs = calcsize f) then Ok (unpack_fields f bs)
  else Raise StructError.

(** [struct.pack]: one value per field, each in the range of its code. *)
Fixpoint pack_codes (f : list C) (vs : list Z) : result (list byte) :=
  match f, vs with
  | [], [] => Ok []
  | c :: f', v :: vs' =>
      if field_in_range c v then bs ← pack_codes f' vs'; Ok (field_encode c v ++ bs)
      else Raise StructError
  | _, _ => Raise StructError
  end.

End codec.

(** ** Bytes *)

Lemma byte_to_Z_range x : 0 ≤ byte_to_Z x < 256.
Proof.
  unfold byte_to_Z. pose proof (Byte.to_N_bounded x). lia.
Qed.

Lemma byte_to_Z_to_byte z : byte_to_Z (Z_to_byte z) = z mod 256.
Proof.
  unfold byte_to_Z, Z_to_byte.
  pose proof (Z.mod_pos_bound z 256 eq_refl) as Hz.
  destruct (Byte.of_N (Z.to_N (z mod 256))) as [y|] eqn:E.
  - apply Byte.to_of_N in E. simpl. rewrite E. lia.
  - apply Byte.of_N_None_iff in E. lia.
Qed.

Lemma byte_to_Z_inj x y : byte_to_Z x = byte_to_Z y → x = y.
Proof.
  unfold byte_to_Z. intros Heq%N2Z.inj.
  pose proof (Byte.of_to_N x) as Hx. rewrite Heq, Byte.of_to_N in Hx.
  congruence.
Qed.

Lemma Z_to_byte_to_Z x : Z_to_byte (byte_to_Z x) = x.
Proof.
  apply byte_to_Z_inj. rewrite byte_to_Z_to_byte.
  apply Z.mod_small, byte_to_Z_range.
Qed.

Lemma Z_to_byte_mod z : Z_to_byte (z mod 256) = Z_to_byte z.
Proof. apply byte_to_Z_inj. rewrite !byte_to_Z_to_byte. by rewrite Z.mod_mod. Qed.

(** ** Big-endian integers *)

Lemma be_uint_nil : be_uint [] = 0.
Proof. reflexivity. Qed.

Lemma be_uint_snoc bs x : be_uint (bs ++ [x]) = be_uint bs * 256 + byte_to_Z x.
Proof. unfold be_uint. by rewrite foldl_snoc. Qed.

Lemma be_uint_range bs : 0 ≤ be_uint bs < 256 ^ Z.of_nat (length bs).
Proof.
  induction bs as [|x bs IH] using rev_ind; [by compute|].
  rewrite be_uint_snoc, length_app, Nat2Z.inj_add, Z.pow_add_r by lia.
  pose proof (byte_to_Z_range x). simpl length. change (256 ^ Z.of_nat 1) with 256.
  nia.
Qed.

Lemma be_uint_cons x bs :
  be_uint (x :: bs) = byte_to_Z x * 256 ^ Z.of_nat (length bs) + be_uint bs.
Proof.
  induction bs as [|y bs IH] using rev_ind; [unfold be_uint; simpl; lia|].
  rewrite app_comm_cons, !be_uint_snoc, IH, length_app, Nat2Z.inj_add,
    Z.pow_add_r by lia.
  simpl length. change (256 ^ Z.of_nat 1) with 256. lia.
Qed.

Lemma length_be_bytes n u : length (be_bytes n u) = n.
Proof.
  revert u. induction n as [|n IH]; intros u; simpl; [done|].
  rewrite length_app, IH. simpl. lia.
Qed.

(** Writing [n] bytes keeps the value modulo [256^n]. *)
Lemma be_uint_be_bytes n u : be_uint (be_bytes n u) = u mod 256 ^ Z.of_nat n.
Proof.
  revert u. induction n as [|n IH]; intros u.
  - simpl. by rewrite Z.mod_1_r.
  - cbn [be_bytes]. rewrite be_uint_snoc, IH, byte_to_Z_to_byte.
    rewrite Nat2Z.inj_succ, Z.pow_succ_r by lia.
    rewrite Z.rem_mul_r by lia. lia.
Qed.

Lemma be_bytes_be_uint bs : be_bytes (length bs) (be_uint bs) = bs.
Proof.
  induction bs as [|x bs IH] using rev_ind; [done|].
  rewrite length_app, Nat.add_comm. cbn [length Nat.add be_bytes].
  rewrite be_uint_snoc. pose proof (byte_to_Z_range x).
  replace ((be_uint bs * 256 + byte_to_Z x) / 256) with (be_uint bs)
    by (apply Z.div_unique with (byte_to_Z x); lia).
  rewrite IH. f_equal. f_equal.
  rewrite <- Z_to_byte_mod, Z.add_comm, Z.mod_add by lia.
  rewrite Z_to_byte_mod. apply Z_to_byte_to_Z.
Qed.

Lemma be_bytes_mod n u : be_bytes n (u mod 256 ^ Z.of_nat n) = be_bytes n u.
Proof.
  rewrite <- be_uint_be_bytes.
  rewrite <- (length_be_bytes n u) at 1. apply be_bytes_be_uint.
Qed.

(** ** Two's complement *)

Lemma to_signed_range w u :
  0 < w → 0 ≤ u < 2 ^ w → - 2 ^ (w - 1) ≤ to_signed w u < 2 ^ (w - 1).
Proof.
  intros Hw Hu. unfold to_signed.
  replace (2 ^ w) with (2 * 2 ^ (w - 1)) in *
    by (rewrite <- Z.pow_succ_r by lia; f_equal; lia).
  case_match; lia.
Qed.

(** The signed reading and the bit pattern agree modulo [2^w]. *)
Lemma to_signed_mod w u : 0 ≤ u < 2 ^ w → to_signed w u mod 2 ^ w = u.
Proof.
  intros Hu. unfold to_signed. case_match.
  - by apply Z.mod_small.
  - replace (u - 2 ^ w) with (u + (-1) * 2 ^ w) by lia.
    rewrite Z.mod_add by lia. by apply Z.mod_small.
Qed.

Lemma to_signed_of_mod w v :
  0 < w → - 2 ^ (w - 1) ≤ v < 2 ^ (w - 1) → to_signed w (v mod 2 ^ w) = v.
Proof.
  intros Hw Hv. unfold to_signed.
  assert (2 ^ w = 2 * 2 ^ (w - 1)) as Hp
    by (rewrite <- Z.pow_succ_r by lia; f_equal; lia).
  assert (0 < 2 ^ (w - 1)) by (apply Z.pow_pos_nonneg; lia).
  destruct (decide (0 ≤ v)).
  - rewrite Z.mod_small by lia. case_match; lia.
  - replace (v mod 2 ^ w) with (v + 2 ^ w).
    + case_match; lia.
    + apply Z.mod_unique with (-1); lia.
Qed.

(** The low [w] bits of a pattern and of its signed reading are the same. *)
Lemma to_signed_testbit w u i :
  0 ≤ i < w → Z.testbit (to_signed w u) i = Z.testbit u i.
Proof.
  intros Hi. unfold to_signed. case_match; [done|].
  rewrite <- (Z.mod_pow2_bits_low (u - 2 ^ w) w i) by lia.
  rewrite <- (Z.mod_pow2_bits_low u w i) by lia.
  f_equal. replace (u - 2 ^ w) with (u + (-1) * 2 ^ w) by lia.
  apply Z.mod_add. apply Z.pow_nonzero; lia.
Qed.

(** ** The four codes implement the interface *)

Lemma code_bits_pos c : 0 < code_bits c.
Proof. by destruct c. Qed.

Lemma code_pow c : 256 ^ Z.of_nat (code_size c) = 2 ^ code_bits c.
Proof. by destruct c. Qed.

Lemma code_encode_length c v : length (code_encode c v) = code_size c.
Proof. apply length_be_bytes. Qed.

Lemma code_decode_in_range c bs :
  length bs = code_size c → code_in_range c (code_decode c bs) = true.
Proof.
  intros Hlen. pose proof (be_uint_range bs) as Hu.
  rewrite Hlen, code_pow in Hu. pose proof (code_bits_pos c).
  unfold code_in_range, code_decode.
  destruct (code_signed c); apply bool_decide_eq_true; [|done].
  by apply to_signed_range.
Qed.

Lemma code_decode_encode c v :
  code_in_range c v = true → code_decode c (code_encode c v) = v.
Proof.
  unfold code_in_range, code_decode, code_encode. pose proof (code_bits_pos c).
  rewrite be_uint_be_bytes, code_pow, Z.mod_mod by (apply Z.pow_nonzero; lia).
  destruct (code_signed c); intros Hv%bool_decide_eq_true.
  - by apply to_signed_of_mod.
  - by apply Z.mod_small.
Qed.

Lemma code_encode_decode c bs :
  length bs = code_size c → code_encode c (code_decode c bs) = bs.
Proof.
  intros Hlen. pose proof (be_uint_range bs) as Hu.
  rewrite Hlen, code_pow in Hu.
  unfold code_encode, code_decode.
  replace (_ mod _) with (be_uint bs).
  - rewrite <- Hlen. apply be_bytes_be_uint.
  - destruct (code_signed c).
    + by rewrite to_signed_mod.
    + by rewrite Z.mod_small.
Qed.

#[export] Instance code_codec : FieldCodec code := {|
  field_size := code_size;
  field_decode := code_decode;
  field_encode := code_encode;
  field_in_range := code_in_range;
  field_encode_length := code_encode_length;
  field_decode_in_range := code_decode_in_range;
  field_decode_encode := code_decode_encode;
  field_encode_decode := code_encode_decode;
|}.

(** [struct.unpack(fmt, buffer)] and [struct.pack(fmt, *values)]. *)
Definition unpack (fmt : string) (bs : list byte) : result (list Z) :=
  f ← parse_format fmt; unpack_codes f bs.

Definition pack (fmt : string) (vs : list Z) : result (list byte) :=
  f ← parse_format fmt; pack_codes f vs.

(** ** [unpack] and [pack] over any codec *)

Section codec_laws.
Context `{FieldCodec C}.
Implicit Types (f : list C) (bs : list byte) (vs : list Z).

Lemma unpack_codes_Ok f bs :
  length bs = calcsize f → unpack_codes f bs = Ok (unpack_fields f bs).
Proof. intros. unfold unpack_codes. by rewrite decide_True. Qed.

Lemma unpack_codes_Raise f bs :
  length bs ≠ calcsize f → unpack_codes f bs = Raise StructError.
Proof. intros. unfold unpack_codes. by rewrite decide_False. Qed.

(** [unpack] answers exactly on the buffers of the size of the format. *)
Lemma unpack_codes_is_Ok f bs :
  is_Ok (unpack_codes f bs) = true ↔ length bs = calcsize f.
Proof. unfold unpack_codes. case_decide; simpl; split; done. Qed.

Lemma length_unpack_fields f bs : length (unpack_fields f bs) = length f.
Proof. revert bs. induction f; intros; simpl; [done|by f_equal]. Qed.

(** Every value [unpack] returns is in the range of its code. *)
Lemma unpack_fields_in_range f bs :
  length bs = calcsize f →
  Forall2 (λ c v, field_in_range c v = true) f (unpack_fields f bs).
Proof.
  revert bs. induction f as [|c f IH]; intros bs Hlen; simpl in *.
  - constructor.
  - constructor.
    + apply field_decode_in_range. rewrite length_take. lia.
    + apply IH. rewrite length_drop. lia.
Qed.

Lemma length_pack_codes f vs bs :
  pack_codes f vs = Ok bs → length bs = calcsize f ∧ length vs = length f.
Proof.
  revert vs bs. induction f as [|c f IH]; intros [|v vs] bs; simpl; try done.
  - by intros [= <-].
  - destruct (field_in_range c v); [|done].
    destruct (pack_codes f vs) as [bs'|] eqn:E; simpl; [|done].
    intros [= <-]. destruct (IH _ _ E) as [Hbs Hvs].
    by rewrite length_app, field_encode_length, Hbs, Hvs.
Qed.

(** What [pack] wrote, [unpack] reads back. *)
Lemma unpack_pack_codes f vs bs :
  pack_codes f vs = Ok bs → unpack_codes f bs = Ok vs.
Proof.
  intros Hp. destruct (length_pack_codes _ _ _ Hp) as [Hlen _].
  rewrite unpack_codes_Ok by done. f_equal. clear Hlen.
  revert vs bs Hp. induction f as [|c f IH]; intros [|v vs] bs; simpl; try done.
  destruct (field_in_range c v) eqn:Hr; [|done].
  destruct (pack_codes f vs) as [bs'|] eqn:E; simpl; [|done].
  intros [= <-].
  rewrite take_app_length' by (by rewrite field_encode_length).
  rewrite drop_app_length' by (by rewrite field_encode_length).
  rewrite field_decode_encode by done. f_equal. by apply IH.
Qed.

(** What [unpack] read, [pack] writes back. *)
Lemma pack_unpack_codes f bs vs :
  unpack_codes f bs = Ok vs → pack_codes f vs = Ok bs.
Proof.
  unfold unpack_codes. case_decide as Hlen; [|done]. intros [= <-].
  revert bs Hlen. induction f as [|c f IH]; intros bs Hlen; simpl in *.
  - by destruct bs.
  - rewrite field_decode_in_range by (rewrite length_take; lia).
    rewrite IH by (rewrite length_drop; lia). simpl.
    rewrite field_encode_decode by (rewrite length_take; lia).
    by rewrite take_drop.
Qed.

(** [unpack] reads a field from its own bytes only. *)
Lemma unpack_fields_app f1 f2 bs1 bs2 :
  length bs1 = calcsize f1 →
  unpack_fields (f1 ++ f2) (bs1 ++ bs2)
  = unpack_fields f1 bs1 ++ unpack_fields f2 bs2.
Proof.
  revert bs1. induction f1 as [|c f1 IH]; intros bs1 Hlen; simpl in *.
  - by destruct bs1.
  - rewrite take_app_le, drop_app_le by lia. f_equal.
    apply IH. rewrite length_drop. lia.
Qed.

End codec_laws.

(** ** Formats of the four codes *)

Lemma parse_format_bhhb :
  parse_format ">bhhb" = Ok [code_b; code_h; code_h; code_b].
Proof. reflexivity. Qed.

(** A format that does not start with [>] is refused. *)
Lemma parse_format_byte_order s :
  is_Ok (parse_format s) = true → ∃ s', s = String ">"%char s'.
Proof.
  destruct s as [|a s]; [done|]. unfold parse_format.
  destruct (decide (a = ">"%char)) as [->|Hne]; [eauto|].
  intros Hok. exfalso. revert Hok.
  destruct a as [[] [] [] [] [] [] [] []]; try done.
Qed.

Lemma unpack_pack fmt vs bs : pack fmt vs = Ok bs → unpack fmt bs = Ok vs.
Proof.
  unfold pack, unpack. destruct (parse_format fmt); simpl; [|done].
  apply unpack_pack_codes.
Qed.

Lemma pack_unpack fmt bs vs : unpack fmt bs = Ok vs → pack fmt vs = Ok bs.
Proof.
  unfold pack, unpack. destruct (parse_format fmt); simpl; [|done].
  apply pack_unpack_codes.
Qed.
