(* ===== verification/Decoder.v ===== *)
(** * Decoder: from a notification payload to a stable weight

    The payload decoder of [src/sensor.py]: [read_stable] (lines 57-59),
    [decode_weight] (lines 61-78), and the name spaces through which the
    call [read_stable(ctr1)] of line 70 is resolved.

    [read_stable] is defined in the body of the class, and [decode_weight]
    calls it by its bare name.  Python resolves a bare name of a method in
    the method's locals, then in the globals of the module, then in the
    builtins; the body of the class is no scope of its methods.  The name
    space is therefore an argument of [decode_weight]: [module_globals] is
    the module as it is written, [hoisted_globals] the module with
    [read_stable] at its top level, which is what the specification
    describes and which is no code of the repository: a theorem that
    assumes a payload that decodes is about it, and [decode_weight_module]
    is about the module as it is written.  The decoder of the
    specification is [spec_decode].

    The [_LOGGER.debug] calls of lines 63, 71 and 76 are left out: they
    write a record and return, and [data.hex()] of line 63 does not raise
    on [bytes]. *)

From S2P Require Import Prelude PyStruct.

#[local] Open Scope Z_scope.

(** ** Name spaces *)

(** What a name is bound to, as far as the decoder can tell: a function of
    one integer, or any other object (a module, a class, a logger, a
    string, a method that takes [self]). *)
Inductive pyval : Type :=
  | PyFunInt (f : Z → Z)
  | PyObject.

Definition namespace := gmap string pyval.

(** Parse Stable: [int((ctr1 & 0xA0) == 0xA0)]. *)
Definition read_stable (ctr1 : Z) : Z :=
  int_of_bool (Z.land ctr1 0xA0 =? 0xA0).

(** The names the module binds at its top level: the imports of lines 1-8,
    [_LOGGER], [NOTIFY_CHAR], [async_setup_entry] and the class. *)
Definition module_globals : namespace :=
  list_to_map
    ((λ x : string, (x, PyObject)) <$>
     ["logging"; "asyncio"; "SensorEntity"; "UnitOfMass"; "callback";
      "BleakClient"; "BleakError"; "unpack"; "_LOGGER"; "NOTIFY_CHAR";
      "async_setup_entry"; "SenssunScaleSensor"]).

(** The names the body of the class binds: [read_stable] is one of them. *)
Definition class_namespace : namespace :=
  <["read_stable" := PyFunInt read_stable]>
    (list_to_map
       ((λ x : string, (x, PyObject)) <$>
        ["__init__"; "name"; "unique_id"; "state"; "unit_of_measurement";
         "available"; "decode_weight"; "notification_handler"; "connect";
         "_schedule_retry"; "_retry_connect"; "disconnect"; "_disconnect";
         "async_added_to_hass"; "async_will_remove_from_hass";
         "async_update"])).

(** The builtins the module names. *)
Definition builtins : namespace :=
  list_to_map ((λ x : string, (x, PyObject)) <$> ["int"; "round"; "Exception"]).

(** The module with [read_stable] moved to its top level. *)
Definition hoisted_globals : namespace :=
  <["read_stable" := PyFunInt read_stable]> module_globals.

(** A bare name in a method: the globals of the module, then the builtins. *)
Definition load_global (globals : namespace) (x : string) : result pyval :=
  match globals !! x with
  | Some v => Ok v
  | None =>
      match builtins !! x with
      | Some v => Ok v
      | None => Raise NameError
      end
  end.

(** A call with one integer argument. *)
Definition call1 (v : pyval) (arg : Z) : result Z :=
  match v with
  | PyFunInt f => Ok (f arg)
  | PyObject => Raise TypeError
  end.

(** ** The decoder *)

(** Decode weight data for Senssun Scales and return only if stable:
    [None] for an unstable measurement, the weight in grams otherwise. *)
Definition decode_weight (globals : namespace) (data : list byte)
  : result (option Z) :=
  let xvalue := py_slice 9 15 data in
  fields ← unpack ">bhhb" xvalue;
  match fields with
  | [_; weight_raw; _; ctr1] =>
      f ← load_global globals "read_stable";
      stable ← call1 f ctr1;
      if negb (truthy stable) then Ok None
      else
        let weight_grams := weight_raw * 100 in
        Ok (Some weight_grams)
  | _ => Raise ValueError
  end.

(** ** The decoder of the specification *)

Record ScaleReading := {
  weight_grams : Z;
  stable : bool;
}.

(** The byte at an offset of the payload, as an unsigned value. *)
Definition byte_at (payload : list byte) (i : nat) : Z :=
  byte_to_Z (payload !!! i).

(** Bits 0x80 and 0x20 of the control byte. *)
Definition stable_bits (ctr1 : Z) : bool :=
  Z.testbit ctr1 7 && Z.testbit ctr1 5.

(** [decode(bytes) -> ScaleReading | None]: nothing for a payload of fewer
    than 15 bytes or an unstable one; the signed 16-bit field at offsets 10
    and 11, in units of 100 grams, otherwise. *)
Definition spec_decode (payload : list byte) : option ScaleReading :=
  if decide (length payload < 15)%nat then None
  else
    let weight_raw :=
      to_signed 16 (byte_at payload 10 * 256 + byte_at payload 11) in
    let ctr1 := byte_at payload 14 in
    if stable_bits ctr1
    then Some {| weight_grams := weight_raw * 100; stable := true |}
    else None.

(** A payload that carries the given fields: nine bytes of header, then the
    six bytes of [">bhhb"], then anything. *)
Definition payload_of (sign weight_raw other ctr1 : Z) (tail : list byte)
  : result (list byte) :=
  body ← pack ">bhhb" [sign; weight_raw; other; ctr1];
  Ok (replicate 9 x00 ++ body ++ tail).

(** ** [read_stable] *)

Lemma read_stable_bool ctr1 : read_stable ctr1 = 0 ∨ read_stable ctr1 = 1.
Proof. unfold read_stable. destruct (_ =? _); auto. Qed.

(** The mask 0xA0 is bits 7 and 5. *)
Lemma land_0xA0_testbit z i :
  Z.testbit (Z.land z 0xA0) i = Z.testbit z i && (bool_decide (i = 7) || bool_decide (i = 5)).
Proof.
  rewrite Z.land_spec. f_equal.
  destruct (decide (0 ≤ i)) as [Hi|Hi]; [|by rewrite Z.testbit_neg_r by lia; repeat case_bool_decide; lia].
  destruct (decide (i < 8)) as [Hlt|Hge].
  - assert (i ∈ [0; 1; 2; 3; 4; 5; 6; 7]) as Hin
      by (rewrite !elem_of_cons; lia).
    repeat (apply elem_of_cons in Hin as [->|Hin]; [done|]).
    by apply elem_of_nil in Hin.
  - rewrite (Z.bits_above_log2 0xA0 i) by (simpl; lia).
    repeat case_bool_decide; lia.
Qed.

(** [read_stable] answers 1 exactly when bits 7 and 5 are set, whatever the
    sign of its argument. *)
Lemma read_stable_stable_bits ctr1 :
  read_stable ctr1 = int_of_bool (stable_bits ctr1).
Proof.
  unfold read_stable, stable_bits. f_equal.
  apply eq_true_iff_eq. rewrite Z.eqb_eq, andb_true_iff. split.
  - intros Heq. pose proof (land_0xA0_testbit ctr1 7) as H7.
    pose proof (land_0xA0_testbit ctr1 5) as H5.
    rewrite Heq in H7, H5.
    change (true = Z.testbit ctr1 7 && true) in H7.
    change (true = Z.testbit ctr1 5 && true) in H5.
    rewrite andb_true_r in H7, H5. by rewrite <- H7, <- H5.
  - intros [H7 H5]. apply Z.bits_inj'. intros i Hi.
    rewrite land_0xA0_testbit.
    destruct (decide (i = 7)) as [->|]; [by rewrite H7|].
    destruct (decide (i = 5)) as [->|]; [by rewrite H5|].
    rewrite !bool_decide_eq_false_2, andb_false_r by done.
    pose proof (land_0xA0_testbit 0xA0 i) as Hm.
    rewrite Z.land_diag in Hm. rewrite Hm.
    by rewrite !bool_decide_eq_false_2, andb_false_r.
Qed.

(** The signed reading of the control byte (code [b]) and its unsigned
    value (the byte itself) have the same stability. *)
Lemma read_stable_to_signed u : read_stable (to_signed 8 u) = read_stable u.
Proof.
  rewrite !read_stable_stable_bits. unfold stable_bits.
  by rewrite !to_signed_testbit by lia.
Qed.

Lemma truthy_read_stable ctr1 : truthy (read_stable ctr1) = stable_bits ctr1.
Proof. by rewrite read_stable_stable_bits, truthy_int_of_bool. Qed.

(** The control byte reaches [read_stable] as a signed integer: a byte of
    0x80 or more is negative.  The test [(ctr1 & 0xA0) == 0xA0] on that
    integer still reads bits 7 and 5 of the byte. *)
Theorem read_stable_signed_byte (b : byte) :
  truthy (read_stable (to_signed 8 (byte_to_Z b)))
  = Z.testbit (byte_to_Z b) 7 && Z.testbit (byte_to_Z b) 5.
Proof. by rewrite read_stable_to_signed, truthy_read_stable. Qed.

(** ** Name resolution *)

Lemma load_global_module : load_global module_globals "read_stable" = Raise NameError.
Proof. by vm_compute. Qed.

Lemma load_global_bound globals v :
  globals !! "read_stable" = Some v → load_global globals "read_stable" = Ok v.
Proof. unfold load_global. by intros ->. Qed.

Lemma hoisted_globals_read_stable :
  hoisted_globals !! "read_stable" = Some (PyFunInt read_stable).
Proof. apply lookup_insert_eq. Qed.

(** The class does bind the name; the module does not. *)
Lemma class_namespace_read_stable :
  class_namespace !! "read_stable" = Some (PyFunInt read_stable)
  ∧ module_globals !! "read_stable" = None.
Proof. split; [apply lookup_insert_eq|by vm_compute]. Qed.

(** ** Unpacking the six bytes *)

Lemma unpack_bhhb a b c d e f :
  unpack ">bhhb" [a; b; c; d; e; f]
  = Ok [to_signed 8 (byte_to_Z a);
        to_signed 16 (byte_to_Z b * 256 + byte_to_Z c);
        to_signed 16 (byte_to_Z d * 256 + byte_to_Z e);
        to_signed 8 (byte_to_Z f)].
Proof. reflexivity. Qed.

Lemma unpack_bhhb_length bs :
  length bs ≠ 6%nat → unpack ">bhhb" bs = Raise StructError.
Proof. intros. unfold unpack. simpl. by apply unpack_codes_Raise. Qed.

(** A payload of 15 bytes or more has a full slice, made of its bytes at
    offsets 9 to 14. *)
Lemma py_slice_9_15 (data : list byte) :
  (15 ≤ length data)%nat →
  py_slice 9 15 data
  = [data !!! 9%nat; data !!! 10%nat; data !!! 11%nat;
     data !!! 12%nat; data !!! 13%nat; data !!! 14%nat].
Proof.
  intros Hlen. apply list_eq. intros i.
  destruct (decide (i < 6)%nat) as [Hi|Hi].
  - rewrite lookup_py_slice by done.
    assert (i ∈ [0; 1; 2; 3; 4; 5]%nat) as Hin
      by (rewrite !elem_of_cons; lia).
    repeat (apply elem_of_cons in Hin as [->|Hin];
            [by apply list_lookup_lookup_total_lt; lia|]).
    by apply elem_of_nil in Hin.
  - rewrite !lookup_ge_None_2; [done|simpl; lia|].
    rewrite length_py_slice. lia.
Qed.

(** The fields of a payload of 15 bytes or more. *)
Lemma unpack_payload (data : list byte) :
  (15 ≤ length data)%nat →
  unpack ">bhhb" (py_slice 9 15 data)
  = Ok [to_signed 8 (byte_at data 9);
        to_signed 16 (byte_at data 10 * 256 + byte_at data 11);
        to_signed 16 (byte_at data 12 * 256 + byte_at data 13);
        to_signed 8 (byte_at data 14)].
Proof. intros. by rewrite py_slice_9_15, unpack_bhhb. Qed.

(** ** The decoder, on every payload and in every name space *)

Section decoder.
Context (globals : namespace).
Implicit Types data : list byte.

(** A payload of fewer than 15 bytes never reaches the stability test: the
    slice is shorter than the format and [unpack] raises [struct.error]. *)
Lemma decode_weight_short data :
  (length data < 15)%nat → decode_weight globals data = Raise StructError.
Proof.
  intros Hlen. unfold decode_weight.
  rewrite unpack_bhhb_length; [done|]. rewrite length_py_slice. lia.
Qed.

(** From 15 bytes on, what is left of [decode_weight] is the resolution of
    the name, the call and the test. *)
Lemma decode_weight_long data :
  (15 ≤ length data)%nat →
  decode_weight globals data
  = f ← load_global globals "read_stable";
    stable ← call1 f (to_signed 8 (byte_at data 14));
    if negb (truthy stable) then Ok None
    else Ok (Some (to_signed 16 (byte_at data 10 * 256 + byte_at data 11) * 100)).
Proof. intros Hlen. unfold decode_weight. by rewrite unpack_payload. Qed.

(** With no binding of [read_stable] the call of line 70 is a [NameError]. *)
Lemma decode_weight_unbound data :
  (15 ≤ length data)%nat → globals !! "read_stable" = None →
  decode_weight globals data = Raise NameError.
Proof.
  intros Hlen Hg. rewrite decode_weight_long by done.
  unfold load_global. by rewrite Hg.
Qed.

(** With no binding of [read_stable] the decoder returns nothing, whatever
    the payload. *)
Lemma decode_weight_unresolved data v :
  globals !! "read_stable" = None → decode_weight globals data ≠ Ok v.
Proof.
  intros Hg. destruct (decide (length data < 15)%nat).
  - by rewrite decode_weight_short.
  - rewrite decode_weight_unbound; [done|lia|done].
Qed.

(** C1: With [read_stable] in scope and a payload of 15 bytes or more, the
    decoder is the one of the specification: nothing for an unstable
    reading, the weight field times 100 for a stable one. *)
Theorem decode_weight_refines_spec data :
  (15 ≤ length data)%nat →
  globals !! "read_stable" = Some (PyFunInt read_stable) →
  decode_weight globals data = Ok (weight_grams <$> spec_decode data).
Proof.
  intros Hlen Hg. rewrite decode_weight_long by done.
  rewrite (load_global_bound _ _ Hg). simpl.
  rewrite read_stable_to_signed, truthy_read_stable.
  unfold spec_decode. rewrite decide_False by lia.
  by destruct (stable_bits _).
Qed.

(** C33: Below 15 bytes the code and the specification part: the specification
    returns nothing, [decode_weight] raises [struct.error], in every name
    space. *)
Theorem decode_weight_short_diverges data :
  (length data < 15)%nat →
  decode_weight globals data = Raise StructError ∧ spec_decode data = None.
Proof.
  intros Hlen. split; [by apply decode_weight_short|].
  unfold spec_decode. by rewrite decide_True.
Qed.

(** Whatever the name space, a weight the decoder returns is a signed
    16-bit count of units of 100 grams. *)
Lemma decode_weight_range data w :
  decode_weight globals data = Ok (Some w) →
  -3276800 ≤ w ≤ 3276700 ∧ (100 | w).
Proof.
  destruct (decide (length data < 15)%nat) as [Hlen|Hlen].
  { by rewrite decode_weight_short. }
  rewrite decode_weight_long by lia.
  destruct (load_global _ _) as [f|]; [simpl|done].
  destruct (call1 _ _) as [s|]; [simpl|done].
  destruct (negb _); [done|]. intros [= <-].
  pose proof (byte_to_Z_range (data !!! 10%nat)).
  pose proof (byte_to_Z_range (data !!! 11%nat)).
  pose proof (to_signed_range 16 (byte_at data 10 * 256 + byte_at data 11)).
  unfold byte_at in *. split; [lia|]. by apply Z.divide_factor_r.
Qed.

(** The decoder reads offsets 9 to 14 and nothing else. *)
Theorem decode_weight_ext data data' :
  (15 ≤ length data)%nat → (15 ≤ length data')%nat →
  (∀ i, (9 ≤ i < 15)%nat → data !! i = data' !! i) →
  decode_weight globals data = decode_weight globals data'.
Proof.
  intros Hl Hl' Hi. unfold decode_weight.
  by rewrite (py_slice_ext 9 15 data data').
Qed.

End decoder.

(** ** The module as it is written *)

(** The decoder of the module as it is written returns on no payload. *)
Lemma decode_weight_module_raises data :
  ∃ e, decode_weight module_globals data = Raise e.
Proof.
  destruct (decide (length data < 15)%nat); eexists.
  - by apply decode_weight_short.
  - apply decode_weight_unbound; [lia|by vm_compute].
Qed.

(** C2: in the module as it is written [decode_weight] returns on no
    payload: it raises [struct.error] below 15 bytes and [NameError] from
    15 bytes on, because [read_stable] is bound in the class and not in
    the module. *)
Theorem decode_weight_module data :
  decode_weight module_globals data
  = Raise (if decide (length data < 15)%nat then StructError else NameError).
Proof.
  case_decide.
  - by apply decode_weight_short.
  - apply decode_weight_unbound; [lia|by vm_compute].
Qed.

(** ** Payloads built from their fields *)

Lemma length_payload_of sign weight_raw other ctr1 tail data :
  payload_of sign weight_raw other ctr1 tail = Ok data →
  (15 ≤ length data)%nat.
Proof.
  unfold payload_of. destruct (pack _ _) as [body|] eqn:E; [|done].
  rewrite result_bind_Ok. intros [= <-].
  change (pack_codes [code_b; code_h; code_h; code_b]
    [sign; weight_raw; other; ctr1] = Ok body) in E.
  apply length_pack_codes in E as [Hb _].
  simpl. rewrite length_app, Hb. simpl. lia.
Qed.

Lemma py_slice_payload_of sign weight_raw other ctr1 tail data :
  payload_of sign weight_raw other ctr1 tail = Ok data →
  unpack ">bhhb" (py_slice 9 15 data) = Ok [sign; weight_raw; other; ctr1].
Proof.
  unfold payload_of. destruct (pack _ _) as [body|] eqn:E; [|done].
  rewrite result_bind_Ok. intros [= <-]. pose proof E as Hlen.
  change (pack_codes [code_b; code_h; code_h; code_b]
    [sign; weight_raw; other; ctr1] = Ok body) in Hlen.
  apply length_pack_codes in Hlen as [Hlen _].
  unfold py_slice. simpl. rewrite drop_0, take_app_length' by done.
  by apply unpack_pack.
Qed.

(** C40: Decoding a payload gives back the weight field it was built from when
    the control byte has bits 7 and 5, and nothing otherwise. *)
Theorem decode_weight_payload_of globals sign weight_raw other ctr1 tail data :
  globals !! "read_stable" = Some (PyFunInt read_stable) →
  payload_of sign weight_raw other ctr1 tail = Ok data →
  decode_weight globals data
  = Ok (if stable_bits ctr1 then Some (weight_raw * 100) else None).
Proof.
  intros Hg Hp. unfold decode_weight.
  rewrite (py_slice_payload_of _ _ _ _ _ _ Hp). simpl.
  rewrite (load_global_bound _ _ Hg). simpl.
  rewrite truthy_read_stable. by destruct (stable_bits ctr1).
Qed.

(** ** The scenarios of the specification *)

(** 00 00 00 00 00 00 00 00 00 01 00 05 00 00 A0: stable, 500 grams. *)
Definition scenario_stable : list byte :=
  [x00; x00; x00; x00; x00; x00; x00; x00; x00; x01; x00; x05; x00; x00; xa0].

(** The same payload with a control byte of 00. *)
Definition scenario_unstable : list byte :=
  [x00; x00; x00; x00; x00; x00; x00; x00; x00; x01; x00; x05; x00; x00; x00].

Example decode_scenario_stable :
  decode_weight hoisted_globals scenario_stable = Ok (Some 500).
Proof. by vm_compute. Qed.

Example decode_scenario_unstable :
  decode_weight hoisted_globals scenario_unstable = Ok None.
Proof. by vm_compute. Qed.

Example decode_scenario_module :
  decode_weight module_globals scenario_stable = Raise NameError.
Proof. by vm_compute. Qed.

Example decode_scenario_negative :
  decode_weight hoisted_globals
    [x00; x00; x00; x00; x00; x00; x00; x00; x00; x00; xff; xfe; x00; x00; xff]
  = Ok (Some (-200)).
Proof. by vm_compute. Qed.

(** ** The theorems at the scenarios *)

Lemma decode_weight_refines_spec_witness :
  decode_weight hoisted_globals scenario_stable
  = Ok (weight_grams <$> spec_decode scenario_stable).
Proof. apply decode_weight_refines_spec; [simpl; lia|by vm_compute]. Defined.

Lemma decode_weight_short_diverges_witness :
  decode_weight hoisted_globals (take 14 scenario_stable) = Raise StructError
  ∧ spec_decode (take 14 scenario_stable) = None.
Proof. apply decode_weight_short_diverges. simpl. lia. Defined.

(** The control byte 0xA0 is the signed byte -96. *)
Lemma decode_weight_payload_of_witness :
  decode_weight hoisted_globals scenario_stable
  = Ok (if stable_bits (-96) then Some (5 * 100) else None).
Proof.
  apply (decode_weight_payload_of hoisted_globals 1 5 0 (-96) []);
    by vm_compute.
Defined.

(** The scenario with another header and a trailing byte. *)
Lemma decode_weight_ext_witness :
  decode_weight hoisted_globals scenario_stable
  = decode_weight hoisted_globals
      (replicate 9 xff ++ drop 9 scenario_stable ++ [x42]).
Proof.
  apply decode_weight_ext; [simpl; lia..|].
  intros i Hi. do 15 (destruct i as [|i]; [by (lia || reflexivity)|]). lia.
Defined.
