(* ===== verification/EventLoop.v ===== *)
(** * EventLoop: the timers and tasks of the asyncio loop

    [sensor.py] never blocks: it asks the loop of Home Assistant to call
    [self.disconnect] later ([hass.loop.call_later], lines 92 and 112),
    starts coroutines as tasks ([hass.async_create_task], line 131, and
    [asyncio.create_task], line 139), and cancels what it scheduled
    ([cancel()], lines 91, 130 and 159).

    A timer handle and a task are both objects with a status and a
    [cancel()] method: the interface [Handle].  The lemmas on stores of
    handles are proved once, against the interface, and used for both.

    The loop keeps the current time; a timer or a sleeping task is due
    when the time has reached the instant it waits for. *)

From S2P Require Import Prelude.

#[local] Open Scope Z_scope.

(** ** Handles *)

Inductive status : Set :=
  | Pending
  | Cancelled
  | Finished.

#[export] Instance status_eq_dec : EqDecision status.
Proof. solve_decision. Defined.

Class Handle (H : Type) := {
  status_of : H → status;
  with_status : status → H → H;
  status_of_with_status st h : status_of (with_status st h) = st;
}.

Section handles.
Context `{Handle H}.

Definition is_pending (h : H) : bool := bool_decide (status_of h = Pending).

(** [cancel()]: a handle that is still pending becomes cancelled; one that
    has run or was cancelled stays as it is. *)
Definition cancel (h : H) : H :=
  if is_pending h then with_status Cancelled h else h.

(** The loop ran the callback or the coroutine to its end. *)
Definition finish (h : H) : H := with_status Finished h.

Definition cancel_at (i : nat) (hs : list H) : list H := alter cancel i hs.

Definition finish_at (i : nat) (hs : list H) : list H := alter finish i hs.

Definition pending_at (hs : list H) (i : nat) : bool :=
  from_option is_pending false (hs !! i).

(** [if handle: handle.cancel()] for a reference that may be [None]. *)
Definition cancel_opt (o : option nat) (hs : list H) : list H :=
  match o with
  | Some i => cancel_at i hs
  | None => hs
  end.

(** The identities of the pending handles of a store. *)
Definition pending (hs : list H) : list nat :=
  filter (λ i, pending_at hs i = true) (seq 0 (length hs)).

End handles.

(** ** Timer handles *)

(** What a timer calls: the module registers one callback only, the bound
    method [self.disconnect]. *)
Inductive callback : Set := CbDisconnect.

Record TimerHandle := {
  th_when : Z;
  th_callback : callback;
  th_status : status;
}.

#[export] Instance timer_handle : Handle TimerHandle := {|
  status_of := th_status;
  with_status st h :=
    {| th_when := th_when h; th_callback := th_callback h; th_status := st |};
  status_of_with_status _ _ := eq_refl;
|}.

(** ** Tasks *)

(** The coroutines the module starts as tasks: [self._retry_connect()],
    which sleeps first, and [self._disconnect()]. *)
Inductive coroutine : Set :=
  | CoRetryConnect
  | CoDisconnect.

#[export] Instance coroutine_eq_dec : EqDecision coroutine.
Proof. solve_decision. Defined.

(** [task_wake] is the instant from which the task can run to its end: the
    end of its sleep, or the instant of its creation. *)
Record Task := {
  task_coro : coroutine;
  task_wake : Z;
  task_status : status;
}.

#[export] Instance task_handle : Handle Task := {|
  status_of := task_status;
  with_status st t :=
    {| task_coro := task_coro t; task_wake := task_wake t; task_status := st |};
  status_of_with_status _ _ := eq_refl;
|}.

(** ** The loop *)

Record Loop := {
  now : Z;
  timers : list TimerHandle;
  tasks : list Task;
}.

Definition new_loop : Loop := {| now := 0; timers := []; tasks := [] |}.

(** [loop.call_later(delay, callback)]: a new pending handle, due [delay]
    seconds from now. *)
Definition call_later (delay : Z) (cb : callback) (l : Loop) : Loop * nat :=
  let h := {| th_when := now l + delay; th_callback := cb; th_status := Pending |} in
  ({| now := now l; timers := (alloc (timers l) h).1; tasks := tasks l |},
   (alloc (timers l) h).2).

(** [handle.cancel()] of a timer handle. *)
Definition timer_cancel (h : nat) (l : Loop) : Loop :=
  {| now := now l; timers := cancel_at h (timers l); tasks := tasks l |}.

(** [create_task(coro)]: a new pending task; [sleep] is how long the
    coroutine sleeps before it does anything. *)
Definition create_task (co : coroutine) (sleep : Z) (l : Loop) : Loop * nat :=
  let t := {| task_coro := co; task_wake := now l + sleep; task_status := Pending |} in
  ({| now := now l; timers := timers l; tasks := (alloc (tasks l) t).1 |},
   (alloc (tasks l) t).2).

(** [task.cancel()]. *)
Definition task_cancel (k : nat) (l : Loop) : Loop :=
  {| now := now l; timers := timers l; tasks := cancel_at k (tasks l) |}.

(** The loop ran timer [h]. *)
Definition timer_fired (h : nat) (l : Loop) : Loop :=
  {| now := now l; timers := finish_at h (timers l); tasks := tasks l |}.

(** The loop ran task [k] to its end. *)
Definition task_finished (k : nat) (l : Loop) : Loop :=
  {| now := now l; timers := timers l; tasks := finish_at k (tasks l) |}.

(** Time passes. *)
Definition advance (dt : Z) (l : Loop) : Loop :=
  {| now := now l + dt; timers := timers l; tasks := tasks l |}.

(** A timer the loop may run now: pending, and its instant has come. *)
Definition timer_due (l : Loop) (h : nat) : bool :=
  match timers l !! h with
  | Some t => is_pending t && bool_decide (th_when t ≤ now l)
  | None => false
  end.

(** A task the loop may run to its end now. *)
Definition task_due (l : Loop) (k : nat) : bool :=
  match tasks l !! k with
  | Some t => is_pending t && bool_decide (task_wake t ≤ now l)
  | None => false
  end.

(** ** Stores of handles *)

Section handle_laws.
Context `{Handle H}.
Implicit Types (h : H) (hs : list H) (i j : nat).

Lemma is_pending_cancel h : is_pending (cancel h) = false.
Proof.
  unfold cancel. destruct (is_pending h) eqn:E; [|done].
  unfold is_pending. by rewrite status_of_with_status.
Qed.

Lemma is_pending_finish h : is_pending (finish h) = false.
Proof. unfold is_pending, finish. by rewrite status_of_with_status. Qed.

(** Cancelling twice is cancelling once. *)
Lemma cancel_idemp h : cancel (cancel h) = cancel h.
Proof. unfold cancel at 1. by rewrite is_pending_cancel. Qed.

(** Cancelling a handle that is not pending changes nothing. *)
Lemma cancel_not_pending h : is_pending h = false → cancel h = h.
Proof. unfold cancel. by intros ->. Qed.

Lemma cancel_finish h : cancel (finish h) = finish h.
Proof. apply cancel_not_pending, is_pending_finish. Qed.

Lemma length_cancel_at i hs : length (cancel_at i hs) = length hs.
Proof. apply length_alter. Qed.

Lemma length_finish_at i hs : length (finish_at i hs) = length hs.
Proof. apply length_alter. Qed.

Lemma pending_at_Some hs i h : hs !! i = Some h → pending_at hs i = is_pending h.
Proof. unfold pending_at. by intros ->. Qed.

Lemma pending_at_None hs i : hs !! i = None → pending_at hs i = false.
Proof. unfold pending_at. by intros ->. Qed.

Lemma pending_at_lt hs i : pending_at hs i = true → (i < length hs)%nat.
Proof.
  unfold pending_at. destruct (hs !! i) eqn:E; [|done].
  intros _. by eapply lookup_lt_Some.
Qed.

(** After [cancel()] the handle is not pending. *)
Lemma pending_at_cancel_at_eq hs i : pending_at (cancel_at i hs) i = false.
Proof.
  unfold pending_at, cancel_at. rewrite list_lookup_alter_eq.
  destruct (hs !! i); simpl; [apply is_pending_cancel|done].
Qed.

(** [cancel()] touches no other handle. *)
Lemma pending_at_cancel_at_ne hs i j :
  i ≠ j → pending_at (cancel_at i hs) j = pending_at hs j.
Proof. intros. unfold pending_at, cancel_at. by rewrite list_lookup_alter_ne. Qed.

Lemma pending_at_cancel_at hs i j :
  pending_at (cancel_at i hs) j
  = if decide (i = j) then false else pending_at hs j.
Proof.
  case_decide as E.
  - subst. apply pending_at_cancel_at_eq.
  - by apply pending_at_cancel_at_ne.
Qed.

Lemma pending_at_finish_at hs i j :
  pending_at (finish_at i hs) j
  = if decide (i = j) then false else pending_at hs j.
Proof.
  unfold pending_at, finish_at. case_decide as E.
  - subst. rewrite list_lookup_alter_eq.
    destruct (hs !! j); simpl; [apply is_pending_finish|done].
  - by rewrite list_lookup_alter_ne.
Qed.

(** Cancelling never makes a handle pending. *)
Lemma pending_at_cancel_at_le hs i j :
  pending_at (cancel_at i hs) j = true → pending_at hs j = true.
Proof. rewrite pending_at_cancel_at. by case_decide. Qed.

Lemma cancel_at_idemp hs i : cancel_at i (cancel_at i hs) = cancel_at i hs.
Proof.
  unfold cancel_at. apply list_eq. intros j. destruct (decide (i = j)) as [<-|].
  - rewrite !list_lookup_alter_eq. destruct (hs !! i); simpl; [|done].
    by rewrite cancel_idemp.
  - by rewrite !list_lookup_alter_ne.
Qed.

Lemma cancel_at_not_pending hs i : pending_at hs i = false → cancel_at i hs = hs.
Proof.
  unfold pending_at, cancel_at. intros Hp.
  apply list_eq. intros j. destruct (decide (i = j)) as [<-|].
  - rewrite list_lookup_alter_eq. destruct (hs !! i); simpl in *; [|done].
    by rewrite cancel_not_pending.
  - by rewrite list_lookup_alter_ne.
Qed.

Lemma length_cancel_opt o hs : length (cancel_opt o hs) = length hs.
Proof. destruct o; [apply length_cancel_at|done]. Qed.

Lemma pending_at_cancel_opt o hs j :
  pending_at (cancel_opt o hs) j
  = if decide (o = Some j) then false else pending_at hs j.
Proof.
  destruct o as [i|]; simpl; [|done]. rewrite pending_at_cancel_at.
  repeat case_decide; congruence.
Qed.

Lemma lookup_cancel_opt_ne o hs j : o ≠ Some j → cancel_opt o hs !! j = hs !! j.
Proof.
  destruct o as [i|]; simpl; [|done]. intros Hne.
  unfold cancel_at. apply list_lookup_alter_ne. congruence.
Qed.

(** A new handle is pending exactly when it was created so; the others
    keep their status. *)
Lemma pending_at_alloc hs h j :
  pending_at (alloc hs h).1 j
  = if decide (j = length hs) then is_pending h else pending_at hs j.
Proof. unfold pending_at. rewrite alloc_lookup. by case_decide. Qed.

Lemma elem_of_pending hs i : i ∈ pending hs ↔ pending_at hs i = true.
Proof.
  unfold pending. rewrite list_elem_of_filter, elem_of_seq. split.
  - by intros [? _].
  - intros Hp. split; [done|]. apply pending_at_lt in Hp. lia.
Qed.

Lemma NoDup_pending hs : NoDup (pending hs).
Proof. apply NoDup_filter, NoDup_seq. Qed.

End handle_laws.

(** ** The loop's operations *)

Section loop_laws.
Implicit Types (l : Loop) (h k : nat).

Lemma call_later_pending delay cb l h' :
  pending_at (timers (call_later delay cb l).1) h'
  = if decide (h' = (call_later delay cb l).2) then true
    else pending_at (timers l) h'.
Proof. unfold call_later. cbn [timers fst snd]. by rewrite pending_at_alloc. Qed.

Lemma call_later_fresh delay cb l :
  timers l !! (call_later delay cb l).2 = None.
Proof. apply alloc_fresh. Qed.

(** A timer is due no sooner than [delay] after [call_later]. *)
Lemma call_later_when delay cb l :
  th_when <$> timers (call_later delay cb l).1 !! (call_later delay cb l).2
  = Some (now l + delay).
Proof. unfold call_later. cbn [timers fst snd]. by rewrite alloc_lookup_new. Qed.

Lemma call_later_tasks delay cb l : tasks (call_later delay cb l).1 = tasks l.
Proof. done. Qed.

Lemma create_task_pending co sleep l k' :
  pending_at (tasks (create_task co sleep l).1) k'
  = if decide (k' = (create_task co sleep l).2) then true
    else pending_at (tasks l) k'.
Proof. unfold create_task. cbn [tasks fst snd]. by rewrite pending_at_alloc. Qed.

Lemma create_task_lookup co sleep l :
  tasks (create_task co sleep l).1 !! (create_task co sleep l).2
  = Some {| task_coro := co; task_wake := now l + sleep; task_status := Pending |}.
Proof. unfold create_task. cbn [tasks fst snd]. by rewrite alloc_lookup_new. Qed.

Lemma timer_due_pending l h : timer_due l h = true → pending_at (timers l) h = true.
Proof.
  unfold timer_due, pending_at. destruct (timers l !! h); simpl; [|done].
  by intros [? _]%andb_true_iff.
Qed.

Lemma task_due_pending l k : task_due l k = true → pending_at (tasks l) k = true.
Proof.
  unfold task_due, pending_at. destruct (tasks l !! k); simpl; [|done].
  by intros [? _]%andb_true_iff.
Qed.

(** A cancelled timer never becomes due, however much time passes. *)
Lemma timer_cancel_not_due h l dt : timer_due (advance dt (timer_cancel h l)) h = false.
Proof.
  unfold timer_due. simpl. unfold cancel_at. rewrite list_lookup_alter_eq.
  destruct (timers l !! h); simpl; [|done]. by rewrite is_pending_cancel.
Qed.

(** A pending timer becomes due once its delay has passed. *)
Lemma timer_due_advance l h t dt :
  timers l !! h = Some t → is_pending t = true → th_when t ≤ now l + dt →
  timer_due (advance dt l) h = true.
Proof.
  intros Ht Hp Hw. unfold timer_due. simpl. rewrite Ht, Hp. simpl.
  by apply bool_decide_eq_true.
Qed.

(** The timer armed last is due once its delay has passed, not before. *)
Lemma timer_due_snoc n hs ts t dt :
  timer_due (advance dt {| now := n; timers := hs ++ [t]; tasks := ts |})
    (length hs)
  = is_pending t && bool_decide (th_when t ≤ n + dt).
Proof. unfold timer_due. simpl. by rewrite lookup_snoc. Qed.

(** The task created last can run once its sleep is over, not before. *)
Lemma task_due_snoc n hs ts t dt :
  task_due (advance dt {| now := n; timers := hs; tasks := ts ++ [t] |})
    (length ts)
  = is_pending t && bool_decide (task_wake t ≤ n + dt).
Proof. unfold task_due. simpl. by rewrite lookup_snoc. Qed.

End loop_laws.

#[export] Hint Rewrite @pending_at_cancel_at @pending_at_finish_at
  @pending_at_cancel_opt @pending_at_alloc @length_cancel_at
  @length_finish_at @length_cancel_opt : py.
