(* ===== verification/Transport.v ===== *)
(** * Transport: the BLE clients

    [sensor.py] reaches the scale through [bleak]: it builds a
    [BleakClient] (line 100), connects it (line 101), subscribes to the
    notification characteristic (line 105), asks whether it is connected
    (lines 96, 138 and 164) and disconnects it (line 143).

    The library is not part of the repository.  What it answers is the
    environment's choice, so every operation takes its outcome as an
    argument; what is modelled is what the outcome does to the client
    object.  A client object lives in a store: the sensor forgets a client
    by assigning [None] to [self._client], and the object, with the link it
    may still hold, stays where it is. *)

From S2P Require Import Prelude.

#[local] Open Scope Z_scope.

(** The fixed notification characteristic of the device family (line 13). *)
Definition NOTIFY_CHAR : string := "0000fff1-0000-1000-8000-00805f9b34fb".

Record BleakClient := {
  address : string;
  timeout : Z;
  is_connected : bool;
  notifying : option string;
}.

(** How a call of the library ends: it returns, or it raises. *)
Definition outcome := result unit.

(** How [client.disconnect()] ends.  When it raises, the link may or may
    not have been dropped. *)
Inductive disconnect_outcome : Set :=
  | DisconnectOk
  | DisconnectRaise (e : exn) (dropped : bool).

(** Whether the link is down after the call. *)
Definition drops (od : disconnect_outcome) : bool :=
  match od with
  | DisconnectOk => true
  | DisconnectRaise _ dropped => dropped
  end.

Definition with_link (up : bool) (notify : option string) (c : BleakClient)
  : BleakClient :=
  {| address := address c; timeout := timeout c;
     is_connected := up; notifying := notify |}.

(** [BleakClient(address, timeout=t)]: a new object, not connected. *)
Definition new_client (addr : string) (t : Z) (cs : list BleakClient)
  : list BleakClient * nat :=
  alloc cs {| address := addr; timeout := t;
              is_connected := false; notifying := None |}.

(** [client.is_connected]. *)
Definition client_is_connected (cs : list BleakClient) (c : nat) : bool :=
  from_option is_connected false (cs !! c).

(** [await client.connect()]: the link is up when the call returns. *)
Definition client_connect (c : nat) (o : outcome) (cs : list BleakClient)
  : result unit * list BleakClient :=
  match o with
  | Ok _ => (Ok (), alter (with_link true None) c cs)
  | Raise e => (Raise e, cs)
  end.

(** [await client.start_notify(char, handler)]: refused on a client that
    is not connected. *)
Definition client_start_notify (c : nat) (char : string) (o : outcome)
    (cs : list BleakClient) : result unit * list BleakClient :=
  if client_is_connected cs c then
    match o with
    | Ok _ => (Ok (), alter (with_link true (Some char)) c cs)
    | Raise e => (Raise e, cs)
    end
  else (Raise BleakError, cs).

(** [await client.disconnect()]. *)
Definition client_disconnect (c : nat) (o : disconnect_outcome)
    (cs : list BleakClient) : result unit * list BleakClient :=
  match o with
  | DisconnectOk => (Ok (), alter (with_link false None) c cs)
  | DisconnectRaise e true => (Raise e, alter (with_link false None) c cs)
  | DisconnectRaise e false => (Raise e, cs)
  end.

(** The link of a client drops: the scale went to sleep or out of range. *)
Definition link_lost (c : nat) (cs : list BleakClient) : list BleakClient :=
  alter (with_link false None) c cs.

(** The clients that hold a link. *)
Definition live (cs : list BleakClient) : list nat :=
  filter (λ c, client_is_connected cs c = true) (seq 0 (length cs)).

(** A client the transport may deliver a notification from. *)
Definition client_notifying (cs : list BleakClient) (c : nat) : bool :=
  match cs !! c with
  | Some cl => is_connected cl && bool_decide (notifying cl = Some NOTIFY_CHAR)
  | None => false
  end.

(** ** Clients *)

Section transport_laws.
Implicit Types (cs : list BleakClient) (c : nat).

Lemma client_is_connected_lt cs c :
  client_is_connected cs c = true → (c < length cs)%nat.
Proof.
  unfold client_is_connected. destruct (cs !! c) eqn:E; [|done].
  intros _. by eapply lookup_lt_Some.
Qed.

Lemma client_is_connected_alter cs c c' up n :
  client_is_connected (alter (with_link up n) c cs) c'
  = if decide (c = c') then bool_decide (c < length cs)%nat && up
    else client_is_connected cs c'.
Proof.
  unfold client_is_connected. case_decide as E.
  - subst. rewrite list_lookup_alter_eq. destruct (cs !! c') eqn:El; simpl.
    + apply lookup_lt_Some in El. by rewrite bool_decide_eq_true_2.
    + apply lookup_ge_None in El. rewrite bool_decide_eq_false_2; [done|lia].
  - by rewrite list_lookup_alter_ne.
Qed.

(** A new client is not connected, and no other client changes. *)
Lemma client_is_connected_new addr t cs c :
  client_is_connected (new_client addr t cs).1 c = client_is_connected cs c.
Proof.
  unfold client_is_connected, new_client. rewrite alloc_lookup.
  case_decide; [|done]. subst. by rewrite lookup_ge_None_2.
Qed.

(** A client appended to the store, and the clients before it. *)
Lemma client_is_connected_snoc cs cl c :
  client_is_connected (cs ++ [cl]) c
  = if decide (c = length cs) then is_connected cl
    else client_is_connected cs c.
Proof.
  unfold client_is_connected. case_decide as E.
  - subst. by rewrite lookup_snoc.
  - by rewrite lookup_snoc_ne.
Qed.

Lemma new_client_fresh addr t cs : cs !! (new_client addr t cs).2 = None.
Proof. apply alloc_fresh. Qed.

Lemma new_client_id addr t cs : (new_client addr t cs).2 = length cs.
Proof. done. Qed.

Lemma length_new_client addr t cs :
  length (new_client addr t cs).1 = S (length cs).
Proof. apply alloc_length. Qed.

(** [connect()] returns exactly when the outcome says so, and then the
    client is connected. *)
Lemma client_connect_Ok c o cs cs' :
  (c < length cs)%nat → client_connect c o cs = (Ok (), cs') →
  o = Ok () ∧ client_is_connected cs' c = true.
Proof.
  intros Hc. unfold client_connect. destruct o as [[]|e]; [|done].
  intros [= <-]. split; [done|].
  rewrite client_is_connected_alter, decide_True by done.
  by rewrite bool_decide_eq_true_2.
Qed.

(** A [connect()] that raises leaves every client as it was. *)
Lemma client_connect_Raise c o cs cs' e :
  client_connect c o cs = (Raise e, cs') → o = Raise e ∧ cs' = cs.
Proof. unfold client_connect. destruct o as [[]|e']; [done|]. by intros [= -> <-]. Qed.

(** After [disconnect()] returned, the client holds no link. *)
Lemma client_disconnect_Ok c o cs cs' :
  client_disconnect c o cs = (Ok (), cs') → client_is_connected cs' c = false.
Proof.
  unfold client_disconnect. destruct o as [|e []]; [|done..].
  intros [= <-]. rewrite client_is_connected_alter, decide_True by done.
  apply andb_false_r.
Qed.

(** [disconnect()] never connects a client. *)
Lemma client_disconnect_mono c o cs c' :
  client_is_connected (client_disconnect c o cs).2 c' = true →
  client_is_connected cs c' = true.
Proof.
  unfold client_disconnect. destruct o as [|e []]; simpl; [| |done].
  all: rewrite client_is_connected_alter; case_decide; [|done].
  all: by rewrite andb_false_r.
Qed.

(** A [disconnect()] that drops the link leaves the client without one,
    whether it returns or raises. *)
Lemma client_disconnect_drops c o cs :
  drops o = true → client_is_connected (client_disconnect c o cs).2 c = false.
Proof.
  unfold client_disconnect. destruct o as [|e []]; simpl; [| |done]; intros _.
  all: rewrite client_is_connected_alter, decide_True by done.
  all: apply andb_false_r.
Qed.

(** [disconnect()] builds no client and loses none. *)
Lemma length_client_disconnect c o cs :
  length (client_disconnect c o cs).2 = length cs.
Proof. destruct o as [|e []]; simpl; by rewrite ?length_alter. Qed.

Lemma client_notifying_connected cs c :
  client_notifying cs c = true → client_is_connected cs c = true.
Proof.
  unfold client_notifying, client_is_connected.
  destruct (cs !! c); simpl; [|done]. by intros [? _]%andb_true_iff.
Qed.

(** A link that changes without a subscription delivers nothing. *)
Lemma client_notifying_alter cs c c' up :
  client_notifying (alter (with_link up None) c cs) c' = true →
  client_notifying cs c' = true.
Proof.
  unfold client_notifying. destruct (decide (c = c')) as [->|];
    [rewrite list_lookup_alter_eq|by rewrite list_lookup_alter_ne].
  destruct (cs !! c'); simpl; [|done]. by rewrite andb_false_r.
Qed.

Lemma elem_of_live cs c : c ∈ live cs ↔ client_is_connected cs c = true.
Proof.
  unfold live. rewrite list_elem_of_filter, elem_of_seq. split.
  - by intros [? _].
  - intros Hc. split; [done|]. apply client_is_connected_lt in Hc. lia.
Qed.

Lemma NoDup_live cs : NoDup (live cs).
Proof. apply NoDup_filter, NoDup_seq. Qed.

End transport_laws.

#[export] Hint Rewrite client_is_connected_alter client_is_connected_new : py.
