(* ===== verification/Sensor.v ===== *)
(** * Sensor: the entity [SenssunScaleSensor]

    The class of [src/sensor.py] (lines 22-165), method by method.  The
    state a method runs on is a [World]: the object itself ([self]), the
    client objects it created, the loop with its timers and tasks, and
    what the entity published to Home Assistant.

    Each coroutine is run from its first line to its last without another
    event in between: the outcome of each call of the transport it awaits
    is an argument.  The lock of [connect] is free at the start of such a
    run and free again at its end, so it has no field here; [Interleaving]
    cuts the coroutines at their awaits and has the lock.

    The methods read the name space of the module through the argument
    [globals] of the section (see [Decoder]). *)

From S2P Require Import Prelude PyStruct Decoder EventLoop Transport.

#[local] Open Scope Z_scope.

(** ** The object *)

Record SenssunScaleSensor := {
  _address : string;
  _state : option Z;
  _available : bool;
  _attr_name : string;
  _attr_unique_id : string;
  _client : option nat;
  _disconnect_timer : option nat;
  _connection_retry_interval : Z;
  _retry_task : option nat;
}.

(** What [async_write_ha_state] hands to Home Assistant: the state and the
    availability of the entity at that instant. *)
Definition ha_state : Type := option Z * bool.

Record World := {
  self : SenssunScaleSensor;
  clients : list BleakClient;
  loop : Loop;
  ha_states : list ha_state;
}.

(** [SenssunScaleSensor(hass, address)] *)
Definition __init__ (address : string) : SenssunScaleSensor := {|
  _address := address;
  _state := None;
  _available := false;
  _attr_name := "Senssun Body Scale Weight";
  _attr_unique_id := "ble_scale_" +:+ address;
  _client := None;
  _disconnect_timer := None;
  _connection_retry_interval := 60;
  _retry_task := None;
|}.

(** The properties Home Assistant reads. *)
Definition name (s : SenssunScaleSensor) : string := _attr_name s.
Definition unique_id (s : SenssunScaleSensor) : string := _attr_unique_id s.
Definition state (s : SenssunScaleSensor) : option Z := _state s.
Definition unit_of_measurement (s : SenssunScaleSensor) : string := "g".
Definition available (s : SenssunScaleSensor) : bool := _available s.

(** Set up the Senssun Body Scale sensor from a config entry: the entity,
    in a world with no client, no timer and no task. *)
Definition async_setup_entry (address : string) : World := {|
  self := __init__ address;
  clients := [];
  loop := new_loop;
  ha_states := [];
|}.

(** ** Assignments *)

Definition set_state (v : option Z) (s : SenssunScaleSensor) :=
  {| _address := _address s; _state := v; _available := _available s;
     _attr_name := _attr_name s; _attr_unique_id := _attr_unique_id s;
     _client := _client s; _disconnect_timer := _disconnect_timer s;
     _connection_retry_interval := _connection_retry_interval s;
     _retry_task := _retry_task s |}.

Definition set_available (v : bool) (s : SenssunScaleSensor) :=
  {| _address := _address s; _state := _state s; _available := v;
     _attr_name := _attr_name s; _attr_unique_id := _attr_unique_id s;
     _client := _client s; _disconnect_timer := _disconnect_timer s;
     _connection_retry_interval := _connection_retry_interval s;
     _retry_task := _retry_task s |}.

Definition set_client (v : option nat) (s : SenssunScaleSensor) :=
  {| _address := _address s; _state := _state s; _available := _available s;
     _attr_name := _attr_name s; _attr_unique_id := _attr_unique_id s;
     _client := v; _disconnect_timer := _disconnect_timer s;
     _connection_retry_interval := _connection_retry_interval s;
     _retry_task := _retry_task s |}.

Definition set_disconnect_timer (v : option nat) (s : SenssunScaleSensor) :=
  {| _address := _address s; _state := _state s; _available := _available s;
     _attr_name := _attr_name s; _attr_unique_id := _attr_unique_id s;
     _client := _client s; _disconnect_timer := v;
     _connection_retry_interval := _connection_retry_interval s;
     _retry_task := _retry_task s |}.

Definition set_retry_task (v : option nat) (s : SenssunScaleSensor) :=
  {| _address := _address s; _state := _state s; _available := _available s;
     _attr_name := _attr_name s; _attr_unique_id := _attr_unique_id s;
     _client := _client s; _disconnect_timer := _disconnect_timer s;
     _connection_retry_interval := _connection_retry_interval s;
     _retry_task := v |}.

Definition on_self (f : SenssunScaleSensor → SenssunScaleSensor) (w : World) :=
  {| self := f (self w); clients := clients w; loop := loop w;
     ha_states := ha_states w |}.

Definition on_clients (f : list BleakClient → list BleakClient) (w : World) :=
  {| self := self w; clients := f (clients w); loop := loop w;
     ha_states := ha_states w |}.

Definition on_loop (f : Loop → Loop) (w : World) :=
  {| self := self w; clients := clients w; loop := f (loop w);
     ha_states := ha_states w |}.

Definition on_ha_states (f : list ha_state → list ha_state) (w : World) :=
  {| self := self w; clients := clients w; loop := loop w;
     ha_states := f (ha_states w) |}.

(** ** The collaborators, as steps of a method *)

(** [self.x = v] *)
Definition assign (f : SenssunScaleSensor → SenssunScaleSensor)
  : M World unit := modify (on_self f).

(** [self.x] *)
Definition attr {A} (f : SenssunScaleSensor → A) : M World A :=
  gets (λ w, f (self w)).

(** [self.async_write_ha_state()] *)
Definition async_write_ha_state : M World unit :=
  modify (λ w, on_ha_states (cons (_state (self w), _available (self w))) w).

(** [self.hass.loop.call_later(delay, self.disconnect)] *)
Definition loop_call_later (delay : Z) (cb : callback) : M World nat :=
  λ w, (Ok (call_later delay cb (loop w)).2,
        on_loop (λ l, (call_later delay cb l).1) w).

(** [handle.cancel()] *)
Definition handle_cancel (h : nat) : M World unit :=
  modify (on_loop (timer_cancel h)).

(** [create_task(coro)] *)
Definition loop_create_task (co : coroutine) (sleep : Z) : M World nat :=
  λ w, (Ok (create_task co sleep (loop w)).2,
        on_loop (λ l, (create_task co sleep l).1) w).

(** [task.cancel()] *)
Definition loop_task_cancel (k : nat) : M World unit :=
  modify (on_loop (task_cancel k)).

(** [BleakClient(self._address, timeout=t)] *)
Definition bleak_client (addr : string) (t : Z) : M World nat :=
  λ w, (Ok (new_client addr t (clients w)).2,
        on_clients (λ cs, (new_client addr t cs).1) w).

(** A method of the object [self._client] refers to; on [None] the
    attribute access raises [AttributeError]. *)
Definition on_client (c : option nat)
    (f : nat → list BleakClient → result unit * list BleakClient)
  : M World unit :=
  match c with
  | None => raise AttributeError
  | Some c => λ w, ((f c (clients w)).1, on_clients (λ cs, (f c cs).2) w)
  end.

(** [self._client and self._client.is_connected] *)
Definition client_connected : M World bool :=
  gets (λ w,
    match _client (self w) with
    | None => false
    | Some c => client_is_connected (clients w) c
    end).

(** [round(weight, 1)]: an integer is its own rounding to one decimal;
    [None] has no rounding. *)
Definition round1 (weight : option Z) : result Z :=
  match weight with
  | Some n => Ok n
  | None => Raise TypeError
  end.

(** ** The methods *)

Section methods.
Context (globals : namespace).

(** [notification_handler(self, sender, data)], lines 81-92. *)
Definition notification_handler (data : list byte) : M World unit :=
  weight ← lift (decode_weight globals data);
  rounded ← lift (round1 weight);
  assign (set_state (Some rounded));;
  assign (set_available true);;
  async_write_ha_state;;
  (* Reset the disconnect timer *)
  timer ← attr _disconnect_timer;
  match timer with
  | Some h => handle_cancel h
  | None => pass
  end;;
  h ← loop_call_later 60 CbDisconnect;
  assign (set_disconnect_timer (Some h)).

(** [_schedule_retry(self)], lines 127-131.  The task it creates runs
    [_retry_connect] (lines 133-135), which sleeps for
    [self._connection_retry_interval] and then calls [async_update]. *)
Definition _schedule_retry : M World unit :=
  task ← attr _retry_task;
  match task with
  | Some k => loop_task_cancel k
  | None => pass
  end;;
  interval ← attr _connection_retry_interval;
  k ← loop_create_task CoRetryConnect interval;
  assign (set_retry_task (Some k)).

(** The three [except] clauses of [connect] (lines 114-125) have the same
    body, and every exception of the model is an [Exception]. *)
Definition connect_failed (e : exn) : option (M World unit) :=
  match e with
  | TimeoutError => Some (assign (set_available false);; _schedule_retry)
  | BleakError => Some (assign (set_available false);; _schedule_retry)
  | _ => Some (assign (set_available false);; _schedule_retry)
  end.

(** [connect(self)], lines 94-125.  [oc] is how [self._client.connect()]
    ends and [on] how [start_notify] ends. *)
Definition connect (oc on : outcome) : M World unit :=
  connected ← client_connected;
  if (connected : bool) then pass
  else
    try: (
      addr ← attr _address;
      c ← bleak_client addr 10;
      assign (set_client (Some c));;
      c ← attr _client;
      on_client c (λ c, client_connect c oc);;
      assign (set_available true);;
      c ← attr _client;
      on_client c (λ c, client_start_notify c NOTIFY_CHAR on);;
      (* Set initial disconnect timer *)
      h ← loop_call_later 60 CbDisconnect;
      assign (set_disconnect_timer (Some h))
    ) except: connect_failed.

(** [disconnect(self)], lines 137-139: the callback of the idle timer. *)
Definition disconnect : M World unit :=
  connected ← client_connected;
  if (connected : bool) then loop_create_task CoDisconnect 0;; pass
  else pass.

(** [_disconnect(self)], lines 141-150.  [od] is how
    [self._client.disconnect()] ends. *)
Definition _disconnect (od : disconnect_outcome) : M World unit :=
  try: (
    try: (
      c ← attr _client;
      on_client c (λ c, client_disconnect c od)
    ) except: (λ _, Some pass)
  ) finally: (
    assign (set_client None);;
    assign (set_available false);;
    async_write_ha_state
  ).

(** [async_update(self)], lines 162-165. *)
Definition async_update (oc on : outcome) : M World unit :=
  connected ← client_connected;
  if negb (connected : bool) then connect oc on else pass.

(** [_retry_connect(self)], lines 133-135, once its sleep is over. *)
Definition _retry_connect (oc on : outcome) : M World unit :=
  async_update oc on.

(** [async_added_to_hass(self)], lines 152-154. *)
Definition async_added_to_hass (oc on : outcome) : M World unit :=
  async_update oc on.

(** [async_will_remove_from_hass(self)], lines 156-160. *)
Definition async_will_remove_from_hass (od : disconnect_outcome)
  : M World unit :=
  task ← attr _retry_task;
  match task with
  | Some k => loop_task_cancel k
  | None => pass
  end;;
  _disconnect od.

End methods.

(** The test of lines 96, 138 and 164 as a boolean: the sensor holds a
    client that has a link. *)
Definition linked (w : World) : bool :=
  bool_decide (eval client_connected w = Ok true).

(** ** Running a method *)

(** Unfold the methods and the monad down to the worlds they compute. *)
Ltac unfold_methods :=
  unfold notification_handler, connect, _schedule_retry, disconnect,
    _disconnect, async_update, _retry_connect, async_added_to_hass,
    async_will_remove_from_hass, assign, attr, async_write_ha_state,
    loop_call_later, handle_cancel, loop_create_task, loop_task_cancel,
    bleak_client, on_client, client_connected in *.

Ltac exec_M :=
  unfold_methods; unfold_M;
  unfold on_self, on_clients, on_loop, on_ha_states in *; simpl.

(** The retry task [_schedule_retry] creates. *)
Definition retry_task_of (w : World) : Task :=
  {| task_coro := CoRetryConnect;
     task_wake := now (loop w) + _connection_retry_interval (self w);
     task_status := Pending |}.

(** The idle timer [connect] and [notification_handler] arm. *)
Definition idle_timer_of (w : World) : TimerHandle :=
  {| th_when := now (loop w) + 60; th_callback := CbDisconnect;
     th_status := Pending |}.

(** The world [_schedule_retry] leaves: the task it held is cancelled, a
    new one is pending and held. *)
Definition retry_scheduled (w : World) : World :=
  {| self := set_retry_task (Some (length (tasks (loop w)))) (self w);
     clients := clients w;
     loop := {| now := now (loop w); timers := timers (loop w);
                tasks := cancel_opt (_retry_task (self w)) (tasks (loop w))
                         ++ [retry_task_of w] |};
     ha_states := ha_states w |}.

(** The world a stable reading of [x] leaves. *)
Definition reading_taken (x : Z) (w : World) : World :=
  {| self := set_disconnect_timer (Some (length (timers (loop w))))
               (set_available true (set_state (Some x) (self w)));
     clients := clients w;
     loop := {| now := now (loop w);
                timers := cancel_opt (_disconnect_timer (self w))
                            (timers (loop w)) ++ [idle_timer_of w];
                tasks := tasks (loop w) |};
     ha_states := (Some x, true) :: ha_states w |}.

(** The client [connect] builds. *)
Definition client_of (w : World) (up : bool) (notify : option string)
  : BleakClient :=
  {| address := _address (self w); timeout := 10;
     is_connected := up; notifying := notify |}.

(** The world a [connect] that succeeds leaves. *)
Definition connected_world (w : World) : World :=
  {| self := set_disconnect_timer (Some (length (timers (loop w))))
               (set_available true
                  (set_client (Some (length (clients w))) (self w)));
     clients := clients w ++ [client_of w true (Some NOTIFY_CHAR)];
     loop := {| now := now (loop w);
                timers := timers (loop w) ++ [idle_timer_of w];
                tasks := tasks (loop w) |};
     ha_states := ha_states w |}.

(** The world at the [except] clause of a [connect] that fails; [up] says
    whether the link was established before the failure. *)
Definition client_failed (up : bool) (w : World) : World :=
  {| self := set_available false
               (set_client (Some (length (clients w))) (self w));
     clients := clients w ++ [client_of w up None];
     loop := loop w;
     ha_states := ha_states w |}.

(** The world a [connect] that fails leaves. *)
Definition connect_failed_world (up : bool) (w : World) : World :=
  retry_scheduled (client_failed up w).

(** The world [_disconnect] leaves. *)
Definition disconnected_world (od : disconnect_outcome) (w : World) : World :=
  {| self := set_available false (set_client None (self w));
     clients := match _client (self w) with
                | Some c => (client_disconnect c od (clients w)).2
                | None => clients w
                end;
     loop := loop w;
     ha_states := (_state (self w), false) :: ha_states w |}.

(** The world after [if self._retry_task: self._retry_task.cancel()]. *)
Definition retry_cancelled (w : World) : World :=
  on_loop (λ l, {| now := now l; timers := timers l;
                   tasks := cancel_opt (_retry_task (self w)) (tasks l) |}) w.

Section method_laws.
Context (globals : namespace).
Implicit Types (w : World) (oc on : outcome) (od : disconnect_outcome).

(** The test of lines 96, 138 and 164 reads the world and has an answer. *)
Lemma client_connected_cases w :
  eval client_connected w = Ok true ∨ eval client_connected w = Ok false.
Proof.
  unfold eval, client_connected, gets. simpl.
  destruct (match _client (self w) with Some _ => _ | None => _ end); auto.
Qed.

Lemma linked_true w : linked w = true ↔ eval client_connected w = Ok true.
Proof. apply bool_decide_eq_true. Qed.

Lemma linked_false w : linked w = false ↔ eval client_connected w = Ok false.
Proof.
  unfold linked. rewrite bool_decide_eq_false.
  destruct (client_connected_cases w) as [-> | ->]; naive_solver.
Qed.

(** The sensor is connected when the client it holds is. *)
Lemma client_connected_held c w :
  _client (self w) = Some c → client_is_connected (clients w) c = true →
  eval client_connected w = Ok true.
Proof. unfold eval, client_connected, gets. simpl. by intros -> ->. Qed.

Lemma connect_failed_eq e :
  connect_failed e = Some (assign (set_available false);; _schedule_retry).
Proof. by destruct e. Qed.

Lemma _schedule_retry_run w : _schedule_retry w = (Ok (), retry_scheduled w).
Proof.
  exec_M. unfold retry_scheduled, retry_task_of.
  destruct (_retry_task (self w)); simpl; [|done].
  by rewrite length_cancel_at.
Qed.

(** A reading the decoder accepts: the state, the availability, what Home
    Assistant is told, and the idle timer, which is cancelled and armed
    again. *)
Lemma notification_handler_stable data x w :
  decode_weight globals data = Ok (Some x) →
  notification_handler globals data w = (Ok (), reading_taken x w).
Proof.
  intros Hd. exec_M. rewrite Hd. unfold reading_taken, idle_timer_of. simpl.
  destruct (_disconnect_timer (self w)); simpl; [|done].
  by rewrite length_cancel_at.
Qed.

(** An unstable reading: [round(None, 1)] raises before anything is
    assigned. *)
Lemma notification_handler_unstable data w :
  decode_weight globals data = Ok None →
  notification_handler globals data w = (Raise TypeError, w).
Proof. intros Hd. exec_M. by rewrite Hd. Qed.

(** A payload the decoder raises on. *)
Lemma notification_handler_raise data e w :
  decode_weight globals data = Raise e →
  notification_handler globals data w = (Raise e, w).
Proof. intros Hd. exec_M. by rewrite Hd. Qed.

(** [connect] on a connected sensor returns at once. *)
Lemma connect_connected oc on w :
  eval client_connected w = Ok true → connect oc on w = (Ok (), w).
Proof. exec_M. by intros [= ->]. Qed.

Lemma connect_Ok w :
  eval client_connected w = Ok false →
  connect (Ok ()) (Ok ()) w = (Ok (), connected_world w).
Proof.
  exec_M. intros [= ->]. unfold new_client, alloc. simpl.
  unfold client_start_notify, client_is_connected.
  by rewrite !alter_snoc, lookup_snoc.
Qed.

(** [self._client.connect()] raises: the sensor is unavailable and one
    retry is scheduled. *)
Lemma connect_Raise e on w :
  eval client_connected w = Ok false →
  connect (Raise e) on w = (Ok (), connect_failed_world false w).
Proof.
  unfold connect_failed_world, client_failed. rewrite <- _schedule_retry_run.
  exec_M. intros [= ->]. by rewrite connect_failed_eq.
Qed.

(** [start_notify] raises on the connected client: the same handler runs,
    and the client stays connected. *)
Lemma connect_notify_Raise e w :
  eval client_connected w = Ok false →
  connect (Ok ()) (Raise e) w = (Ok (), connect_failed_world true w).
Proof.
  unfold connect_failed_world, client_failed. rewrite <- _schedule_retry_run.
  exec_M. intros [= ->]. unfold new_client, alloc. simpl.
  unfold client_start_notify, client_is_connected.
  rewrite !alter_snoc, lookup_snoc. simpl. by rewrite connect_failed_eq.
Qed.

(** The callback of the idle timer on a sensor that is not connected. *)
Lemma disconnect_idle w :
  eval client_connected w = Ok false → disconnect w = (Ok (), w).
Proof. exec_M. by intros [= ->]. Qed.

(** The callback of the idle timer on a connected sensor: a task that will
    run [_disconnect]. *)
Lemma disconnect_connected w :
  eval client_connected w = Ok true →
  disconnect w
  = (Ok (), on_loop (λ l, (create_task CoDisconnect 0 l).1) w).
Proof. exec_M. by intros [= ->]. Qed.

(** [_disconnect] never raises, whatever [self._client] is and however
    the library answers. *)
Lemma _disconnect_run od w : _disconnect od w = (Ok (), disconnected_world od w).
Proof.
  exec_M. unfold disconnected_world.
  destruct (_client (self w)) as [c|]; simpl; [|done].
  by destruct (client_disconnect c od (clients w)) as [[[]|e] cs].
Qed.

Lemma async_update_connected oc on w :
  eval client_connected w = Ok true → async_update oc on w = (Ok (), w).
Proof. unfold async_update. exec_M. by intros [= ->]. Qed.

Lemma async_update_connect oc on w :
  eval client_connected w = Ok false → async_update oc on w = connect oc on w.
Proof.
  unfold async_update, eval. unfold_M. unfold client_connected, gets.
  simpl. by intros [= ->].
Qed.

Lemma async_will_remove_from_hass_run od w :
  async_will_remove_from_hass od w
  = (Ok (), disconnected_world od (retry_cancelled w)).
Proof.
  unfold async_will_remove_from_hass, retry_cancelled. unfold_M.
  unfold attr, gets. simpl.
  destruct (_retry_task (self w)) as [k|]; simpl.
  - unfold loop_task_cancel, modify. by rewrite _disconnect_run.
  - unfold pass, mret, M_ret. rewrite _disconnect_run. by destruct w as [? ? [] ?].
Qed.

(** After a [connect] that succeeded the sensor is connected. *)
Lemma connected_world_connected w :
  eval client_connected (connected_world w) = Ok true.
Proof.
  unfold eval, client_connected, gets, client_is_connected. simpl.
  by rewrite lookup_snoc.
Qed.

(** After a [connect] that failed the sensor is connected exactly when the
    link was established before the failure. *)
Lemma connect_failed_world_connected up w :
  eval client_connected (connect_failed_world up w) = Ok up.
Proof.
  unfold eval, client_connected, gets, client_is_connected. simpl.
  by rewrite lookup_snoc.
Qed.

(** A client that is appended without a subscription delivers nothing. *)
Lemma client_notifying_snoc cs addr t up c :
  client_notifying
    (cs ++ [{| address := addr; timeout := t; is_connected := up;
               notifying := None |}]) c
  = client_notifying cs c.
Proof.
  unfold client_notifying.
  destruct (decide (c < length cs)%nat) as [Hc|Hc].
  - by rewrite lookup_app_l.
  - rewrite lookup_app_r, (lookup_ge_None_2 cs) by lia.
    destruct (c - length cs)%nat as [|[|n]]; simpl; [|done..].
    apply andb_false_r.
Qed.

(** After [_disconnect] the sensor is not connected. *)
Lemma disconnected_world_connected od w :
  eval client_connected (disconnected_world od w) = Ok false.
Proof. done. Qed.

End method_laws.

(** ** What the methods promise *)

Section method_properties.
Context (globals : namespace).
Implicit Types (w : World) (oc on : outcome) (od : disconnect_outcome).

(** C3: A stable reading resets the idle timer: the handle the sensor held is
    no longer pending, the handle it holds now is a new timer due in 60
    seconds, and no other timer changes. *)
Theorem notification_handler_rearms data x w :
  decode_weight globals data = Ok (Some x) →
  let w' := exec (notification_handler globals data) w in
  let h := length (timers (loop w)) in
  _disconnect_timer (self w') = Some h
  ∧ timers (loop w') !! h = Some (idle_timer_of w)
  ∧ ∀ h', h' ≠ h →
      pending_at (timers (loop w')) h'
      = if decide (_disconnect_timer (self w) = Some h') then false
        else pending_at (timers (loop w)) h'.
Proof.
  intros Hd w' h. subst w'. unfold exec.
  rewrite (notification_handler_stable _ _ _ _ Hd). simpl.
  split; [done|]. split.
  - subst h. rewrite <- (length_cancel_opt (_disconnect_timer (self w))).
    apply lookup_snoc.
  - intros h' Hne. change (?l ++ [?x]) with (alloc l x).1.
    rewrite pending_at_alloc, length_cancel_opt, decide_False by done.
    apply pending_at_cancel_opt.
Qed.

(** A stable reading is what the entity reports: the state is the weight,
    the entity is available, and Home Assistant is told both. *)
Theorem notification_handler_reports data x w :
  decode_weight globals data = Ok (Some x) →
  let w' := exec (notification_handler globals data) w in
  state (self w') = Some x ∧ available (self w') = true
  ∧ ha_states w' = (Some x, true) :: ha_states w
  ∧ clients w' = clients w ∧ tasks (loop w') = tasks (loop w).
Proof.
  intros Hd. simpl. unfold exec.
  by rewrite (notification_handler_stable _ _ _ _ Hd).
Qed.

(** C7: A reading that is not a stable weight changes nothing: the handler
    raises before its first assignment, so the state, the availability and
    the idle timer stay as they were. *)
Theorem notification_handler_rejects data w :
  (∀ x, decode_weight globals data ≠ Ok (Some x)) →
  exec (notification_handler globals data) w = w
  ∧ is_Ok (eval (notification_handler globals data) w) = false.
Proof.
  intros Hd. unfold exec, eval.
  destruct (decode_weight globals data) as [[x|]|e] eqn:E.
  - by destruct (Hd x).
  - by rewrite notification_handler_unstable.
  - by rewrite (notification_handler_raise _ _ e).
Qed.

(** C5: A [connect] that succeeds: the sensor holds a new client for its
    address, connected and subscribed to the notification characteristic;
    it is available; it holds a new idle timer due in 60 seconds.  No
    other client changes and no timer is cancelled, the timer the sensor
    held before included. *)
Theorem connect_success w :
  eval client_connected w = Ok false →
  let w' := exec (connect (Ok ()) (Ok ())) w in
  let c := length (clients w) in
  let h := length (timers (loop w)) in
  _client (self w') = Some c
  ∧ clients w' !! c
    = Some {| address := _address (self w); timeout := 10;
              is_connected := true; notifying := Some NOTIFY_CHAR |}
  ∧ (∀ c', c' ≠ c → clients w' !! c' = clients w !! c')
  ∧ available (self w') = true
  ∧ _disconnect_timer (self w') = Some h
  ∧ timers (loop w') !! h = Some (idle_timer_of w)
  ∧ (∀ h', h' ≠ h → timers (loop w') !! h' = timers (loop w) !! h')
  ∧ tasks (loop w') = tasks (loop w) ∧ ha_states w' = ha_states w.
Proof.
  intros Hc. simpl. unfold exec. rewrite connect_Ok by done. simpl.
  split_and!; try done; try apply lookup_snoc.
  - intros c'. apply lookup_snoc_ne.
  - intros h'. apply lookup_snoc_ne.
Qed.

(** C36: [connect] never raises, and neither does [async_update]: whatever
    the transport answers, every exception ends in the retry handler. *)
Theorem connect_never_raises oc on w :
  eval (connect oc on) w = Ok () ∧ eval (async_update oc on) w = Ok ().
Proof.
  unfold eval. destruct (client_connected_cases w) as [Hc|Hc].
  { by rewrite connect_connected, async_update_connected. }
  rewrite async_update_connect by done.
  destruct oc as [[]|e]; [destruct on as [[]|e]|].
  - by rewrite connect_Ok.
  - by rewrite connect_notify_Raise.
  - by rewrite connect_Raise.
Qed.

(** C37: Asking twice for a connection opens one: after an [async_update] that
    connected, another [async_update] returns at once, whatever the
    transport would answer, and builds no client. *)
Theorem async_update_idempotent oc on w :
  let w1 := exec (async_update (Ok ()) (Ok ())) w in
  async_update oc on w1 = (Ok (), w1)
  ∧ (length (clients w1) ≤ S (length (clients w)))%nat.
Proof.
  simpl. unfold exec. destruct (client_connected_cases w) as [Hc|Hc].
  - rewrite (async_update_connected _ _ w) by done. simpl.
    rewrite async_update_connected by done. split; [done|lia].
  - rewrite (async_update_connect _ _ w), connect_Ok by done. simpl.
    rewrite async_update_connected by apply connected_world_connected.
    split; [done|]. rewrite length_app. simpl. lia.
Qed.

(** C4: A [connect] that fails, at [connect()] or at [start_notify], leaves
    the sensor unavailable and schedules one retry: the task the sensor
    holds now is new, pending and due after the retry interval; the task
    it held before is not pending; no other task and no timer changes. *)
Theorem connect_failure_schedules_retry oc on e w :
  eval client_connected w = Ok false →
  oc = Raise e ∨ (oc = Ok () ∧ on = Raise e) →
  let w' := exec (connect oc on) w in
  let k := length (tasks (loop w)) in
  eval (connect oc on) w = Ok ()
  ∧ available (self w') = false
  ∧ _retry_task (self w') = Some k
  ∧ tasks (loop w') !! k = Some (retry_task_of w)
  ∧ (∀ k', k' ≠ k →
       pending_at (tasks (loop w')) k'
       = if decide (_retry_task (self w) = Some k') then false
         else pending_at (tasks (loop w)) k')
  ∧ timers (loop w') = timers (loop w).
Proof.
  intros Hc Hfail. simpl.
  assert (∃ up, connect oc on w = (Ok (), connect_failed_world up w))
    as [up Hrun].
  { destruct Hfail as [->|[-> ->]].
    - exists false. by apply connect_Raise.
    - exists true. by apply connect_notify_Raise. }
  unfold exec, eval. rewrite Hrun. simpl. split_and!; try done.
  - rewrite <- (length_cancel_opt (_retry_task (self w))). apply lookup_snoc.
  - intros k' Hne. change (?l ++ [?x]) with (alloc l x).1.
    rewrite pending_at_alloc, length_cancel_opt, decide_False by done.
    apply pending_at_cancel_opt.
Qed.

(** C39: A [start_notify] that fails leaves a sensor that holds a link and
    hears nothing: it is unavailable, no notification can reach it, no idle
    timer will close the link, and the retry it scheduled, like every
    other [async_update], returns at once because the client is
    connected. *)
Theorem connect_notify_failure_sticks e w :
  eval client_connected w = Ok false →
  let w' := exec (connect (Ok ()) (Raise e)) w in
  eval client_connected w' = Ok true
  ∧ available (self w') = false
  ∧ timers (loop w') = timers (loop w)
  ∧ (∀ c, client_notifying (clients w') c = client_notifying (clients w) c)
  ∧ ∀ oc on, async_update oc on w' = (Ok (), w').
Proof.
  intros Hc. simpl. unfold exec. rewrite connect_notify_Raise by done.
  pose proof (connect_failed_world_connected true w) as Hup.
  split_and!; [done..| |].
  - intros c. apply client_notifying_snoc.
  - intros oc on. by apply async_update_connected.
Qed.

(** C38: [_disconnect] can be called again: the second call does not raise,
    and touches neither the sensor, nor the clients, nor the loop. *)
Theorem _disconnect_idempotent od od' w :
  let w1 := exec (_disconnect od) w in
  let w2 := exec (_disconnect od') w1 in
  eval (_disconnect od') w1 = Ok ()
  ∧ self w2 = self w1 ∧ clients w2 = clients w1 ∧ loop w2 = loop w1.
Proof. simpl. unfold exec, eval. by rewrite !_disconnect_run. Qed.

(** C6: Removing the entity: the retry it held is cancelled, the client is
    forgotten, the entity is unavailable and Home Assistant is told so.
    With a [disconnect()] that returns, the client holds no link.  No
    timer is cancelled: an idle timer that was pending is still pending,
    and will call [disconnect] on the removed entity. *)
Theorem async_will_remove_from_hass_tears_down od w :
  let w' := exec (async_will_remove_from_hass od) w in
  eval (async_will_remove_from_hass od) w = Ok ()
  ∧ _client (self w') = None
  ∧ available (self w') = false
  ∧ head (ha_states w') = Some (state (self w), false)
  ∧ (∀ k, _retry_task (self w) = Some k →
       pending_at (tasks (loop w')) k = false)
  ∧ (∀ c, _client (self w) = Some c → od = DisconnectOk →
       client_is_connected (clients w') c = false)
  ∧ timers (loop w') = timers (loop w).
Proof.
  simpl. unfold exec, eval. rewrite async_will_remove_from_hass_run. simpl.
  split_and!; try done.
  - intros k ->. apply pending_at_cancel_at_eq.
  - intros c -> ->. simpl. rewrite client_is_connected_alter, decide_True by done.
    apply andb_false_r.
Qed.

(** Removing the entity cancels no timer: an idle timer that was pending
    is still pending, and will call [disconnect] on the removed entity. *)
Theorem async_will_remove_from_hass_keeps_timers od w h :
  pending_at (timers (loop (exec (async_will_remove_from_hass od) w))) h
  = pending_at (timers (loop w)) h.
Proof. unfold exec. by rewrite async_will_remove_from_hass_run. Qed.

End method_properties.

(** ** The theorems on a first connection *)

(** The entity of a scale, as set up; added to Home Assistant with a
    transport that answers; after the stable reading of the scenario. *)
Definition world_reset : World := async_setup_entry "C8:B2:1E:3A:5F:01".

Definition world_added : World :=
  exec (async_added_to_hass (Ok ()) (Ok ())) world_reset.

Definition world_weighed : World :=
  exec (notification_handler hoisted_globals scenario_stable) world_added.

Lemma notification_handler_rearms_witness :
  let w' := world_weighed in
  _disconnect_timer (self w') = Some 1%nat
  ∧ timers (loop w') !! 1%nat = Some (idle_timer_of world_added)
  ∧ pending_at (timers (loop w')) 0 = false.
Proof.
  destruct (notification_handler_rearms hoisted_globals scenario_stable 500
              world_added) as (Hh & Ht & Hp); [by vm_compute|].
  split_and!; [exact Hh|exact Ht|]. by rewrite Hp.
Defined.

Lemma notification_handler_reports_witness :
  state (self world_weighed) = Some 500
  ∧ available (self world_weighed) = true
  ∧ ha_states world_weighed = [(Some 500, true)].
Proof.
  destruct (notification_handler_reports hoisted_globals scenario_stable 500
              world_added) as (Hs & Ha & Hh & _); [by vm_compute|done].
Defined.

(** The unstable reading of the scenario after the stable one. *)
Lemma notification_handler_rejects_witness :
  exec (notification_handler hoisted_globals scenario_unstable) world_weighed
  = world_weighed
  ∧ is_Ok (eval (notification_handler hoisted_globals scenario_unstable)
             world_weighed) = false.
Proof. apply notification_handler_rejects. intros x. by vm_compute. Defined.

Lemma connect_failure_schedules_retry_witness :
  let w' := exec (connect (Raise TimeoutError) (Ok ())) world_reset in
  available (self w') = false ∧ _retry_task (self w') = Some 0%nat
  ∧ tasks (loop w') !! 0%nat = Some (retry_task_of world_reset).
Proof.
  destruct (connect_failure_schedules_retry (Raise TimeoutError) (Ok ())
              TimeoutError world_reset) as (_ & Ha & Hr & Ht & _);
    [done|by left|done].
Defined.

Lemma connect_success_witness :
  _client (self world_added) = Some 0%nat
  ∧ available (self world_added) = true
  ∧ _disconnect_timer (self world_added) = Some 0%nat.
Proof.
  destruct (connect_success world_reset) as (Hc & _ & _ & Ha & Ht & _);
    done.
Defined.

Lemma connect_notify_failure_sticks_witness :
  let w' := exec (connect (Ok ()) (Raise BleakError)) world_reset in
  eval client_connected w' = Ok true ∧ available (self w') = false.
Proof.
  destruct (connect_notify_failure_sticks BleakError world_reset)
    as (Hc & Ha & _); done.
Defined.
