(* ===== verification/Lifecycle.v ===== *)
(** * Lifecycle: the sensor in its environment

    The entity does nothing by itself: Home Assistant calls its hooks, the
    transport delivers notifications and loses links, the loop runs the
    timers and tasks the entity scheduled, and time passes.  Each of these
    is an [event]; [step] runs the method the event calls, from its first
    line to its last, on the world the previous event left.

    An exception that leaves a callback or a task is logged by the caller
    and goes no further: the world stays as the method left it.

    A world is [reachable] when a sequence of events leads to it from the
    world [async_setup_entry] builds.  What the transport may answer to
    [disconnect()] is a parameter of reachability: [any_outcome] for a
    transport of which nothing is known, [reliable] for one that drops the
    link whenever it is asked to. *)

From S2P Require Import Prelude PyStruct Decoder EventLoop Transport Sensor.

#[local] Open Scope Z_scope.

Inductive event : Type :=
  | EvAdded (oc on : outcome)
  | EvUpdate (oc on : outcome)
  | EvRemove (od : disconnect_outcome)
  | EvNotify (c : nat) (data : list byte)
  | EvLinkLost (c : nat)
  | EvTimer (h : nat)
  | EvRetry (k : nat) (oc on : outcome)
  | EvDisconnect (k : nat) (od : disconnect_outcome)
  | EvAdvance (dt : Z).

(** The coroutine of a task of the loop. *)
Definition task_is (l : Loop) (k : nat) (co : coroutine) : bool :=
  bool_decide (task_coro <$> tasks l !! k = Some co).

(** The answer of [client.disconnect()] the event carries. *)
Definition disconnect_outcome_of (e : event) : option disconnect_outcome :=
  match e with
  | EvRemove od | EvDisconnect _ od => Some od
  | _ => None
  end.

(** An event of a transport whose answers to [disconnect()] are in [ok]. *)
Definition permitted (ok : disconnect_outcome → Prop) (e : event) : Prop :=
  ∀ od, disconnect_outcome_of e = Some od → ok od.

Definition any_outcome (od : disconnect_outcome) : Prop := True.

Definition reliable (od : disconnect_outcome) : Prop := drops od = true.

Section stepping.
Context (globals : namespace) (ok : disconnect_outcome → Prop).

(** Whether the environment can produce the event in this world. *)
Definition enabled (e : event) (w : World) : bool :=
  match e with
  | EvAdded _ _ | EvUpdate _ _ | EvRemove _ => true
  | EvNotify c _ => client_notifying (clients w) c
  | EvLinkLost c => client_is_connected (clients w) c
  | EvTimer h => timer_due (loop w) h
  | EvRetry k _ _ => task_due (loop w) k && task_is (loop w) k CoRetryConnect
  | EvDisconnect k _ => task_due (loop w) k && task_is (loop w) k CoDisconnect
  | EvAdvance dt => bool_decide (0 ≤ dt)
  end.

(** What the event runs. *)
Definition handler (e : event) : M World unit :=
  match e with
  | EvAdded oc on => async_added_to_hass oc on
  | EvUpdate oc on => async_update oc on
  | EvRemove od => async_will_remove_from_hass od
  | EvNotify _ data => notification_handler globals data
  | EvLinkLost c => modify (on_clients (link_lost c))
  | EvTimer h => modify (on_loop (timer_fired h));; disconnect
  | EvRetry k oc on => modify (on_loop (task_finished k));; _retry_connect oc on
  | EvDisconnect k od => modify (on_loop (task_finished k));; _disconnect od
  | EvAdvance dt => modify (on_loop (advance dt))
  end.

Definition step (e : event) (w : World) : option World :=
  if enabled e w then Some (exec (handler e) w) else None.

(** A sequence of events, from the first to the last. *)
Fixpoint run (es : list event) (w : World) : option World :=
  match es with
  | [] => Some w
  | e :: es' => w' ← step e w; run es' w'
  end.

Inductive reachable (addr : string) : World → Prop :=
  | reachable_init : reachable addr (async_setup_entry addr)
  | reachable_step w e w' :
      reachable addr w → permitted ok e → step e w = Some w' →
      reachable addr w'.

End stepping.

(** The retry tasks that are pending. *)
Definition pending_retries (w : World) : list nat :=
  filter (λ k, task_is (loop w) k CoRetryConnect = true) (pending (tasks (loop w))).

(** The idle timers that are pending. *)
Definition pending_timers (w : World) : list nat := pending (timers (loop w)).

(** ** Moves

    Whatever the event, the world changes by a few moves: the blocks of the
    methods that assign.  An invariant is proved once per move; [step] is
    shown to be made of moves. *)

Section moves.
Context (globals : namespace) (ok : disconnect_outcome → Prop).

Inductive move : World → World → Prop :=
  | move_connected w :
      eval client_connected w = Ok false → move w (connected_world w)
  | move_connect_failed up w :
      eval client_connected w = Ok false → move w (connect_failed_world up w)
  | move_retry_cancelled w : move w (retry_cancelled w)
  | move_disconnected od w : ok od → move w (disconnected_world od w)
  | move_reading data x w :
      decode_weight globals data = Ok (Some x) → move w (reading_taken x w)
  | move_link_lost c w : move w (on_clients (link_lost c) w)
  | move_timer_fired h w : move w (on_loop (timer_fired h) w)
  | move_task_finished k w : move w (on_loop (task_finished k) w)
  | move_disconnect_task w :
      eval client_connected w = Ok true →
      move w (on_loop (λ l, (create_task CoDisconnect 0 l).1) w)
  | move_advance dt w : 0 ≤ dt → move w (on_loop (advance dt) w).

Lemma async_update_moves oc on w : rtc move w (exec (async_update oc on) w).
Proof.
  unfold exec. destruct (client_connected_cases w) as [Hc|Hc].
  { rewrite async_update_connected by done. constructor. }
  rewrite async_update_connect by done. apply rtc_once.
  destruct oc as [[]|e]; [destruct on as [[]|e]|].
  - rewrite connect_Ok by done. by constructor.
  - rewrite connect_notify_Raise by done. by constructor.
  - rewrite connect_Raise by done. by constructor.
Qed.

Lemma notification_handler_moves data w :
  rtc move w (exec (notification_handler globals data) w).
Proof.
  unfold exec. destruct (decode_weight globals data) as [[x|]|e] eqn:E.
  - rewrite (notification_handler_stable _ _ _ _ E). apply rtc_once.
    by econstructor.
  - rewrite notification_handler_unstable by done. constructor.
  - rewrite (notification_handler_raise _ _ _ _ E). constructor.
Qed.

Lemma disconnect_moves w : rtc move w (exec disconnect w).
Proof.
  unfold exec. destruct (client_connected_cases w) as [Hc|Hc].
  - rewrite disconnect_connected by done. apply rtc_once. by constructor.
  - rewrite disconnect_idle by done. constructor.
Qed.

(** ** The steps, event by event *)

Lemma step_notify c data x w :
  client_notifying (clients w) c = true →
  decode_weight globals data = Ok (Some x) →
  step globals (EvNotify c data) w = Some (reading_taken x w).
Proof.
  intros Hn Hd. unfold step, exec. simpl.
  by rewrite Hn, (notification_handler_stable _ _ _ _ Hd).
Qed.

Lemma step_advance dt w :
  0 ≤ dt → step globals (EvAdvance dt) w = Some (on_loop (advance dt) w).
Proof. intros Hdt. unfold step. simpl. by rewrite bool_decide_eq_true_2. Qed.

(** The idle timer fires on a connected sensor: a task for [_disconnect]. *)
Lemma step_timer h w :
  timer_due (loop w) h = true → eval client_connected w = Ok true →
  step globals (EvTimer h) w
  = Some (on_loop (λ l, (create_task CoDisconnect 0 l).1)
            (on_loop (timer_fired h) w)).
Proof.
  intros Hd Hc. unfold step. simpl. rewrite Hd, exec_modify.
  unfold exec. by rewrite disconnect_connected.
Qed.

(** The idle timer fires on a sensor that is not connected: nothing. *)
Lemma step_timer_idle h w :
  timer_due (loop w) h = true → eval client_connected w = Ok false →
  step globals (EvTimer h) w = Some (on_loop (timer_fired h) w).
Proof.
  intros Hd Hc. unfold step. simpl. rewrite Hd, exec_modify.
  unfold exec. by rewrite disconnect_idle.
Qed.

Lemma step_disconnect k od w :
  task_due (loop w) k = true → task_is (loop w) k CoDisconnect = true →
  step globals (EvDisconnect k od) w
  = Some (disconnected_world od (on_loop (task_finished k) w)).
Proof.
  intros Hd Hk. unfold step. simpl. rewrite Hd, Hk, exec_modify.
  unfold exec. by rewrite _disconnect_run.
Qed.

Lemma step_retry k oc on w :
  task_due (loop w) k = true → task_is (loop w) k CoRetryConnect = true →
  step globals (EvRetry k oc on) w
  = Some (exec (async_update oc on) (on_loop (task_finished k) w)).
Proof. intros Hd Hk. unfold step. simpl. by rewrite Hd, Hk, exec_modify. Qed.

(** Every step is a sequence of moves. *)
Lemma step_moves e w w' :
  permitted ok e → step globals e w = Some w' → rtc move w w'.
Proof.
  intros Hp. unfold step. destruct (enabled e w) eqn:He; [|done].
  intros [= <-]. destruct e; simpl handler.
  - apply async_update_moves.
  - apply async_update_moves.
  - unfold exec. rewrite async_will_remove_from_hass_run. simpl.
    eapply rtc_l; [apply move_retry_cancelled|].
    apply rtc_once, move_disconnected. by apply Hp.
  - apply notification_handler_moves.
  - apply rtc_once, move_link_lost.
  - rewrite exec_modify. eapply rtc_l; [apply move_timer_fired|].
    apply disconnect_moves.
  - rewrite exec_modify. eapply rtc_l; [apply move_task_finished|].
    apply async_update_moves.
  - rewrite exec_modify. eapply rtc_l; [apply move_task_finished|].
    unfold exec. rewrite _disconnect_run.
    apply rtc_once, move_disconnected. by apply Hp.
  - apply rtc_once. unfold exec. simpl. constructor.
    by apply bool_decide_eq_true in He.
Qed.

(** A property of the first world that every move keeps holds in every
    reachable world. *)
Lemma reachable_invariant (I : World → Prop) addr :
  I (async_setup_entry addr) →
  (∀ w w', move w w' → I w → I w') →
  ∀ w, reachable globals ok addr w → I w.
Proof.
  intros Hinit Hmove w Hw. induction Hw as [|w e w' _ IH Hp Hstep]; [done|].
  apply step_moves in Hstep; [|done]. induction Hstep; eauto.
Qed.

Lemma run_cons e es w w1 :
  step globals e w = Some w1 → run globals (e :: es) w = run globals es w1.
Proof. intros Hs. simpl. by rewrite Hs. Qed.

Lemma run_app es es' w :
  run globals (es ++ es') w = run globals es w ≫= run globals es'.
Proof.
  revert w. induction es as [|e es IH]; intros w; simpl; [done|].
  destruct (step globals e w); simpl; [apply IH|done].
Qed.

(** The world a sequence of permitted events leads to is reachable. *)
Lemma run_reachable addr es w w' :
  Forall (permitted ok) es →
  reachable globals ok addr w → run globals es w = Some w' →
  reachable globals ok addr w'.
Proof.
  intros Hes. revert w. induction Hes as [|e es He _ IH]; intros w Hw; simpl.
  - by intros [= <-].
  - destruct (step globals e w) as [w1|] eqn:E; [simpl|done].
    apply IH. by econstructor.
Qed.

(** Every reachable world is the end of a sequence of permitted events. *)
Lemma reachable_run addr w :
  reachable globals ok addr w →
  ∃ es, Forall (permitted ok) es
    ∧ run globals es (async_setup_entry addr) = Some w.
Proof.
  induction 1 as [|w e w' _ (es & Hok & Hes) Hp Hstep].
  - by exists [].
  - exists (es ++ [e]). split; [by apply Forall_app; auto|].
    rewrite run_app, Hes. simpl. by rewrite Hstep.
Qed.

End moves.

(** Every event is permitted when nothing is known of the transport. *)
Lemma permitted_any es : Forall (permitted any_outcome) es.
Proof. apply Forall_forall. by intros e _ od _. Qed.

(** A world reachable with a transport is reachable with one of which less
    is known. *)
Lemma reachable_mono globals (ok ok' : disconnect_outcome → Prop) addr w :
  (∀ od, ok od → ok' od) →
  reachable globals ok addr w → reachable globals ok' addr w.
Proof.
  intros Hok. induction 1 as [|w e w' _ IH Hp Hstep]; [constructor|].
  econstructor; [done| |done]. intros od Hod. auto.
Qed.

(** ** Concrete runs *)

(** The world a sequence of events leads to, when every event of it is
    enabled in its turn. *)
Definition world_after (globals : namespace) (es : list event) (w : World)
  : World :=
  default w (run globals es w).

Lemma reachable_world_after globals ok addr es :
  Forall (permitted ok) es →
  is_Some (run globals es (async_setup_entry addr)) →
  reachable globals ok addr (world_after globals es (async_setup_entry addr)).
Proof.
  intros Hes [w Hw]. unfold world_after. rewrite Hw. simpl.
  eapply run_reachable; [done|constructor|done].
Qed.

(** The events of a list carry answers of [disconnect()] that drop the
    link. *)
Ltac permitted_events :=
  repeat (constructor; [by intros od [= <-]|]); constructor.

(** A first [connect] that times out, the retry that connects, and the
    stable reading of the scenario. *)
Definition events_weighed : list event :=
  [EvAdded (Raise TimeoutError) (Ok ()); EvAdvance 60;
   EvRetry 0 (Ok ()) (Ok ()); EvNotify 1 scenario_stable].

(** Two attempts that fail in a row. *)
Definition events_retrying : list event :=
  [EvAdded (Raise TimeoutError) (Ok ()); EvAdvance 30;
   EvUpdate (Raise BleakError) (Ok ())].

Lemma reachable_events_weighed globals :
  reachable globals reliable "C8:B2:1E:3A:5F:01"
    (world_after globals events_weighed world_reset).
Proof.
  apply reachable_world_after; [permitted_events|]. vm_compute. eauto.
Qed.

Lemma reachable_events_retrying globals :
  reachable globals reliable "C8:B2:1E:3A:5F:01"
    (world_after globals events_retrying world_reset).
Proof.
  apply reachable_world_after; [permitted_events|]. vm_compute. eauto.
Qed.
