(* ===== verification/Invariants.v ===== *)
(** * Invariants: what holds in every reachable world

    The invariants of the sensor in its environment, each proved move by
    move (see [Lifecycle.move]) and then lifted to the reachable worlds:
    the references the sensor holds point at objects that exist
    ([refs_ok]); a retry task that is pending is the one the sensor holds
    ([one_retry]); no timer and no task waits for an instant more than 60
    seconds ahead ([timing_ok]); what the sensor reports is a weight the
    decoder can produce ([state_ok]); with a transport that drops the link
    whenever it is asked to, a client that holds a link is the client the
    sensor holds ([held_link]); in the module as it is written the sensor
    reports nothing ([silent]). *)

From S2P Require Import Prelude PyStruct Decoder EventLoop Transport Sensor.
From S2P Require Import Lifecycle.

#[local] Open Scope Z_scope.

(** The references of the sensor: to a client, a timer and a retry task. *)
Record refs_ok (w : World) : Prop := {
  client_ok c :
    _client (self w) = Some c → (c < length (clients w))%nat;
  timer_ok h :
    _disconnect_timer (self w) = Some h → (h < length (timers (loop w)))%nat;
  retry_ok k :
    _retry_task (self w) = Some k →
    task_coro <$> tasks (loop w) !! k = Some CoRetryConnect;
}.

(** A pending retry task is the task the sensor holds. *)
Definition one_retry (w : World) : Prop :=
  ∀ k t, tasks (loop w) !! k = Some t →
    task_coro t = CoRetryConnect → is_pending t = true →
    _retry_task (self w) = Some k.

(** Nothing waits for an instant more than the delay ahead. *)
Record timing_ok (w : World) : Prop := {
  interval_ok : _connection_retry_interval (self w) = 60;
  now_ok : 0 ≤ now (loop w);
  timers_when h t :
    timers (loop w) !! h = Some t → th_when t ≤ now (loop w) + 60;
  tasks_wake k t :
    tasks (loop w) !! k = Some t → task_wake t ≤ now (loop w) + 60;
}.

(** A weight the decoder can produce: 100 grams times a signed 16-bit
    integer. *)
Definition weight_ok (s : option Z) : Prop :=
  ∀ x, s = Some x → -3276800 ≤ x ≤ 3276700 ∧ (100 | x).

Definition state_ok (w : World) : Prop :=
  weight_ok (_state (self w)) ∧ Forall (λ p : ha_state, weight_ok p.1) (ha_states w).

(** The sensor has reported nothing. *)
Definition silent (w : World) : Prop :=
  _state (self w) = None ∧ Forall (λ p : ha_state, p.1 = None) (ha_states w).

(** A client that holds a link is the client the sensor holds. *)
Definition held_link (w : World) : Prop :=
  ∀ c, client_is_connected (clients w) c = true → _client (self w) = Some c.

(** ** Stores under the moves *)

Section store_lemmas.
Implicit Types (ts : list Task) (hs : list TimerHandle).

Lemma task_cancel_fields (t : Task) :
  task_coro (cancel t) = task_coro t ∧ task_wake (cancel t) = task_wake t.
Proof. unfold cancel. by destruct (is_pending t). Qed.

Lemma timer_cancel_when (t : TimerHandle) : th_when (cancel t) = th_when t.
Proof. unfold cancel. by destruct (is_pending t). Qed.

(** A task of a store after [cancel()] is a task of the store before, with
    the same coroutine and wake-up time, and pending only if it was. *)
Lemma lookup_cancel_opt_task o ts k t :
  cancel_opt o ts !! k = Some t →
  ∃ t0, ts !! k = Some t0 ∧ task_coro t = task_coro t0
    ∧ task_wake t = task_wake t0
    ∧ (is_pending t = true → is_pending t0 = true ∧ o ≠ Some k).
Proof.
  destruct o as [i|]; simpl; [|by eauto 10].
  unfold cancel_at. rewrite list_lookup_alter. case_decide as E.
  - subst. destruct (ts !! k) as [t0|]; simpl; [|done]. intros [= <-].
    exists t0. destruct (task_cancel_fields t0) as [-> ->].
    by rewrite is_pending_cancel.
  - intros Ht. exists t. naive_solver.
Qed.

Lemma lookup_finish_at_task i ts k t :
  finish_at i ts !! k = Some t →
  ∃ t0, ts !! k = Some t0 ∧ task_coro t = task_coro t0
    ∧ task_wake t = task_wake t0
    ∧ (is_pending t = true → is_pending t0 = true).
Proof.
  unfold finish_at. rewrite list_lookup_alter. case_decide as E.
  - subst. destruct (ts !! k) as [t0|]; [|done]. intros [= <-].
    exists t0. split_and!; [done..|]. intros Hp. by vm_compute in Hp.
  - intros Ht. exists t. naive_solver.
Qed.

Lemma lookup_cancel_opt_timer o hs h t :
  cancel_opt o hs !! h = Some t →
  ∃ t0, hs !! h = Some t0 ∧ th_when t = th_when t0.
Proof.
  destruct o as [i|]; simpl; [|by eauto].
  unfold cancel_at. rewrite list_lookup_alter. case_decide as E.
  - subst. destruct (hs !! h) as [t0|]; simpl; [|done]. intros [= <-].
    exists t0. by rewrite timer_cancel_when.
  - eauto.
Qed.

Lemma lookup_finish_at_timer i hs h t :
  finish_at i hs !! h = Some t →
  ∃ t0, hs !! h = Some t0 ∧ th_when t = th_when t0.
Proof.
  unfold finish_at. rewrite list_lookup_alter. case_decide as E.
  - subst. destruct (hs !! h) as [t0|]; simpl; [|done]. intros [= <-]. eauto.
  - eauto.
Qed.

(** The coroutine of a task does not change when another task, or the
    task itself, is cancelled or finished. *)
Lemma task_coro_cancel_opt o ts k :
  task_coro <$> cancel_opt o ts !! k = task_coro <$> ts !! k.
Proof.
  destruct o as [i|]; simpl; [|done]. unfold cancel_at.
  rewrite list_lookup_alter. case_decide; [subst|done].
  destruct (ts !! k) as [t0|]; simpl; [|done].
  by destruct (task_cancel_fields t0) as [-> _].
Qed.

Lemma task_coro_finish_at i ts k :
  task_coro <$> finish_at i ts !! k = task_coro <$> ts !! k.
Proof.
  unfold finish_at. rewrite list_lookup_alter. case_decide; [subst|done].
  by destruct (ts !! k).
Qed.

End store_lemmas.

(** ** The invariants, move by move *)

Section invariants.
Context (globals : namespace) (ok : disconnect_outcome → Prop).
Implicit Types w : World.

Lemma one_retry_scheduled w : one_retry w → one_retry (retry_scheduled w).
Proof.
  intros Hinv k t. simpl. rewrite lookup_snoc_Some, length_cancel_opt.
  intros [Ht|[-> _]] Hco Hp; [|done].
  apply lookup_cancel_opt_task in Ht as (t0 & Ht0 & Hco0 & _ & Hp0).
  destruct (Hp0 Hp) as [Hp1 Hne]. destruct Hne. apply (Hinv k t0); congruence.
Qed.

Lemma one_retry_move w w' : move globals ok w w' → one_retry w → one_retry w'.
Proof.
  destruct 1; intros Hinv; try exact Hinv.
  - by apply one_retry_scheduled.
  - intros k t Ht Hco Hp. simpl in *.
    apply lookup_cancel_opt_task in Ht as (t0 & Ht0 & Hco0 & _ & Hp0).
    destruct (Hp0 Hp) as [Hp1 Hne]. destruct Hne. apply (Hinv k t0); congruence.
  - intros k' t Ht Hco Hp. simpl in *.
    apply lookup_finish_at_task in Ht as (t0 & Ht0 & Hco0 & _ & Hp0).
    apply (Hinv k' t0); [done|congruence|auto].
  - intros k t. simpl. unfold alloc. simpl. rewrite lookup_snoc_Some.
    intros [Ht|[_ ->]]; [by apply Hinv|done].
Qed.

Lemma one_retry_init addr : one_retry (async_setup_entry addr).
Proof. by intros k t. Qed.

Lemma refs_ok_init addr : refs_ok (async_setup_entry addr).
Proof. by constructor. Qed.

Lemma refs_ok_scheduled w : refs_ok w → refs_ok (retry_scheduled w).
Proof.
  intros [Hc Ht Hr]. constructor; simpl; [done..|].
  intros k [= <-]. rewrite <- (length_cancel_opt (_retry_task (self w))).
  by rewrite lookup_snoc.
Qed.

Lemma refs_ok_move w w' : move globals ok w w' → refs_ok w → refs_ok w'.
Proof.
  destruct 1; intros [Hc Ht Hr].
  - constructor; simpl; [| |done].
    + intros c [= <-]. rewrite length_app. simpl. lia.
    + intros h [= <-]. rewrite length_app. simpl. lia.
  - apply refs_ok_scheduled. constructor; simpl; [|done..].
    intros c [= <-]. rewrite length_app. simpl. lia.
  - constructor; simpl; [done..|].
    intros k Hk. rewrite task_coro_cancel_opt. auto.
  - by constructor.
  - constructor; simpl; [done| |done].
    intros h [= <-]. rewrite length_app, length_cancel_opt. simpl. lia.
  - constructor; simpl; [|done..].
    intros c' Hc'. unfold link_lost. rewrite length_alter. auto.
  - constructor; simpl; [done| |done].
    intros h' Hh'. rewrite length_finish_at. auto.
  - constructor; simpl; [done..|].
    intros k' Hk'. rewrite task_coro_finish_at. auto.
  - constructor; simpl; [done..|].
    intros k Hk. specialize (Hr k Hk).
    destruct (tasks (loop w) !! k) as [t|] eqn:E; [|done].
    unfold alloc. simpl. by rewrite (lookup_app_l_Some _ _ _ _ E).
  - by constructor.
Qed.

Lemma timing_ok_init addr : timing_ok (async_setup_entry addr).
Proof. by constructor. Qed.

Lemma timing_ok_scheduled w : timing_ok w → timing_ok (retry_scheduled w).
Proof.
  intros [Hi Hn Ht Hk]. constructor; simpl; [done..|].
  intros k t. rewrite lookup_snoc_Some. intros [Hl|[_ ->]].
  - apply lookup_cancel_opt_task in Hl as (t0 & Ht0 & _ & -> & _). eauto.
  - simpl. lia.
Qed.

Lemma timing_ok_move w w' : move globals ok w w' → timing_ok w → timing_ok w'.
Proof.
  destruct 1; intros [Hi Hn Ht Hk].
  - constructor; simpl; [done..| |done].
    intros h t. rewrite lookup_snoc_Some. intros [Hl|[_ ->]]; [eauto|done].
  - apply timing_ok_scheduled. by constructor.
  - constructor; simpl; [done..|].
    intros k t Hl.
    apply lookup_cancel_opt_task in Hl as (t0 & Ht0 & _ & -> & _). eauto.
  - by constructor.
  - constructor; simpl; [done..| |done].
    intros h t. rewrite lookup_snoc_Some. intros [Hl|[_ ->]]; [|done].
    apply lookup_cancel_opt_timer in Hl as (t0 & Ht0 & ->). eauto.
  - by constructor.
  - constructor; simpl; [done..| |done].
    intros h' t Hl. apply lookup_finish_at_timer in Hl as (t0 & Ht0 & ->). eauto.
  - constructor; simpl; [done..|].
    intros k' t Hl.
    apply lookup_finish_at_task in Hl as (t0 & Ht0 & _ & -> & _). eauto.
  - constructor; simpl; [done..|]. unfold alloc. simpl.
    intros k t. rewrite lookup_snoc_Some. intros [Hl|[_ ->]]; [eauto|].
    simpl. lia.
  - constructor; simpl; [done|lia|..].
    + intros h t Hl. specialize (Ht h t Hl). lia.
    + intros k t Hl. specialize (Hk k t Hl). lia.
Qed.

Lemma state_ok_init addr : state_ok (async_setup_entry addr).
Proof. split; [done|constructor]. Qed.

Lemma state_ok_move w w' : move globals ok w w' → state_ok w → state_ok w'.
Proof.
  destruct 1; intros [Hs Hh]; try by split.
  - split; simpl; [done|]. by constructor.
  - assert (weight_ok (Some x)) as Hx.
    { intros ? [= <-]. by eapply decode_weight_range. }
    split; simpl; [done|]. by constructor.
Qed.

End invariants.

(** ** One link, with a transport that drops the link when asked to *)

Section single_link.
Context (globals : namespace).
Implicit Types w : World.

(** When the sensor is not connected no client holds a link. *)
Lemma held_link_idle w c :
  held_link w → eval client_connected w = Ok false →
  client_is_connected (clients w) c = false.
Proof.
  intros Hinv Hc. destruct (client_is_connected (clients w) c) eqn:E; [|done].
  apply Hinv in E as Hs. revert Hc.
  unfold eval, client_connected, gets. simpl. rewrite Hs, E. done.
Qed.

(** A client appended by [connect] is the only one that may hold a link. *)
Lemma held_link_snoc w w' cl :
  held_link w → eval client_connected w = Ok false →
  clients w' = clients w ++ [cl] →
  _client (self w') = Some (length (clients w)) →
  held_link w'.
Proof.
  intros Hinv Hc Hcs Hs c. rewrite Hcs, client_is_connected_snoc.
  case_decide; [by subst|]. by rewrite (held_link_idle w c).
Qed.

Lemma held_link_disconnected od w :
  reliable od → held_link w → held_link (disconnected_world od w).
Proof.
  intros Hod Hinv c'. simpl. destruct (_client (self w)) as [c|] eqn:Hs.
  - intros Hc'. pose proof (client_disconnect_mono _ _ _ _ Hc') as Hb.
    apply Hinv in Hb. assert (c' = c) as -> by congruence.
    by rewrite client_disconnect_drops in Hc'.
  - intros Hc'. apply Hinv in Hc'. congruence.
Qed.

(** A link the peer drops. *)
Lemma held_link_link_lost c w :
  held_link w → held_link (on_clients (link_lost c) w).
Proof.
  intros Hinv c'. simpl. unfold link_lost.
  rewrite client_is_connected_alter. case_decide; [|by auto].
  by rewrite andb_false_r.
Qed.

(** What the invariant gives: at most one client holds a link. *)
Lemma held_link_single w :
  held_link w →
  (length (live (clients w)) ≤ 1)%nat
  ∧ ∀ c, c ∈ live (clients w) → _client (self w) = Some c.
Proof.
  intros Hinv.
  assert (∀ c, c ∈ live (clients w) → _client (self w) = Some c) as Hheld.
  { intros c Hc. by apply Hinv, elem_of_live. }
  split; [|done].
  by apply (held_length (_client (self w))); [apply NoDup_live|].
Qed.

Lemma held_link_init addr : held_link (async_setup_entry addr).
Proof. by intros c. Qed.

Lemma held_link_move w w' :
  move globals reliable w w' → held_link w → held_link w'.
Proof.
  destruct 1; intros Hinv; try exact Hinv.
  - by eapply held_link_snoc.
  - by eapply held_link_snoc.
  - by apply held_link_disconnected.
  - by apply held_link_link_lost.
Qed.

End single_link.

(** ** The module as it is written *)

Lemma silent_move ok w w' :
  move module_globals ok w w' → silent w → silent w'.
Proof.
  destruct 1 as [| | | | data x w Hd | | | | |]; intros [Hs Hh]; try by split.
  - split; simpl; [done|]. by constructor.
  - by destruct (decode_weight_unresolved module_globals data (Some x)).
Qed.

(** ** In every reachable world *)

Section reachable_worlds.
Context (globals : namespace) (ok : disconnect_outcome → Prop) (addr : string).
Implicit Types w : World.

Lemma one_retry_pending_retries w k :
  one_retry w → k ∈ pending_retries w → _retry_task (self w) = Some k.
Proof.
  intros Hinv. unfold pending_retries.
  rewrite list_elem_of_filter, elem_of_pending. intros [Hco Hp].
  unfold task_is in Hco. apply bool_decide_eq_true in Hco.
  unfold pending_at in Hp.
  destruct (tasks (loop w) !! k) as [t|] eqn:E; [|done].
  apply (Hinv k t); [done|by injection Hco|done].
Qed.

(** The references the sensor holds point at objects that exist, and the
    task it holds for a retry is a retry. *)
Theorem reachable_refs_ok w : reachable globals ok addr w → refs_ok w.
Proof.
  apply (reachable_invariant globals ok refs_ok); [apply refs_ok_init|].
  apply refs_ok_move.
Qed.

(** At most one retry is pending, and it is the one the sensor holds:
    scheduling a retry cancels the retry scheduled before. *)
Theorem reachable_one_retry w :
  reachable globals ok addr w →
  (length (pending_retries w) ≤ 1)%nat
  ∧ ∀ k, k ∈ pending_retries w → _retry_task (self w) = Some k.
Proof.
  intros Hw.
  assert (one_retry w) as Hinv.
  { revert w Hw. apply (reachable_invariant globals ok one_retry).
    - apply one_retry_init.
    - apply one_retry_move. }
  split; [|intros k; by apply one_retry_pending_retries].
  apply (held_length (_retry_task (self w))).
  - apply NoDup_filter, NoDup_pending.
  - intros k. by apply one_retry_pending_retries.
Qed.

(** The retry interval stays at 60 seconds, and no timer or task waits
    for an instant more than 60 seconds ahead. *)
Theorem reachable_timing_ok w : reachable globals ok addr w → timing_ok w.
Proof.
  apply (reachable_invariant globals ok timing_ok); [apply timing_ok_init|].
  apply timing_ok_move.
Qed.

(** Whatever the sensor reports, now or to Home Assistant before, is
    nothing or 100 grams times a signed 16-bit integer. *)
Theorem reachable_state_ok w : reachable globals ok addr w → state_ok w.
Proof.
  apply (reachable_invariant globals ok state_ok); [apply state_ok_init|].
  apply state_ok_move.
Qed.

End reachable_worlds.

(** With a transport that drops the link whenever [disconnect()] is
    called, at most one client holds a link, and it is the client the
    sensor holds: [connect] builds a client only when the sensor is not
    connected, and [_disconnect] forgets a client only after its link is
    down. *)
Theorem reachable_single_link globals addr w :
  reachable globals reliable addr w →
  (length (live (clients w)) ≤ 1)%nat
  ∧ ∀ c, c ∈ live (clients w) → _client (self w) = Some c.
Proof.
  intros Hw. apply held_link_single. revert w Hw.
  apply (reachable_invariant globals reliable held_link).
  - apply held_link_init.
  - apply held_link_move.
Qed.

(** In the module as it is written the sensor never reports a weight:
    every notification ends in an exception before [self._state] is
    assigned. *)
Theorem reachable_module_silent ok addr w :
  reachable module_globals ok addr w → silent w.
Proof.
  apply (reachable_invariant module_globals ok silent).
  - split; [done|constructor].
  - apply silent_move.
Qed.

(** ** The invariants at concrete worlds *)

Lemma reachable_refs_ok_witness :
  refs_ok (world_after hoisted_globals events_weighed world_reset).
Proof.
  apply (reachable_refs_ok hoisted_globals reliable "C8:B2:1E:3A:5F:01").
  apply reachable_events_weighed.
Defined.

(** After two failures one retry is pending: the second. *)
Lemma reachable_one_retry_witness :
  let w := world_after hoisted_globals events_retrying world_reset in
  (length (pending_retries w) ≤ 1)%nat
  ∧ ∀ k, k ∈ pending_retries w → _retry_task (self w) = Some k.
Proof.
  apply (reachable_one_retry hoisted_globals reliable "C8:B2:1E:3A:5F:01").
  apply reachable_events_retrying.
Defined.

Lemma reachable_timing_ok_witness :
  timing_ok (world_after hoisted_globals events_weighed world_reset).
Proof.
  apply (reachable_timing_ok hoisted_globals reliable "C8:B2:1E:3A:5F:01").
  apply reachable_events_weighed.
Defined.

Lemma reachable_state_ok_witness :
  state_ok (world_after hoisted_globals events_weighed world_reset).
Proof.
  apply (reachable_state_ok hoisted_globals reliable "C8:B2:1E:3A:5F:01").
  apply reachable_events_weighed.
Defined.

Lemma reachable_single_link_witness :
  let w := world_after hoisted_globals events_weighed world_reset in
  (length (live (clients w)) ≤ 1)%nat
  ∧ ∀ c, c ∈ live (clients w) → _client (self w) = Some c.
Proof.
  apply (reachable_single_link hoisted_globals "C8:B2:1E:3A:5F:01").
  apply reachable_events_weighed.
Defined.

(** The same events in the module as it is written. *)
Lemma reachable_module_silent_witness :
  silent (world_after module_globals events_weighed world_reset).
Proof.
  apply (reachable_module_silent reliable "C8:B2:1E:3A:5F:01").
  apply reachable_events_weighed.
Defined.
