(* ===== verification/Machine.v ===== *)
(** * Machine: the connection state machine of the specification

    The specification describes the sensor as a machine over four
    connection states, with a table of transitions (section 4.2) and the
    value the host reads.  The code has no variable for the state: it is
    connected when the client it holds has a link, and it awaits a retry
    when the retry task it holds is pending.

    [transition] is the table; [triggers] gives, for an event of the code,
    the rows of the table it goes through; [sim] relates a world of the
    code to a state of the machine.  On the runs whose events are
    [nominal] the code is simulated by the machine.  The events that are
    not nominal are those on which the code leaves the table: a
    [start_notify] that fails, a [disconnect()] that keeps the link, and a
    link the peer drops, for which the table has no row.

    Six rows of [transition] are not in the table.  The table is that
    of a machine whose timers are cancelled when they are re-armed and
    at teardown, so that a timer fires only in the state that armed it;
    the code cancels neither the idle timer when the link goes nor the
    retry when a later attempt succeeds, and Home Assistant polls in
    every state.  The rows say what the description of the operations
    says of these events (section 4.2, [ensure_connected] and
    [disconnect]), or what the code does where the specification is
    silent:

    - a request in [AwaitingRetry] is an attempt to connect, as in
      [Disconnected] ([async_update] does not look at the retry);
    - a request in [Connected] changes nothing ([ensure_connected] is a
      no-op there);
    - the idle timer that fires in [Disconnected] or in [AwaitingRetry]
      changes nothing ([disconnect] is a no-op without a link);
    - a retry that fires in [Disconnected] is an attempt to connect, and
      a retry that fires in [Connected] changes nothing: it is a
      request.

    The simulation is therefore one by the table so widened; on the runs
    in which these events do not occur it is one by the table of the
    specification. *)

From S2P Require Import Prelude PyStruct Decoder EventLoop Transport Sensor.
From S2P Require Import Lifecycle Invariants.

#[local] Open Scope Z_scope.

(** ** The machine *)

Inductive ConnectionState : Set :=
  | Disconnected
  | Connecting
  | Connected
  | AwaitingRetry.

#[export] Instance ConnectionState_eq_dec : EqDecision ConnectionState.
Proof. solve_decision. Defined.

(** The connection state and the last known value. *)
Record Manager := {
  conn : ConnectionState;
  current_weight_grams : option Z;
  is_available : bool;
}.

Definition initial : Manager :=
  {| conn := Disconnected; current_weight_grams := None;
     is_available := false |}.

(** The triggers of the table. *)
Inductive trigger : Set :=
  | Request
  | Succeeds
  | Fails
  | Reading (w : Z)
  | NoReading
  | IdleFires
  | RetryFires
  | TeardownRequest.

Definition goes (c : ConnectionState) (m : Manager) : Manager :=
  {| conn := c; current_weight_grams := current_weight_grams m;
     is_available := is_available m |}.

Definition marked (a : bool) (m : Manager) : Manager :=
  {| conn := conn m; current_weight_grams := current_weight_grams m;
     is_available := a |}.

(** The table of section 4.2, row by row, and the six rows the header
    lists (a request in [AwaitingRetry] and in [Connected], the idle
    timer in [Disconnected] and in [AwaitingRetry], the retry in
    [Disconnected] and in [Connected]); [None] elsewhere. *)
Definition transition (t : trigger) (m : Manager) : option Manager :=
  match t, conn m with
  | Request, Disconnected => Some (goes Connecting m)
  | Request, AwaitingRetry => Some (goes Connecting m)
  | Request, Connected => Some m
  | Succeeds, Connecting => Some (marked true (goes Connected m))
  | Fails, Connecting => Some (marked false (goes AwaitingRetry m))
  | Reading w, Connected =>
      Some {| conn := Connected; current_weight_grams := Some w;
              is_available := true |}
  | NoReading, Connected => Some m
  | IdleFires, Connected => Some (marked false (goes Disconnected m))
  | IdleFires, Disconnected => Some m
  | IdleFires, AwaitingRetry => Some m
  | RetryFires, AwaitingRetry => Some (goes Connecting m)
  | RetryFires, Disconnected => Some (goes Connecting m)
  | RetryFires, Connected => Some m
  | TeardownRequest, _ => Some (marked false (goes Disconnected m))
  | _, _ => None
  end.

Fixpoint transitions (ts : list trigger) (m : Manager) : option Manager :=
  match ts with
  | [] => Some m
  | t :: ts' => m' ← transition t m; transitions ts' m'
  end.

(** ** From the code to the machine *)

(** How an attempt to connect ends. *)
Definition attempt (oc on : outcome) : trigger :=
  if is_Ok oc && is_Ok on then Succeeds else Fails.

Section triggers.
Context (globals : namespace).

(** What a notification is to the machine. *)
Definition reading_of (data : list byte) : trigger :=
  match decode_weight globals data with
  | Ok (Some x) => Reading x
  | _ => NoReading
  end.

(** The rows an event of the code goes through.  The firing of the idle
    timer is two events of the code: the timer, which starts a task and
    changes nothing the machine sees, and the task, which closes the
    connection. *)
Definition triggers (e : event) (w : World) : list trigger :=
  match e with
  | EvAdded oc on | EvUpdate oc on =>
      if linked w then [Request] else [Request; attempt oc on]
  | EvRetry _ oc on =>
      if linked w then [RetryFires] else [RetryFires; attempt oc on]
  | EvRemove _ => [TeardownRequest]
  | EvNotify _ data => [reading_of data]
  | EvDisconnect _ _ => [IdleFires]
  | EvTimer _ | EvAdvance _ | EvLinkLost _ => []
  end.

(** The rows a run goes through. *)
Fixpoint trace (es : list event) (w : World) : list trigger :=
  match es with
  | [] => []
  | e :: es' =>
      triggers e w
      ++ match step globals e w with
         | Some w' => trace es' w'
         | None => []
         end
  end.

End triggers.

(** The events on which the code stays within the table. *)
Definition nominal (e : event) : Prop :=
  match e with
  | EvAdded oc on | EvUpdate oc on | EvRetry _ oc on =>
      is_Ok oc = true → is_Ok on = true
  | EvRemove od | EvDisconnect _ od => reliable od
  | EvLinkLost _ => False
  | EvNotify _ _ | EvTimer _ | EvAdvance _ => True
  end.

(** What the machine and the code agree on, whatever the loop holds. *)
Record sim0 (w : World) (m : Manager) : Prop := {
  sim_conn : conn m = Connected ↔ eval client_connected w = Ok true;
  sim_settled : conn m ≠ Connecting;
  sim_idle : conn m ≠ Connected → is_available m = false;
  sim_weight : current_weight_grams m = state (self w);
  sim_available : is_available m = available (self w);
}.

(** In [AwaitingRetry] the retry the sensor holds is pending. *)
Definition awaited (w : World) (m : Manager) : Prop :=
  conn m = AwaitingRetry →
  ∃ k, _retry_task (self w) = Some k ∧ pending_at (tasks (loop w)) k = true.

Definition sim (w : World) (m : Manager) : Prop := sim0 w m ∧ awaited w m.

(** ** The machine, and what the methods leave *)

Section simulation.
Context (globals : namespace).
Implicit Types (w : World) (m : Manager) (oc on : outcome).

Lemma transitions_app ts ts' m :
  transitions (ts ++ ts') m = transitions ts m ≫= transitions ts'.
Proof.
  revert m. induction ts as [|t ts IH]; intros m; simpl; [done|].
  destruct (transition t m); simpl; [apply IH|done].
Qed.

Lemma sim0_on_loop f w m : sim0 w m → sim0 (on_loop f w) m.
Proof. intros []. by constructor. Qed.

(** A machine that is related to a sensor without a link is disconnected
    or awaits a retry. *)
Lemma sim0_not_linked w m :
  sim0 w m → eval client_connected w = Ok false →
  conn m = Disconnected ∨ conn m = AwaitingRetry.
Proof.
  intros [Hc Hs _ _ _] Hw. destruct (conn m); auto; [done|].
  destruct Hc as [Hc _]. by rewrite Hc in Hw.
Qed.

Lemma sim0_linked w m :
  sim0 w m → eval client_connected w = Ok true → conn m = Connected.
Proof. intros [Hc _ _ _ _]. apply Hc. Qed.

(** The machine after the rows of an attempt that succeeds. *)
Lemma sim_connected w m :
  sim0 w m →
  sim (connected_world w) (marked true (goes Connected (goes Connecting m))).
Proof.
  intros [_ _ _ Hw _]. split; [|done]. constructor; simpl; try done.
  split; [intros _; apply connected_world_connected|done].
Qed.

(** The machine after the rows of an attempt that fails at [connect()]. *)
Lemma sim_connect_failed w m :
  sim0 w m →
  sim (connect_failed_world false w)
    (marked false (goes AwaitingRetry (goes Connecting m))).
Proof.
  intros [_ _ _ Hw _]. split.
  - constructor; simpl; try done.
    by rewrite (connect_failed_world_connected false).
  - intros _. eexists. split; [done|]. simpl.
    rewrite <- (length_cancel_opt (_retry_task (self w)) (tasks (loop w))).
    unfold pending_at. by rewrite lookup_snoc.
Qed.

(** The machine after [_disconnect]. *)
Lemma sim_disconnected od w m :
  sim0 w m →
  sim (disconnected_world od w) (marked false (goes Disconnected m)).
Proof. intros [_ _ _ Hw _]. split; [|done]. by constructor. Qed.

(** [_disconnect] on a sensor the machine holds for disconnected. *)
Lemma sim0_disconnected_idle od w m :
  sim0 w m → conn m ≠ Connected → sim0 (disconnected_world od w) m.
Proof.
  intros [Hc Hs Hi Hw Ha] Hm. constructor; simpl; try done. by apply Hi.
Qed.

(** A request, or a retry that fires, and the attempt that follows. *)
Lemma ensure_simulates first oc on w m :
  first = Request ∨ first = RetryFires →
  (is_Ok oc = true → is_Ok on = true) →
  sim0 w m →
  ∃ m',
    transitions (if linked w then [first] else [first; attempt oc on]) m
    = Some m'
    ∧ sim (exec (async_update oc on) w) m'.
Proof.
  intros Hfirst Hon Hsim. unfold exec.
  destruct (client_connected_cases w) as [Hc|Hc].
  - rewrite (proj2 (linked_true w) Hc), async_update_connected by done.
    pose proof (sim0_linked _ _ Hsim Hc) as Hm. exists m. split.
    + simpl. unfold transition. rewrite Hm. by destruct Hfirst as [-> | ->].
    + split; [done|]. intros Hr. congruence.
  - rewrite (proj2 (linked_false w) Hc), async_update_connect by done.
    assert (transition first m = Some (goes Connecting m)) as Hreq.
    { unfold transition.
      by destruct (sim0_not_linked _ _ Hsim Hc) as [-> | ->],
        Hfirst as [-> | ->]. }
    simpl. rewrite Hreq. simpl. destruct oc as [[]|e].
    + destruct on as [[]|e]; [|by specialize (Hon eq_refl)].
      rewrite connect_Ok by done. eexists. split; [done|].
      by apply sim_connected.
    + rewrite connect_Raise by done. eexists. split; [done|].
      by apply sim_connect_failed.
Qed.

(** A notification from the client the sensor holds. *)
Lemma notify_simulates c data w m :
  client_notifying (clients w) c = true → held_link w → sim w m →
  ∃ m',
    transitions [reading_of globals data] m = Some m'
    ∧ sim (exec (notification_handler globals data) w) m'.
Proof.
  intros Hn Hlink [Hsim Haw]. apply client_notifying_connected in Hn.
  pose proof (client_connected_held c w (Hlink c Hn) Hn) as Hc.
  pose proof (sim0_linked _ _ Hsim Hc) as Hm.
  unfold exec, reading_of. simpl. unfold transition. rewrite Hm.
  destruct (decode_weight globals data) as [[x|]|e] eqn:E.
  - rewrite (notification_handler_stable _ _ _ _ E). eexists. split; [done|].
    destruct Hsim. split; [by constructor|done].
  - rewrite notification_handler_unstable by done. by exists m.
  - rewrite (notification_handler_raise _ _ _ _ E). by exists m.
Qed.

(** The retry the machine awaits stays pending when the world changes
    around it. *)
Lemma awaited_tasks w w' m :
  _retry_task (self w') = _retry_task (self w) →
  (∀ k, _retry_task (self w) = Some k →
     pending_at (tasks (loop w)) k = true →
     pending_at (tasks (loop w')) k = true) →
  awaited w m → awaited w' m.
Proof.
  intros Hr Hp Haw Hm. destruct (Haw Hm) as (k & Hk & Hpk).
  exists k. rewrite Hr. auto.
Qed.

(** The idle timer fires: nothing the machine sees. *)
Lemma timer_simulates h w m :
  sim w m → sim (exec (modify (on_loop (timer_fired h));; disconnect) w) m.
Proof.
  intros [Hsim Haw]. rewrite exec_modify. unfold exec.
  destruct (client_connected_cases (on_loop (timer_fired h) w)) as [Hc|Hc].
  - rewrite disconnect_connected by done. split; [by do 2 apply sim0_on_loop|].
    intros Hm. pose proof (sim0_linked _ _ Hsim Hc). congruence.
  - rewrite disconnect_idle by done. split; [by apply sim0_on_loop|].
    by eapply awaited_tasks.
Qed.

(** The task of [_disconnect] runs. *)
Lemma disconnect_simulates k od w m :
  task_is (loop w) k CoDisconnect = true → refs_ok w → sim w m →
  ∃ m',
    transitions [IdleFires] m = Some m'
    ∧ sim (disconnected_world od (on_loop (task_finished k) w)) m'.
Proof.
  intros Hk Hrefs [Hsim Haw]. simpl. unfold transition.
  destruct (conn m) eqn:Hm; [| by destruct Hsim | |].
  2:{ eexists. split; [done|].
      apply sim_disconnected, sim0_on_loop, Hsim. }
  all: exists m; split; [done|]; split.
  all: try (apply sim0_disconnected_idle; [by apply sim0_on_loop|congruence]).
  - intros Hm'. congruence.
  - eapply awaited_tasks; [| |done]; [done|]. intros k' Hk' Hp. simpl.
    rewrite pending_at_finish_at, decide_False; [done|]. intros ->.
    apply bool_decide_eq_true in Hk. rewrite (retry_ok _ Hrefs _ Hk') in Hk.
    done.
Qed.

(** What the simulation needs of a world: the invariants of [Invariants]
    that hold with a transport that drops the link when asked to. *)
Record settled (w : World) : Prop := {
  settled_refs : refs_ok w;
  settled_retry : one_retry w;
  settled_link : held_link w;
}.

Lemma reachable_settled addr w :
  reachable globals reliable addr w → settled w.
Proof.
  intros Hw. split; revert w Hw.
  - apply (reachable_invariant globals reliable refs_ok);
      [apply refs_ok_init|apply refs_ok_move].
  - apply (reachable_invariant globals reliable one_retry);
      [apply one_retry_init|apply one_retry_move].
  - apply (reachable_invariant globals reliable held_link);
      [apply held_link_init|apply held_link_move].
Qed.

Lemma nominal_permitted e : nominal e → permitted reliable e.
Proof. destruct e; simpl; intros Hn od' [= <-]; done. Qed.

Lemma transitions_teardown m :
  transitions [TeardownRequest] m
  = Some (marked false (goes Disconnected m)).
Proof. simpl. unfold transition. by destruct (conn m). Qed.

(** Every nominal step of the code is the rows of the table [triggers]
    names. *)
Lemma step_simulates e w w' m :
  nominal e → settled w → sim w m → step globals e w = Some w' →
  ∃ m', transitions (triggers globals e w) m = Some m' ∧ sim w' m'.
Proof.
  intros Hn [Hrefs Hretry Hlink] Hsim. unfold step.
  destruct (enabled e w) eqn:He; [|done]. intros [= <-].
  destruct e; simpl in Hn, He; simpl handler; simpl triggers.
  - apply ensure_simulates; [auto..|apply Hsim].
  - apply ensure_simulates; [auto..|apply Hsim].
  - rewrite transitions_teardown. unfold exec.
    rewrite async_will_remove_from_hass_run. eexists. split; [done|].
    apply sim_disconnected, sim0_on_loop, Hsim.
  - by eapply notify_simulates.
  - done.
  - exists m. split; [done|]. by apply timer_simulates.
  - rewrite exec_modify.
    apply (ensure_simulates RetryFires oc on (on_loop (task_finished k) w));
      [auto..|].
    apply sim0_on_loop, Hsim.
  - rewrite exec_modify. unfold exec. rewrite _disconnect_run.
    apply andb_true_iff in He as [_ Hk]. by apply disconnect_simulates.
  - exists m. split; [done|]. destruct Hsim as [Hsim Haw].
    split; [by apply sim0_on_loop|by eapply awaited_tasks].
Qed.

(** A nominal run from a reachable world that the machine simulates. *)
Lemma run_simulates addr es w0 w m0 :
  Forall nominal es → reachable globals reliable addr w0 → sim w0 m0 →
  run globals es w0 = Some w →
  ∃ m, transitions (trace globals es w0) m0 = Some m ∧ sim w m.
Proof.
  intros Hes. revert w0 m0.
  induction Hes as [|e es He _ IH]; intros w0 m0 Hw0 Hsim; simpl.
  { intros [= <-]. eauto. }
  destruct (step globals e w0) as [w1|] eqn:Hstep; [simpl|done]. intros Hrun.
  destruct (step_simulates e w0 w1 m0) as (m1 & Hm1 & Hsim1);
    [done|by eapply reachable_settled|done..|].
  destruct (IH w1 m1) as (m & Hm & Hsimm); [|done..|].
  { econstructor; [done|by apply nominal_permitted|done]. }
  exists m. by rewrite transitions_app, Hm1.
Qed.

Lemma sim_initial addr : sim (async_setup_entry addr) initial.
Proof. split; [by constructor|done]. Qed.

End simulation.

(** ** The code refines the machine *)

Section refinement.
Context (globals : namespace) (addr : string).

(** C18: On a run of nominal events from the set-up of the entity, the rows of
    the table the run goes through are transitions of the machine, and
    the machine ends in a state that agrees with the sensor: connected
    exactly when the sensor holds a client with a link, with the weight
    and the availability the sensor reports, and with a pending retry
    when it awaits one. *)
Theorem run_refines es w :
  Forall nominal es →
  run globals es (async_setup_entry addr) = Some w →
  ∃ m,
    transitions (trace globals es (async_setup_entry addr)) initial = Some m
    ∧ sim w m.
Proof.
  intros Hes. apply (run_simulates globals addr); [done| |].
  - constructor.
  - apply sim_initial.
Qed.

(** On a nominal run the entity is available only while it holds a client
    with a link. *)
Theorem run_available_linked es w :
  Forall nominal es →
  run globals es (async_setup_entry addr) = Some w →
  available (self w) = true → eval client_connected w = Ok true.
Proof.
  intros Hes Hrun Ha.
  destruct (run_simulates globals addr es (async_setup_entry addr) w initial
              Hes) as (m & _ & Hsim);
    [constructor|apply sim_initial|done|].
  destruct Hsim as [[Hc _ Hi _ Hav] _]. apply Hc.
  destruct (decide (conn m = Connected)) as [|Hm]; [done|].
  apply Hi in Hm. congruence.
Qed.

End refinement.

(** ** Outside the nominal events *)

(** Each restriction of [nominal] is needed.  After a link the peer
    drops, and after a notification from a client the sensor forgot while
    its link was kept, the sensor is available without a link: no state of
    the machine agrees with it.  After a [start_notify] that fails the
    table is in [AwaitingRetry] and the sensor holds a link. *)
Example nominal_needed addr :
  (∃ w,
     run hoisted_globals [EvAdded (Ok ()) (Ok ()); EvLinkLost 0]
       (async_setup_entry addr) = Some w
     ∧ ∀ m, ¬ sim w m)
  ∧ (∃ w,
       run hoisted_globals
         [EvAdded (Ok ()) (Ok ()); EvAdvance 60; EvTimer 0;
          EvDisconnect 0 (DisconnectRaise BleakError false);
          EvNotify 0 scenario_stable] (async_setup_entry addr) = Some w
       ∧ ∀ m, ¬ sim w m)
  ∧ (∃ w m,
       let es := [EvAdded (Ok ()) (Raise BleakError)] in
       run hoisted_globals es (async_setup_entry addr) = Some w
       ∧ transitions (trace hoisted_globals es (async_setup_entry addr))
           initial = Some m
       ∧ conn m = AwaitingRetry
       ∧ eval client_connected w = Ok true).
Proof.
  split_and!.
  1,2: eexists; split; [by vm_compute|]; intros m [[Hc _ Hi _ Ha] _].
  1,2: destruct (decide (conn m = Connected)) as [Hm|Hm];
    [apply Hc in Hm; by vm_compute in Hm|].
  1,2: apply Hi in Hm; rewrite Hm in Ha; by vm_compute in Ha.
  eexists _, _. simpl. repeat (split; [by vm_compute|]). by vm_compute.
Qed.

(** ** The theorems on a first connection *)

Lemma nominal_events_weighed : Forall nominal events_weighed.
Proof. by repeat constructor. Qed.

Lemma run_refines_witness :
  ∃ m,
    transitions (trace hoisted_globals events_weighed world_reset) initial
    = Some m
    ∧ sim (world_after hoisted_globals events_weighed world_reset) m.
Proof.
  apply (run_refines hoisted_globals "C8:B2:1E:3A:5F:01" events_weighed);
    [apply nominal_events_weighed|by vm_compute].
Defined.

Lemma run_available_linked_witness :
  eval client_connected
    (world_after hoisted_globals events_weighed world_reset) = Ok true.
Proof.
  apply (run_available_linked hoisted_globals "C8:B2:1E:3A:5F:01"
           events_weighed);
    [apply nominal_events_weighed|by vm_compute..].
Defined.
