(* ===== verification/Interleaving.v ===== *)
(** * Interleaving: the coroutines between their await points

    In [Sensor] a coroutine runs from its first line to its last.  Here a
    coroutine runs to its next [await] and is suspended there, and the
    loop is free to run anything else before it resumes it: another call
    of [async_update], a notification, the task of [_disconnect].

    [connect] suspends at the lock of line 95 when the lock is held or
    awaited, at [connect()] (line 101) and at [start_notify] (line 105);
    [_disconnect] suspends at [disconnect()] (line 143).  The lock is an
    [asyncio.Lock]: it serves the coroutines that wait for it in the
    order they came, and a coroutine that finds others waiting waits
    behind them.  A suspended coroutine is a [frame]; it remembers the
    client object whose method it awaits, because [self._client] was
    read when the call was made and may have been assigned since, and
    the retry task that runs it, if one does.

    The sleep of [_retry_connect] is the wake-up time of its task, as in
    [EventLoop]; a retry task whose sleep is over is finished for the
    store and lives on as the owner of its frame.  [cancel()] on a task
    that is suspended (lines 130 and 159) turns its frame into
    [Cancelled]: the loop resumes it with [CancelledError], which is no
    [Exception], so the [except] clauses of [connect] do not run and the
    lock is released by [async with].  [cancel()] on the task that is
    running, which happens when a retry fails and schedules the next, has
    no effect on the sensor: the coroutine has no [await] left.  A call
    of the transport that is cancelled leaves the client as it was.

    Assumed of the transport: a subscription takes effect when the
    coroutine that awaits [start_notify] resumes, not before.  A client
    delivers notifications ([LNotify]) from [resume_start_notify] on,
    the step that also arms the idle timer and releases the lock; a
    notification between the acknowledgement of the peer and that step
    is no behaviour of this loop.  [Early] adds it and shows what
    depends on the assumption. *)

From S2P Require Import Prelude PyStruct Decoder EventLoop Transport Sensor.
From S2P Require Import Lifecycle Invariants.

#[local] Open Scope Z_scope.

(** ** Suspended coroutines *)

Inductive frame : Set :=
  | AtLock (t : option nat)
  | AtConnect (t : option nat) (c : nat)
  | AtStartNotify (t : option nat) (c : nat)
  | AtDisconnect (c : nat)
  | Cancelled (inside : bool).

#[export] Instance frame_eq_dec : EqDecision frame.
Proof. solve_decision. Defined.

(** The world, the lock [self._connect_lock] and the suspended
    coroutines. *)
Record Sys := {
  world : World;
  locked : bool;
  frames : list frame;
}.

Definition boot (addr : string) : Sys :=
  {| world := async_setup_entry addr; locked := false; frames := [] |}.

Definition with_world (w : World) (s : Sys) : Sys :=
  {| world := w; locked := locked s; frames := frames s |}.

Definition on_world (f : World → World) (s : Sys) : Sys :=
  with_world (f (world s)) s.

Definition suspend (fr : frame) (s : Sys) : Sys :=
  {| world := world s; locked := locked s; frames := frames s ++ [fr] |}.

(** Entering and leaving [async with self._connect_lock]. *)
Definition acquire (s : Sys) : Sys :=
  {| world := world s; locked := true; frames := frames s |}.

Definition release (s : Sys) : Sys :=
  {| world := world s; locked := false; frames := frames s |}.

(** The frame the loop resumes, taken out of the suspended ones. *)
Definition take_frame (i : nat) (s : Sys) : option (frame * Sys) :=
  fr ← frames s !! i;
  Some (fr, {| world := world s; locked := locked s;
               frames := delete i (frames s) |}).

(** A coroutine that is inside [async with self._connect_lock]. *)
Definition critical (fr : frame) : bool :=
  match fr with
  | AtConnect _ _ | AtStartNotify _ _ => true
  | AtLock _ | AtDisconnect _ => false
  | Cancelled inside => inside
  end.

(** A coroutine that waits for the lock.  [asyncio.Lock] keeps its
    waiters in the order they came, which is the order of the frames. *)
Definition waiting (fr : frame) : bool :=
  match fr with
  | AtLock _ => true
  | _ => false
  end.

(** [Lock.acquire] returns at once only when the lock is free and no
    coroutine waits for it. *)
Definition contended (s : Sys) : bool :=
  locked s || existsb waiting (frames s).

(** The lock wakes the first of its waiters: no coroutine before frame
    [i] waits. *)
Definition first_waiting (i : nat) (s : Sys) : bool :=
  forallb (λ fr, negb (waiting fr)) (take i (frames s)).

(** The client whose method a coroutine awaits inside [connect]. *)
Definition awaits (fr : frame) : option nat :=
  match fr with
  | AtConnect _ c | AtStartNotify _ c => Some c
  | AtLock _ | AtDisconnect _ | Cancelled _ => None
  end.

(** The retry task that runs the coroutine, if one does. *)
Definition owner (fr : frame) : option nat :=
  match fr with
  | AtLock t | AtConnect t _ | AtStartNotify t _ => t
  | AtDisconnect _ | Cancelled _ => None
  end.

(** [task.cancel()] on a task that is suspended: whatever it awaits, the
    loop will resume it with [CancelledError]. *)
Definition cancel_frame (k : nat) (fr : frame) : frame :=
  if decide (owner fr = Some k) then Cancelled (critical fr) else fr.

Definition cancel_frames (task : option nat) (s : Sys) : Sys :=
  match task with
  | Some k => {| world := world s; locked := locked s;
                 frames := cancel_frame k <$> frames s |}
  | None => s
  end.

(** ** The methods, from one await to the next *)

(** Lines 100-101, up to the await: the client is built and stored, and
    [self._client] is read for the call of [connect()]. *)
Definition connect_open : M World (option nat) :=
  addr ← attr _address;
  c ← bleak_client addr 10;
  assign (set_client (Some c));;
  attr _client.

(** The [except] clauses of lines 114-125. *)
Definition connect_except (e : exn) : M World unit :=
  from_option id (raise e) (connect_failed e).

(** Lines 111-112: the initial idle timer. *)
Definition connect_arm : M World unit :=
  h ← loop_call_later 60 CbDisconnect;
  assign (set_disconnect_timer (Some h)).

(** An exception reaches the [except] clauses: [_schedule_retry] cancels
    the retry task the sensor holds, which may be suspended in [connect],
    and the lock is released. *)
Definition except_clause (e : exn) (s : Sys) : Sys :=
  cancel_frames (_retry_task (self (world s)))
    (release (on_world (exec (connect_except e)) s)).

(** [connect] with the lock in hand, in the coroutine of task [t]: the
    test of line 96, then the [try] block up to the await of line 101. *)
Definition connect_enter (t : option nat) (s : Sys) : Sys :=
  if linked (world s) then release s
  else
    match connect_open (world s) with
    | (Ok (Some c), w) => suspend (AtConnect t c) (acquire (with_world w s))
    | (Ok None, w) => except_clause AttributeError (with_world w s)
    | (Raise e, w) => except_clause e (with_world w s)
    end.

(** [async_update] (line 164) and [connect] up to its first await: the
    lock of line 95 when it is held or awaited. *)
Definition call_update (t : option nat) (s : Sys) : Sys :=
  if linked (world s) then s
  else if contended s then suspend (AtLock t) s
  else connect_enter t s.

(** [connect()] of client [c] ends: line 103, then [self._client] is read
    again for the call of [start_notify] (line 105). *)
Definition resume_connect (t : option nat) (c : nat) (oc : outcome) (s : Sys)
  : Sys :=
  let r := client_connect c oc (clients (world s)) in
  let w := on_clients (λ _, r.2) (world s) in
  match r.1 with
  | Ok _ =>
      let w1 := exec (assign (set_available true)) w in
      match _client (self w1) with
      | Some c' => suspend (AtStartNotify t c') (with_world w1 s)
      | None => except_clause AttributeError (with_world w1 s)
      end
  | Raise e => except_clause e (with_world w s)
  end.

(** [start_notify] of client [c] ends: lines 111-112, or the [except]
    clauses; the lock is released.  The subscription takes effect here
    (see the header): the client delivers from this step on. *)
Definition resume_start_notify (c : nat) (on : outcome) (s : Sys) : Sys :=
  let r := client_start_notify c NOTIFY_CHAR on (clients (world s)) in
  let w := on_clients (λ _, r.2) (world s) in
  match r.1 with
  | Ok _ => release (with_world (exec connect_arm w) s)
  | Raise e => except_clause e (with_world w s)
  end.

(** [CancelledError] reaches a coroutine: it is no [Exception], so no
    [except] clause of [connect] runs, and the lock is released when the
    coroutine was inside. *)
Definition resume_cancelled (inside : bool) (s : Sys) : Sys :=
  if inside then release s else s.

(** The [finally] clause of [_disconnect], lines 147-150. *)
Definition disconnect_finally : M World unit :=
  assign (set_client None);;
  assign (set_available false);;
  async_write_ha_state.

(** [_disconnect] up to the await of line 143.  On [None] the call raises
    [AttributeError], which line 145 catches. *)
Definition disconnect_enter (s : Sys) : Sys :=
  match _client (self (world s)) with
  | Some c => suspend (AtDisconnect c) s
  | None => on_world (exec disconnect_finally) s
  end.

(** [disconnect()] of client [c] ends, one way or the other. *)
Definition resume_disconnect (c : nat) (od : disconnect_outcome) (s : Sys)
  : Sys :=
  on_world
    (λ w, exec disconnect_finally
            (on_clients (λ cs, (client_disconnect c od cs).2) w)) s.

(** Lines 158-159. *)
Definition cancel_retry : M World unit :=
  task ← attr _retry_task;
  match task with
  | Some k => loop_task_cancel k
  | None => pass
  end.

(** ** Steps *)

Inductive label : Type :=
  | LUpdate
  | LRetry (k : nat)
  | LLock (i : nat)
  | LConnect (i : nat) (oc : outcome)
  | LStartNotify (i : nat) (on : outcome)
  | LTimer (h : nat)
  | LDisconnectTask (k : nat)
  | LDisconnect (i : nat) (od : disconnect_outcome)
  | LRemove
  | LCancelled (i : nat)
  | LNotify (c : nat) (data : list byte)
  | LLinkLost (c : nat)
  | LAdvance (dt : Z).

Section steps.
Context (globals : namespace).

(** One step of the loop: a call of a hook, a callback, or a suspended
    coroutine that resumes and runs to its next await. *)
Definition sstep (l : label) (s : Sys) : option Sys :=
  let w := world s in
  match l with
  | LUpdate => Some (call_update None s)
  | LRetry k =>
      if task_due (loop w) k && task_is (loop w) k CoRetryConnect
      then Some (call_update (Some k) (on_world (on_loop (task_finished k)) s))
      else None
  | LLock i =>
      match take_frame i s with
      | Some (AtLock t, s') =>
          if locked s || negb (first_waiting i s) then None
          else Some (connect_enter t s')
      | _ => None
      end
  | LConnect i oc =>
      match take_frame i s with
      | Some (AtConnect t c, s') => Some (resume_connect t c oc s')
      | _ => None
      end
  | LStartNotify i on =>
      match take_frame i s with
      | Some (AtStartNotify _ c, s') => Some (resume_start_notify c on s')
      | _ => None
      end
  | LTimer h =>
      if timer_due (loop w) h
      then Some (on_world
                   (exec (modify (on_loop (timer_fired h));; disconnect)) s)
      else None
  | LDisconnectTask k =>
      if task_due (loop w) k && task_is (loop w) k CoDisconnect
      then Some (disconnect_enter (on_world (on_loop (task_finished k)) s))
      else None
  | LDisconnect i od =>
      match take_frame i s with
      | Some (AtDisconnect c, s') => Some (resume_disconnect c od s')
      | _ => None
      end
  | LRemove =>
      Some (disconnect_enter
              (cancel_frames (_retry_task (self w))
                 (on_world (exec cancel_retry) s)))
  | LCancelled i =>
      match take_frame i s with
      | Some (Cancelled inside, s') => Some (resume_cancelled inside s')
      | _ => None
      end
  | LNotify c data =>
      if client_notifying (clients w) c
      then Some (on_world (exec (notification_handler globals data)) s)
      else None
  | LLinkLost c =>
      if client_is_connected (clients w) c
      then Some (on_world (on_clients (link_lost c)) s)
      else None
  | LAdvance dt =>
      if bool_decide (0 ≤ dt) then Some (on_world (on_loop (advance dt)) s)
      else None
  end.

Fixpoint srun (ls : list label) (s : Sys) : option Sys :=
  match ls with
  | [] => Some s
  | l :: ls' => s' ← sstep l s; srun ls' s'
  end.

Inductive sreachable (addr : string) : Sys → Prop :=
  | sreachable_boot : sreachable addr (boot addr)
  | sreachable_step s l s' :
      sreachable addr s → sstep l s = Some s' → sreachable addr s'.

End steps.

(** The coroutines that are inside [async with self._connect_lock]. *)
Definition inside (fs : list frame) : nat :=
  length (filter (λ fr, critical fr = true) fs).

(** The lock is held exactly when one coroutine is inside. *)
Definition lock_ok (s : Sys) : Prop :=
  inside (frames s) = if locked s then 1%nat else 0%nat.

(** ** Runs and invariants *)

(** The world after lines 100-101, before [connect()] is awaited. *)
Definition opened (w : World) : World :=
  {| self := set_client (Some (length (clients w))) (self w);
     clients := clients w ++ [client_of w false None];
     loop := loop w;
     ha_states := ha_states w |}.

(** The link of a client comes up. *)
Definition link_up (c : nat) (cs : list BleakClient) : list BleakClient :=
  alter (with_link true None) c cs.

(** The retry task an attempt cancels: the one the sensor holds, when the
    attempt fails. *)
Definition cancelled_by (oc on : outcome) (w : World) : option nat :=
  if linked w || is_Ok oc && is_Ok on then None else _retry_task (self w).

(** The labels of an attempt that nothing interrupts: the call, the end
    of [connect()], and the end of [start_notify] if it was called. *)
Definition attempt_labels (n : nat) (oc on : outcome) : list label :=
  LUpdate :: LConnect n oc :: (if is_Ok oc then [LStartNotify n on] else []).

(** The labels of a run in which [_disconnect] does not run: neither the
    task the idle timer creates, nor the call at removal. *)
Definition quiet (l : label) : bool :=
  match l with
  | LDisconnectTask _ | LDisconnect _ _ | LRemove => false
  | _ => true
  end.

(** A step at which [_disconnect] is not disturbed: when [disconnect()]
    ends it has dropped the link, no coroutine awaits the transport
    inside [connect], and the client the sensor holds, if any, is still
    the one [_disconnect] called. *)
Definition undisturbed (l : label) (s : Sys) : bool :=
  match l with
  | LDisconnect i od =>
      drops od && forallb (λ fr, bool_decide (awaits fr = None)) (frames s)
      && match frames s !! i, _client (self (world s)) with
         | Some (AtDisconnect c), Some c' => bool_decide (c = c')
         | _, _ => true
         end
  | _ => true
  end.

Fixpoint undisturbed_run (globals : namespace) (ls : list label) (s : Sys)
  : bool :=
  match ls with
  | [] => true
  | l :: ls' =>
      undisturbed l s
      && from_option (undisturbed_run globals ls') true (sstep globals l s)
  end.

(** The client a coroutine inside the lock awaits is the client the
    sensor holds. *)
Definition awaits_held (s : Sys) : Prop :=
  ∀ fr c, fr ∈ frames s → awaits fr = Some c →
    _client (self (world s)) = Some c.

Record guarded (s : Sys) : Prop := {
  guarded_lock : lock_ok s;
  guarded_link : held_link (world s);
  guarded_frames : awaits_held s;
}.

(** The state after a run, for the runs that are possible. *)
Definition sys_after (globals : namespace) (ls : list label) (s : Sys) : Sys :=
  default s (srun globals ls s).

(** Two polls at once: the first awaits [start_notify] inside the lock,
    the second waits for the lock. *)
Definition labels_contended : list label :=
  [LUpdate; LUpdate; LConnect 0 (Ok ())].

(** A connection, a minute without a reading, the idle disconnect, and
    the poll that connects again. *)
Definition labels_idle_cycle : list label :=
  [LUpdate; LConnect 0 (Ok ()); LStartNotify 0 (Ok ());
   LAdvance 60; LTimer 0; LDisconnectTask 0; LDisconnect 0 DisconnectOk;
   LUpdate; LConnect 0 (Ok ()); LStartNotify 0 (Ok ())].

(** A poll fails and a retry is scheduled; a minute later the next poll
    holds the lock when the retry wakes up, and fails. *)
Definition labels_retry_waits : list label :=
  [LUpdate; LConnect 0 (Raise TimeoutError); LAdvance 60;
   LUpdate; LRetry 0; LConnect 0 (Raise BleakError)].

(** The entity is removed while its retry task awaits [connect()]. *)
Definition labels_removed_inside : list label :=
  [LUpdate; LConnect 0 (Raise TimeoutError); LAdvance 60; LRetry 0;
   LRemove; LDisconnect 1 DisconnectOk; LCancelled 0].

(** The entity is removed while a poll awaits [connect()]: [_disconnect]
    ends first, then [connect()] returns. *)
Definition labels_removed_racing : list label :=
  [LUpdate; LRemove; LDisconnect 1 DisconnectOk; LConnect 0 (Ok ())].

(** The same, but the link drops and the poll arrives while [_disconnect]
    awaits [disconnect()]. *)
Definition labels_race : list label :=
  [LUpdate; LConnect 0 (Ok ()); LStartNotify 0 (Ok ());
   LAdvance 60; LTimer 0; LDisconnectTask 0; LLinkLost 0;
   LUpdate; LDisconnect 0 DisconnectOk; LConnect 0 (Ok ())].

(** ** The lock *)

Section lock.
Context (globals : namespace).
Implicit Types (s : Sys) (fs : list frame) (fr : frame).

Lemma inside_snoc fs fr :
  inside (fs ++ [fr]) = (inside fs + if critical fr then 1 else 0)%nat.
Proof.
  unfold inside. rewrite filter_app, length_app. f_equal.
  rewrite filter_cons. by destruct (critical fr).
Qed.

Lemma inside_delete fs i fr :
  fs !! i = Some fr →
  inside fs = (inside (delete i fs) + if critical fr then 1 else 0)%nat.
Proof.
  intros Hi. rewrite <- (take_drop_middle fs i fr Hi) at 1.
  rewrite delete_take_drop. unfold inside.
  rewrite !filter_app, filter_cons, !length_app.
  destruct (critical fr); [rewrite decide_True by done|
                           rewrite decide_False by done]; simpl; lia.
Qed.

Lemma take_frame_Some i s fr s' :
  take_frame i s = Some (fr, s') →
  frames s !! i = Some fr ∧ world s' = world s ∧ locked s' = locked s
  ∧ frames s' = delete i (frames s).
Proof.
  unfold take_frame. destruct (frames s !! i) as [fr'|]; [|done].
  by intros [= <- <-].
Qed.

(** Taking a coroutine that is inside leaves none inside; taking another
    leaves the lock as it is. *)
Lemma take_frame_inside i s fr s' :
  lock_ok s → take_frame i s = Some (fr, s') →
  if critical fr then locked s' = true ∧ inside (frames s') = 0%nat
  else lock_ok s'.
Proof.
  intros Hok (Hi & _ & Hl & Hf)%take_frame_Some. unfold lock_ok in *.
  rewrite Hl, Hf. apply inside_delete in Hi. revert Hok. rewrite Hi.
  destruct (critical fr), (locked s); lia || (intros; split; [done|lia]).
Qed.

Lemma lock_ok_on_world f s : lock_ok s → lock_ok (on_world f s).
Proof. done. Qed.

(** A cancelled coroutine stays where it is until the loop resumes it. *)
Lemma critical_cancel_frame k fr : critical (cancel_frame k fr) = critical fr.
Proof. unfold cancel_frame. by case_decide. Qed.

Lemma inside_cancel_frame k fs : inside (cancel_frame k <$> fs) = inside fs.
Proof.
  unfold inside. induction fs as [|fr fs IH]; [done|].
  rewrite fmap_cons, !filter_cons, critical_cancel_frame.
  case_decide; simpl; by rewrite IH.
Qed.

Lemma inside_cancel_frames task s :
  inside (frames (cancel_frames task s)) = inside (frames s).
Proof. destruct task; [apply inside_cancel_frame|done]. Qed.

Lemma locked_cancel_frames task s : locked (cancel_frames task s) = locked s.
Proof. by destruct task. Qed.

Lemma world_cancel_frames task s : world (cancel_frames task s) = world s.
Proof. by destruct task. Qed.

Lemma lock_ok_cancel_frames task s : lock_ok s → lock_ok (cancel_frames task s).
Proof.
  unfold lock_ok. by rewrite inside_cancel_frames, locked_cancel_frames.
Qed.

(** The [except] clauses end [connect]: the lock is free. *)
Lemma lock_ok_except e s :
  inside (frames s) = 0%nat → lock_ok (except_clause e s).
Proof.
  intros Hin. unfold except_clause. apply lock_ok_cancel_frames.
  by unfold lock_ok.
Qed.

Lemma lock_ok_connect_enter t s :
  locked s = false → lock_ok s → lock_ok (connect_enter t s).
Proof.
  unfold connect_enter. intros Hl Hok.
  assert (inside (frames s) = 0%nat) as Hin
    by (unfold lock_ok in Hok; by rewrite Hl in Hok).
  destruct (linked (world s)); [by unfold lock_ok|].
  destruct (connect_open (world s)) as [[[c|]|e] w];
    [|by apply lock_ok_except..].
  unfold lock_ok. simpl. by rewrite inside_snoc, Hin.
Qed.

Lemma contended_free s : contended s = false → locked s = false.
Proof. unfold contended. by intros [? _]%orb_false_elim. Qed.

Lemma lock_ok_call_update t s : lock_ok s → lock_ok (call_update t s).
Proof.
  intros Hok. unfold call_update. destruct (linked (world s)); [done|].
  destruct (contended s) eqn:Hl;
    [|by apply lock_ok_connect_enter; [apply contended_free|]].
  unfold lock_ok in *. simpl. by rewrite inside_snoc, Hok, Nat.add_0_r.
Qed.

Lemma lock_ok_resume_connect t c oc s :
  locked s = true → inside (frames s) = 0%nat →
  lock_ok (resume_connect t c oc s).
Proof.
  intros Hl Hin. unfold resume_connect.
  destruct (client_connect c oc (clients (world s))) as [[[]|e] cs]; simpl;
    [|by apply lock_ok_except].
  destruct (_client (self (world s))); [|by apply lock_ok_except].
  unfold lock_ok. simpl. by rewrite inside_snoc, Hl, Hin.
Qed.

Lemma lock_ok_resume_start_notify c on s :
  inside (frames s) = 0%nat → lock_ok (resume_start_notify c on s).
Proof.
  intros Hin. unfold resume_start_notify.
  destruct (client_start_notify _ _ _ _) as [[[]|e] cs]; simpl;
    [by unfold lock_ok|by apply lock_ok_except].
Qed.

Lemma lock_ok_disconnect_enter s : lock_ok s → lock_ok (disconnect_enter s).
Proof.
  intros Hok. unfold disconnect_enter.
  destruct (_client (self (world s))); [|done].
  unfold lock_ok in *. simpl. rewrite inside_snoc, Hok. simpl.
  destruct (locked s); lia.
Qed.

(** Every step keeps the lock and the coroutines inside in step. *)
Lemma sstep_lock_ok l s s' :
  lock_ok s → sstep globals l s = Some s' → lock_ok s'.
Proof.
  intros Hok. destruct l; simpl.
  - intros [= <-]. by apply lock_ok_call_update.
  - case_match; [|done]. intros [= <-]. by apply lock_ok_call_update.
  - destruct (take_frame i s) as [[[] s1]|] eqn:Ht; try done.
    apply (take_frame_inside _ _ _ _ Hok) in Ht as Hs1.
    apply take_frame_Some in Ht as (_ & _ & Hl & _).
    destruct (locked s) eqn:E; [done|].
    destruct (first_waiting i s); [simpl|done].
    intros [= <-]. apply lock_ok_connect_enter; [congruence|done].
  - destruct (take_frame i s) as [[[] s1]|] eqn:Ht; try done.
    apply (take_frame_inside _ _ _ _ Hok) in Ht as [Hl Hin].
    intros [= <-]. by apply lock_ok_resume_connect.
  - destruct (take_frame i s) as [[[] s1]|] eqn:Ht; try done.
    apply (take_frame_inside _ _ _ _ Hok) in Ht as [Hl Hin].
    intros [= <-]. by apply lock_ok_resume_start_notify.
  - case_match; [|done]. by intros [= <-].
  - case_match; [|done]. intros [= <-]. by apply lock_ok_disconnect_enter.
  - destruct (take_frame i s) as [[[] s1]|] eqn:Ht; try done.
    apply (take_frame_inside _ _ _ _ Hok) in Ht. by intros [= <-].
  - intros [= <-]. by apply lock_ok_disconnect_enter, lock_ok_cancel_frames.
  - destruct (take_frame i s) as [[[| | | |b] s1]|] eqn:Ht; try done.
    apply (take_frame_inside _ _ _ _ Hok) in Ht. intros [= <-].
    destruct b; [|done]. by destruct Ht as [_ Hin].
  - case_match; [|done]. by intros [= <-].
  - case_match; [|done]. by intros [= <-].
  - case_match; [|done]. by intros [= <-].
Qed.

End lock.

(** ** Mutual exclusion *)

(** In every reachable state the lock is held exactly when one coroutine
    is between the [async with] of line 95 and its end, and no two
    coroutines are: the attempts to connect are serialised. *)
Theorem sreachable_lock_ok globals addr s :
  sreachable globals addr s →
  lock_ok s ∧ (inside (frames s) ≤ 1)%nat.
Proof.
  intros Hs. assert (lock_ok s) as Hok.
  { induction Hs as [|s l s' _ IH Hstep]; [done|].
    by eapply sstep_lock_ok. }
  split; [done|]. unfold lock_ok in Hok. rewrite Hok.
  destruct (locked s); lia.
Qed.

(** A run from the start ends in a reachable state. *)
Lemma srun_app globals ls ls' s :
  srun globals (ls ++ ls') s = srun globals ls s ≫= srun globals ls'.
Proof.
  revert s. induction ls as [|l ls IH]; intros s; simpl; [done|].
  destruct (sstep globals l s); simpl; [apply IH|done].
Qed.

Lemma srun_sreachable globals addr ls s s' :
  sreachable globals addr s → srun globals ls s = Some s' →
  sreachable globals addr s'.
Proof.
  revert s. induction ls as [|l ls IH]; intros s Hs; simpl.
  - by intros [= <-].
  - destruct (sstep globals l s) as [s1|] eqn:E; [|done]. simpl.
    apply IH. by eapply sreachable_step.
Qed.

Lemma sreachable_sys_after globals addr ls :
  is_Some (srun globals ls (boot addr)) →
  sreachable globals addr (sys_after globals ls (boot addr)).
Proof.
  intros [s Hs]. unfold sys_after. rewrite Hs. simpl.
  eapply srun_sreachable; [constructor|done].
Qed.

(** ** A coroutine that is not interrupted *)

Section sequential.
Context (globals : namespace).
Implicit Types (s : Sys) (w : World) (oc on : outcome).

Lemma connect_open_run w :
  connect_open w = (Ok (Some (length (clients w))), opened w).
Proof. done. Qed.

Lemma connect_except_run e w :
  connect_except e w
  = (Ok (), retry_scheduled (on_self (set_available false) w)).
Proof.
  unfold connect_except. rewrite connect_failed_eq. simpl.
  unfold_M. unfold assign, modify. simpl. by rewrite _schedule_retry_run.
Qed.

Lemma srun_cons l ls s s1 :
  sstep globals l s = Some s1 → srun globals (l :: ls) s = srun globals ls s1.
Proof. intros Hs. simpl. by rewrite Hs. Qed.

(** The coroutine suspended last is the last of the frames. *)
Lemma take_frame_suspend fr s :
  take_frame (length (frames s)) (suspend fr s) = Some (fr, s).
Proof.
  unfold take_frame, suspend. simpl. rewrite lookup_snoc. simpl.
  rewrite delete_take_drop, take_app_length, drop_ge, app_nil_r
    by (rewrite length_app; simpl; lia).
  by destruct s.
Qed.

(** [connect()] ends for the coroutine suspended last. *)
Lemma sstep_connect t c oc s :
  sstep globals (LConnect (length (frames s)) oc) (suspend (AtConnect t c) s)
  = Some (resume_connect t c oc s).
Proof. simpl. by rewrite take_frame_suspend. Qed.

Lemma sstep_start_notify t c on s :
  sstep globals (LStartNotify (length (frames s)) on)
    (suspend (AtStartNotify t c) s)
  = Some (resume_start_notify c on s).
Proof. simpl. by rewrite take_frame_suspend. Qed.

Lemma sstep_disconnect c od s :
  sstep globals (LDisconnect (length (frames s)) od)
    (suspend (AtDisconnect c) s)
  = Some (resume_disconnect c od s).
Proof. simpl. by rewrite take_frame_suspend. Qed.

(** [connect()] returns for the client that was just built: the link is
    up, the sensor is available, and [start_notify] is awaited. *)
Lemma resume_connect_opened t w s :
  resume_connect t (length (clients w)) (Ok ())
    (acquire (with_world (opened w) s))
  = suspend (AtStartNotify t (length (clients w)))
      (acquire (with_world (on_self (set_available true)
                              (on_clients (link_up (length (clients w)))
                                 (opened w))) s)).
Proof. done. Qed.

(** [connect()] raises for the client that was just built. *)
Lemma resume_connect_Raise t w e s :
  resume_connect t (length (clients w)) (Raise e)
    (acquire (with_world (opened w) s))
  = cancel_frames (_retry_task (self w))
      (release (with_world (connect_failed_world false w) s)).
Proof.
  unfold resume_connect, except_clause, on_world, exec. simpl.
  by rewrite connect_except_run.
Qed.

(** [start_notify] ends for the client whose link just came up. *)
Lemma resume_start_notify_opened w on s :
  resume_start_notify (length (clients w)) on
    (acquire (with_world (on_self (set_available true)
                            (on_clients (link_up (length (clients w)))
                               (opened w))) s))
  = match on with
    | Ok _ => release (with_world (connected_world w) s)
    | Raise e =>
        cancel_frames (_retry_task (self w))
          (release (with_world (connect_failed_world true w) s))
    end.
Proof.
  unfold resume_start_notify, client_start_notify, client_is_connected,
    link_up. simpl. rewrite alter_snoc, lookup_snoc. simpl.
  destruct on as [[]|e]; simpl.
  - by rewrite alter_snoc.
  - unfold except_clause, on_world, exec. by rewrite connect_except_run.
Qed.

(** An attempt to connect that nothing interrupts, from the lock on, is
    the method [connect] of [Sensor]: the same world, the lock free
    again, the suspended coroutines as they were, but that a retry task
    the [except] clause cancelled is cancelled. *)
Lemma srun_attempt t oc on s :
  locked s = false → linked (world s) = false →
  srun globals
    (LConnect (length (frames s)) oc
     :: if is_Ok oc then [LStartNotify (length (frames s)) on] else [])
    (connect_enter t s)
  = Some (cancel_frames (cancelled_by oc on (world s))
            (with_world (exec (async_update oc on) (world s)) s)).
Proof.
  intros Hl Hc. unfold connect_enter, exec, cancelled_by. rewrite Hc.
  apply linked_false in Hc. rewrite async_update_connect by done.
  rewrite connect_open_run.
  rewrite (srun_cons _ _ _ _
             (sstep_connect t _ oc
                (acquire (with_world (opened (world s)) s)))).
  destruct oc as [[]|e]; simpl is_Ok; cbv iota.
  - rewrite resume_connect_opened.
    rewrite (srun_cons _ _ _ _
               (sstep_start_notify t _ on
                  (acquire (with_world
                     (on_self (set_available true)
                        (on_clients (link_up (length (clients (world s))))
                           (opened (world s)))) s)))).
    rewrite resume_start_notify_opened. simpl srun.
    unfold release, with_world. destruct on as [[]|e]; simpl.
    + by rewrite connect_Ok, Hl.
    + by rewrite connect_notify_Raise, Hl.
  - rewrite resume_connect_Raise, connect_Raise by done. simpl.
    unfold release, with_world. simpl. by rewrite Hl.
Qed.

(** An attempt to connect that nothing interrupts is the method
    [async_update] of [Sensor], run from its first line to its last: the
    same world, the lock free again, the suspended coroutines as they
    were. *)
Theorem sequential_update oc on s :
  contended s = false →
  srun globals
    (if linked (world s) then [LUpdate]
     else attempt_labels (length (frames s)) oc on) s
  = Some (cancel_frames (cancelled_by oc on (world s))
            (with_world (exec (async_update oc on) (world s)) s)).
Proof.
  intros Hfree. destruct (linked (world s)) eqn:Hc.
  - unfold exec, cancelled_by. rewrite Hc.
    rewrite async_update_connected by by apply linked_true.
    simpl. unfold call_update. rewrite Hc. by destruct s.
  - unfold attempt_labels. simpl srun at 1. unfold call_update.
    rewrite Hc, Hfree. simpl.
    by apply srun_attempt; [apply contended_free|].
Qed.

(** The task of [_disconnect], when nothing interrupts it, is the step
    [EvDisconnect] of [Lifecycle]. *)
Theorem sequential_disconnect k od s :
  srun globals
    (LDisconnectTask k
     :: match _client (self (world s)) with
        | Some _ => [LDisconnect (length (frames s)) od]
        | None => []
        end) s
  = (λ w, with_world w s) <$> step globals (EvDisconnect k od) (world s).
Proof.
  unfold step. simpl enabled. simpl handler.
  destruct (task_due _ _ && task_is _ _ _) eqn:He; [|simpl; by rewrite He].
  rewrite exec_modify. unfold exec. rewrite _disconnect_run.
  erewrite srun_cons by (simpl; by rewrite He).
  unfold disconnect_enter, disconnected_world.
  change (_client (self (world (on_world ?f s))))
    with (_client (self (world s))).
  change (_client (self (on_loop ?f (world s))))
    with (_client (self (world s))).
  destruct (_client (self (world s))) as [c|] eqn:Hs; [|done].
  by rewrite (srun_cons _ _ _ _
                (sstep_disconnect c od
                   (on_world (on_loop (task_finished k)) s))).
Qed.

End sequential.

(** ** What the lock gives *)

Section guard.
Context (globals : namespace).
Implicit Types (s : Sys) (w : World) (fs : list frame).

Lemma inside_0 fs fr : inside fs = 0%nat → fr ∈ fs → critical fr = false.
Proof.
  unfold inside. intros Hin Hfr. destruct (critical fr) eqn:E; [|done].
  assert (fr ∈ filter (λ fr, critical fr = true) fs) as Hf
    by by apply list_elem_of_filter.
  destruct (filter _ fs); [by apply elem_of_nil in Hf|done].
Qed.

Lemma awaits_critical fr c : awaits fr = Some c → critical fr = true.
Proof. by destruct fr. Qed.

(** With no coroutine inside the lock, nothing is awaited. *)
Lemma awaits_held_outside w l fs :
  inside fs = 0%nat → awaits_held {| world := w; locked := l; frames := fs |}.
Proof.
  intros Hin fr c Hfr Hc. apply (inside_0 _ _ Hin) in Hfr.
  by rewrite (awaits_critical _ _ Hc) in Hfr.
Qed.

(** A step that touches neither the clients nor the reference to the
    client. *)
Lemma guarded_on_world f s :
  (clients (f (world s)) = clients (world s)) →
  (_client (self (f (world s))) = _client (self (world s))) →
  guarded s → guarded (on_world f s).
Proof.
  intros Hcs Hc [Hlock Hlink Hfr]. split; [done|..].
  - intros c. simpl. rewrite Hcs, Hc. apply Hlink.
  - intros fr c. simpl. rewrite Hc. apply Hfr.
Qed.

(** A coroutine that suspends and awaits no client. *)
Lemma guarded_suspend fr s :
  critical fr = false → guarded s → guarded (suspend fr s).
Proof.
  intros Hfr' [Hlock Hlink Hfr]. split; [|done|].
  - unfold lock_ok in *. simpl. rewrite inside_snoc, Hlock, Hfr'. lia.
  - intros fr1 c. simpl. rewrite elem_of_app, list_elem_of_singleton.
    intros [Hin| ->]; [by apply Hfr|].
    intros Hc. by rewrite (awaits_critical _ _ Hc) in Hfr'.
Qed.

(** A coroutine that suspends inside [connect], the first to be inside,
    and awaits the client the sensor holds. *)
Lemma guarded_suspend_inside fr w s :
  locked s = true → inside (frames s) = 0%nat → critical fr = true →
  held_link w → (∀ c, awaits fr = Some c → _client (self w) = Some c) →
  guarded (suspend fr (with_world w s)).
Proof.
  intros Hl Hin Hfr Hlink Hc. split; [|done|].
  - unfold lock_ok. simpl. by rewrite inside_snoc, Hin, Hfr, Hl.
  - intros fr1 c. simpl. rewrite elem_of_app, list_elem_of_singleton.
    intros [Hfs| ->]; [|by apply Hc].
    apply (inside_0 _ _ Hin) in Hfs.
    intros Hc1. by rewrite (awaits_critical _ _ Hc1) in Hfs.
Qed.

(** [task.cancel()] only takes coroutines away from the transport. *)
Lemma guarded_cancel_frames task s : guarded s → guarded (cancel_frames task s).
Proof.
  intros [Hlock Hlink Hfr]. split; [by apply lock_ok_cancel_frames|..].
  - by rewrite world_cancel_frames.
  - destruct task as [k|]; [|done]. intros fr c. simpl.
    intros (fr0 & -> & Hin)%list_elem_of_fmap. unfold cancel_frame.
    case_decide; [done|]. by apply Hfr.
Qed.

(** The [except] clauses touch neither the clients nor the reference. *)
Lemma guarded_except e s :
  inside (frames s) = 0%nat → held_link (world s) →
  guarded (except_clause e s).
Proof.
  intros Hin Hlink. apply guarded_cancel_frames.
  unfold release, on_world, exec. simpl. rewrite connect_except_run.
  split; [by unfold lock_ok|done|by apply awaits_held_outside].
Qed.

(** [connect] with the lock in hand. *)
Lemma guarded_connect_enter t s :
  locked s = false → guarded s → guarded (connect_enter t s).
Proof.
  intros Hl [Hlock Hlink Hfr]. unfold connect_enter.
  destruct (linked (world s)) eqn:Hc.
  { split; [|done..]. unfold lock_ok in *. simpl. by rewrite Hl in Hlock. }
  rewrite connect_open_run. apply linked_false in Hc.
  assert (inside (frames s) = 0%nat) as Hin
    by (unfold lock_ok in Hlock; by rewrite Hl in Hlock).
  apply (guarded_suspend_inside _ _ (acquire s));
    [done..| |by intros c [= <-]].
  by eapply (held_link_snoc (world s)).
Qed.

Lemma guarded_call_update t s : guarded s → guarded (call_update t s).
Proof.
  intros Hg. unfold call_update. destruct (linked (world s)); [done|].
  destruct (contended s) eqn:Hl; [by apply guarded_suspend|].
  by apply guarded_connect_enter; [apply contended_free|].
Qed.

(** [connect()] ends for the client the sensor holds. *)
Lemma guarded_resume_connect t c oc s :
  locked s = true → inside (frames s) = 0%nat → held_link (world s) →
  _client (self (world s)) = Some c →
  guarded (resume_connect t c oc s).
Proof.
  intros Hl Hin Hlink Hs. unfold resume_connect.
  destruct oc as [[]|e]; simpl; [|by apply guarded_except].
  rewrite Hs. apply guarded_suspend_inside; [done..| |by intros c' [= <-]].
  intros c'. simpl. rewrite client_is_connected_alter.
  case_decide; [by subst|apply Hlink].
Qed.

(** [start_notify] ends. *)
Lemma guarded_resume_start_notify c on s :
  inside (frames s) = 0%nat → held_link (world s) →
  guarded (resume_start_notify c on s).
Proof.
  intros Hin Hlink. unfold resume_start_notify, client_start_notify.
  destruct (client_is_connected (clients (world s)) c) eqn:Hc;
    [|by apply guarded_except].
  destruct on as [[]|e]; simpl; [|by apply guarded_except].
  split; [by unfold lock_ok| |by apply awaits_held_outside].
  intros c'. simpl. rewrite client_is_connected_alter.
  case_decide; [subst; intros _; by apply Hlink|apply Hlink].
Qed.

(** A notification touches neither the clients nor the reference. *)
Lemma notification_handler_clients data w :
  let w' := exec (notification_handler globals data) w in
  clients w' = clients w ∧ _client (self w') = _client (self w).
Proof.
  unfold exec. destruct (decode_weight globals data) as [[x|]|e] eqn:E.
  - by rewrite (notification_handler_stable _ _ _ _ E).
  - by rewrite notification_handler_unstable.
  - by rewrite (notification_handler_raise _ _ _ _ E).
Qed.

(** Neither does the callback of the idle timer. *)
Lemma disconnect_clients w :
  clients (exec disconnect w) = clients w
  ∧ _client (self (exec disconnect w)) = _client (self w).
Proof.
  unfold exec. destruct (client_connected_cases w) as [Hc|Hc].
  - by rewrite disconnect_connected.
  - by rewrite disconnect_idle.
Qed.

(** Nor does the cancellation of the retry at removal. *)
Lemma cancel_retry_clients w :
  clients (exec cancel_retry w) = clients w
  ∧ _client (self (exec cancel_retry w)) = _client (self w).
Proof.
  unfold exec, cancel_retry. unfold_M. unfold attr, gets. simpl.
  by destruct (_retry_task (self w)).
Qed.

(** The [finally] clause of [_disconnect], when no client holds a link
    and no coroutine awaits the transport inside [connect]. *)
Lemma guarded_forget f s :
  lock_ok s → (∀ fr, fr ∈ frames s → awaits fr = None) →
  (∀ c, client_is_connected (clients (f (world s))) c = false) →
  guarded (on_world (λ w, exec disconnect_finally (f w)) s).
Proof.
  intros Hlock Hfr Hcs. split; [done|..].
  - intros c. simpl. by rewrite Hcs.
  - intros fr c Hin. by rewrite (Hfr _ Hin).
Qed.

(** [_disconnect] up to its await. *)
Lemma guarded_disconnect_enter s : guarded s → guarded (disconnect_enter s).
Proof.
  intros Hg. unfold disconnect_enter.
  destruct (_client (self (world s))) as [c|] eqn:Hc;
    [by apply guarded_suspend|].
  destruct Hg as [Hlock Hlink Hfr]. apply (guarded_forget id); [done|..].
  - intros fr Hin. destruct (awaits fr) as [c|] eqn:E; [|done].
    by rewrite (Hfr _ c Hin) in Hc.
  - intros c. destruct (client_is_connected _ c) eqn:E; [|done].
    apply Hlink in E. simpl in *. congruence.
Qed.

(** [disconnect()] ends and has dropped the link, with no coroutine
    awaiting the transport inside [connect] and the client still the one
    the sensor holds. *)
Lemma guarded_resume_disconnect c od s :
  drops od = true → (∀ fr, fr ∈ frames s → awaits fr = None) →
  (∀ c', _client (self (world s)) = Some c' → c = c') →
  guarded s → guarded (resume_disconnect c od s).
Proof.
  intros Hod Hfs Hc [Hlock Hlink Hfr].
  apply (guarded_forget
           (on_clients (λ cs, (client_disconnect c od cs).2))); [done..|].
  intros c'. simpl. destruct (client_is_connected _ c') eqn:E; [|done].
  pose proof (client_disconnect_mono _ _ _ _ E) as Hup.
  apply Hlink, Hc in Hup as <-.
  by rewrite client_disconnect_drops in E.
Qed.

(** The coroutine the loop resumes: one inside the lock awaits the client
    the sensor holds and leaves none inside; another leaves the guard. *)
Lemma take_frame_guarded i s fr s1 :
  guarded s → take_frame i s = Some (fr, s1) →
  held_link (world s1)
  ∧ if critical fr
    then locked s1 = true ∧ inside (frames s1) = 0%nat
         ∧ ∀ c, awaits fr = Some c → _client (self (world s1)) = Some c
    else guarded s1.
Proof.
  intros [Hlock Hlink Hfr] Ht.
  pose proof (take_frame_inside _ _ _ _ Hlock Ht) as Hin.
  apply take_frame_Some in Ht as (Hi & Hw & Hl & Hf).
  rewrite Hw. split; [done|].
  destruct (critical fr).
  - destruct Hin as [? ?]. split_and!; [done..|].
    intros c Hc. apply (Hfr fr); [|done]. by eapply list_elem_of_lookup_2.
  - split; [done|by rewrite Hw|].
    intros fr' c. rewrite Hf, Hw. intros Hin'%list_elem_of_delete_inv.
    by apply Hfr.
Qed.

(** [_disconnect] resumed undisturbed. *)
Lemma undisturbed_resume i od s c s1 :
  undisturbed (LDisconnect i od) s → guarded s →
  take_frame i s = Some (AtDisconnect c, s1) →
  guarded (resume_disconnect c od s1).
Proof.
  intros Hq Hg Ht.
  pose proof Ht as (Hi & Hw & Hl & Hf)%take_frame_Some.
  apply (take_frame_guarded _ _ _ _ Hg) in Ht as [_ Hg1].
  revert Hq. simpl. rewrite Hi.
  intros [[Hod Hfs]%andb_prop_elim Hc]%andb_prop_elim.
  apply guarded_resume_disconnect; [by apply Is_true_true| | |done].
  - intros fr. rewrite Hf. intros Hin%list_elem_of_delete_inv.
    apply forallb_True in Hfs. rewrite Forall_forall in Hfs.
    eapply bool_decide_unpack. by apply Hfs.
  - intros c' Hc'. rewrite Hw in Hc'. rewrite Hc' in Hc.
    by apply bool_decide_unpack in Hc.
Qed.

(** [CancelledError] ends a coroutine. *)
Lemma guarded_resume_cancelled i b s s1 :
  guarded s → take_frame i s = Some (Cancelled b, s1) →
  guarded (resume_cancelled b s1).
Proof.
  intros Hg Ht. apply (take_frame_guarded _ _ _ _ Hg) in Ht as [Hlink Hs1].
  destruct b; [|done]. destruct Hs1 as (_ & Hin & _).
  split; [by unfold lock_ok|done|by apply awaits_held_outside].
Qed.

(** Every step keeps the guard, unless it disturbs [_disconnect]. *)
Lemma sstep_guarded l s s' :
  undisturbed l s → guarded s → sstep globals l s = Some s' → guarded s'.
Proof.
  intros Hq Hg. destruct l; simpl in Hq |- *.
  - intros [= <-]. by apply guarded_call_update.
  - case_match; [|done]. intros [= <-].
    by apply guarded_call_update, guarded_on_world.
  - destruct (take_frame i s) as [[[] s1]|] eqn:Ht; try done.
    pose proof Ht as (_ & _ & Hl & _)%take_frame_Some.
    apply (take_frame_guarded _ _ _ _ Hg) in Ht as [_ Hg1].
    destruct (locked s) eqn:E; [done|].
    destruct (first_waiting i s); [simpl|done].
    intros [= <-]. apply guarded_connect_enter; [congruence|done].
  - destruct (take_frame i s) as [[[] s1]|] eqn:Ht; try done.
    apply (take_frame_guarded _ _ _ _ Hg) in Ht as (? & ? & ? & Hc).
    intros [= <-]. apply guarded_resume_connect; auto.
  - destruct (take_frame i s) as [[[] s1]|] eqn:Ht; try done.
    apply (take_frame_guarded _ _ _ _ Hg) in Ht as (? & ? & ? & Hc).
    intros [= <-]. by apply guarded_resume_start_notify.
  - case_match; [|done]. intros [= <-].
    apply (guarded_on_world (λ w, exec disconnect (on_loop (timer_fired h) w)));
      [apply (disconnect_clients (on_loop _ _))..|done].
  - case_match; [|done]. intros [= <-].
    by apply guarded_disconnect_enter, guarded_on_world.
  - destruct (take_frame i s) as [[[] s1]|] eqn:Ht; try done.
    intros [= <-]. by apply (undisturbed_resume i od s).
  - intros [= <-].
    apply guarded_disconnect_enter, guarded_cancel_frames, guarded_on_world;
      [apply cancel_retry_clients..|done].
  - destruct (take_frame i s) as [[[] s1]|] eqn:Ht; try done.
    intros [= <-]. by apply (guarded_resume_cancelled i _ s).
  - case_match; [|done]. intros [= <-].
    apply guarded_on_world; [apply (notification_handler_clients data)..|done].
  - case_match; [|done]. intros [= <-]. destruct Hg as [Hlock Hlink Hfr].
    split; [done|by apply held_link_link_lost|done].
  - case_match; [|done]. intros [= <-]. by apply guarded_on_world.
Qed.

Lemma guarded_boot addr : guarded (boot addr).
Proof.
  split; [done|apply held_link_init|]. intros fr c Hfr.
  by apply elem_of_nil in Hfr.
Qed.

Lemma srun_guarded ls s s' :
  undisturbed_run globals ls s → guarded s → srun globals ls s = Some s' →
  guarded s'.
Proof.
  revert s. induction ls as [|l ls IH]; intros s; simpl.
  - by intros _ ? [= <-].
  - intros [Hl Hls]%andb_prop_elim Hg.
    destruct (sstep globals l s) as [s1|] eqn:E; [|done]. simpl in *.
    apply IH; [done|]. by eapply sstep_guarded.
Qed.

(** A run in which [_disconnect] does not run does not disturb it. *)
Lemma quiet_undisturbed_run ls s :
  Forall quiet ls → undisturbed_run globals ls s.
Proof.
  intros Hq. revert s. induction Hq as [|l ls Hl _ IH]; intros s; [done|].
  simpl. apply andb_prop_intro. split; [by destruct l|].
  destruct (sstep globals l s); simpl; [apply IH|done].
Qed.

(** Under every interleaving of polls, retries, timers, notifications and
    link losses in which [_disconnect] does not run, at most one client
    holds a link, and it is the client the sensor holds: the lock lets one
    coroutine at a time build a client, and that coroutine stores the
    client before it awaits. *)
Theorem quiet_single_link addr ls s :
  Forall quiet ls → srun globals ls (boot addr) = Some s →
  (length (live (clients (world s))) ≤ 1)%nat
  ∧ ∀ c, c ∈ live (clients (world s)) → _client (self (world s)) = Some c.
Proof.
  intros Hq Hs. apply held_link_single.
  apply (srun_guarded ls (boot addr) s); [|apply guarded_boot|done].
  by apply quiet_undisturbed_run.
Qed.

(** C16: With a transport that drops the link whenever [disconnect()] is
    called, at most one client holds a link, and it is the client the
    sensor holds, under every interleaving in which [_disconnect] is not
    disturbed: no coroutine is inside [connect] when [disconnect()] ends,
    and none has stored another client since [_disconnect] made the
    call. *)
Theorem undisturbed_single_link addr ls s :
  undisturbed_run globals ls (boot addr) →
  srun globals ls (boot addr) = Some s →
  (length (live (clients (world s))) ≤ 1)%nat
  ∧ ∀ c, c ∈ live (clients (world s)) → _client (self (world s)) = Some c.
Proof.
  intros Hq Hs. apply held_link_single.
  by apply (srun_guarded ls (boot addr) s Hq (guarded_boot addr)).
Qed.

End guard.

(** ** Interleavings *)

Section races.
Context (globals : namespace) (addr : string).

(** Two calls of [async_update] at once build one client: the second
    waits at the lock, and finds the sensor connected when it gets it. *)
Theorem concurrent_updates_connect_once :
  ∃ s,
    srun globals
      [LUpdate; LUpdate; LConnect 0 (Ok ()); LStartNotify 1 (Ok ()); LLock 0]
      (boot addr) = Some s
    ∧ length (clients (world s)) = 1%nat
    ∧ live (clients (world s)) = [0%nat]
    ∧ frames s = [] ∧ locked s = false.
Proof. eexists. repeat (split; [by vm_compute|]). by vm_compute. Qed.

(** The idle disconnect races with a poll.  The idle timer fires and
    [_disconnect] awaits [disconnect()] of client 0; the link drops;
    [async_update] finds the sensor without a link, builds client 1,
    stores it and awaits its [connect()]; [_disconnect] resumes and its
    [finally] clause assigns [None] to [self._client]; [connect()] of
    client 1 returns, and the call of [start_notify] on [self._client]
    raises [AttributeError].  Client 1 holds a link and nothing refers to
    it: the sensor is unavailable, and the retry it scheduled builds yet
    another client.  Every [disconnect()] of the run returned and
    dropped the link; what disturbs [_disconnect] is the poll. *)
Example disconnect_races_with_connect :
  ∃ s1 s2,
    srun globals labels_race (boot addr) = Some s1
    ∧ undisturbed_run globals labels_race (boot addr) = false
    ∧ live (clients (world s1)) = [1%nat]
    ∧ _client (self (world s1)) = None
    ∧ available (self (world s1)) = false
    ∧ frames s1 = [] ∧ locked s1 = false
    ∧ srun globals
        [LAdvance 60; LRetry 1; LConnect 0 (Ok ()); LStartNotify 0 (Ok ())]
        s1 = Some s2
    ∧ live (clients (world s2)) = [1; 2]%nat.
Proof. eexists _, _. repeat (split; [by vm_compute|]). by vm_compute. Qed.

(** A retry task that waits for the lock while a poll fails is cancelled
    by [_schedule_retry]: it never gets the lock, builds no client, and
    ends when the loop resumes it.  The retry the poll scheduled is the
    only one pending. *)
Theorem cancelled_retry_never_connects :
  ∃ s1 s2,
    srun globals labels_retry_waits (boot addr) = Some s1
    ∧ frames s1 = [Cancelled false] ∧ locked s1 = false
    ∧ sstep globals (LLock 0) s1 = None
    ∧ sstep globals (LCancelled 0) s1 = Some s2
    ∧ frames s2 = [] ∧ world s2 = world s1
    ∧ length (clients (world s2)) = 2%nat
    ∧ pending_retries (world s2) = [1%nat]
    ∧ _retry_task (self (world s2)) = Some 1%nat.
Proof. eexists _, _. repeat (split; [by vm_compute|]). by vm_compute. Qed.

(** The entity is removed while its retry task awaits [connect()] inside
    the lock: the task is cancelled, [_disconnect] runs undisturbed, and
    when the loop resumes the task the lock is released.  Nothing is
    left: no coroutine, no link, no retry. *)
Theorem removal_cancels_connect :
  ∃ s,
    srun globals labels_removed_inside (boot addr) = Some s
    ∧ undisturbed_run globals labels_removed_inside (boot addr) = true
    ∧ frames s = [] ∧ locked s = false
    ∧ live (clients (world s)) = []
    ∧ _client (self (world s)) = None
    ∧ pending_retries (world s) = []
    ∧ available (self (world s)) = false.
Proof. eexists. repeat (split; [by vm_compute|]). by vm_compute. Qed.

(** The entity is removed while a poll is inside [connect].  The retry
    task is cancelled and [_disconnect] closes the client the poll has
    just built, which has no link yet, and forgets it; both hooks have
    returned when [connect()] of that client returns.  Line 105 then
    calls [start_notify] on [None], and the [except] clause schedules a
    retry: the entity that was removed holds a link nothing refers to,
    and a minute later it connects a second client and is available. *)
Example removal_races_with_connect :
  ∃ s1 s2,
    srun globals labels_removed_racing (boot addr) = Some s1
    ∧ frames s1 = [] ∧ locked s1 = false
    ∧ live (clients (world s1)) = [0%nat]
    ∧ _client (self (world s1)) = None
    ∧ pending_retries (world s1) = [0%nat]
    ∧ srun globals
        [LAdvance 60; LRetry 0; LConnect 0 (Ok ()); LStartNotify 0 (Ok ())]
        s1 = Some s2
    ∧ live (clients (world s2)) = [0; 1]%nat
    ∧ available (self (world s2)) = true.
Proof. eexists _, _. repeat (split; [by vm_compute|]). by vm_compute. Qed.

End races.

(** ** The theorems at concrete runs *)

Lemma sreachable_lock_ok_witness :
  let s := sys_after hoisted_globals labels_contended
             (boot "C8:B2:1E:3A:5F:01") in
  lock_ok s ∧ (inside (frames s) ≤ 1)%nat.
Proof.
  apply (sreachable_lock_ok hoisted_globals "C8:B2:1E:3A:5F:01").
  apply sreachable_sys_after. vm_compute. eauto.
Defined.

Lemma sequential_update_witness :
  let s := boot "C8:B2:1E:3A:5F:01" in
  srun hoisted_globals (attempt_labels 0 (Ok ()) (Ok ())) s
  = Some (with_world (exec (async_update (Ok ()) (Ok ())) (world s)) s).
Proof.
  exact (sequential_update hoisted_globals (Ok ()) (Ok ())
           (boot "C8:B2:1E:3A:5F:01") eq_refl).
Defined.

Lemma quiet_single_link_witness :
  let s := sys_after hoisted_globals
             (labels_contended ++ [LStartNotify 1 (Ok ()); LLock 0])
             (boot "C8:B2:1E:3A:5F:01") in
  (length (live (clients (world s))) ≤ 1)%nat
  ∧ ∀ c, c ∈ live (clients (world s)) → _client (self (world s)) = Some c.
Proof.
  apply (quiet_single_link hoisted_globals "C8:B2:1E:3A:5F:01"
           (labels_contended ++ [LStartNotify 1 (Ok ()); LLock 0])).
  - repeat constructor.
  - by vm_compute.
Defined.

Lemma undisturbed_single_link_witness :
  let s := sys_after hoisted_globals labels_idle_cycle
             (boot "C8:B2:1E:3A:5F:01") in
  (length (live (clients (world s))) ≤ 1)%nat
  ∧ ∀ c, c ∈ live (clients (world s)) → _client (self (world s)) = Some c.
Proof.
  apply (undisturbed_single_link hoisted_globals "C8:B2:1E:3A:5F:01"
           labels_idle_cycle); by vm_compute.
Defined.
