(* ===== verification/Schedule.v ===== *)
(** * Schedule: what holds of the coroutines under every interleaving

    [Interleaving] lets the loop start and resume the coroutines of the
    sensor in any order.  This file carries the invariants of the worlds
    over to that system, adds what is known of the suspended coroutines,
    and shows that the loop is never stuck and that the coroutines end.

    - Between two awaits a coroutine changes the world by a few [part]s:
      the moves of [Lifecycle], and the pieces a move of [connect] or of
      [_disconnect] is made of.  An invariant that every part keeps holds
      in every state the loop reaches ([sreachable_invariant]).
    - [sys_ok]: a state of the loop is well formed when the world is,
      the lock is held exactly by the coroutine inside [async with], the
      suspended coroutines refer to clients and tasks that exist, and a
      retry task that runs a coroutine has slept, runs one only, and is
      the retry task the sensor holds.  With the invariant of the store
      this gives at most one retry that is asleep or at work.
    - [remaining]: the number of resumptions the suspended coroutines
      have left at most; every resumption lowers it.
    - A state with a suspended coroutine has a resumption. *)

From S2P Require Import Prelude PyStruct Decoder EventLoop Transport Sensor.
From S2P Require Import Lifecycle Invariants Interleaving.

#[local] Open Scope Z_scope.

(** ** The pieces of the moves *)

Section parts.
Context (globals : namespace).
Implicit Types (s : Sys) (w : World).

(** What a coroutine does to the world between two awaits. *)
Inductive part : World → World → Prop :=
  | part_move w w' : move globals any_outcome w w' → part w w'
  | part_opened w : part w (opened w)
  | part_link c up n w : part w (on_clients (alter (with_link up n) c) w)
  | part_available b w : part w (on_self (set_available b) w)
  | part_retry_scheduled w : part w (retry_scheduled w)
  | part_armed w : part w (exec connect_arm w)
  | part_forgot w : part w (exec disconnect_finally w).

Lemma moves_parts w w' :
  rtc (move globals any_outcome) w w' → rtc part w w'.
Proof. induction 1; [done|]. eapply rtc_l; [by apply part_move|done]. Qed.

Lemma connect_except_parts e w : rtc part w (exec (connect_except e) w).
Proof.
  unfold exec. rewrite connect_except_run. simpl.
  eapply rtc_l; [apply (part_available false)|].
  apply rtc_once, part_retry_scheduled.
Qed.

Lemma except_clause_parts e w s :
  rtc part w (world (except_clause e (with_world w s))).
Proof.
  unfold except_clause. rewrite world_cancel_frames.
  apply connect_except_parts.
Qed.

(** A call of the transport that raises leaves the clients as they
    were. *)
Lemma on_clients_same w : on_clients (λ _, clients w) w = w.
Proof. by destruct w. Qed.

Lemma connect_enter_parts t s :
  rtc part (world s) (world (connect_enter t s)).
Proof.
  unfold connect_enter. destruct (linked (world s)); [done|].
  rewrite connect_open_run. apply rtc_once, part_opened.
Qed.

Lemma call_update_parts t s : rtc part (world s) (world (call_update t s)).
Proof.
  unfold call_update. destruct (linked (world s)); [done|].
  destruct (contended s); [done|]. apply connect_enter_parts.
Qed.

Lemma resume_connect_parts t c oc s :
  rtc part (world s) (world (resume_connect t c oc s)).
Proof.
  unfold resume_connect. destruct oc as [[]|e]; simpl.
  2:{ rewrite on_clients_same. apply except_clause_parts. }
  apply (rtc_l _ _ _ _ (part_link c true None (world s))).
  eapply rtc_l; [apply (part_available true)|].
  destruct (_client (self (world s))); [done|].
  apply except_clause_parts.
Qed.

Lemma resume_start_notify_parts c on s :
  rtc part (world s) (world (resume_start_notify c on s)).
Proof.
  unfold resume_start_notify, client_start_notify.
  destruct (client_is_connected (clients (world s)) c);
    [destruct on as [[]|e]|]; simpl.
  2,3: rewrite on_clients_same; apply except_clause_parts.
  apply (rtc_l _ _ _ _ (part_link c true (Some NOTIFY_CHAR) (world s))).
  apply rtc_once, part_armed.
Qed.

Lemma disconnect_enter_parts s :
  rtc part (world s) (world (disconnect_enter s)).
Proof.
  unfold disconnect_enter. destruct (_client (self (world s))); [done|].
  apply rtc_once, part_forgot.
Qed.

Lemma resume_disconnect_parts c od s :
  rtc part (world s) (world (resume_disconnect c od s)).
Proof.
  unfold resume_disconnect, client_disconnect. simpl.
  destruct od as [|e []]; simpl.
  3: replace (on_clients (λ cs, cs) (world s)) with (world s)
       by (by destruct (world s)); apply rtc_once, part_forgot.
  all: apply (rtc_l _ _ _ _ (part_link c false None (world s))).
  all: apply rtc_once, part_forgot.
Qed.

(** [if self._retry_task: self._retry_task.cancel()], lines 158-159. *)
Lemma cancel_retry_run w : exec cancel_retry w = retry_cancelled w.
Proof.
  unfold exec, cancel_retry, retry_cancelled. unfold_M.
  unfold attr, gets. simpl.
  destruct (_retry_task (self w)); [done|]. by destruct w as [? ? [] ?].
Qed.

(** Every step of the loop is a sequence of parts. *)
Lemma sstep_parts l s s' :
  sstep globals l s = Some s' → rtc part (world s) (world s').
Proof.
  destruct l; simpl.
  - intros [= <-]. apply call_update_parts.
  - case_match; [|done]. intros [= <-].
    eapply rtc_l; [apply part_move, (move_task_finished _ _ k)|].
    apply (call_update_parts _ (on_world (on_loop (task_finished k)) s)).
  - destruct (take_frame i s) as [[[] s1]|] eqn:Ht; try done.
    apply take_frame_Some in Ht as (_ & <- & _).
    case_match; [done|]. intros [= <-]. apply connect_enter_parts.
  - destruct (take_frame i s) as [[[] s1]|] eqn:Ht; try done.
    apply take_frame_Some in Ht as (_ & <- & _).
    intros [= <-]. apply resume_connect_parts.
  - destruct (take_frame i s) as [[[] s1]|] eqn:Ht; try done.
    apply take_frame_Some in Ht as (_ & <- & _).
    intros [= <-]. apply resume_start_notify_parts.
  - case_match; [|done]. intros [= <-]. simpl. rewrite exec_modify.
    eapply rtc_l; [apply part_move, (move_timer_fired _ _ h)|].
    apply moves_parts, disconnect_moves.
  - case_match; [|done]. intros [= <-].
    eapply rtc_l; [apply part_move, (move_task_finished _ _ k)|].
    apply (disconnect_enter_parts (on_world (on_loop (task_finished k)) s)).
  - destruct (take_frame i s) as [[[] s1]|] eqn:Ht; try done.
    apply take_frame_Some in Ht as (_ & <- & _).
    intros [= <-]. apply resume_disconnect_parts.
  - intros [= <-].
    eapply rtc_l; [apply part_move, move_retry_cancelled|].
    rewrite <- cancel_retry_run.
    pose proof (disconnect_enter_parts
                  (cancel_frames (_retry_task (self (world s)))
                     (on_world (exec cancel_retry) s))) as Hp.
    by rewrite world_cancel_frames in Hp.
  - destruct (take_frame i s) as [[[] s1]|] eqn:Ht; try done.
    apply take_frame_Some in Ht as (_ & <- & _).
    intros [= <-]. by destruct inside.
  - case_match; [|done]. intros [= <-].
    apply moves_parts, notification_handler_moves.
  - case_match; [|done]. intros [= <-].
    apply rtc_once, part_move, move_link_lost.
  - case_match eqn:E; [|done]. intros [= <-].
    apply rtc_once, part_move, move_advance. by apply bool_decide_eq_true in E.
Qed.

(** A property that every part keeps is kept by every step. *)
Lemma sstep_invariant (I : World → Prop) l s s' :
  (∀ w w', part w w' → I w → I w') →
  sstep globals l s = Some s' → I (world s) → I (world s').
Proof. intros Hpart Hstep%sstep_parts. induction Hstep; eauto. Qed.

(** A property of the first world that every part keeps holds in every
    state the loop reaches. *)
Lemma sreachable_invariant (I : World → Prop) addr :
  I (async_setup_entry addr) →
  (∀ w w', part w w' → I w → I w') →
  ∀ s, sreachable globals addr s → I (world s).
Proof.
  intros Hinit Hpart s Hs. induction Hs as [|s l s' _ IH Hstep]; [done|].
  by eapply sstep_invariant.
Qed.

End parts.

(** ** The invariants of the worlds, part by part *)

Section kept.
Context (globals : namespace).
Implicit Types (s : Sys) (w : World).

Lemma refs_ok_part w w' : part globals w w' → refs_ok w → refs_ok w'.
Proof.
  destruct 1 as [w w' Hm| | | | | |]; intros Hok.
  - by eapply refs_ok_move.
  - destruct Hok as [Hc Ht Hr]. constructor; simpl; [|done..].
    intros c [= <-]. rewrite length_app. simpl. lia.
  - destruct Hok as [Hc Ht Hr]. constructor; simpl; [|done..].
    intros c' Hc'. rewrite length_alter. auto.
  - by destruct Hok.
  - by apply refs_ok_scheduled.
  - destruct Hok as [Hc Ht Hr]. constructor; simpl; [done| |done].
    intros h [= <-]. rewrite length_app. simpl. lia.
  - by destruct Hok.
Qed.

Lemma one_retry_part w w' : part globals w w' → one_retry w → one_retry w'.
Proof.
  destruct 1 as [w w' Hm| | | | | |]; intros Hinv; try exact Hinv.
  - by eapply one_retry_move.
  - by apply one_retry_scheduled.
Qed.

Lemma timing_ok_part w w' : part globals w w' → timing_ok w → timing_ok w'.
Proof.
  destruct 1 as [w w' Hm| | | | | |]; intros Hok.
  - by eapply timing_ok_move.
  - by destruct Hok.
  - by destruct Hok.
  - by destruct Hok.
  - by apply timing_ok_scheduled.
  - destruct Hok as [Hi Hn Ht Hk]. constructor; simpl; [done..| |done].
    intros h t. rewrite lookup_snoc_Some. intros [Hl|[_ ->]]; [eauto|simpl; lia].
  - by destruct Hok.
Qed.

Lemma state_ok_part w w' : part globals w w' → state_ok w → state_ok w'.
Proof.
  destruct 1 as [w w' Hm| | | | | |]; intros [Hs Hh]; try by split.
  - by eapply state_ok_move.
  - split; simpl; [done|]. by constructor.
Qed.

Lemma silent_part w w' : part module_globals w w' → silent w → silent w'.
Proof.
  destruct 1 as [w w' Hm| | | | | |]; intros [Hs Hh]; try by split.
  - by eapply silent_move.
  - split; simpl; [done|]. by constructor.
Qed.

End kept.

(** ** The suspended coroutines *)

(** From [w] to [w'] no client is gone, the tasks are there with their
    coroutines, and no task is pending that was not. *)
Record grown (w w' : World) : Prop := {
  grown_clients : (length (clients w) ≤ length (clients w'))%nat;
  grown_coro k co :
    task_coro <$> tasks (loop w) !! k = Some co →
    task_coro <$> tasks (loop w') !! k = Some co;
  grown_pending k :
    (k < length (tasks (loop w)))%nat →
    pending_at (tasks (loop w')) k = true →
    pending_at (tasks (loop w)) k = true;
}.

(** Moreover the sensor holds the retry task it held. *)
Record steady (w w' : World) : Prop := {
  steady_grown : grown w w';
  steady_retry : _retry_task (self w') = _retry_task (self w);
}.

(** The retry task that runs a coroutine has slept, and is the retry task
    the sensor holds. *)
Definition task_ok (w : World) (t : option nat) : Prop :=
  ∀ k, t = Some k →
    task_coro <$> tasks (loop w) !! k = Some CoRetryConnect
    ∧ pending_at (tasks (loop w)) k = false
    ∧ _retry_task (self w) = Some k.

(** The client whose method a coroutine awaits. *)
Definition client_at (fr : frame) : option nat :=
  match fr with
  | AtConnect _ c | AtStartNotify _ c | AtDisconnect c => Some c
  | AtLock _ | Cancelled _ => None
  end.

Record frame_ok (w : World) (fr : frame) : Prop := {
  frame_client c : client_at fr = Some c → (c < length (clients w))%nat;
  frame_task : task_ok w (owner fr);
}.

(** The suspended coroutines of a world: each refers to what exists, and
    no retry task runs two of them. *)
Record frames_ok (w : World) (fs : list frame) : Prop := {
  frames_each : Forall (frame_ok w) fs;
  frames_owners : NoDup (omap owner fs);
}.

(** No coroutine of the task is suspended. *)
Definition fresh (t : option nat) (fs : list frame) : Prop :=
  ∀ k, t = Some k → k ∉ omap owner fs.

(** A state of the loop is well formed. *)
Record sys_ok (s : Sys) : Prop := {
  sys_refs : refs_ok (world s);
  sys_retry : one_retry (world s);
  sys_lock : lock_ok s;
  sys_frames : frames_ok (world s) (frames s);
}.

(** The retries that are at work: the tasks that run a suspended
    coroutine. *)
Definition running_retries (s : Sys) : list nat := omap owner (frames s).

(** The resumptions a suspended coroutine has left at most: to the end
    of [connect] from the lock, from [connect()] and from [start_notify];
    to the end of [_disconnect]; to the end by [CancelledError]. *)
Definition weight (fr : frame) : nat :=
  match fr with
  | AtLock _ => 3
  | AtConnect _ _ => 2
  | AtStartNotify _ _ | AtDisconnect _ | Cancelled _ => 1
  end.

Definition remaining (s : Sys) : nat := sum_list_with weight (frames s).

(** The steps of the loop that resume a suspended coroutine. *)
Definition resumption (l : label) : bool :=
  match l with
  | LLock _ | LConnect _ _ | LStartNotify _ _ | LDisconnect _ _
  | LCancelled _ => true
  | _ => false
  end.

Definition resumes (globals : namespace) (s s' : Sys) : Prop :=
  ∃ l, resumption l ∧ sstep globals l s = Some s'.

Section coroutines.
Context (globals : namespace).
Implicit Types (s : Sys) (w : World) (fr : frame) (fs : list frame).
Implicit Types (t : option nat).

#[export] Instance grown_preorder : PreOrder grown.
Proof.
  split.
  - by intros w.
  - intros w1 w2 w3 [Hc1 Ht1 Hp1] [Hc2 Ht2 Hp2]. split; [lia|by auto|].
    intros k Hk Hp. apply Hp1; [done|]. apply Hp2; [|done].
    destruct (tasks (loop w1) !! k) as [t0|] eqn:E;
      [|apply lookup_ge_None in E; lia].
    specialize (Ht1 k (task_coro t0)). rewrite E in Ht1.
    destruct (tasks (loop w2) !! k) eqn:E2; [by eapply lookup_lt_Some|].
    by specialize (Ht1 eq_refl).
Qed.

#[export] Instance steady_preorder : PreOrder steady.
Proof.
  split.
  - by intros w.
  - intros w1 w2 w3 [Hg1 Hr1] [Hg2 Hr2]. split; [by etrans|congruence].
Qed.

(** A step that leaves the tasks and the retry task alone. *)
Lemma steady_same_tasks w w' :
  tasks (loop w') = tasks (loop w) →
  (length (clients w) ≤ length (clients w'))%nat →
  _retry_task (self w') = _retry_task (self w) → steady w w'.
Proof. intros Ht Hc Hr. split; [|done]. split; rewrite ?Ht; auto. Qed.

Lemma steady_task_finished k w : steady w (on_loop (task_finished k) w).
Proof.
  split; [|done]. split; simpl; [done|..].
  - intros k' co. by rewrite task_coro_finish_at.
  - intros k' _. rewrite pending_at_finish_at. by case_decide.
Qed.

Lemma steady_retry_cancelled w : steady w (retry_cancelled w).
Proof.
  split; [|done]. split; simpl; [done|..].
  - intros k' co. by rewrite task_coro_cancel_opt.
  - intros k' _. rewrite pending_at_cancel_opt. by case_decide.
Qed.

Lemma steady_disconnect w : steady w (exec disconnect w).
Proof.
  unfold exec. destruct (client_connected_cases w) as [Hc|Hc].
  - rewrite disconnect_connected by done. split; [|done].
    split; simpl; [done|..].
    + intros k co Hk. destruct (tasks (loop w) !! k) as [t0|] eqn:E; [|done].
      by rewrite (lookup_app_l_Some _ _ _ _ E).
    + intros k Hk. change (?l ++ [?x]) with (alloc l x).1.
      rewrite pending_at_alloc, decide_False by lia. done.
  - by rewrite disconnect_idle.
Qed.

Lemma steady_notification_handler data w :
  steady w (exec (notification_handler globals data) w).
Proof.
  unfold exec. destruct (decode_weight globals data) as [[x|]|e] eqn:E.
  - rewrite (notification_handler_stable _ _ _ _ E).
    by apply steady_same_tasks.
  - by rewrite notification_handler_unstable.
  - by rewrite (notification_handler_raise _ _ _ _ E).
Qed.

(** The [except] clauses: a new retry task, and a new one held. *)
Lemma grown_connect_except e w : grown w (exec (connect_except e) w).
Proof.
  unfold exec. rewrite connect_except_run. split; simpl; [done|..].
  - intros k co Hk.
    rewrite <- (task_coro_cancel_opt (_retry_task (self w))) in Hk.
    destruct (cancel_opt _ _ !! k) as [t0|] eqn:E; [|done].
    by rewrite (lookup_app_l_Some _ _ _ _ E).
  - intros k Hk. change (?l ++ [?x]) with (alloc l x).1.
    rewrite pending_at_alloc, length_cancel_opt, decide_False by lia.
    rewrite pending_at_cancel_opt. by case_decide.
Qed.

(** ** Coroutines that stay, leave, suspend and are cancelled *)

Lemma task_ok_steady w w' t : steady w w' → task_ok w t → task_ok w' t.
Proof.
  intros [[Hc Ht Hp] Hr] Hok k Hk. destruct (Hok k Hk) as (Hco & Hpe & Hh).
  split_and!; [by apply Ht| |congruence].
  destruct (pending_at (tasks (loop w')) k) eqn:E; [|done].
  rewrite <- Hpe. symmetry. apply Hp; [|done].
  destruct (tasks (loop w) !! k) eqn:El; [by eapply lookup_lt_Some|done].
Qed.

Lemma frame_ok_steady w w' fr : steady w w' → frame_ok w fr → frame_ok w' fr.
Proof.
  intros Hs [Hc Ht]. split; [|by eapply task_ok_steady].
  intros c Hfr. apply Hc in Hfr. destruct Hs as [[? _ _] _]. lia.
Qed.

Lemma frames_ok_steady w w' fs :
  steady w w' → frames_ok w fs → frames_ok w' fs.
Proof.
  intros Hs [Hfs Hnd]. split; [|done].
  eapply Forall_impl; [done|]. intros fr. by apply frame_ok_steady.
Qed.

(** The coroutine the loop resumes, and the others. *)
Lemma frames_ok_take i s fr s1 :
  take_frame i s = Some (fr, s1) → frames_ok (world s) (frames s) →
  frames_ok (world s1) (frames s1)
  ∧ frame_ok (world s1) fr ∧ fresh (owner fr) (frames s1).
Proof.
  intros (Hi & -> & _ & ->)%take_frame_Some [Hfs Hnd].
  rewrite (delete_Permutation _ _ _ Hi) in Hnd. simpl in Hnd.
  split_and!.
  - split; [by apply Forall_delete|].
    destruct (owner fr); [by apply NoDup_cons in Hnd as [_ ?]|done].
  - by eapply Forall_lookup_1.
  - intros k Hk. rewrite Hk in Hnd. by apply NoDup_cons in Hnd as [? _].
Qed.

Lemma frames_ok_suspend w fr fs :
  frame_ok w fr → fresh (owner fr) fs → frames_ok w fs →
  frames_ok w (fs ++ [fr]).
Proof.
  intros Hfr Hfresh [Hfs Hnd]. split; [by apply Forall_app; auto|].
  rewrite omap_app. simpl. destruct (owner fr) as [k|]; simpl;
    [|by rewrite app_nil_r].
  apply NoDup_app. split_and!; [done| |apply NoDup_singleton].
  intros k' Hk' Hin. apply list_elem_of_singleton in Hin as ->.
  by apply (Hfresh k).
Qed.

(** [cancel()] on the retry task the sensor holds, if it holds one. *)
Lemma frames_cancel_frames task s :
  frames (cancel_frames task s)
  = from_option cancel_frame id task <$> frames s.
Proof. destruct task; simpl; [done|]. by rewrite list_fmap_id. Qed.

Lemma owner_cancel_frame k fr :
  owner (cancel_frame k fr)
  = if decide (owner fr = Some k) then None else owner fr.
Proof. unfold cancel_frame. by case_decide. Qed.

Lemma client_at_cancel_frame k fr c :
  client_at (cancel_frame k fr) = Some c → client_at fr = Some c.
Proof. unfold cancel_frame. by case_decide. Qed.

(** A retry task that runs a coroutine is the one the sensor holds: once
    that one is cancelled, no retry task runs a coroutine. *)
Lemma frame_ok_cancelled w w' fr :
  grown w w' → frame_ok w fr →
  let fr' := from_option cancel_frame id (_retry_task (self w)) fr in
  frame_ok w' fr' ∧ owner fr' = None.
Proof.
  intros Hg [Hc Ht]. simpl.
  assert (owner (from_option cancel_frame id (_retry_task (self w)) fr)
          = None) as Ho.
  { destruct (owner fr) as [k|] eqn:E.
    - destruct (Ht k eq_refl) as (_ & _ & ->). simpl.
      by rewrite owner_cancel_frame, decide_True.
    - destruct (_retry_task (self w)); simpl; [|done].
      rewrite owner_cancel_frame, E. by case_decide. }
  split; [|done]. split; [|by rewrite Ho; intros k].
  intros c Hfr. assert (client_at fr = Some c) as Hfr'.
  { destruct (_retry_task (self w)); [by eapply client_at_cancel_frame|done]. }
  apply Hc in Hfr'. destruct Hg as [? _ _]. lia.
Qed.

Lemma frames_ok_cancelled w w' fs :
  grown w w' → frames_ok w fs →
  let fs' := from_option cancel_frame id (_retry_task (self w)) <$> fs in
  frames_ok w' fs' ∧ omap owner fs' = [].
Proof.
  intros Hg [Hfs _]. simpl.
  assert (Forall (λ fr, frame_ok w' fr ∧ owner fr = None)
            (from_option cancel_frame id (_retry_task (self w)) <$> fs))
    as Hall.
  { apply Forall_fmap. eapply Forall_impl; [done|].
    intros fr Hfr. by apply frame_ok_cancelled. }
  assert (omap owner
            (from_option cancel_frame id (_retry_task (self w)) <$> fs) = [])
    as Hnone.
  { induction Hall as [|fr fs' [_ Ho] _ IH]; [done|]. simpl. by rewrite Ho. }
  split; [|done]. split; [|rewrite Hnone; constructor].
  eapply Forall_impl; [done|]. by intros fr [? _].
Qed.

(** ** The coroutines, segment by segment *)

Lemma frames_ok_except e w s :
  frames_ok w (frames s) →
  let s' := except_clause e (with_world w s) in
  frames_ok (world s') (frames s').
Proof.
  intros Hok. simpl. unfold except_clause.
  rewrite world_cancel_frames, frames_cancel_frames. simpl.
  by apply (frames_ok_cancelled w); [apply grown_connect_except|].
Qed.

Lemma steady_opened w : steady w (opened w).
Proof.
  apply steady_same_tasks; simpl; [done| |done]. rewrite length_app. lia.
Qed.

Lemma frames_ok_connect_enter t s :
  task_ok (world s) t → fresh t (frames s) →
  frames_ok (world s) (frames s) →
  let s' := connect_enter t s in frames_ok (world s') (frames s').
Proof.
  intros Ht Hfresh Hok. simpl. unfold connect_enter.
  destruct (linked (world s)); [done|]. rewrite connect_open_run. simpl.
  apply frames_ok_suspend;
    [|done|by eapply frames_ok_steady; [apply steady_opened|]].
  split; [|by eapply task_ok_steady; [apply steady_opened|]].
  intros c [= <-]. simpl. rewrite length_app. simpl. lia.
Qed.

Lemma frames_ok_call_update t s :
  task_ok (world s) t → fresh t (frames s) →
  frames_ok (world s) (frames s) →
  let s' := call_update t s in frames_ok (world s') (frames s').
Proof.
  intros Ht Hfresh Hok. simpl. unfold call_update.
  destruct (linked (world s)); [done|].
  destruct (contended s); [|by apply frames_ok_connect_enter].
  by apply frames_ok_suspend.
Qed.

Lemma frames_ok_resume_connect t c oc s :
  refs_ok (world s) → task_ok (world s) t → fresh t (frames s) →
  frames_ok (world s) (frames s) →
  let s' := resume_connect t c oc s in frames_ok (world s') (frames s').
Proof.
  intros Hrefs Ht Hfresh Hok. simpl. unfold resume_connect.
  destruct oc as [[]|e]; simpl;
    [|rewrite on_clients_same; by apply frames_ok_except].
  assert (steady (world s)
            (on_self (set_available true)
               (on_clients (alter (with_link true None) c) (world s))))
    as Hs by (apply steady_same_tasks; simpl; by rewrite ?length_alter).
  destruct (_client (self (world s))) as [c'|] eqn:Hc.
  - apply frames_ok_suspend; [|done|by eapply frames_ok_steady].
    split; [|by eapply task_ok_steady]. intros ? [= <-]. simpl.
    rewrite length_alter. by apply (client_ok _ Hrefs).
  - apply frames_ok_except. by eapply frames_ok_steady.
Qed.

Lemma frames_ok_resume_start_notify c on s :
  frames_ok (world s) (frames s) →
  let s' := resume_start_notify c on s in frames_ok (world s') (frames s').
Proof.
  intros Hok. simpl. unfold resume_start_notify, client_start_notify.
  destruct (client_is_connected (clients (world s)) c);
    [destruct on as [[]|e]|]; simpl.
  2,3: rewrite on_clients_same; by apply frames_ok_except.
  eapply frames_ok_steady; [|done].
  apply steady_same_tasks; simpl; by rewrite ?length_alter.
Qed.

Lemma frames_ok_disconnect_enter s :
  refs_ok (world s) → frames_ok (world s) (frames s) →
  let s' := disconnect_enter s in frames_ok (world s') (frames s').
Proof.
  intros Hrefs Hok. simpl. unfold disconnect_enter.
  destruct (_client (self (world s))) as [c|] eqn:Hc.
  - apply frames_ok_suspend; [|done..]. split; [|done].
    intros ? [= <-]. by apply (client_ok _ Hrefs).
  - eapply frames_ok_steady; [|done]. by apply steady_same_tasks.
Qed.

Lemma frames_ok_resume_disconnect c od s :
  frames_ok (world s) (frames s) →
  let s' := resume_disconnect c od s in frames_ok (world s') (frames s').
Proof.
  intros Hok. simpl. eapply frames_ok_steady; [|done].
  apply steady_same_tasks; simpl; [done| |done].
  destruct od as [|e []]; simpl; by rewrite ?length_alter.
Qed.

End coroutines.

(** ** Well-formed states *)

Section well_formed.
Context (globals : namespace).
Implicit Types (s : Sys) (w : World) (fr : frame) (fs : list frame).

(** A retry task that wakes up is the one the sensor holds, and runs no
    coroutine yet. *)
Lemma retry_wakes k s :
  one_retry (world s) → frames_ok (world s) (frames s) →
  task_due (loop (world s)) k && task_is (loop (world s)) k CoRetryConnect
  = true →
  task_ok (on_loop (task_finished k) (world s)) (Some k)
  ∧ fresh (Some k) (frames s).
Proof.
  intros Hone [Hfs _] [Hdue Hco]%andb_true_iff.
  apply task_due_pending in Hdue. apply bool_decide_eq_true in Hco. split.
  - intros ? [= <-]. simpl. rewrite task_coro_finish_at, pending_at_finish_at.
    rewrite decide_True by done. split_and!; [done..|].
    destruct (tasks (loop (world s)) !! k) as [t0|] eqn:E; [|done].
    apply (Hone k t0); [done|by injection Hco|].
    by rewrite (pending_at_Some _ _ _ E) in Hdue.
  - intros ? [= <-] (fr & Hin & Ho)%list_elem_of_omap.
    rewrite Forall_forall in Hfs.
    destruct (frame_task _ _ (Hfs fr Hin) k Ho) as (_ & Hp & _). congruence.
Qed.

(** The task of [_disconnect] starts. *)
Lemma frames_ok_disconnect_task k s :
  refs_ok (world s) → frames_ok (world s) (frames s) →
  let s' := disconnect_enter (on_world (on_loop (task_finished k)) s) in
  frames_ok (world s') (frames s').
Proof.
  intros Hrefs Hok.
  apply (frames_ok_disconnect_enter
           (on_world (on_loop (task_finished k)) s)).
  - eapply (refs_ok_part globals);
      [apply part_move, (move_task_finished _ _ k)|done].
  - eapply frames_ok_steady; [apply steady_task_finished|done].
Qed.

(** The entity is removed: the retry task is cancelled wherever it is,
    and [_disconnect] starts. *)
Lemma frames_ok_remove s :
  refs_ok (world s) → frames_ok (world s) (frames s) →
  let s' := disconnect_enter
              (cancel_frames (_retry_task (self (world s)))
                 (on_world (exec cancel_retry) s)) in
  frames_ok (world s') (frames s').
Proof.
  intros Hrefs Hok.
  pose proof (frames_ok_cancelled (world s) (retry_cancelled (world s))
                (frames s)) as Hc.
  destruct Hc as [Hc _]; [apply steady_retry_cancelled|done|].
  pose proof (frames_ok_disconnect_enter
                (cancel_frames (_retry_task (self (world s)))
                   (on_world (exec cancel_retry) s))) as Hd.
  rewrite world_cancel_frames, frames_cancel_frames in Hd.
  simpl in Hd. rewrite cancel_retry_run in Hd. apply Hd; [|done].
  eapply (refs_ok_part globals); [apply part_move, move_retry_cancelled|done].
Qed.

Lemma sstep_frames_ok l s s' :
  refs_ok (world s) → one_retry (world s) →
  frames_ok (world s) (frames s) → sstep globals l s = Some s' →
  frames_ok (world s') (frames s').
Proof.
  intros Hrefs Hone Hok. destruct l; simpl.
  - intros [= <-]. by apply frames_ok_call_update.
  - case_match eqn:E; [|done]. intros [= <-].
    destruct (retry_wakes k s Hone Hok E) as [Ht Hfresh].
    apply frames_ok_call_update; [done..|].
    eapply frames_ok_steady; [apply steady_task_finished|done].
  - destruct (take_frame i s) as [[[] s1]|] eqn:Ht; try done.
    apply frames_ok_take in Ht as (Hok1 & [_ Ht] & Hfresh); [|done].
    case_match; [done|]. intros [= <-]. by apply frames_ok_connect_enter.
  - destruct (take_frame i s) as [[[] s1]|] eqn:Ht; try done.
    pose proof Ht as (_ & Hw & _)%take_frame_Some.
    apply frames_ok_take in Ht as (Hok1 & [_ Ht] & Hfresh); [|done].
    intros [= <-]. apply frames_ok_resume_connect; [by rewrite Hw|done..].
  - destruct (take_frame i s) as [[[] s1]|] eqn:Ht; try done.
    apply frames_ok_take in Ht as (Hok1 & _); [|done].
    intros [= <-]. by apply frames_ok_resume_start_notify.
  - case_match; [|done]. intros [= <-]. simpl. rewrite exec_modify.
    eapply frames_ok_steady; [|done]. etrans; [|apply steady_disconnect].
    by apply steady_same_tasks.
  - case_match; [|done]. intros [= <-]. by apply frames_ok_disconnect_task.
  - destruct (take_frame i s) as [[[] s1]|] eqn:Ht; try done.
    apply frames_ok_take in Ht as (Hok1 & _); [|done].
    intros [= <-]. by apply frames_ok_resume_disconnect.
  - intros [= <-]. by apply frames_ok_remove.
  - destruct (take_frame i s) as [[[] s1]|] eqn:Ht; try done.
    apply frames_ok_take in Ht as (Hok1 & _); [|done].
    intros [= <-]. by destruct inside.
  - case_match; [|done]. intros [= <-].
    eapply frames_ok_steady; [apply steady_notification_handler|done].
  - case_match; [|done]. intros [= <-].
    eapply frames_ok_steady; [|done].
    apply steady_same_tasks; simpl; [done| |done].
    unfold link_lost. by rewrite length_alter.
  - case_match; [|done]. intros [= <-].
    eapply frames_ok_steady; [|done]. by apply steady_same_tasks.
Qed.

Lemma sys_ok_boot addr : sys_ok (boot addr).
Proof.
  split; [apply refs_ok_init|apply one_retry_init|done|].
  split; [done|constructor].
Qed.

(** Every step of the loop keeps the state well formed. *)
Lemma sstep_sys_ok l s s' :
  sys_ok s → sstep globals l s = Some s' → sys_ok s'.
Proof.
  intros [Hrefs Hone Hlock Hfs] Hstep. split.
  - eapply sstep_invariant; [apply refs_ok_part|done..].
  - eapply sstep_invariant; [apply one_retry_part|done..].
  - by eapply sstep_lock_ok.
  - by eapply sstep_frames_ok.
Qed.

Lemma sreachable_sys_ok addr s : sreachable globals addr s → sys_ok s.
Proof.
  induction 1 as [|s l s' _ IH Hstep]; [apply sys_ok_boot|].
  by eapply sstep_sys_ok.
Qed.

End well_formed.

(** ** In every state the loop reaches *)

Section reached.
Context (globals : namespace).
Implicit Types (s : Sys) (w : World) (fr : frame) (fs : list frame).

(** C17: Every run from a well-formed state ends in a well-formed state: the
    sensor and the suspended coroutines refer to clients, timers and
    tasks that exist, a retry task that runs a coroutine has slept and is
    the one the sensor holds, no retry task runs two coroutines, and the
    lock is held exactly when a coroutine is inside. *)
Theorem srun_sys_ok ls s s' :
  sys_ok s → srun globals ls s = Some s' → sys_ok s'.
Proof.
  revert s. induction ls as [|l ls IH]; intros s Hok; simpl.
  - by intros [= <-].
  - destruct (sstep globals l s) as [s1|] eqn:E; [|done]. simpl.
    apply IH. by eapply sstep_sys_ok.
Qed.

(** C11: Under every interleaving at most one retry is alive, asleep in the
    loop or at work in a coroutine that is not cancelled, and it is the
    retry task the sensor holds: [_schedule_retry] cancels the task it
    replaces wherever that task is. *)
Theorem sreachable_one_live_retry addr s :
  sreachable globals addr s →
  let alive := pending_retries (world s) ++ running_retries s in
  (length alive ≤ 1)%nat
  ∧ ∀ k, k ∈ alive → _retry_task (self (world s)) = Some k.
Proof.
  intros [Hrefs Hone Hlock [Hfs Hnd]]%sreachable_sys_ok. simpl.
  rewrite Forall_forall in Hfs.
  assert (∀ k, k ∈ running_retries s →
            pending_at (tasks (loop (world s))) k = false
            ∧ _retry_task (self (world s)) = Some k) as Hrun.
  { intros k (fr & Hin & Ho)%list_elem_of_omap.
    by destruct (frame_task _ _ (Hfs fr Hin) k Ho) as (_ & ? & ?). }
  assert (∀ k, k ∈ pending_retries (world s) ++ running_retries s →
            _retry_task (self (world s)) = Some k) as Hheld.
  { intros k [Hk|Hk]%elem_of_app; [by apply one_retry_pending_retries|].
    by apply Hrun. }
  split; [|done].
  apply (held_length (_retry_task (self (world s)))); [|done].
  apply NoDup_app. split_and!; [apply NoDup_filter, NoDup_pending| |done].
  intros k [_ Hp%elem_of_pending]%list_elem_of_filter Hk.
  destruct (Hrun k Hk) as [Hn _]. congruence.
Qed.

(** C35: The invariants of the worlds hold under every interleaving: nothing
    waits for more than 60 seconds, and what is reported is a weight the
    decoder can produce. *)
Theorem sreachable_timing_state_ok addr s :
  sreachable globals addr s → timing_ok (world s) ∧ state_ok (world s).
Proof.
  intros Hs. split; revert s Hs; apply sreachable_invariant.
  - apply timing_ok_init.
  - apply timing_ok_part.
  - apply state_ok_init.
  - apply state_ok_part.
Qed.

End reached.

(** C34: In the module as it is written nothing is reported, however the
    coroutines interleave. *)
Theorem sreachable_module_silent addr s :
  sreachable module_globals addr s → silent (world s).
Proof.
  revert s. apply sreachable_invariant; [|apply silent_part].
  split; [done|constructor].
Qed.

(** ** The coroutines end *)

Section termination.
Context (globals : namespace).
Implicit Types (s : Sys) (w : World) (fr : frame) (fs : list frame).

Lemma weight_pos fr : (1 ≤ weight fr)%nat.
Proof. destruct fr; simpl; lia. Qed.

Lemma weight_cancel_frame k fr : (weight (cancel_frame k fr) ≤ weight fr)%nat.
Proof. unfold cancel_frame. case_decide; [apply weight_pos|done]. Qed.

Lemma remaining_cancel_frames task s :
  (remaining (cancel_frames task s) ≤ remaining s)%nat.
Proof.
  destruct task as [k|]; [|done]. unfold remaining. simpl.
  induction (frames s) as [|fr fs IH]; [done|].
  rewrite fmap_cons. cbn [sum_list_with].
  pose proof (weight_cancel_frame k fr). lia.
Qed.

(** The coroutine the loop resumes is no longer suspended. *)
Lemma remaining_take i s fr s1 :
  take_frame i s = Some (fr, s1) →
  remaining s = (weight fr + remaining s1)%nat.
Proof.
  intros (Hi & _ & _ & Hf)%take_frame_Some. unfold remaining.
  rewrite Hf. by rewrite (delete_Permutation (frames s) i fr Hi) at 1.
Qed.

Lemma remaining_suspend fr s :
  remaining (suspend fr s) = (remaining s + weight fr)%nat.
Proof. unfold remaining. simpl. rewrite sum_list_with_app. simpl. lia. Qed.

Lemma remaining_except e w s :
  (remaining (except_clause e (with_world w s)) ≤ remaining s)%nat.
Proof.
  apply (remaining_cancel_frames _
           (release (on_world (exec (connect_except e)) (with_world w s)))).
Qed.

Lemma remaining_connect_enter t s :
  (remaining (connect_enter t s) ≤ remaining s + 2)%nat.
Proof.
  unfold connect_enter. destruct (linked (world s)); [unfold remaining; simpl; lia|].
  rewrite connect_open_run. by rewrite remaining_suspend.
Qed.

Lemma remaining_resume_connect t c oc s :
  (remaining (resume_connect t c oc s) ≤ remaining s + 1)%nat.
Proof.
  unfold resume_connect.
  destruct (client_connect c oc (clients (world s))) as [[[]|e] cs]; simpl.
  - destruct (_client (self (world s))).
    + by rewrite remaining_suspend.
    + etrans; [apply remaining_except|lia].
  - etrans; [apply remaining_except|lia].
Qed.

Lemma remaining_resume_start_notify c on s :
  (remaining (resume_start_notify c on s) ≤ remaining s)%nat.
Proof.
  unfold resume_start_notify.
  destruct (client_start_notify _ _ _ _) as [[[]|e] cs]; simpl; [done|].
  apply remaining_except.
Qed.

(** Every resumption lowers what the suspended coroutines have left. *)
Lemma sstep_remaining l s s' :
  resumption l → sstep globals l s = Some s' →
  (remaining s' < remaining s)%nat.
Proof.
  destruct l; try done; intros _; simpl.
  all: destruct (take_frame i s) as [[[] s1]|] eqn:Ht; try done.
  all: rewrite (remaining_take _ _ _ _ Ht); simpl.
  - case_match; [done|]. intros [= <-].
    pose proof (remaining_connect_enter t s1). lia.
  - intros [= <-]. pose proof (remaining_resume_connect t c oc s1). lia.
  - intros [= <-]. pose proof (remaining_resume_start_notify c on s1). lia.
  - intros [= <-]. unfold remaining. simpl. lia.
  - intros [= <-]. destruct inside; unfold remaining; simpl; lia.
Qed.

(** A run of resumptions is no longer than what the coroutines have
    left. *)
Lemma srun_remaining ls s s' :
  Forall resumption ls → srun globals ls s = Some s' →
  (length ls + remaining s' ≤ remaining s)%nat.
Proof.
  intros Hls. revert s. induction Hls as [|l ls Hl _ IH]; intros s; simpl.
  - by intros [= <-].
  - destruct (sstep globals l s) as [s1|] eqn:E; [|done]. simpl.
    intros Hrun%IH. apply sstep_remaining in E; [lia|done].
Qed.

Lemma resumes_wf : well_founded (flip (resumes globals)).
Proof.
  apply (wf_projected (<)%nat remaining); [|apply lt_wf].
  intros s' s (l & Hl & Hstep). by eapply sstep_remaining.
Qed.

(** C21: No run of the loop resumes suspended coroutines for ever, and a run
    of resumptions is no longer than three times the number of suspended
    coroutines: between two calls from outside every coroutine reaches
    its end, [connect] after three resumptions at most. *)
Theorem resumptions_terminate :
  well_founded (flip (resumes globals))
  ∧ ∀ ls s, is_Some (srun globals ls s) → forallb resumption ls = true →
      (length ls ≤ 3 * length (frames s))%nat.
Proof.
  split; [apply resumes_wf|]. intros ls s [s' Hrun] Hls.
  apply Is_true_true, forallb_True in Hls.
  pose proof (srun_remaining ls s s' Hls Hrun).
  assert (remaining s ≤ 3 * length (frames s))%nat; [|lia].
  unfold remaining. induction (frames s) as [|fr fs IH]; [done|].
  simpl. destruct fr; simpl; lia.
Qed.

(** ** The loop is never stuck *)

(** A suspended coroutine can be resumed, unless it waits for a lock
    that is held or that another coroutine has waited for longer. *)
Lemma sstep_resumable i s fr :
  frames s !! i = Some fr →
  (waiting fr = true → locked s = false ∧ first_waiting i s = true) →
  ∃ l s', resumption l ∧ sstep globals l s = Some s'.
Proof.
  intros Hi Hfree.
  assert (take_frame i s
          = Some (fr, {| world := world s; locked := locked s;
                         frames := delete i (frames s) |})) as Ht
    by (unfold take_frame; by rewrite Hi).
  destruct fr as [t|t c|t c|c|b].
  - destruct Hfree as [Hl Hw]; [done|].
    exists (LLock i). eexists. simpl. by rewrite Ht, Hl, Hw.
  - exists (LConnect i (Ok ())). eexists. simpl. by rewrite Ht.
  - exists (LStartNotify i (Ok ())). eexists. simpl. by rewrite Ht.
  - exists (LDisconnect i DisconnectOk). eexists. simpl. by rewrite Ht.
  - exists (LCancelled i). eexists. simpl. by rewrite Ht.
Qed.

(** When the lock is held, a coroutine is inside. *)
Lemma lock_ok_holder s :
  lock_ok s → locked s = true →
  ∃ i fr, frames s !! i = Some fr ∧ critical fr = true.
Proof.
  unfold lock_ok, inside. intros Hok Hl. rewrite Hl in Hok.
  destruct (filter _ (frames s)) as [|fr fs] eqn:E; [done|].
  assert (fr ∈ filter (λ fr, critical fr = true) (frames s)) as Hin
    by (rewrite E; left).
  apply list_elem_of_filter in Hin as [Hc Hin].
  apply list_elem_of_lookup in Hin as [i Hi]. eauto.
Qed.

Lemma lock_ok_progress s :
  lock_ok s → frames s ≠ [] →
  ∃ l s', resumption l ∧ sstep globals l s = Some s'.
Proof.
  intros Hok Hfs. destruct (locked s) eqn:Hl.
  - destruct (lock_ok_holder s Hok Hl) as (i & fr & Hi & Hc).
    apply (sstep_resumable i s fr); [done|]. by destruct fr.
  - destruct (frames s) as [|fr fs] eqn:E; [done|].
    apply (sstep_resumable 0 s fr); [by rewrite E|done].
Qed.

(** C22: From every state the loop reaches, the suspended coroutines can be
    run to their ends: there is a coroutine to resume as long as one is
    suspended (the lock is never held by a coroutine that has ended), and
    after finitely many resumptions none is left. *)
Theorem sreachable_quiesces addr s :
  sreachable globals addr s →
  ∃ ls s',
    Forall resumption ls ∧ srun globals ls s = Some s'
    ∧ frames s' = [] ∧ locked s' = false.
Proof.
  induction s as [s IH] using (well_founded_ind resumes_wf).
  intros Hs. destruct (frames s) as [|fr fs] eqn:E.
  - exists [], s. split_and!; [done..|].
    apply sreachable_sys_ok in Hs as [_ _ Hok _]. unfold lock_ok in Hok.
    rewrite E in Hok. by destruct (locked s).
  - destruct (lock_ok_progress s) as (l & s1 & Hl & Hstep);
      [by apply sreachable_sys_ok in Hs as [_ _ ? _]|by rewrite E|].
    destruct (IH s1) as (ls & s' & Hls & Hrun & Hq);
      [by exists l|by eapply sreachable_step|].
    exists (l :: ls), s'. split_and!; [by constructor| |apply Hq..].
    simpl. by rewrite Hstep.
Qed.

End termination.

(** ** The theorems at concrete runs *)

(** Two polls at once, the second waiting for the lock. *)
Lemma srun_sys_ok_witness :
  sys_ok (sys_after hoisted_globals labels_contended
            (boot "C8:B2:1E:3A:5F:01")).
Proof.
  apply (srun_sys_ok hoisted_globals labels_contended
           (boot "C8:B2:1E:3A:5F:01")); [apply sys_ok_boot|by vm_compute].
Defined.

(** A retry task that waits for the lock while a poll is inside. *)
Lemma sreachable_one_live_retry_witness :
  let s := sys_after hoisted_globals (take 5 labels_retry_waits)
             (boot "C8:B2:1E:3A:5F:01") in
  let alive := pending_retries (world s) ++ running_retries s in
  (length alive ≤ 1)%nat
  ∧ ∀ k, k ∈ alive → _retry_task (self (world s)) = Some k.
Proof.
  apply (sreachable_one_live_retry hoisted_globals "C8:B2:1E:3A:5F:01").
  apply sreachable_sys_after. vm_compute. eauto.
Defined.

Lemma sreachable_timing_state_ok_witness :
  let s := sys_after hoisted_globals labels_idle_cycle
             (boot "C8:B2:1E:3A:5F:01") in
  timing_ok (world s) ∧ state_ok (world s).
Proof.
  apply (sreachable_timing_state_ok hoisted_globals "C8:B2:1E:3A:5F:01").
  apply sreachable_sys_after. vm_compute. eauto.
Defined.

Lemma sreachable_module_silent_witness :
  silent (world (sys_after module_globals
                   (labels_contended
                    ++ [LStartNotify 1 (Ok ()); LNotify 0 scenario_stable])
                   (boot "C8:B2:1E:3A:5F:01"))).
Proof.
  apply (sreachable_module_silent "C8:B2:1E:3A:5F:01").
  apply sreachable_sys_after. vm_compute. eauto.
Defined.

(** Two suspended coroutines are run to their ends by two resumptions. *)
Lemma resumptions_terminate_witness :
  let s := sys_after hoisted_globals labels_contended
             (boot "C8:B2:1E:3A:5F:01") in
  let ls := [LStartNotify 1 (Ok ()); LLock 0] in
  (length ls ≤ 3 * length (frames s))%nat.
Proof.
  apply (proj2 (resumptions_terminate hoisted_globals));
    [vm_compute; eauto|by vm_compute].
Defined.

Lemma sreachable_quiesces_witness :
  let s := sys_after hoisted_globals labels_contended
             (boot "C8:B2:1E:3A:5F:01") in
  ∃ ls s',
    Forall resumption ls ∧ srun hoisted_globals ls s = Some s'
    ∧ frames s' = [] ∧ locked s' = false.
Proof.
  apply (sreachable_quiesces hoisted_globals "C8:B2:1E:3A:5F:01").
  apply sreachable_sys_after. vm_compute. eauto.
Defined.
