(* ===== verification/Ordering.v ===== *)
(** * Ordering: notifications and the attempts to connect

    [notification_handler] does not take the lock of [connect]: what
    keeps a notification out of an attempt to connect is that no client
    is subscribed while an attempt is under way.  An attempt starts when
    the sensor holds no link, the only client that can hold a link is the
    client the sensor holds, and the attempt subscribes its client as its
    last step.  This holds as long as [_disconnect] is not disturbed
    ([undisturbed_run] of [Interleaving]), and it rests on the
    assumption of [Interleaving] that a subscription takes effect when
    [connect] resumes after [start_notify]: with a transport that
    delivers before, a reading is processed inside the lock on the first
    poll already ([early_reading_inside_connect] of [Early]).

    When a poll disturbs [_disconnect] the [finally] clause forgets a
    client that goes on to subscribe: its notifications arrive whatever
    the sensor does, also while the next attempt holds the lock
    ([notification_inside_connect]). *)

From S2P Require Import Prelude PyStruct Decoder EventLoop Transport Sensor.
From S2P Require Import Lifecycle Invariants Interleaving.

#[local] Open Scope Z_scope.

(** No client delivers notifications. *)
Definition deaf (w : World) : Prop :=
  ∀ c, client_notifying (clients w) c = false.

(** While a coroutine is inside [async with], no client delivers. *)
Definition hushed (s : Sys) : Prop := locked s = true → deaf (world s).

(** Every client that delivers in [w'] delivered in [w]. *)
Definition quieter (w w' : World) : Prop :=
  ∀ c, client_notifying (clients w') c = true →
       client_notifying (clients w) c = true.

(** The idle disconnect races with a poll, as in [labels_race], but the
    [finally] clause of [_disconnect] runs while the new client awaits
    [start_notify]: the client subscribes after the sensor forgot it.
    The next poll starts an attempt, and a reading of client 1 arrives
    while the attempt awaits [connect()] of client 2. *)
Definition labels_overlap : list label :=
  [LUpdate; LConnect 0 (Ok ()); LStartNotify 0 (Ok ());
   LAdvance 60; LTimer 0; LDisconnectTask 0; LLinkLost 0;
   LUpdate; LConnect 1 (Ok ()); LDisconnect 0 DisconnectOk;
   LStartNotify 0 (Ok ()); LUpdate].

Section hush.
Context (globals : namespace).
Implicit Types (s : Sys) (w : World).

#[export] Instance quieter_preorder : PreOrder quieter.
Proof. split; [by intros w c|]. intros w1 w2 w3 H1 H2 c Hc. auto. Qed.

Lemma quieter_same w w' : clients w' = clients w → quieter w w'.
Proof. intros Hcs c. by rewrite Hcs. Qed.

Lemma quieter_alter up c w :
  quieter w (on_clients (alter (with_link up None) c) w).
Proof. intros c'. apply client_notifying_alter. Qed.

Lemma quieter_disconnect c od w :
  quieter w (on_clients (λ cs, (client_disconnect c od cs).2) w).
Proof.
  intros c'. destruct od as [|e []]; simpl; [apply client_notifying_alter..|done].
Qed.

Lemma quieter_opened w : quieter w (opened w).
Proof.
  intros c. unfold opened, client_of. simpl.
  by rewrite client_notifying_snoc.
Qed.

Lemma deaf_quieter w w' : quieter w w' → deaf w → deaf w'.
Proof.
  intros Hq Hw c. destruct (client_notifying _ c) eqn:E; [|done].
  apply Hq in E. by rewrite Hw in E.
Qed.

Lemma hushed_free s : locked s = false → hushed s.
Proof. intros Hl. unfold hushed. by rewrite Hl. Qed.

Lemma hushed_quieter s s' :
  locked s' = locked s → quieter (world s) (world s') → hushed s → hushed s'.
Proof.
  intros Hl Hq Hs Hl' c. destruct (client_notifying _ c) eqn:E; [|done].
  apply Hq in E. rewrite Hs in E; [done|congruence].
Qed.

(** A step that leaves the clients and the lock alone. *)
Lemma hushed_on_world f s :
  clients (f (world s)) = clients (world s) → hushed s → hushed (on_world f s).
Proof. intros Hcs. apply hushed_quieter; [done|by apply quieter_same]. Qed.

(** A sensor without a link, the only link being the one it holds. *)
Lemma held_link_deaf w : held_link w → linked w = false → deaf w.
Proof.
  intros Hlink Hc%linked_false c.
  destruct (client_notifying _ c) eqn:E; [|done].
  apply client_notifying_connected in E.
  by rewrite (held_link_idle w c Hlink Hc) in E.
Qed.

Lemma locked_except e s : locked (except_clause e s) = false.
Proof. unfold except_clause. by rewrite locked_cancel_frames. Qed.

(** ** The coroutines, segment by segment *)

Lemma hushed_connect_enter t s :
  locked s = false → held_link (world s) → hushed (connect_enter t s).
Proof.
  intros Hl Hlink. unfold connect_enter.
  destruct (linked (world s)) eqn:Hc; [by apply hushed_free|].
  rewrite connect_open_run. intros _.
  apply (deaf_quieter (world s)), held_link_deaf; [apply quieter_opened|done..].
Qed.

Lemma hushed_call_update t s :
  held_link (world s) → hushed s → hushed (call_update t s).
Proof.
  intros Hlink Hs. unfold call_update. destruct (linked (world s)); [done|].
  destruct (contended s) eqn:Hl; [done|].
  by apply hushed_connect_enter; [apply contended_free|].
Qed.

Lemma hushed_resume_connect t c oc s :
  hushed s → hushed (resume_connect t c oc s).
Proof.
  intros Hs. unfold resume_connect.
  destruct oc as [[]|e]; simpl; [|apply hushed_free, locked_except].
  destruct (_client (self (world s)));
    [|apply hushed_free, locked_except].
  apply (hushed_quieter s); [done| |done]. apply (quieter_alter true c).
Qed.

Lemma hushed_resume_start_notify c on s :
  hushed (resume_start_notify c on s).
Proof.
  apply hushed_free. unfold resume_start_notify.
  destruct (client_start_notify _ _ _ _).1; [done|apply locked_except].
Qed.

Lemma hushed_disconnect_enter s : hushed s → hushed (disconnect_enter s).
Proof.
  intros Hs. unfold disconnect_enter.
  destruct (_client (self (world s))); [done|by apply hushed_on_world].
Qed.

Lemma hushed_resume_disconnect c od s :
  hushed s → hushed (resume_disconnect c od s).
Proof.
  apply hushed_quieter; [done|]. intros c'. apply (quieter_disconnect c od).
Qed.

(** The coroutine the loop resumes leaves the lock and the clients as
    they are. *)
Lemma take_frame_hushed i s fr s1 :
  take_frame i s = Some (fr, s1) → hushed s → hushed s1.
Proof.
  intros (_ & Hw & Hl & _)%take_frame_Some.
  apply hushed_quieter; [done|]. by rewrite Hw.
Qed.

(** Every step keeps notifications out of [connect], if the only link is
    the one the sensor holds. *)
Lemma sstep_hushed l s s' :
  held_link (world s) → hushed s → sstep globals l s = Some s' → hushed s'.
Proof.
  intros Hlink Hs. destruct l; simpl.
  - intros [= <-]. by apply hushed_call_update.
  - case_match; [|done]. intros [= <-].
    apply hushed_call_update; [exact Hlink|by apply hushed_on_world].
  - destruct (take_frame i s) as [[[] s1]|] eqn:Ht; try done.
    apply take_frame_Some in Ht as (_ & Hw & Hl & _).
    destruct (locked s) eqn:E; [done|].
    destruct (first_waiting i s); [simpl|done]. intros [= <-].
    apply hushed_connect_enter; [congruence|by rewrite Hw].
  - destruct (take_frame i s) as [[[] s1]|] eqn:Ht; try done.
    intros [= <-]. by eapply hushed_resume_connect, take_frame_hushed.
  - destruct (take_frame i s) as [[[] s1]|] eqn:Ht; try done.
    intros [= <-]. apply hushed_resume_start_notify.
  - case_match; [|done]. intros [= <-].
    apply (hushed_on_world (λ w, exec disconnect (on_loop (timer_fired h) w)));
      [apply (disconnect_clients (on_loop _ _))|done].
  - case_match; [|done]. intros [= <-].
    by apply hushed_disconnect_enter, hushed_on_world.
  - destruct (take_frame i s) as [[[] s1]|] eqn:Ht; try done.
    intros [= <-]. by eapply hushed_resume_disconnect, take_frame_hushed.
  - intros [= <-]. apply hushed_disconnect_enter.
    apply (hushed_quieter (on_world (exec cancel_retry) s));
      [apply locked_cancel_frames|by rewrite world_cancel_frames|].
    apply hushed_on_world; [apply cancel_retry_clients|done].
  - destruct (take_frame i s) as [[[] s1]|] eqn:Ht; try done.
    intros [= <-]. apply (take_frame_hushed _ _ _ _ Ht) in Hs.
    destruct inside; [by apply hushed_free|done].
  - case_match; [|done]. intros [= <-].
    apply hushed_on_world; [apply (notification_handler_clients globals)|done].
  - case_match; [|done]. intros [= <-].
    apply (hushed_quieter s); [done|apply (quieter_alter false c)|done].
  - case_match; [|done]. intros [= <-]. by apply hushed_on_world.
Qed.

Lemma srun_hushed ls s s' :
  undisturbed_run globals ls s → guarded s → hushed s →
  srun globals ls s = Some s' → hushed s'.
Proof.
  revert s. induction ls as [|l ls IH]; intros s; simpl.
  - by intros _ _ ? [= <-].
  - intros [Hl Hls]%andb_prop_elim Hg Hs.
    destruct (sstep globals l s) as [s1|] eqn:E; [|done]. simpl in *.
    apply IH; [done|by eapply sstep_guarded|].
    eapply sstep_hushed; [apply Hg|done..].
Qed.

(** C24: While an attempt to connect is under way no notification is
    processed, under every interleaving in which [_disconnect] is not
    disturbed: the transport has no client to deliver from. *)
Theorem undisturbed_connect_hushed addr ls s c data :
  undisturbed_run globals ls (boot addr) →
  srun globals ls (boot addr) = Some s →
  locked s = true → sstep globals (LNotify c data) s = None.
Proof.
  intros Hq Hrun Hl. simpl.
  rewrite (srun_hushed ls (boot addr) s Hq (guarded_boot addr)); done.
Qed.

End hush.

(** The lock does not keep notifications out.  The idle disconnect races
    with a poll as in [labels_race]; every [disconnect()] of the run
    returns and drops the link.  Client 1 subscribes after the [finally]
    clause of [_disconnect] made the sensor forget it, so the sensor is
    unavailable and holds no link while client 1 delivers.  The next poll
    takes the lock and awaits [connect()] of client 2, and a reading of
    client 1 is processed meanwhile: the entity reports 500 g and is
    available while its attempt to connect is under way. *)
Example notification_inside_connect addr :
  ∃ s s',
    srun hoisted_globals labels_overlap (boot addr) = Some s
    ∧ undisturbed_run hoisted_globals labels_overlap (boot addr) = false
    ∧ locked s = true ∧ frames s = [AtConnect None 2]
    ∧ live (clients (world s)) = [1%nat]
    ∧ available (self (world s)) = false
    ∧ sstep hoisted_globals (LNotify 1 scenario_stable) s = Some s'
    ∧ locked s' = true ∧ frames s' = [AtConnect None 2]
    ∧ state (self (world s')) = Some 500
    ∧ available (self (world s')) = true.
Proof. eexists _, _. repeat (split; [by vm_compute|]). by vm_compute. Qed.

(** ** The theorems at concrete runs *)

(** Two polls at once: while the first awaits [start_notify] inside the
    lock, client 0 is connected and delivers nothing. *)
Lemma undisturbed_connect_hushed_witness :
  sstep hoisted_globals (LNotify 0 scenario_stable)
    (sys_after hoisted_globals labels_contended (boot "C8:B2:1E:3A:5F:01"))
  = None.
Proof.
  apply (undisturbed_connect_hushed hoisted_globals "C8:B2:1E:3A:5F:01"
           labels_contended); by vm_compute.
Defined.
