(* ===== verification/Atomicity.v ===== *)
(** * Atomicity: the atomic model inside the interleaved one

    [Lifecycle] runs every coroutine from its first line to its last;
    [Interleaving] runs it from one await to the next.  An event of
    [Lifecycle] is the run of the loop in which the coroutine it starts
    is resumed at once, with nothing in between: [labels_of] gives that
    run, [schedule] the run of a sequence of events.  Run from a state in
    which nothing is suspended ([idle]), it leaves the world the event
    leaves, with nothing suspended.

    So the worlds of [Lifecycle] are worlds the loop reaches, and what
    [Sensor], [Invariants], [Machine] and [Scenarios] show of the atomic
    model is shown of runs of the loop. *)

From S2P Require Import Prelude PyStruct Decoder EventLoop Transport Sensor.
From S2P Require Import Lifecycle Invariants Interleaving Schedule.

#[local] Open Scope Z_scope.

(** A state of the loop with the lock free and no coroutine suspended. *)
Definition idle (w : World) : Sys :=
  {| world := w; locked := false; frames := [] |}.

(** The end of [disconnect()], when [_disconnect] has a client to call
    it on. *)
Definition close_labels (od : disconnect_outcome) (w : World) : list label :=
  match _client (self w) with
  | Some _ => [LDisconnect 0 od]
  | None => []
  end.

(** The run of the loop that is an event of [Lifecycle]. *)
Definition labels_of (e : event) (w : World) : list label :=
  match e with
  | EvAdded oc on | EvUpdate oc on =>
      if linked w then [LUpdate] else attempt_labels 0 oc on
  | EvRetry k oc on =>
      LRetry k :: (if linked w then [] else tail (attempt_labels 0 oc on))
  | EvRemove od => LRemove :: close_labels od w
  | EvDisconnect k od => LDisconnectTask k :: close_labels od w
  | EvNotify c data => [LNotify c data]
  | EvLinkLost c => [LLinkLost c]
  | EvTimer h => [LTimer h]
  | EvAdvance dt => [LAdvance dt]
  end.

Section embedding.
Context (globals : namespace).
Implicit Types (w : World) (e : event) (es : list event).

(** The run of the loop that is a sequence of events. *)
Fixpoint schedule (es : list event) (w : World) : list label :=
  match es with
  | [] => []
  | e :: es' =>
      labels_of e w
      ++ from_option (schedule es') [] (step globals e w)
  end.

Lemma cancel_frames_nil task s : frames s = [] → cancel_frames task s = s.
Proof. destruct task, s; simpl; [|done]. by intros ->. Qed.

(** An attempt to connect, from the call on. *)
Lemma call_update_idle t oc on w :
  srun globals
    (if linked w then [] else tail (attempt_labels 0 oc on))
    (call_update t (idle w))
  = Some (idle (exec (async_update oc on) w)).
Proof.
  unfold call_update. simpl world. destruct (linked w) eqn:Hc.
  - unfold exec. by rewrite async_update_connected by by apply linked_true.
  - change (contended (idle w)) with false. cbv iota.
    pose proof (srun_attempt globals t oc on (idle w) eq_refl Hc) as Hrun.
    by rewrite cancel_frames_nil in Hrun.
Qed.

(** [_disconnect], from the call on. *)
Lemma disconnect_enter_idle od w :
  srun globals (close_labels od w) (disconnect_enter (idle w))
  = Some (idle (disconnected_world od w)).
Proof.
  unfold close_labels, disconnect_enter, disconnected_world. simpl.
  by destruct (_client (self w)).
Qed.

(** An event of [Lifecycle] is a run of the loop in which nothing comes
    between the awaits of the coroutine the event starts: the run is
    possible exactly when the event is, and leaves the same world, the
    lock free and no coroutine suspended. *)
Lemma step_interleaves e w :
  srun globals (labels_of e w) (idle w) = idle <$> step globals e w.
Proof.
  unfold step. destruct e; simpl enabled; simpl handler; simpl labels_of.
  - pose proof (call_update_idle None oc on w) as Hrun.
    destruct (linked w); exact Hrun.
  - pose proof (call_update_idle None oc on w) as Hrun.
    destruct (linked w); exact Hrun.
  - change (srun globals (LRemove :: close_labels od w) (idle w))
      with (srun globals (close_labels od w)
              (disconnect_enter
                 (cancel_frames (_retry_task (self w))
                    (idle (exec cancel_retry w))))).
    unfold exec at 2. rewrite async_will_remove_from_hass_run.
    rewrite cancel_frames_nil, cancel_retry_run by done.
    apply (disconnect_enter_idle od (retry_cancelled w)).
  - simpl. by destruct (client_notifying _ _).
  - simpl. by destruct (client_is_connected _ _).
  - simpl. by destruct (timer_due _ _).
  - simpl srun. destruct (task_due _ _ && task_is _ _ _); [|done].
    rewrite exec_modify.
    apply (call_update_idle (Some k) oc on (on_loop (task_finished k) w)).
  - simpl srun. destruct (task_due _ _ && task_is _ _ _); [|done].
    rewrite exec_modify. unfold exec. rewrite _disconnect_run.
    apply (disconnect_enter_idle od (on_loop (task_finished k) w)).
  - simpl. by destruct (bool_decide _).
Qed.

(** A run of the atomic model is the run of the loop in which every
    coroutine is resumed as soon as it is suspended: [schedule] is
    possible exactly when the events are, and leaves the world they
    leave, with the lock free and nothing suspended. *)
Theorem run_interleaves es w :
  srun globals (schedule es w) (idle w) = idle <$> run globals es w.
Proof.
  revert w. induction es as [|e es IH]; intros w; simpl; [done|].
  rewrite srun_app, step_interleaves.
  destruct (step globals e w) as [w'|]; simpl; [apply IH|done].
Qed.

(** Every world of the atomic model is a world the loop reaches. *)
Theorem reachable_interleaved addr w :
  reachable globals any_outcome addr w → sreachable globals addr (idle w).
Proof.
  induction 1 as [|w e w' _ IH _ Hstep]; [constructor|].
  apply (srun_sreachable globals addr (labels_of e w) (idle w)); [done|].
  by rewrite step_interleaves, Hstep.
Qed.

End embedding.

(** ** The theorems at concrete runs *)

(** A first attempt that times out, the retry that connects, and a
    stable reading: the world [Lifecycle] reaches is reached by the
    loop. *)
Lemma reachable_interleaved_witness :
  sreachable hoisted_globals "C8:B2:1E:3A:5F:01"
    (idle (world_after hoisted_globals events_weighed world_reset)).
Proof.
  apply reachable_interleaved.
  apply (reachable_mono _ reliable), reachable_events_weighed. done.
Defined.
