(* ===== verification/Protocol.v ===== *)
(** * Protocol: the machine of the specification under every interleaving

    [Machine] shows that the code, with every coroutine run from its
    first line to its last, is simulated by the machine of the
    specification.  There the state [Connecting] is passed through within
    one event.  Here the coroutines are those of [Interleaving], cut at
    their awaits, and [Connecting] is a state the sensor stays in: the
    machine is [Connecting] exactly while a coroutine holds the lock of
    [connect].

    [striggers] gives the rows of the table a step of the loop goes
    through: a request is the row of the coroutine that gets the lock,
    not of the call (a call that finds the lock held waits, or returns
    at once when [connect()] has returned already); the end of
    [connect()] or of [start_notify] is the row that leaves
    [Connecting]; the end of [_disconnect], whether the idle timer or
    the removal of the entity started it, is the row [IdleFires] that
    closes the connection.  A suspended [_disconnect] does not remember
    who started it, and the two rows of the table lead to the same
    state; so the removal of an entity that holds a link shows in the
    trace as an idle disconnect, and [TeardownRequest] is the row of a
    removal only when the sensor holds no link.  The trace does not tell
    the two apart.

    A step is nominal ([snominal]) when [start_notify] succeeds,
    [_disconnect] is not disturbed ([undisturbed] of [Interleaving]), the
    peer does not drop the link, and the entity is not removed while an
    attempt to connect is under way.

    What the machine does not say: between the end of [connect()] (line
    103) and the end of [start_notify] the sensor is available already,
    while the machine, which is [Connecting], is not.

    The table is the one [Machine] widens by six rows (a request in
    [AwaitingRetry] and in [Connected], the idle timer in [Disconnected]
    and in [AwaitingRetry], the retry in [Disconnected] and in
    [Connected]).  The simulation also rests on the assumption of
    [Interleaving] that a subscription takes effect when [connect]
    resumes: a reading that arrives before ([Early]) finds the machine
    in [Connecting], where the table has no row for it. *)

From S2P Require Import Prelude PyStruct Decoder EventLoop Transport Sensor.
From S2P Require Import Lifecycle Invariants Machine Interleaving Schedule.
From S2P Require Import Ordering.

#[local] Open Scope Z_scope.

(** ** The rows of a step *)

(** A call of [async_update]: it is a request to the machine when it
    returns at once on a connected sensor, or gets the lock at once. *)
Definition entering (t : trigger) (s : Sys) : list trigger :=
  if linked (world s) then (if locked s then [] else [t])
  else if contended s then [] else [t].

(** The request of the coroutine that gets the lock. *)
Definition served (fr : option frame) : trigger :=
  match fr with
  | Some (AtLock (Some _)) => RetryFires
  | _ => Request
  end.

(** How [start_notify] ends for the coroutine the loop resumes. *)
Definition subscribes (i : nat) (on : outcome) (s : Sys) : bool :=
  match frames s !! i with
  | Some (AtStartNotify _ c) =>
      is_Ok (client_start_notify c NOTIFY_CHAR on (clients (world s))).1
  | _ => false
  end.

Section rows.
Context (globals : namespace).

Definition striggers (l : label) (s : Sys) : list trigger :=
  match l with
  | LUpdate => entering Request s
  | LRetry _ => entering RetryFires s
  | LLock i => [served (frames s !! i)]
  | LConnect _ oc =>
      match oc, _client (self (world s)) with
      | Ok _, Some _ => []
      | _, _ => [Fails]
      end
  | LStartNotify i on => [if subscribes i on s then Succeeds else Fails]
  | LDisconnectTask _ =>
      match _client (self (world s)) with
      | Some _ => []
      | None => [IdleFires]
      end
  | LDisconnect _ _ => [IdleFires]
  | LRemove => if linked (world s) then [] else [TeardownRequest]
  | LNotify _ data => [reading_of globals data]
  | LTimer _ | LCancelled _ | LLinkLost _ | LAdvance _ => []
  end.

(** The rows a run of the loop goes through. *)
Fixpoint strace (ls : list label) (s : Sys) : list trigger :=
  match ls with
  | [] => []
  | l :: ls' =>
      striggers l s ++ from_option (strace ls') [] (sstep globals l s)
  end.

End rows.

(** The steps on which the code stays within the table. *)
Definition snominal (l : label) (s : Sys) : bool :=
  match l with
  | LStartNotify _ on => is_Ok on
  | LDisconnect _ _ => undisturbed l s
  | LRemove => negb (locked s)
  | LLinkLost _ => false
  | _ => true
  end.

Fixpoint snominal_run (globals : namespace) (ls : list label) (s : Sys)
  : bool :=
  match ls with
  | [] => true
  | l :: ls' =>
      snominal l s
      && from_option (snominal_run globals ls') true (sstep globals l s)
  end.

(** ** What the machine and the loop agree on *)

(** A retry that is asleep, or at work in a coroutine. *)
Definition alive (k : nat) (s : Sys) : Prop :=
  pending_at (tasks (loop (world s))) k = true ∨ k ∈ running_retries s.

(** In [AwaitingRetry] the retry the sensor holds is alive. *)
Definition awaiting (s : Sys) (m : Manager) : Prop :=
  conn m = AwaitingRetry →
  ∃ k, _retry_task (self (world s)) = Some k ∧ alive k s.

(** Where an attempt to connect is: before the end of [connect()] the
    sensor has no link and is not available; after it, the client has a
    link and the sensor is available.  No coroutine inside [connect] has
    been cancelled. *)
Definition phase_ok (w : World) (fr : frame) : Prop :=
  match fr with
  | AtConnect _ _ => linked w = false ∧ available (self w) = false
  | AtStartNotify _ c =>
      available (self w) = true ∧ client_is_connected (clients w) c = true
  | Cancelled true => False
  | _ => True
  end.

(** While a coroutine holds the lock the machine is [Connecting]. *)
Record connecting (s : Sys) (m : Manager) : Prop := {
  conn_state : conn m = Connecting;
  conn_unavailable : is_available m = false;
  conn_weight : current_weight_grams m = state (self (world s));
  conn_phase : Forall (phase_ok (world s)) (frames s);
}.

Definition ssim (s : Sys) (m : Manager) : Prop :=
  if locked s then connecting s m
  else sim0 (world s) m ∧ awaiting s m.

(** A poll that times out; a minute later the retry, which gets the
    lock, and a poll, which waits for it; the connection; the poll
    returns; a stable reading; a minute of silence and the idle
    disconnect. *)
Definition labels_protocol : list label :=
  [LUpdate; LConnect 0 (Raise TimeoutError); LAdvance 60; LRetry 0; LUpdate;
   LConnect 0 (Ok ()); LStartNotify 1 (Ok ()); LLock 0;
   LNotify 1 scenario_stable; LAdvance 60; LTimer 1; LDisconnectTask 1;
   LDisconnect 0 DisconnectOk].

(** What the simulation needs of a state of the loop. *)
Record tame (s : Sys) : Prop := {
  tame_guarded : guarded s;
  tame_hushed : hushed s;
  tame_ok : sys_ok s;
}.

Section simulation.
Context (globals : namespace).
Implicit Types (s : Sys) (w : World) (m : Manager) (fr : frame).

(** ** Nominal steps keep the state tame *)

Lemma snominal_undisturbed l s : snominal l s → undisturbed l s.
Proof. by destruct l. Qed.

Lemma sstep_tame l s s' :
  snominal l s → tame s → sstep globals l s = Some s' → tame s'.
Proof.
  intros Hn%snominal_undisturbed [Hg Hh Hok] Hstep. split.
  - by eapply sstep_guarded.
  - eapply sstep_hushed; [apply Hg|done..].
  - by eapply sstep_sys_ok.
Qed.

Lemma tame_boot addr : tame (boot addr).
Proof.
  split; [apply guarded_boot|by apply hushed_free|apply sys_ok_boot].
Qed.

(** ** Worlds that differ in the loop and in what was published *)

Lemma linked_face w w' :
  _client (self w') = _client (self w) → clients w' = clients w →
  linked w' = linked w.
Proof.
  intros Hc Hcs. unfold linked, eval, client_connected, gets. simpl.
  by rewrite Hc, Hcs.
Qed.

Lemma sim0_face w w' m :
  self w' = self w → clients w' = clients w → sim0 w m → sim0 w' m.
Proof.
  intros Hs Hcs [Hc Hset Hi Hw Ha]. constructor; try done.
  - rewrite Hc. rewrite <- !linked_true.
    by rewrite (linked_face w w') by by rewrite ?Hs.
  - by rewrite Hs.
  - by rewrite Hs.
Qed.

Lemma phase_ok_face w w' fr :
  self w' = self w → clients w' = clients w →
  phase_ok w fr → phase_ok w' fr.
Proof.
  intros Hs Hcs. destruct fr as [| | | |[]]; simpl; try done.
  - by rewrite Hs, (linked_face w w') by by rewrite ?Hs.
  - by rewrite Hs, Hcs.
Qed.

(** A coroutine outside [connect] is in no phase of an attempt. *)
Lemma phase_ok_outside w fr : critical fr = false → phase_ok w fr.
Proof. by destruct fr as [| | | |[]]. Qed.

(** A step that leaves the sensor, the clients and the lock alone, adds
    no coroutine inside [connect], and keeps the retry the sensor holds
    alive. *)
Lemma ssim_keep s s' m :
  locked s' = locked s →
  self (world s') = self (world s) → clients (world s') = clients (world s) →
  (∀ fr, fr ∈ frames s' → fr ∈ frames s ∨ critical fr = false) →
  (∀ k, _retry_task (self (world s)) = Some k → alive k s → alive k s') →
  ssim s m → ssim s' m.
Proof.
  intros Hl Hs Hcs Hfs Hk. unfold ssim. rewrite Hl.
  destruct (locked s).
  - intros [? ? Hw Hph]. split; [done..|by rewrite Hs|].
    rewrite Forall_forall in Hph |- *. intros fr [Hin|Hout]%Hfs.
    + by eapply phase_ok_face, Hph.
    + by apply phase_ok_outside.
  - intros [Hsim Haw]. split; [by eapply sim0_face|].
    intros (k & Hr & Ha)%Haw. exists k. rewrite Hs. auto.
Qed.

(** ** The steps the machine does not see *)

Lemma alive_suspend k fr s : alive k s → alive k (suspend fr s).
Proof.
  intros [Hp|Hr]; [by left|right]. unfold running_retries in *. simpl.
  rewrite omap_app. apply elem_of_app. by left.
Qed.

(** A coroutine that suspends outside [connect]. *)
Lemma ssim_suspend fr s m :
  critical fr = false → ssim s m → ssim (suspend fr s) m.
Proof.
  intros Hfr. apply ssim_keep; try done.
  - intros fr' [Hin| ->%list_elem_of_singleton]%elem_of_app; auto.
  - intros k _. apply alive_suspend.
Qed.

(** A step of the loop on its timers and tasks that keeps the retry the
    sensor holds pending. *)
Lemma ssim_on_loop f s m :
  (∀ k, _retry_task (self (world s)) = Some k →
     pending_at (tasks (loop (world s))) k = true →
     pending_at (tasks (f (loop (world s)))) k = true) →
  ssim s m → ssim (on_world (on_loop f) s) m.
Proof.
  intros Hp. apply ssim_keep; try done; [by left|].
  intros k Hk [Hk'|Hr]; [left; by apply Hp|by right].
Qed.

(** A coroutine outside [connect] that no retry task runs comes to its
    end. *)
Lemma ssim_take i s fr s1 m :
  take_frame i s = Some (fr, s1) → owner fr = None →
  ssim s m → ssim s1 m.
Proof.
  intros (Hi & Hw & Hl & Hf)%take_frame_Some Ho.
  apply ssim_keep; try done; [by rewrite Hw..| |].
  - intros fr'. rewrite Hf. intros ?%list_elem_of_delete_inv. by left.
  - intros k _ [Hp|Hr]; [left; by rewrite Hw|right].
    unfold running_retries in *.
    rewrite (delete_Permutation (frames s) i fr Hi) in Hr. simpl in Hr.
    rewrite Ho in Hr. by rewrite Hf.
Qed.

(** ** Requests *)

Lemma linked_opened w : linked (opened w) = false.
Proof.
  apply linked_false.
  unfold eval, client_connected, gets, client_is_connected. simpl.
  by rewrite lookup_snoc.
Qed.

(** With no coroutine inside [connect], every suspended coroutine is in
    no phase of an attempt. *)
Lemma phase_ok_free w s :
  locked s = false → lock_ok s → Forall (phase_ok w) (frames s).
Proof.
  intros Hl Hok. unfold lock_ok in Hok. rewrite Hl in Hok.
  apply Forall_forall. intros fr Hin.
  by apply phase_ok_outside, (inside_0 (frames s)).
Qed.

(** A coroutine gets the lock: on a connected sensor it returns, and the
    machine stays [Connected]; otherwise it builds a client and awaits
    [connect()], and the machine is [Connecting]. *)
Lemma enter_simulates first t s m :
  first = Request ∨ first = RetryFires →
  locked s = false → lock_ok s → sim0 (world s) m →
  ∃ m', transitions [first] m = Some m' ∧ ssim (connect_enter t s) m'.
Proof.
  intros Hfirst Hl Hok Hsim. unfold connect_enter. simpl transitions.
  destruct (linked (world s)) eqn:Hc.
  - apply linked_true in Hc. pose proof (sim0_linked _ _ Hsim Hc) as Hm.
    exists m. split.
    + unfold transition. rewrite Hm. by destruct Hfirst as [-> | ->].
    + unfold ssim. simpl. split; [done|]. intros ?. congruence.
  - apply linked_false in Hc. rewrite connect_open_run.
    exists (goes Connecting m). split.
    + unfold transition.
      by destruct (sim0_not_linked _ _ Hsim Hc) as [-> | ->],
        Hfirst as [-> | ->].
    + destruct Hsim as [Hconn _ Hi Hw Ha]. unfold ssim. simpl.
      assert (is_available m = false) as Hm
        by (apply Hi; rewrite Hconn; congruence).
      split; simpl; [done..|].
      apply Forall_app. split; [by apply (phase_ok_free _ s)|].
      constructor; [|done]. split; [apply linked_opened|].
      change (available (self (world s)) = false). by rewrite <- Ha.
Qed.

(** A call of [async_update] by Home Assistant or by a retry task. *)
Lemma update_simulates first t s m :
  first = Request ∨ first = RetryFires → lock_ok s →
  (if locked s then connecting s m else sim0 (world s) m) →
  awaiting (suspend (AtLock t) s) m →
  ∃ m', transitions (entering first s) m = Some m'
        ∧ ssim (call_update t s) m'.
Proof.
  intros Hfirst Hok Hsim Haw. unfold entering, call_update.
  destruct (linked (world s)) eqn:Hc.
  - destruct (locked s) eqn:Hl.
    + exists m. split; [done|]. unfold ssim. by rewrite Hl.
    + apply linked_true in Hc. pose proof (sim0_linked _ _ Hsim Hc) as Hm.
      exists m. split.
      * simpl. unfold transition. rewrite Hm. by destruct Hfirst as [-> | ->].
      * unfold ssim. rewrite Hl. split; [done|]. intros ?. congruence.
  - destruct (contended s) eqn:Hq.
    + exists m. split; [done|]. unfold ssim. simpl.
      destruct (locked s); [|done]. destruct Hsim as [? ? ? Hph].
      split; [done..|]. apply Forall_app. split; [done|by constructor].
    + apply contended_free in Hq as Hl. rewrite Hl in Hsim.
      by apply enter_simulates.
Qed.

(** ** The end of an attempt *)

(** The [except] clauses: the machine awaits the retry that
    [_schedule_retry] created. *)
Lemma except_simulates e s m :
  conn m = Connecting → current_weight_grams m = state (self (world s)) →
  linked (world s) = false →
  ssim (except_clause e s) (marked false (goes AwaitingRetry m)).
Proof.
  intros Hm Hw Hc. unfold ssim, except_clause.
  rewrite locked_cancel_frames. simpl. unfold awaiting, alive.
  rewrite world_cancel_frames. simpl. unfold exec.
  rewrite connect_except_run. simpl. split.
  - constructor; simpl; try done. split; [done|].
    rewrite <- linked_true. rewrite (linked_face (world s)); [|done..].
    congruence.
  - intros _. eexists. split; [done|left].
    rewrite <- (length_cancel_opt (_retry_task (self (world s)))
                  (tasks (loop (world s)))).
    unfold pending_at. by rewrite lookup_snoc.
Qed.

(** What is known of the coroutine inside [connect] when the loop
    resumes it. *)
Lemma take_frame_connecting i s fr s1 m :
  tame s → ssim s m → take_frame i s = Some (fr, s1) → critical fr = true →
  connecting s m ∧ phase_ok (world s1) fr
  ∧ locked s1 = true ∧ inside (frames s1) = 0%nat
  ∧ ∀ c, awaits fr = Some c → _client (self (world s1)) = Some c.
Proof.
  intros [Hg _ _] Hsim Ht Hfr.
  pose proof (take_frame_guarded _ _ _ _ Hg Ht) as [_ Hs1].
  rewrite Hfr in Hs1. destruct Hs1 as (Hl1 & Hin & Hc).
  apply take_frame_Some in Ht as (Hi & Hw & Hl & _).
  unfold ssim in Hsim. rewrite <- Hl, Hl1 in Hsim.
  split_and!; try done. rewrite Hw.
  destruct Hsim as [_ _ _ Hph]. rewrite Forall_forall in Hph.
  by eapply Hph, list_elem_of_lookup_2.
Qed.

(** A coroutine that suspends inside [connect], the only one there. *)
Lemma connecting_suspend fr w s m :
  conn m = Connecting → is_available m = false →
  current_weight_grams m = state (self w) →
  locked s = true → inside (frames s) = 0%nat → phase_ok w fr →
  ssim (suspend fr (with_world w s)) m.
Proof.
  intros Hm Ha Hw Hl Hin Hfr. unfold ssim. simpl. rewrite Hl.
  split; simpl; [done..|]. apply Forall_app. split; [|by constructor].
  apply Forall_forall. intros fr' Hfr'.
  by apply phase_ok_outside, (inside_0 (frames s)).
Qed.

(** [connect()] ends: the machine stays [Connecting] when it returned,
    and awaits a retry when it raised. *)
Lemma connect_simulates i t c oc s s1 m :
  tame s → ssim s m → take_frame i s = Some (AtConnect t c, s1) →
  ∃ m', transitions (striggers globals (LConnect i oc) s) m = Some m'
        ∧ ssim (resume_connect t c oc s1) m'.
Proof.
  intros Htame Hsim Ht.
  destruct (take_frame_connecting _ _ _ _ _ Htame Hsim Ht eq_refl)
    as ([Hm Ha Hw _] & [Hph _] & Hl & Hin & Hc).
  specialize (Hc c eq_refl).
  pose proof Ht as (_ & Hw1 & _)%take_frame_Some. rewrite Hw1 in *.
  unfold resume_connect. simpl striggers. rewrite Hc.
  destruct oc as [[]|e]; simpl.
  - exists m. split; [done|]. rewrite Hw1, Hc.
    apply connecting_suspend; try done. simpl. split; [done|].
    rewrite client_is_connected_alter, decide_True by done.
    rewrite bool_decide_eq_true_2; [done|].
    by apply (client_ok _ (sys_refs _ (tame_ok _ Htame))).
  - exists (marked false (goes AwaitingRetry m)). split.
    + unfold transition. by rewrite Hm.
    + apply except_simulates; simpl; [done|by rewrite Hw1|].
      rewrite <- Hph. by apply linked_face; simpl; rewrite Hw1.
Qed.

(** [start_notify] returns: the sensor is connected. *)
Lemma start_notify_simulates i t c on s s1 m :
  is_Ok on = true → tame s → ssim s m →
  take_frame i s = Some (AtStartNotify t c, s1) →
  ∃ m', transitions (striggers globals (LStartNotify i on) s) m = Some m'
        ∧ ssim (resume_start_notify c on s1) m'.
Proof.
  intros Hon Htame Hsim Ht.
  destruct (take_frame_connecting _ _ _ _ _ Htame Hsim Ht eq_refl)
    as ([Hm _ Hw _] & [Ha Hup] & Hl & Hin & Hc).
  specialize (Hc c eq_refl).
  pose proof Ht as (Hi & Hw1 & _)%take_frame_Some.
  destruct on as [[]|]; [|done].
  simpl striggers. unfold subscribes, resume_start_notify, client_start_notify.
  rewrite Hi, <- Hw1, Hup. simpl.
  exists (marked true (goes Connected m)). split.
  { unfold transition. by rewrite Hm. }
  unfold ssim. simpl. split; [|by intros ?].
  rewrite Hw1 in *. constructor; simpl; try done.
  split; [intros _|done]. apply (client_connected_held c); [done|]. simpl.
  rewrite client_is_connected_alter, decide_True by done.
  rewrite bool_decide_eq_true_2; [done|by apply client_is_connected_lt].
Qed.

(** ** The end of a connection *)

Lemma not_linked_None w : _client (self w) = None → linked w = false.
Proof.
  intros Hc. apply linked_false. unfold eval, client_connected, gets. simpl.
  by rewrite Hc.
Qed.

(** The machine of a sensor that has no link and is not available. *)
Lemma sim0_down w w' m :
  sim0 w m → linked w' = false → available (self w') = false →
  state (self w') = state (self w) →
  sim0 w' (marked false (goes Disconnected m)).
Proof.
  intros [_ _ _ Hw _] Hc%linked_false Ha Hs.
  constructor; simpl; try done; [|congruence].
  split; [done|]. by rewrite Hc.
Qed.

(** The [finally] clause of [_disconnect]: the machine is disconnected,
    or goes on awaiting its retry. *)
Lemma forgot_simulates s s' m :
  locked s = false → locked s' = false → ssim s m →
  _client (self (world s')) = None → available (self (world s')) = false →
  state (self (world s')) = state (self (world s)) →
  _retry_task (self (world s')) = _retry_task (self (world s)) →
  (∀ k, _retry_task (self (world s)) = Some k → alive k s → alive k s') →
  ∃ m', transitions [IdleFires] m = Some m' ∧ ssim s' m'.
Proof.
  intros Hl Hl' Hsim Hc Ha Hs Hr Hk. unfold ssim in *.
  rewrite Hl in Hsim. rewrite Hl'. destruct Hsim as [Hsim Haw].
  apply not_linked_None in Hc.
  assert (conn m ≠ Connected → sim0 (world s') m ∧ awaiting s' m) as Hsame.
  { intros Hm. split.
    - destruct Hsim as [Hconn ? Hi Hw Hav]. constructor; try done.
      + split; [done|]. apply linked_false in Hc. by rewrite Hc.
      + congruence.
      + rewrite Ha. by apply Hi.
    - intros (k & Hrk & Hak)%Haw. exists k. rewrite Hr. auto. }
  simpl. unfold transition. destruct (conn m) eqn:Hm.
  - exists m. split; [done|]. by apply Hsame.
  - by destruct Hsim.
  - eexists. split; [done|]. split; [by eapply sim0_down|by intros ?].
  - exists m. split; [done|]. by apply Hsame.
Qed.

(** While the lock is held a coroutine awaits the transport inside
    [connect], for the client the sensor holds. *)
Lemma locked_awaits s m :
  tame s → ssim s m → locked s = true →
  ∃ fr c, fr ∈ frames s ∧ awaits fr = Some c
          ∧ _client (self (world s)) = Some c.
Proof.
  intros [[Hlock _ Hheld] _ _] Hsim Hl. unfold ssim in Hsim.
  rewrite Hl in Hsim. destruct Hsim as [_ _ _ Hph].
  destruct (lock_ok_holder s Hlock Hl) as (i & fr & Hi & Hfr).
  apply list_elem_of_lookup_2 in Hi. rewrite Forall_forall in Hph.
  specialize (Hph fr Hi).
  destruct fr as [| t c | t c | |[]] eqn:E; try done.
  all: exists fr, c; subst fr; split_and!; [done..|by eapply Hheld].
Qed.

(** The retry the sensor holds is no task of [_disconnect]. *)
Lemma finish_keeps_retry k s :
  refs_ok (world s) → task_is (loop (world s)) k CoDisconnect = true →
  ∀ k', _retry_task (self (world s)) = Some k' →
    pending_at (tasks (loop (world s))) k' = true →
    pending_at (tasks (task_finished k (loop (world s)))) k' = true.
Proof.
  intros Hrefs Hk%bool_decide_eq_true k' Hk' Hp. simpl.
  rewrite pending_at_finish_at, decide_False; [done|]. intros ->.
  rewrite (retry_ok _ Hrefs _ Hk') in Hk. done.
Qed.

(** The task of [_disconnect] starts: it awaits [disconnect()], or runs
    its [finally] clause on a sensor that holds no client. *)
Lemma disconnect_task_simulates k s m :
  tame s → ssim s m → task_is (loop (world s)) k CoDisconnect = true →
  ∃ m', transitions (striggers globals (LDisconnectTask k) s) m = Some m'
        ∧ ssim (disconnect_enter (on_world (on_loop (task_finished k)) s)) m'.
Proof.
  intros Htame Hsim Hk.
  pose proof (finish_keeps_retry k s (sys_refs _ (tame_ok _ Htame)) Hk) as Hp.
  unfold disconnect_enter. simpl.
  destruct (_client (self (world s))) as [c|] eqn:Hc.
  - exists m. split; [done|]. by apply ssim_suspend, ssim_on_loop.
  - destruct (locked s) eqn:Hl.
    { destruct (locked_awaits s m) as (? & ? & _ & _ & ?); congruence. }
    apply (forgot_simulates s); try done.
    intros k' Hk' [Hk''|Hr]; [left; by apply Hp|by right].
Qed.

(** [disconnect()] ends for an undisturbed [_disconnect]. *)
Lemma close_simulates i c od s s1 m :
  undisturbed (LDisconnect i od) s → tame s → ssim s m →
  take_frame i s = Some (AtDisconnect c, s1) →
  ∃ m', transitions [IdleFires] m = Some m'
        ∧ ssim (resume_disconnect c od s1) m'.
Proof.
  intros Hq Htame Hsim Ht. apply (ssim_take _ _ _ _ _ Ht eq_refl) in Hsim as Hs1.
  pose proof Ht as (_ & Hw & Hl & _)%take_frame_Some.
  destruct (locked s) eqn:E.
  { destruct (locked_awaits s m) as (fr & c' & Hin & Hfr & _); [done..|].
    revert Hq. simpl. intros [[_ Hfs]%andb_prop_elim _]%andb_prop_elim.
    apply forallb_True in Hfs. rewrite Forall_forall in Hfs.
    apply Hfs, bool_decide_unpack in Hin. congruence. }
  apply (forgot_simulates s1); done || congruence.
Qed.

(** The removal of the entity while no attempt is under way: on a
    connected sensor [_disconnect] awaits [disconnect()] and the machine
    stays [Connected] until it ends; otherwise the machine is
    disconnected at once. *)
Lemma remove_simulates s m :
  locked s = false → ssim s m →
  ∃ m', transitions (striggers globals LRemove s) m = Some m'
        ∧ ssim (disconnect_enter
                  (cancel_frames (_retry_task (self (world s)))
                     (on_world (exec cancel_retry) s))) m'.
Proof.
  intros Hl Hsim. unfold ssim in Hsim. rewrite Hl in Hsim.
  destruct Hsim as [Hsim _].
  assert (∀ s', locked s' = false → conn m = Connected →
            self (world s') = self (world s) →
            clients (world s') = clients (world s) → ssim s' m) as Hup.
  { intros s' Hl' Hm Hs Hcs. unfold ssim. rewrite Hl'.
    split; [by eapply sim0_face|]. intros ?. congruence. }
  assert (∀ s', locked s' = false → linked (world s') = false →
            available (self (world s')) = false →
            state (self (world s')) = state (self (world s)) →
            ssim s' (marked false (goes Disconnected m))) as Hdown.
  { intros s' Hl' Hc Ha Hs. unfold ssim. rewrite Hl'.
    split; [by eapply sim0_down|]. by intros ?. }
  set (s0 := cancel_frames _ (on_world (exec cancel_retry) s)).
  assert (world s0 = retry_cancelled (world s) ∧ locked s0 = false)
    as [Hw0 Hl0].
  { unfold s0. rewrite world_cancel_frames, locked_cancel_frames. simpl.
    by rewrite cancel_retry_run. }
  unfold disconnect_enter. rewrite Hw0. simpl striggers. simpl _client.
  destruct (linked (world s)) eqn:Hc.
  - pose proof (sim0_linked _ _ Hsim (proj1 (linked_true _) Hc)) as Hm.
    exists m. split; [done|].
    destruct (_client (self (world s))) as [c|] eqn:E;
      [|by rewrite not_linked_None in Hc].
    apply Hup; simpl; by rewrite ?Hw0.
  - rewrite transitions_teardown. eexists. split; [done|].
    destruct (_client (self (world s))) as [c|] eqn:E.
    + apply Hdown; simpl; rewrite ?Hw0; try done.
      change (available (self (world s)) = false).
      rewrite <- (sim_available _ _ Hsim). apply (sim_idle _ _ Hsim).
      rewrite (sim_conn _ _ Hsim), <- linked_true. congruence.
    + apply Hdown; simpl; by rewrite ?Hw0.
Qed.

(** ** Notifications, timers and cancelled coroutines *)

(** A notification arrives on a connected sensor, outside the attempts
    to connect. *)
Lemma notify_ssim c data s m :
  tame s → ssim s m → client_notifying (clients (world s)) c = true →
  ∃ m', transitions [reading_of globals data] m = Some m'
        ∧ ssim (on_world (exec (notification_handler globals data)) s) m'.
Proof.
  intros [Hg Hh _] Hsim Hn. unfold ssim in *. simpl.
  destruct (locked s) eqn:Hl; [by rewrite Hh in Hn|].
  destruct Hsim as [Hsim _]. pose proof (guarded_link _ Hg) as Hlink.
  pose proof Hn as Hup%client_notifying_connected.
  pose proof (client_connected_held c _ (Hlink c Hup) Hup) as Hc.
  pose proof (sim0_linked _ _ Hsim Hc) as Hm.
  destruct (notify_simulates globals c data (world s) m) as (m' & Hm' & Hsim');
    [done..|split; [done|intros ?; congruence]|].
  exists m'. split; [done|]. destruct Hsim' as [Hsim' _]. split; [done|].
  assert (conn m' = Connected) as Hm''; [|intros ?; congruence].
  apply (sim_conn _ _ Hsim'), linked_true.
  rewrite (linked_face (world s)); [by apply linked_true|..];
    apply (notification_handler_clients globals).
Qed.

(** The callback of the idle timer touches the loop only. *)
Lemma timer_face h w :
  let w' := exec (modify (on_loop (timer_fired h));; disconnect) w in
  self w' = self w ∧ clients w' = clients w
  ∧ ∀ k, pending_at (tasks (loop w)) k = true →
         pending_at (tasks (loop w')) k = true.
Proof.
  simpl. rewrite exec_modify. unfold exec.
  destruct (client_connected_cases (on_loop (timer_fired h) w)) as [Hc|Hc].
  - rewrite disconnect_connected by done. simpl. split_and!; [done..|].
    intros k Hk. change (?l ++ [?x]) with (alloc l x).1.
    rewrite pending_at_alloc. by case_decide.
  - by rewrite disconnect_idle.
Qed.

(** A coroutine that was cancelled ends: it waited for the lock. *)
Lemma cancelled_simulates i b s s1 m :
  tame s → ssim s m → take_frame i s = Some (Cancelled b, s1) →
  ssim (resume_cancelled b s1) m.
Proof.
  intros Htame Hsim Ht. destruct b.
  - by destruct (take_frame_connecting _ _ _ _ _ Htame Hsim Ht eq_refl)
      as (_ & [] & _).
  - by eapply ssim_take.
Qed.

(** ** Every nominal step is rows of the table *)

Lemma ssim_settled s m :
  ssim s m → if locked s then connecting s m else sim0 (world s) m.
Proof. unfold ssim. destruct (locked s); [done|by intros [? _]]. Qed.

Lemma ssim_awaiting fr s m : ssim s m → awaiting (suspend fr s) m.
Proof.
  unfold ssim. destruct (locked s).
  - intros [Hm _ _ _] ?. congruence.
  - intros [_ Haw] (k & Hk & Ha)%Haw. exists k. split; [done|].
    by apply alive_suspend.
Qed.

Lemma served_cases (ofr : option frame) :
  served ofr = Request ∨ served ofr = RetryFires.
Proof. destruct ofr as [[[]| | | |]|]; simpl; auto. Qed.

(** A retry task wakes up and calls [async_update]. *)
Lemma retry_simulates k s m :
  tame s → ssim s m →
  task_due (loop (world s)) k && task_is (loop (world s)) k CoRetryConnect
  = true →
  ∃ m', transitions (entering RetryFires s) m = Some m'
        ∧ ssim (call_update (Some k)
                  (on_world (on_loop (task_finished k)) s)) m'.
Proof.
  intros [Hg _ [_ Hone _ Hfs]] Hsim Hk.
  apply (update_simulates RetryFires (Some k)
           (on_world (on_loop (task_finished k)) s)); [by right|apply Hg|..].
  - apply ssim_settled in Hsim. simpl. destruct (locked s).
    + by destruct Hsim.
    + by apply sim0_on_loop.
  - intros _. exists k. destruct (retry_wakes k s Hone Hfs Hk) as [Hok _].
    destruct (Hok k eq_refl) as (_ & _ & Hheld). split; [done|right].
    unfold running_retries. simpl. rewrite omap_app.
    apply elem_of_app. right. by left.
Qed.

Lemma sstep_simulates l s s' m :
  snominal l s → tame s → ssim s m → sstep globals l s = Some s' →
  ∃ m', transitions (striggers globals l s) m = Some m' ∧ ssim s' m'.
Proof.
  intros Hn Htame Hsim. pose proof (tame_guarded _ Htame) as Hg.
  destruct l; simpl sstep; simpl in Hn.
  - intros [= <-]. apply update_simulates;
      [by left|apply Hg|by apply ssim_settled|by apply ssim_awaiting].
  - case_match eqn:Hk; [|done]. intros [= <-]. by apply retry_simulates.
  - destruct (take_frame i s) as [[[] s1]|] eqn:Ht; try done.
    destruct (locked s) eqn:Hl; [done|].
    destruct (first_waiting i s); [simpl|done]. intros [= <-].
    pose proof (take_frame_inside _ _ _ _ (guarded_lock _ Hg) Ht) as Hok.
    apply ssim_settled in Hsim. rewrite Hl in Hsim.
    apply take_frame_Some in Ht as (_ & Hw & Hl1 & _).
    apply enter_simulates; [apply served_cases|congruence|done|by rewrite Hw].
  - destruct (take_frame i s) as [[[] s1]|] eqn:Ht; try done.
    intros [= <-]. by eapply connect_simulates.
  - destruct (take_frame i s) as [[[] s1]|] eqn:Ht; try done.
    intros [= <-]. eapply start_notify_simulates; [by destruct on|done..].
  - case_match; [|done]. intros [= <-]. exists m. split; [done|].
    destruct (timer_face h (world s)) as (Hs & Hcs & Hp).
    revert Hsim. apply ssim_keep; try done; [by left|].
    intros k _ [Hk|Hr]; [left; by apply Hp|by right].
  - case_match eqn:Hk; [|done]. intros [= <-].
    apply andb_true_iff in Hk as [_ Hk]. by apply disconnect_task_simulates.
  - destruct (take_frame i s) as [[[] s1]|] eqn:Ht; try done.
    intros [= <-]. by eapply close_simulates.
  - intros [= <-]. apply remove_simulates; [by destruct (locked s)|done].
  - destruct (take_frame i s) as [[[] s1]|] eqn:Ht; try done.
    intros [= <-]. exists m. split; [done|]. by eapply cancelled_simulates.
  - case_match eqn:Hc; [|done]. intros [= <-]. by eapply notify_ssim.
  - done.
  - case_match; [|done]. intros [= <-]. exists m. split; [done|].
    by apply ssim_on_loop.
Qed.

Lemma srun_tame ls s s' :
  snominal_run globals ls s → tame s → srun globals ls s = Some s' →
  tame s'.
Proof.
  revert s. induction ls as [|l ls IH]; intros s; simpl.
  - by intros _ ? [= <-].
  - intros [Hl Hls]%andb_prop_elim Htame.
    destruct (sstep globals l s) as [s1|] eqn:E; [|done]. simpl in *.
    apply IH; [done|]. by eapply sstep_tame.
Qed.

(** A nominal run from a state the machine simulates. *)
Lemma srun_simulates ls s s' m :
  snominal_run globals ls s → tame s → ssim s m →
  srun globals ls s = Some s' →
  ∃ m', transitions (strace globals ls s) m = Some m' ∧ ssim s' m'.
Proof.
  revert s m. induction ls as [|l ls IH]; intros s m; simpl.
  { intros _ _ ? [= <-]. eauto. }
  intros [Hl Hls]%andb_prop_elim Htame Hsim.
  destruct (sstep globals l s) as [s1|] eqn:E; [|done]. simpl in *.
  destruct (sstep_simulates l s s1 m) as (m1 & Hm1 & Hsim1); [done..|].
  intros Hrun. destruct (IH s1 m1) as (m' & Hm' & Hsim');
    [done|by eapply sstep_tame|done..|].
  exists m'. by rewrite transitions_app, Hm1.
Qed.

Lemma ssim_boot addr : ssim (boot addr) initial.
Proof. split; [apply sim_initial|done]. Qed.

(** What [ssim] says of the connection. *)
Lemma ssim_conn s m :
  tame s → ssim s m →
  (conn m = Connecting ↔ locked s = true)
  ∧ (conn m = Connected → linked (world s) = true)
  ∧ (available (self (world s)) = true → linked (world s) = true).
Proof.
  intros Htame Hsim. pose proof Hsim as Hsim'. unfold ssim in Hsim.
  destruct (locked s) eqn:Hl.
  - destruct Hsim as [Hm _ _ Hph]. split_and!; [done|congruence|].
    destruct (locked_awaits s m) as (fr & c & Hin & Hfr & Hc); [done..|].
    rewrite Forall_forall in Hph. specialize (Hph fr Hin).
    destruct fr as [| | | |[]]; try done; simpl in *.
    + destruct Hph. congruence.
    + destruct Hph as [_ Hup]. intros _. apply linked_true.
      injection Hfr as ->. by apply (client_connected_held c).
  - destruct Hsim as [[Hconn Hset Hi _ Ha] _]. split_and!.
    + split; [done|congruence].
    + intros Hm. by apply linked_true, Hconn.
    + intros Hav. apply linked_true, Hconn.
      destruct (decide (conn m = Connected)) as [|Hne]; [done|].
      apply Hi in Hne. congruence.
Qed.

End simulation.

(** ** The code refines the machine under every interleaving *)

Section refinement.
Context (globals : namespace) (addr : string).

(** C9: On every nominal run of the loop from the set-up of the entity, the
    rows of the table the run goes through are transitions of the
    machine, which ends in a state that agrees with the sensor: it is
    [Connecting] exactly while a coroutine holds the lock of [connect];
    otherwise it is [Connected] exactly when the sensor holds a client
    with a link, has the weight and the availability the sensor reports,
    and in [AwaitingRetry] the retry the sensor holds is asleep or at
    work. *)
Theorem srun_refines ls s :
  snominal_run globals ls (boot addr) →
  srun globals ls (boot addr) = Some s →
  ∃ m,
    transitions (strace globals ls (boot addr)) initial = Some m
    ∧ ssim s m.
Proof.
  intros Hn. by apply srun_simulates; [|apply tame_boot|apply ssim_boot].
Qed.

(** C31: On every nominal run of the loop the entity is available only while
    the sensor holds a client with a link. *)
Theorem srun_available_linked ls s :
  snominal_run globals ls (boot addr) →
  srun globals ls (boot addr) = Some s →
  available (self (world s)) = true → linked (world s) = true.
Proof.
  intros Hn Hrun.
  destruct (srun_simulates globals ls (boot addr) s initial)
    as (m & _ & Hsim); [done|apply tame_boot|apply ssim_boot|done|].
  apply (ssim_conn s m); [|done].
  by apply (srun_tame globals ls (boot addr)); [|apply tame_boot|].
Qed.

End refinement.

(** ** The theorems at concrete runs *)

(** The rows of [labels_protocol], and the machine at its end. *)
Example strace_labels_protocol addr :
  strace hoisted_globals labels_protocol (boot addr)
  = [Request; Fails; RetryFires; Succeeds; Request; Reading 500; IdleFires]
  ∧ transitions (strace hoisted_globals labels_protocol (boot addr)) initial
    = Some {| conn := Disconnected; current_weight_grams := Some 500;
              is_available := false |}.
Proof. split; by vm_compute. Qed.

(** Between the end of [connect()] and the end of [start_notify] the
    sensor is available already; the machine, which is [Connecting], is
    not. *)
Example available_while_connecting addr :
  let s := sys_after hoisted_globals labels_contended (boot addr) in
  frames s = [AtLock None; AtStartNotify None 0]
  ∧ available (self (world s)) = true
  ∧ transitions (strace hoisted_globals labels_contended (boot addr)) initial
    = Some {| conn := Connecting; current_weight_grams := None;
              is_available := false |}.
Proof. split_and!; by vm_compute. Qed.

(** The entity is not to be removed while an attempt is under way: the
    machine is torn down, and has no row for the end of [start_notify],
    while the attempt of the code goes on and connects. *)
Example removal_inside_leaves_table addr :
  let ls := [LUpdate; LRemove; LConnect 0 (Ok ()); LStartNotify 1 (Ok ())] in
  snominal_run hoisted_globals ls (boot addr) = false
  ∧ live (clients (world (sys_after hoisted_globals ls (boot addr))))
    = [0%nat]
  ∧ strace hoisted_globals ls (boot addr)
    = [Request; TeardownRequest; Succeeds]
  ∧ transitions (strace hoisted_globals ls (boot addr)) initial = None.
Proof. split_and!; by vm_compute. Qed.

Lemma srun_refines_witness :
  ∃ m,
    transitions
      (strace hoisted_globals labels_protocol (boot "C8:B2:1E:3A:5F:01"))
      initial = Some m
    ∧ ssim (sys_after hoisted_globals labels_protocol
              (boot "C8:B2:1E:3A:5F:01")) m.
Proof.
  apply (srun_refines hoisted_globals "C8:B2:1E:3A:5F:01" labels_protocol);
    by vm_compute.
Defined.

(** Two polls at once: the sensor is available once [connect()] has
    returned, and holds a client with a link. *)
Lemma srun_available_linked_witness :
  linked (world (sys_after hoisted_globals labels_contended
                   (boot "C8:B2:1E:3A:5F:01"))) = true.
Proof.
  apply (srun_available_linked hoisted_globals "C8:B2:1E:3A:5F:01"
           labels_contended); by vm_compute.
Defined.
