(* ===== verification/Scenarios.v ===== *)
(** * Scenarios: the sensor over time

    Runs of the sensor in its environment ([Lifecycle.run]) that follow one
    connection from a reading to the idle disconnect and one failure to
    its retry, with the instants at which the loop may act; and the runs
    in which the sensor leaves the behaviour the specification describes:
    two idle timers pending at once, two clients holding a link. *)

From S2P Require Import Prelude PyStruct Decoder EventLoop Transport Sensor.
From S2P Require Import Lifecycle.

#[local] Open Scope Z_scope.

(** The retries of a transport whose [connect()] raises the exceptions
    of [es] in turn and then returns, each fired a minute after the
    failure before it; [k] is the task of the first. *)
Fixpoint retry_events (k : nat) (es : list exn) : list event :=
  match es with
  | [] => [EvAdvance 60; EvRetry k (Ok ()) (Ok ())]
  | e :: es' =>
      EvAdvance 60 :: EvRetry k (Raise e) (Ok ()) :: retry_events (S k) es'
  end.

Section timing.
Context (globals : namespace).
Implicit Types (w : World) (data : list byte).

(** Time, timers and tasks are no part of the question whether the sensor
    is connected. *)
Lemma client_connected_on_loop f w :
  eval client_connected (on_loop f w) = eval client_connected w.
Proof. done. Qed.

Lemma client_connected_reading_taken x w :
  eval client_connected (reading_taken x w) = eval client_connected w.
Proof. done. Qed.

(** The timer a reading arms, [dt] seconds later. *)
Lemma reading_taken_timer_due x dt w :
  timer_due (loop (on_loop (advance dt) (reading_taken x w)))
    (length (timers (loop w)))
  = bool_decide (60 ≤ dt).
Proof.
  rewrite <- (length_cancel_opt (_disconnect_timer (self w)) (timers (loop w))).
  cbn [loop on_loop reading_taken]. rewrite timer_due_snoc. simpl.
  apply bool_decide_ext. lia.
Qed.

(** The task [disconnect] creates can run at once. *)
Lemma disconnect_task_due w :
  let w' := on_loop (λ l, (create_task CoDisconnect 0 l).1) w in
  let k := length (tasks (loop w)) in
  task_due (loop w') k = true ∧ task_is (loop w') k CoDisconnect = true.
Proof.
  unfold task_due, task_is. simpl. rewrite lookup_snoc. simpl.
  split; [|done]. apply bool_decide_eq_true_2. lia.
Qed.

(** After a stable reading the loop may run the idle timer once 60
    seconds have passed, and not before. *)
Theorem idle_timer_due_after_delay data x dt w :
  decode_weight globals data = Ok (Some x) →
  let w' := exec (notification_handler globals data) w in
  timer_due (advance dt (loop w')) (length (timers (loop w)))
  = bool_decide (60 ≤ dt).
Proof.
  intros Hd. simpl. unfold exec.
  rewrite (notification_handler_stable _ _ _ _ Hd).
  apply reading_taken_timer_due.
Qed.

(** A stable reading followed by 60 seconds of silence: the idle timer
    fires, [disconnect] starts [_disconnect], and the sensor ends with no
    client, unavailable, with the weight it read, and Home Assistant is
    told.  With a [disconnect()] that returns, the link is closed. *)
Theorem idle_timeout_disconnects c data x od w :
  _client (self w) = Some c →
  client_notifying (clients w) c = true →
  decode_weight globals data = Ok (Some x) →
  let h := length (timers (loop w)) in
  let k := length (tasks (loop w)) in
  ∃ w',
    run globals [EvNotify c data; EvAdvance 60; EvTimer h; EvDisconnect k od] w
    = Some w'
    ∧ _client (self w') = None
    ∧ available (self w') = false
    ∧ state (self w') = Some x
    ∧ head (ha_states w') = Some (Some x, false)
    ∧ (od = DisconnectOk → client_is_connected (clients w') c = false).
Proof.
  intros Hcl Hn Hd h k. eexists. split.
  { erewrite run_cons by by apply step_notify.
    erewrite run_cons by by apply step_advance.
    erewrite run_cons.
    2:{ apply step_timer; [apply reading_taken_timer_due|].
        apply (client_connected_held c); [done|].
        by apply client_notifying_connected. }
    erewrite run_cons; [done|].
    by apply step_disconnect; apply disconnect_task_due. }
  simpl. split_and!; try done.
  intros ->. rewrite Hcl. simpl.
  rewrite client_is_connected_alter, decide_True by done. apply andb_false_r.
Qed.

(** The task a failed [connect] schedules, [dt] seconds later. *)
Lemma retry_scheduled_task_due dt w :
  task_due (loop (on_loop (advance dt) (retry_scheduled w)))
    (length (tasks (loop w)))
  = bool_decide (_connection_retry_interval (self w) ≤ dt)
  ∧ task_is (loop (on_loop (advance dt) (retry_scheduled w)))
      (length (tasks (loop w))) CoRetryConnect = true.
Proof.
  rewrite <- (length_cancel_opt (_retry_task (self w)) (tasks (loop w))).
  unfold task_is. cbn [loop on_loop retry_scheduled tasks advance].
  rewrite task_due_snoc, lookup_snoc. simpl. split; [|done].
  apply bool_decide_ext. lia.
Qed.

(** A [connect()] that raises is retried after the retry interval and
    not before: the task may run from 60 seconds on; when it runs and the
    transport answers, the sensor is connected and available, and the
    task is no longer pending. *)
Theorem retry_after_interval e on w :
  eval client_connected w = Ok false →
  _connection_retry_interval (self w) = 60 →
  let w1 := exec (async_update (Raise e) on) w in
  let k := length (tasks (loop w)) in
  (∀ dt, task_due (advance dt (loop w1)) k = bool_decide (60 ≤ dt))
  ∧ ∃ w2,
      run globals [EvAdvance 60; EvRetry k (Ok ()) (Ok ())] w1 = Some w2
      ∧ eval client_connected w2 = Ok true
      ∧ available (self w2) = true
      ∧ pending_at (tasks (loop w2)) k = false.
Proof.
  intros Hc Hi w1 k. subst w1 k. unfold exec at 1 2.
  rewrite async_update_connect, connect_Raise by done.
  cbn [snd]. unfold connect_failed_world.
  pose proof (λ dt, retry_scheduled_task_due dt (client_failed false w)) as Hdue.
  change (_connection_retry_interval (self (client_failed false w)))
    with (_connection_retry_interval (self w)) in Hdue.
  change (loop (client_failed false w)) with (loop w) in Hdue.
  rewrite Hi in Hdue.
  split; [intros dt; apply Hdue|].
  eexists. split.
  { erewrite run_cons by by apply step_advance.
    erewrite run_cons; [done|].
    destruct (Hdue 60) as [Hd Hk]. by apply step_retry. }
  unfold exec. rewrite async_update_connect, connect_Ok
    by apply (connect_failed_world_connected false).
  simpl. split_and!; [apply connected_world_connected|done|].
  by rewrite pending_at_finish_at, decide_True.
Qed.

(** A minute after a [connect()] that raised, the retry fires: it runs
    [async_update] on a sensor that is still not connected, and its task
    is the last of the loop. *)
Lemma retry_fires e on oc on' w :
  eval client_connected w = Ok false →
  _connection_retry_interval (self w) = 60 →
  let k := length (tasks (loop w)) in
  let w1 := exec (async_update (Raise e) on) w in
  let w2 := on_loop (task_finished k) (on_loop (advance 60) w1) in
  run globals [EvAdvance 60; EvRetry k oc on'] w1
  = Some (exec (async_update oc on') w2)
  ∧ eval client_connected w2 = Ok false
  ∧ _connection_retry_interval (self w2) = 60
  ∧ length (tasks (loop w2)) = S k
  ∧ length (clients w2) = S (length (clients w))
  ∧ now (loop w2) = now (loop w) + 60
  ∧ _retry_task (self w2) = Some k
  ∧ pending_at (tasks (loop w2)) k = false.
Proof.
  intros Hc Hi k w1 w2. subst k w1 w2.
  assert (exec (async_update (Raise e) on) w = connect_failed_world false w)
    as -> by (unfold exec; by rewrite async_update_connect, connect_Raise).
  unfold connect_failed_world.
  destruct (retry_scheduled_task_due 60 (client_failed false w)) as [Hd Hk].
  change (_connection_retry_interval (self (client_failed false w)))
    with (_connection_retry_interval (self w)) in Hd.
  change (loop (client_failed false w)) with (loop w) in Hd, Hk.
  rewrite Hi in Hd. split_and!.
  - erewrite run_cons by by apply step_advance.
    erewrite run_cons; [done|]. by apply step_retry.
  - apply (connect_failed_world_connected false).
  - done.
  - simpl. rewrite length_finish_at, length_app, length_cancel_opt. simpl. lia.
  - simpl. rewrite length_app. simpl. lia.
  - done.
  - done.
  - simpl. by rewrite pending_at_finish_at, decide_True.
Qed.

(** The retry loop ends with the first [connect()] that returns: however
    often the transport fails, the retries follow each other a minute
    apart, each builds one client, and the one that succeeds leaves the
    sensor connected and available with no retry to come. *)
Theorem retry_loop_connects e es on w :
  eval client_connected w = Ok false →
  _connection_retry_interval (self w) = 60 →
  let w1 := exec (async_update (Raise e) on) w in
  ∃ w2,
    run globals (retry_events (length (tasks (loop w))) es) w1 = Some w2
    ∧ eval client_connected w2 = Ok true
    ∧ available (self w2) = true
    ∧ (∀ k, _retry_task (self w2) = Some k →
         pending_at (tasks (loop w2)) k = false)
    ∧ now (loop w2) = now (loop w) + 60 * Z.of_nat (length es + 1)
    ∧ length (clients w2) = (length (clients w) + length es + 2)%nat.
Proof.
  intros Hc Hi. simpl. revert e on w Hc Hi.
  induction es as [|e' es IH]; intros e on w Hc Hi.
  - destruct (retry_fires e on (Ok ()) (Ok ()) w Hc Hi)
      as (Hrun & Hc2 & _ & _ & Hcl & Hnow & Hk & Hp).
    set (w' := on_loop (task_finished _) _) in *.
    eexists. split; [exact Hrun|].
    assert (exec (async_update (Ok ()) (Ok ())) w' = connected_world w')
      as -> by (unfold exec; by rewrite async_update_connect, connect_Ok).
    split_and!; [apply connected_world_connected|done|..].
    + intros k. cbn [connected_world self loop tasks set_disconnect_timer
                     set_available set_client _retry_task].
      rewrite Hk. by intros [= <-].
    + cbn [connected_world loop now]. rewrite Hnow. simpl. lia.
    + cbn [connected_world clients]. rewrite length_app, Hcl. simpl. lia.
  - destruct (retry_fires e on (Raise e') (Ok ()) w Hc Hi)
      as (Hrun & Hc2 & Hi2 & Hts & Hcl & Hnow & _).
    destruct (IH e' (Ok ()) _ Hc2 Hi2) as (w2 & Hrun2 & ? & ? & ? & Hn & Hl).
    exists w2. split_and!; [|done..| |].
    + change (retry_events _ (e' :: es))
        with ([EvAdvance 60; EvRetry (length (tasks (loop w))) (Raise e') (Ok ())]
              ++ retry_events (S (length (tasks (loop w)))) es).
      rewrite run_app, Hrun. simpl mbind. by rewrite <- Hts.
    + rewrite Hn, Hnow. simpl length. lia.
    + rewrite Hl, Hcl. simpl. lia.
Qed.

End timing.

(** ** Runs that leave the design *)

Section outside.
Context (globals : namespace) (addr : string).

(** A link that is lost and opened again leaves two idle timers pending:
    [connect] arms a timer and does not cancel the one the sensor holds.
    The older timer then closes the new connection 30 seconds after it
    was opened. *)
Example stale_idle_timer_cuts_connection :
  ∃ w1 w2,
    run globals
      [EvAdded (Ok ()) (Ok ()); EvAdvance 30; EvLinkLost 0;
       EvUpdate (Ok ()) (Ok ())] (async_setup_entry addr) = Some w1
    ∧ pending_timers w1 = [0; 1]%nat
    ∧ th_when <$> timers (loop w1) = [60; 90]
    ∧ run globals [EvAdvance 30; EvTimer 0; EvDisconnect 0 DisconnectOk] w1
      = Some w2
    ∧ now (loop w2) = 60
    ∧ clients w2 !! 1%nat
      = Some {| address := addr; timeout := 10; is_connected := false;
                notifying := None |}
    ∧ available (self w2) = false.
Proof. eexists _, _. repeat (split; [by vm_compute|]). by vm_compute. Qed.

(** A [disconnect()] that raises and keeps the link, followed by the next
    poll of Home Assistant: the sensor forgot the client, so [connect]
    builds another, and two clients hold a link to the scale. *)
Example unreliable_disconnect_two_links :
  ∃ w,
    run globals
      [EvAdded (Ok ()) (Ok ()); EvAdvance 60; EvTimer 0;
       EvDisconnect 0 (DisconnectRaise BleakError false);
       EvUpdate (Ok ()) (Ok ())] (async_setup_entry addr) = Some w
    ∧ live (clients w) = [0; 1]%nat
    ∧ _client (self w) = Some 1%nat.
Proof. eexists. repeat (split; [by vm_compute|]). by vm_compute. Qed.

End outside.

(** ** The theorems on a first connection *)

Lemma idle_timer_due_after_delay_witness :
  timer_due (advance 59 (loop world_weighed)) 1 = bool_decide (60 ≤ 59).
Proof.
  apply (idle_timer_due_after_delay hoisted_globals scenario_stable 500 59
           world_added).
  by vm_compute.
Defined.

Lemma idle_timeout_disconnects_witness :
  ∃ w',
    run hoisted_globals
      [EvNotify 0 scenario_stable; EvAdvance 60; EvTimer 1;
       EvDisconnect 0 DisconnectOk] world_added = Some w'
    ∧ _client (self w') = None
    ∧ available (self w') = false
    ∧ state (self w') = Some 500
    ∧ head (ha_states w') = Some (Some 500, false)
    ∧ (DisconnectOk = DisconnectOk →
       client_is_connected (clients w') 0 = false).
Proof.
  apply (idle_timeout_disconnects hoisted_globals 0 scenario_stable 500
           DisconnectOk world_added); by vm_compute.
Defined.

Lemma retry_after_interval_witness :
  let w1 := exec (async_update (Raise TimeoutError) (Ok ())) world_reset in
  (∀ dt, task_due (advance dt (loop w1)) 0 = bool_decide (60 ≤ dt))
  ∧ ∃ w2,
      run hoisted_globals [EvAdvance 60; EvRetry 0 (Ok ()) (Ok ())] w1
      = Some w2
      ∧ eval client_connected w2 = Ok true
      ∧ available (self w2) = true
      ∧ pending_at (tasks (loop w2)) 0 = false.
Proof.
  apply (retry_after_interval hoisted_globals TimeoutError (Ok ())
           world_reset); done.
Defined.

(** Three failures in a row and the retry that connects: four clients,
    three minutes. *)
Lemma retry_loop_connects_witness :
  let w := world_reset in
  let es := [BleakError; TimeoutError] in
  let w1 := exec (async_update (Raise TimeoutError) (Ok ())) w in
  ∃ w2,
    run hoisted_globals (retry_events (length (tasks (loop w))) es) w1
    = Some w2
    ∧ eval client_connected w2 = Ok true
    ∧ available (self w2) = true
    ∧ (∀ k, _retry_task (self w2) = Some k →
         pending_at (tasks (loop w2)) k = false)
    ∧ now (loop w2) = now (loop w) + 60 * Z.of_nat (length es + 1)
    ∧ length (clients w2) = (length (clients w) + length es + 2)%nat.
Proof.
  apply (retry_loop_connects hoisted_globals TimeoutError
           [BleakError; TimeoutError] (Ok ()) world_reset); done.
Defined.
