(* ===== verification/Deadlines.v ===== *)
(** * Deadlines: what the loop has done when an instant has passed

    The loop of asyncio runs a timer as soon as its instant has come and a
    task as soon as its sleep is over: with methods that take no time, time
    does not pass an instant at which something pending is due.  A run is
    [timely] when each of its advances stops at the next such instant at
    the latest.

    On the timely runs the two timeouts of the sensor are deadlines.  A
    link that carries no further reading is closed 60 seconds after the
    last one at the latest, whatever Home Assistant asks in the meantime;
    after a connection attempt that failed another attempt is made before
    the retry interval is over, unless the entity is removed.  Both are
    proved for every schedule of the events, not for one run. *)

From S2P Require Import Prelude PyStruct Decoder EventLoop Transport Sensor.
From S2P Require Import Lifecycle Scenarios.

#[local] Open Scope Z_scope.

(** Something pending is due before the instant [T]. *)
Definition overdue (T : Z) (l : Loop) : bool :=
  existsb (λ t, is_pending t && bool_decide (th_when t < T)) (timers l)
  || existsb (λ t, is_pending t && bool_decide (task_wake t < T)) (tasks l).

(** An advance of the clock that skips nothing the loop has to run. *)
Definition timely_step (e : event) (w : World) : bool :=
  match e with
  | EvAdvance dt => negb (overdue (now (loop w) + dt) (loop w))
  | _ => true
  end.

Fixpoint timely (globals : namespace) (es : list event) (w : World) : bool :=
  match es with
  | [] => true
  | e :: es' =>
      timely_step e w
      && from_option (timely globals es') true (step globals e w)
  end.

(** A pending task of coroutine [co] runs at [D] at the latest. *)
Definition wakes_by (co : coroutine) (D : Z) (t : Task) : bool :=
  is_pending t && bool_decide (task_coro t = co)
  && bool_decide (task_wake t ≤ D).

(** The loop holds what closes the link at [D] at the latest: a pending
    idle timer, or the task of [_disconnect] a timer created. *)
Definition closing (D : Z) (l : Loop) : bool :=
  existsb (λ t, is_pending t && bool_decide (th_when t ≤ D)) (timers l)
  || existsb (wakes_by CoDisconnect D) (tasks l).

(** The loop holds a retry that runs at [D] at the latest. *)
Definition retrying (D : Z) (l : Loop) : bool :=
  existsb (wakes_by CoRetryConnect D) (tasks l).

(** Events that are not a notification and do not take the link away. *)
Definition silent_event (e : event) : bool :=
  match e with
  | EvNotify _ _ | EvLinkLost _ => false
  | _ => true
  end.

(** Events that leave the entity in Home Assistant. *)
Definition staying (e : event) : bool :=
  match e with
  | EvRemove _ => false
  | _ => true
  end.

(** The sensor after [_disconnect]. *)
Definition released (w : World) : Prop :=
  _client (self w) = None ∧ available (self w) = false.

(** Sixty-one seconds without a reading, the loop doing its work on time. *)
Definition events_idle : list event :=
  [EvAdvance 60; EvTimer 1; EvUpdate (Ok ()) (Ok ());
   EvDisconnect 0 DisconnectOk; EvAdvance 1].

(** A failure, a notification-free minute, the retry and what follows. *)
Definition events_retried : list event :=
  [EvAdvance 60; EvRetry 0 (Raise TimeoutError) (Ok ()); EvAdvance 1].

(** ** Time stops at a deadline *)

Lemma overdue_timer T l t :
  t ∈ timers l → is_pending t = true → overdue T l = false → T ≤ th_when t.
Proof.
  intros Ht Hp [Hov _]%orb_false_elim.
  destruct (decide (T ≤ th_when t)) as [|Hlt]; [done|].
  assert (existsb (λ t, is_pending t && bool_decide (th_when t < T)) (timers l))
    as Hex; [|by rewrite Hov in Hex].
  apply existb_True, Exists_exists. exists t. split; [done|].
  rewrite Hp. simpl. apply bool_decide_pack. lia.
Qed.

Lemma overdue_task T l t :
  t ∈ tasks l → is_pending t = true → overdue T l = false → T ≤ task_wake t.
Proof.
  intros Ht Hp [_ Hov]%orb_false_elim.
  destruct (decide (T ≤ task_wake t)) as [|Hlt]; [done|].
  assert (existsb (λ t, is_pending t && bool_decide (task_wake t < T)) (tasks l))
    as Hex; [|by rewrite Hov in Hex].
  apply existb_True, Exists_exists. exists t. split; [done|].
  rewrite Hp. simpl. apply bool_decide_pack. lia.
Qed.

Lemma wakes_by_elim co D t :
  wakes_by co D t = true →
  is_pending t = true ∧ task_coro t = co ∧ task_wake t ≤ D.
Proof.
  unfold wakes_by. intros [[Hp Hc]%andb_prop Hd]%andb_prop.
  by apply bool_decide_eq_true in Hc, Hd.
Qed.

Lemma wakes_by_overdue co D T l :
  existsb (wakes_by co D) (tasks l) = true → overdue T l = false → T ≤ D.
Proof.
  intros (t & Ht & Ha)%Is_true_true%existb_True%Exists_exists Hov.
  apply Is_true_true, wakes_by_elim in Ha as (Hp & _ & Hd).
  pose proof (overdue_task T l t Ht Hp Hov). lia.
Qed.

Lemma closing_overdue D T l :
  closing D l = true → overdue T l = false → T ≤ D.
Proof.
  intros [H|H]%orb_prop Hov; [|by eapply wakes_by_overdue].
  apply Is_true_true, existb_True, Exists_exists in H as (t & Ht & H).
  apply andb_prop_elim in H as [Hp Hd]. apply bool_decide_unpack in Hd.
  pose proof (overdue_timer T l t Ht (Is_true_true_1 _ Hp) Hov). lia.
Qed.

(** ** What the loop holds, step by step *)

(** A task that ran was not the task of another coroutine. *)
Lemma wakes_by_task_finished co co' D k l :
  task_is l k co' = true → co ≠ co' →
  existsb (wakes_by co D) (tasks l) = true →
  existsb (wakes_by co D) (finish_at k (tasks l)) = true.
Proof.
  intros Hk Hne (t & Ht & Ha)%Is_true_true%existb_True%Exists_exists.
  apply Is_true_true, existb_True, Exists_exists. exists t. split; [|done].
  apply list_elem_of_lookup in Ht as [i Hi].
  apply list_elem_of_lookup. exists i. unfold finish_at.
  rewrite list_lookup_alter_ne; [done|]. intros <-.
  apply bool_decide_eq_true in Hk. rewrite Hi in Hk. simplify_eq/=.
  apply Is_true_true, wakes_by_elim in Ha as (_ & Hc & _). congruence.
Qed.

Lemma wakes_by_snoc co D ts t :
  wakes_by co D t = true → existsb (wakes_by co D) (ts ++ [t]) = true.
Proof. intros Ha. rewrite existsb_app. simpl. rewrite Ha. apply orb_true_r. Qed.

Lemma closing_armed D w ts :
  now (loop w) + 60 ≤ D →
  existsb (λ t, is_pending t && bool_decide (th_when t ≤ D))
    (ts ++ [idle_timer_of w]) = true.
Proof.
  intros HD. rewrite existsb_app. simpl.
  rewrite (bool_decide_eq_true_2 _ HD). apply orb_true_r.
Qed.

Section deadlines.
Context (globals : namespace).
Implicit Types (w : World) (e : event) (es : list event) (D : Z).

Lemma linked_update oc on w :
  linked w = true → exec (async_update oc on) w = w.
Proof.
  intros Hl%linked_true. unfold exec. by rewrite async_update_connected.
Qed.

(** One event on a sensor that is linked and gets no reading: the link is
    closed, or what closes it is still there. *)
Lemma step_closing D e w w1 :
  linked w = true → closing D (loop w) = true → now (loop w) ≤ D →
  silent_event e = true → timely_step e w = true →
  step globals e w = Some w1 →
  now (loop w1) ≤ D
  ∧ (released w1 ∨ linked w1 = true ∧ closing D (loop w1) = true).
Proof.
  intros Hl Hc Hnow Hq Ht. unfold step.
  destruct (enabled e w) eqn:He; [|done]. intros [= <-].
  destruct e as [oc on|oc on|od| | |h|k oc on|k od|dt]; simpl in *; try done.
  - rewrite linked_update by done. auto.
  - rewrite linked_update by done. auto.
  - unfold exec. rewrite async_will_remove_from_hass_run. simpl.
    split; [done|by left].
  - rewrite exec_modify. unfold exec. rewrite disconnect_connected.
    2:{ by apply linked_true. }
    split; [done|right]. split; [done|]. unfold closing.
    simpl. rewrite (wakes_by_snoc _ _ _ _); [apply orb_true_r|].
    unfold wakes_by. simpl. apply bool_decide_eq_true_2. lia.
  - apply andb_prop in He as [_ Hk]. rewrite exec_modify.
    rewrite linked_update by done. split; [done|right]. split; [done|].
    apply orb_prop in Hc as [Hc|Hc]; unfold closing; simpl in *.
    + by rewrite Hc.
    + by rewrite (wakes_by_task_finished _ CoRetryConnect), orb_true_r.
  - rewrite exec_modify. unfold exec. rewrite _disconnect_run. simpl.
    split; [done|by left].
  - apply negb_true_iff in Ht. unfold exec. simpl.
    pose proof (closing_overdue _ _ _ Hc Ht). auto.
Qed.

Lemma closing_inevitable D es w w' :
  linked w = true → closing D (loop w) = true → now (loop w) ≤ D →
  forallb silent_event es = true → timely globals es w = true →
  run globals es w = Some w' → D < now (loop w') →
  ∃ es1 es2 w1, es = es1 ++ es2 ∧ run globals es1 w = Some w1
    ∧ now (loop w1) ≤ D ∧ released w1.
Proof.
  revert w. induction es as [|e es IH]; intros w Hl Hc Hnow; simpl.
  { intros _ _ [= <-] ?. lia. }
  intros [Hq Hqs]%andb_prop [Ht Hts]%andb_prop.
  destruct (step globals e w) as [w1|] eqn:E; [simpl in *|done]. intros Hrun HD.
  destruct (step_closing D e w w1) as (Hnow1 & [Hr|[Hl1 Hc1]]); try done.
  - exists [e], es, w1. simpl. by rewrite E.
  - destruct (IH w1) as (es1 & es2 & w2 & -> & Hrun1 & ?); try done.
    exists (e :: es1), es2, w2. simpl. by rewrite E.
Qed.

(** C19: On every timely run, a link that carries no further reading is
    closed 60 seconds after the last stable reading at the latest, whatever
    Home Assistant asks and whichever timers fire in the meantime: when the
    clock shows more than 60 seconds since that reading, the sensor has
    been through a world in which it holds no client and is unavailable. *)
Theorem idle_timeout_inevitable c data x es w w' :
  linked w = true → decode_weight globals data = Ok (Some x) →
  forallb silent_event es = true →
  timely globals (EvNotify c data :: es) w = true →
  run globals (EvNotify c data :: es) w = Some w' →
  now (loop w) + 60 < now (loop w') →
  ∃ es1 es2 w1, es = es1 ++ es2
    ∧ run globals (EvNotify c data :: es1) w = Some w1
    ∧ now (loop w1) ≤ now (loop w) + 60
    ∧ _client (self w1) = None ∧ available (self w1) = false.
Proof.
  intros Hl Hd Hq Ht Hrun HD.
  assert (step globals (EvNotify c data) w = Some (reading_taken x w)) as E.
  { apply step_notify; [|done]. simpl in Hrun. unfold step in Hrun.
    by destruct (enabled _ w) eqn:He. }
  rewrite (run_cons _ _ _ _ _ E) in Hrun.
  cbn [timely timely_step] in Ht. rewrite E in Ht.
  destruct (closing_inevitable (now (loop w) + 60) es (reading_taken x w) w')
    as (es1 & es2 & w1 & -> & Hrun1 & Hnow & Hr & Ha); try done.
  - unfold closing. simpl. by rewrite closing_armed.
  - simpl. lia.
  - exists es1, es2, w1. by rewrite (run_cons _ _ _ _ _ E).
Qed.

(** A connection attempt builds one client and takes no time. *)
Lemma attempt_builds oc on w :
  linked w = false →
  now (loop (exec (async_update oc on) w)) = now (loop w)
  ∧ length (clients (exec (async_update oc on) w)) = S (length (clients w)).
Proof.
  intros Hl%linked_false. unfold exec. rewrite async_update_connect by done.
  destruct oc as [[]|e]; [destruct on as [[]|e]|].
  - rewrite connect_Ok by done. simpl. rewrite length_app. simpl. lia.
  - rewrite connect_notify_Raise by done. simpl. rewrite length_app. simpl. lia.
  - rewrite connect_Raise by done. simpl. rewrite length_app. simpl. lia.
Qed.

Lemma linked_link_lost c w :
  linked w = false → linked (on_clients (link_lost c) w) = false.
Proof.
  unfold linked, eval, client_connected, gets, link_lost. simpl.
  intros Hl%bool_decide_eq_false. apply bool_decide_eq_false. intros Hc.
  apply Hl. destruct (_client (self w)) as [c'|]; simpl in *; [|done].
  unfold client_is_connected in *.
  destruct (decide (c = c')) as [->|Hne].
  - rewrite list_lookup_alter_eq in Hc. by destruct (clients w !! c').
  - by rewrite list_lookup_alter_ne in Hc.
Qed.

Lemma length_disconnected od w :
  length (clients (disconnected_world od w)) = length (clients w).
Proof.
  simpl. destruct (_client (self w)) as [c|]; [|done].
  destruct od as [|e []]; simpl; by rewrite ?length_alter.
Qed.

(** One event on a sensor that has no link, holds a retry and stays in
    Home Assistant: a connection attempt, or the retry is still there. *)
Lemma step_retrying D e w w1 :
  linked w = false → retrying D (loop w) = true → now (loop w) ≤ D →
  staying e = true → timely_step e w = true →
  step globals e w = Some w1 →
  now (loop w1) ≤ D
  ∧ ((length (clients w) < length (clients w1))%nat
     ∨ length (clients w1) = length (clients w)
       ∧ linked w1 = false ∧ retrying D (loop w1) = true).
Proof.
  intros Hl Hr Hnow Hq Ht. unfold step.
  destruct (enabled e w) eqn:He; [|done]. intros [= <-].
  destruct e as [oc on|oc on|od|c data|c|h|k oc on|k od|dt]; simpl in *;
    try done.
  - change (async_added_to_hass oc on) with (async_update oc on).
    destruct (attempt_builds oc on w Hl) as [-> ->]. split; [done|left; lia].
  - destruct (attempt_builds oc on w Hl) as [-> ->]. split; [done|left; lia].
  - unfold exec. destruct (decode_weight globals data) as [[x|]|e] eqn:E.
    + rewrite (notification_handler_stable _ _ _ _ E). by auto.
    + rewrite notification_handler_unstable by done. by auto.
    + rewrite (notification_handler_raise _ _ _ _ E). by auto.
  - split; [done|right].
    split_and!; [apply length_alter|by apply linked_link_lost|done].
  - rewrite exec_modify. unfold exec. rewrite disconnect_idle.
    2:{ by apply linked_false. }
    by auto.
  - rewrite exec_modify. change (_retry_connect oc on) with (async_update oc on).
    destruct (attempt_builds oc on (on_loop (task_finished k) w) Hl)
      as [-> ->].
    split; [done|left; simpl; lia].
  - apply andb_prop in He as [_ Hk]. rewrite exec_modify. unfold exec.
    rewrite _disconnect_run. cbn [snd]. rewrite length_disconnected.
    split; [done|right].
    split_and!; [done..|].
    by apply (wakes_by_task_finished _ CoDisconnect).
  - apply negb_true_iff in Ht. unfold exec. simpl.
    pose proof (wakes_by_overdue _ _ _ _ Hr Ht). auto.
Qed.

Lemma retrying_inevitable D es w w' :
  linked w = false → retrying D (loop w) = true → now (loop w) ≤ D →
  forallb staying es = true → timely globals es w = true →
  run globals es w = Some w' → D < now (loop w') →
  ∃ es1 es2 w1, es = es1 ++ es2 ∧ run globals es1 w = Some w1
    ∧ now (loop w1) ≤ D ∧ (length (clients w) < length (clients w1))%nat.
Proof.
  revert w. induction es as [|e es IH]; intros w Hl Hr Hnow; simpl.
  { intros _ _ [= <-] ?. lia. }
  intros [Hq Hqs]%andb_prop [Ht Hts]%andb_prop.
  destruct (step globals e w) as [w1|] eqn:E; [simpl in *|done]. intros Hrun HD.
  destruct (step_retrying D e w w1) as (Hnow1 & [Hb|(Hn & Hl1 & Hr1)]);
    try done.
  - exists [e], es, w1. simpl. by rewrite E.
  - destruct (IH w1) as (es1 & es2 & w2 & -> & Hrun1 & ? & ?); try done.
    exists (e :: es1), es2, w2. simpl. rewrite E. split_and!; [done..|lia].
Qed.

(** C20: On every timely run in which the entity is not removed, a connection
    attempt that failed is followed by another 60 seconds later at the
    latest: when the clock shows more than 60 seconds since the failure,
    the sensor has built a second client. *)
Theorem retry_inevitable err on es w w' :
  linked w = false → _connection_retry_interval (self w) = 60 →
  forallb staying es = true →
  timely globals (EvUpdate (Raise err) on :: es) w = true →
  run globals (EvUpdate (Raise err) on :: es) w = Some w' →
  now (loop w) + 60 < now (loop w') →
  ∃ es1 es2 w1, es = es1 ++ es2
    ∧ run globals (EvUpdate (Raise err) on :: es1) w = Some w1
    ∧ now (loop w1) ≤ now (loop w) + 60
    ∧ (S (length (clients w)) < length (clients w1))%nat.
Proof.
  intros Hl Hi Hq Ht Hrun HD.
  assert (step globals (EvUpdate (Raise err) on) w
          = Some (connect_failed_world false w)) as E.
  { unfold step, exec. simpl. apply linked_false in Hl.
    by rewrite async_update_connect, connect_Raise. }
  rewrite (run_cons _ _ _ _ _ E) in Hrun.
  cbn [timely timely_step] in Ht. rewrite E in Ht.
  destruct (retrying_inevitable (now (loop w) + 60) es
              (connect_failed_world false w) w')
    as (es1 & es2 & w1 & -> & Hrun1 & Hnow & Hb); try done.
  - apply bool_decide_eq_false. by rewrite connect_failed_world_connected.
  - unfold retrying. simpl. apply wakes_by_snoc. unfold wakes_by. simpl.
    apply bool_decide_eq_true_2. lia.
  - simpl. lia.
  - exists es1, es2, w1. rewrite (run_cons _ _ _ _ _ E).
    split_and!; [done..|]. simpl in Hb. rewrite length_app in Hb. simpl in Hb. lia.
Qed.

End deadlines.

(** ** The deadlines on a first connection *)

Lemma idle_timeout_inevitable_witness :
  ∃ es1 es2 w1, events_idle = es1 ++ es2
    ∧ run hoisted_globals (EvNotify 0 scenario_stable :: es1) world_added
      = Some w1
    ∧ now (loop w1) ≤ now (loop world_added) + 60
    ∧ _client (self w1) = None ∧ available (self w1) = false.
Proof.
  apply (idle_timeout_inevitable hoisted_globals 0 scenario_stable 500
           events_idle world_added
           (world_after hoisted_globals
              (EvNotify 0 scenario_stable :: events_idle) world_added));
    by vm_compute.
Defined.

Lemma retry_inevitable_witness :
  ∃ es1 es2 w1, events_retried = es1 ++ es2
    ∧ run hoisted_globals
        (EvUpdate (Raise TimeoutError) (Ok ()) :: es1) world_reset = Some w1
    ∧ now (loop w1) ≤ now (loop world_reset) + 60
    ∧ (S (length (clients world_reset)) < length (clients w1))%nat.
Proof.
  apply (retry_inevitable hoisted_globals TimeoutError (Ok ())
           events_retried world_reset
           (world_after hoisted_globals
              (EvUpdate (Raise TimeoutError) (Ok ()) :: events_retried)
              world_reset));
    by vm_compute.
Defined.

(** Without the discipline of the loop nothing is promised: time may pass
    the instant of the idle timer while the timer stays pending and the
    link stays up. *)
Example late_loop_keeps_link :
  ∃ w, run hoisted_globals [EvNotify 0 scenario_stable; EvAdvance 3600]
         world_added = Some w
    ∧ timely hoisted_globals [EvNotify 0 scenario_stable; EvAdvance 3600]
        world_added = false
    ∧ linked w = true ∧ available (self w) = true
    ∧ pending_timers w = [1%nat].
Proof. eexists. by vm_compute. Qed.
