(* ===== verification/Timed.v ===== *)
(** * Timed: the loop and the clock

    [Interleaving] lets any amount of time pass at any moment.  The loop
    of asyncio does not: it runs a timer when its instant has come, a
    task when its sleep is over, a coroutine when what it waited for is
    there (a lock that is free, a cancellation), and [asyncio.wait_for]
    (line 101) gives up on [connect()] 20 seconds after it was called.
    Time passes only when none of these is due.

    A timed state [Timed] is a state of the loop with the instant at
    which [wait_for] expires; [tstep] is [sstep] with the condition on
    the passage of time.  Every timed run is a run of [Interleaving], so
    what holds there holds here.  In addition:

    - a coroutine that awaits [connect()] is resumed within 20 seconds
      ([connect_gives_up]).  This unfolds the discipline and proves
      nothing of the code but the constant of line 101: that [wait_for]
      raises in time is what [punctual] assumes of asyncio;
    - time always goes on: from every state the loop reaches, what is due
      can be run, in finitely many steps, until time may pass;
    - [start_notify] is awaited inside the lock with no bound.

    The timeouts of the sensor on this loop are in [TimedDeadlines]. *)

From S2P Require Import Prelude PyStruct Decoder EventLoop Transport Sensor.
From S2P Require Import Lifecycle Invariants Interleaving Schedule Deadlines.

#[local] Open Scope Z_scope.

(** A state of the loop and the instant at which [wait_for] gives up on
    the [connect()] that is awaited, if one is. *)
Record Timed := {
  sys : Sys;
  expiry : option Z;
}.

Definition at_connect (fr : frame) : bool :=
  match fr with
  | AtConnect _ _ => true
  | _ => false
  end.

(** A coroutine awaits [connect()]. *)
Definition dialling (s : Sys) : bool := existsb at_connect (frames s).

(** [asyncio.wait_for(self._client.connect(), timeout=20.0)], line 101:
    the timeout is set when the call begins and dropped when it ends,
    by an answer or by a cancellation. *)
Definition wait_for (s s' : Sys) (x : option Z) : option Z :=
  if dialling s' then
    if dialling s then x else Some (now (loop (world s')) + 20)
  else None.

Definition cancelled (fr : frame) : bool :=
  match fr with
  | Cancelled _ => true
  | _ => false
  end.

(** A suspended coroutine the loop can resume by itself: one that was
    cancelled, or one that waits for a lock that is free. *)
Definition runnable (s : Sys) : bool :=
  existsb cancelled (frames s)
  || negb (locked s) && existsb waiting (frames s).

(** Something is due before the instant [T]. *)
Definition tardy (T : Z) (ts : Timed) : bool :=
  overdue T (loop (world (sys ts)))
  || runnable (sys ts) && bool_decide (now (loop (world (sys ts))) < T)
  || from_option (λ x, bool_decide (x < T)) false (expiry ts).

(** Time passes only when nothing is due before. *)
Definition punctual (l : label) (ts : Timed) : bool :=
  match l with
  | LAdvance dt => negb (tardy (now (loop (world (sys ts))) + dt) ts)
  | _ => true
  end.

Definition tboot (addr : string) : Timed :=
  {| sys := boot addr; expiry := None |}.

Section timed_steps.
Context (globals : namespace).

Definition tstep (l : label) (ts : Timed) : option Timed :=
  if punctual l ts then
    s' ← sstep globals l (sys ts);
    Some {| sys := s'; expiry := wait_for (sys ts) s' (expiry ts) |}
  else None.

Fixpoint trun (ls : list label) (ts : Timed) : option Timed :=
  match ls with
  | [] => Some ts
  | l :: ls' => ts' ← tstep l ts; trun ls' ts'
  end.

Inductive treachable (addr : string) : Timed → Prop :=
  | treachable_boot : treachable addr (tboot addr)
  | treachable_step ts l ts' :
      treachable addr ts → tstep l ts = Some ts' → treachable addr ts'.

End timed_steps.

(** The instant of a timed state. *)
Definition clock (ts : Timed) : Z := now (loop (world (sys ts))).

(** The timeout of [wait_for] is set exactly while [connect()] is
    awaited, and lies within the next 20 seconds. *)
Definition expiry_ok (ts : Timed) : Prop :=
  if dialling (sys ts)
  then ∃ x, expiry ts = Some x ∧ clock ts ≤ x ≤ clock ts + 20
  else expiry ts = None.

(** The steps the loop takes by itself when something is due. *)
Definition urgent (l : label) : bool :=
  match l with
  | LTimer _ | LRetry _ | LDisconnectTask _ | LLock _ | LCancelled _
  | LConnect _ (Raise TimeoutError) => true
  | _ => false
  end.

Definition at_connect_label (l : label) : bool :=
  match l with
  | LConnect _ _ => true
  | _ => false
  end.

(** A step the loop takes because it is due: the timeout of [wait_for]
    only once it has expired. *)
Definition due_step (l : label) (ts : Timed) : bool :=
  urgent l
  && match l with
     | LConnect _ _ =>
         from_option (λ x, bool_decide (x ≤ clock ts)) false (expiry ts)
     | _ => true
     end.

(** What a step adds to the clock. *)
Definition elapsed (l : label) : Z :=
  match l with
  | LAdvance dt => dt
  | _ => 0
  end.

(** A timer or a task the loop has to run at the instant [T]. *)
Definition due_timer (T : Z) (t : TimerHandle) : nat :=
  if is_pending t && bool_decide (th_when t ≤ T) then 1 else 0.

Definition due_task (T : Z) (t : Task) : nat :=
  if is_pending t && bool_decide (task_wake t ≤ T) then 1 else 0.

(** The work the loop has before time may pass: a timer that is due
    creates a task, a task that is due suspends a coroutine once, a
    coroutine has its resumptions left. *)
Definition due (l : Loop) : nat :=
  5 * sum_list_with (due_timer (now l)) (timers l)
  + 4 * sum_list_with (due_task (now l)) (tasks l).

Definition backlog (ts : Timed) : nat :=
  due (loop (world (sys ts))) + remaining (sys ts).

(** The work of a state of the loop. *)
Definition load (s : Sys) : nat := (due (loop (world s)) + remaining s)%nat.

(** The state a timed run leads to. *)
Definition timed_after (globals : namespace) (ls : list label) (ts : Timed)
  : Timed :=
  from_option id ts (trun globals ls ts).

(** A timer and a retry that are due, a coroutine that waits its turn. *)
(** A run of steps that are due. *)
Fixpoint due_run (globals : namespace) (ls : list label) (ts : Timed)
  : bool :=
  match ls with
  | [] => true
  | l :: ls' =>
      due_step l ts
      && from_option (due_run globals ls') true (tstep globals l ts)
  end.

Definition labels_busy : list label :=
  [LUpdate; LUpdate; LConnect 0 (Raise BleakError); LAdvance 0].

(** ** Timed runs are runs *)

Section projection.
Context (globals : namespace).
Implicit Types (ts : Timed) (s : Sys) (l : label).

Lemma tstep_Some l ts ts' :
  tstep globals l ts = Some ts' ↔
  punctual l ts = true ∧ sstep globals l (sys ts) = Some (sys ts')
  ∧ expiry ts' = wait_for (sys ts) (sys ts') (expiry ts).
Proof.
  unfold tstep. destruct (punctual l ts); [|by split; [|intros [? _]]].
  destruct (sstep globals l (sys ts)) as [s'|]; simpl;
    [|by split; [|intros (_ & ? & _)]].
  split.
  - by intros [= <-].
  - intros (_ & [= ->] & Hx). destruct ts'. simpl in *. by subst.
Qed.

Lemma tstep_sstep l ts ts' :
  tstep globals l ts = Some ts' → sstep globals l (sys ts) = Some (sys ts').
Proof. by intros (_ & ? & _)%tstep_Some. Qed.

Lemma trun_srun ls ts ts' :
  trun globals ls ts = Some ts' → srun globals ls (sys ts) = Some (sys ts').
Proof.
  revert ts. induction ls as [|l ls IH]; intros ts; simpl.
  - by intros [= <-].
  - destruct (tstep globals l ts) as [ts1|] eqn:E; [simpl|done].
    rewrite (tstep_sstep _ _ _ E). apply IH.
Qed.

Lemma treachable_sreachable addr ts :
  treachable globals addr ts → sreachable globals addr (sys ts).
Proof.
  induction 1 as [|ts l ts' _ IH Hstep]; [constructor|].
  eapply sreachable_step; [done|by apply tstep_sstep].
Qed.

Lemma trun_app ls ls' ts :
  trun globals (ls ++ ls') ts = trun globals ls ts ≫= trun globals ls'.
Proof.
  revert ts. induction ls as [|l ls IH]; intros ts; simpl; [done|].
  destruct (tstep globals l ts); simpl; [apply IH|done].
Qed.

Lemma trun_treachable addr ls ts ts' :
  treachable globals addr ts → trun globals ls ts = Some ts' →
  treachable globals addr ts'.
Proof.
  revert ts. induction ls as [|l ls IH]; intros ts Hts; simpl.
  - by intros [= <-].
  - destruct (tstep globals l ts) as [ts1|] eqn:E; [simpl|done].
    apply IH. by econstructor.
Qed.

End projection.

(** ** The clock *)

Section clock.
Context (globals : namespace).
Implicit Types (ts : Timed) (s : Sys) (l : label) (w : World).

Lemma now_except e s :
  now (loop (world (except_clause e s))) = now (loop (world s)).
Proof.
  unfold except_clause. rewrite world_cancel_frames. simpl.
  unfold exec. by rewrite connect_except_run.
Qed.

Lemma loop_connect_enter t s :
  loop (world (connect_enter t s)) = loop (world s).
Proof. unfold connect_enter. by destruct (linked (world s)). Qed.

Lemma loop_call_update t s :
  loop (world (call_update t s)) = loop (world s).
Proof.
  unfold call_update. destruct (linked (world s)); [done|].
  destruct (contended s); [done|apply loop_connect_enter].
Qed.

Lemma loop_disconnect_enter s :
  loop (world (disconnect_enter s)) = loop (world s).
Proof. unfold disconnect_enter. by destruct (_client (self (world s))). Qed.

Lemma now_resume_connect t c oc s :
  now (loop (world (resume_connect t c oc s))) = now (loop (world s)).
Proof.
  unfold resume_connect.
  destruct (client_connect c oc (clients (world s))) as [[[]|e] cs]; simpl.
  - destruct (_client (self (world s))); [done|by rewrite now_except].
  - by rewrite now_except.
Qed.

Lemma now_resume_start_notify c on s :
  now (loop (world (resume_start_notify c on s))) = now (loop (world s)).
Proof.
  unfold resume_start_notify.
  destruct (client_start_notify _ _ _ _) as [[[]|e] cs]; simpl; [done|].
  by rewrite now_except.
Qed.

Lemma now_notification_handler data w :
  now (loop (exec (notification_handler globals data) w)) = now (loop w).
Proof.
  unfold exec. destruct (decode_weight globals data) as [[x|]|e] eqn:E.
  - by rewrite (notification_handler_stable _ _ _ _ E).
  - by rewrite notification_handler_unstable.
  - by rewrite (notification_handler_raise _ _ _ _ E).
Qed.

Lemma now_disconnect w : now (loop (exec disconnect w)) = now (loop w).
Proof.
  unfold exec. destruct (client_connected_cases w) as [Hc|Hc].
  - by rewrite disconnect_connected.
  - by rewrite disconnect_idle.
Qed.

(** Only the passage of time moves the clock. *)
Lemma sstep_now l s s' :
  sstep globals l s = Some s' →
  now (loop (world s')) = now (loop (world s)) + elapsed l ∧ 0 ≤ elapsed l.
Proof.
  destruct l; simpl.
  13:{ case_bool_decide; [|done]. intros [= <-]. simpl. lia. }
  all: try (destruct (take_frame i s) as [[[] s1]|] eqn:Ht; try done;
            apply take_frame_Some in Ht as (_ & <- & _)).
  all: unfold resume_cancelled; repeat case_match; try done; intros [= <-].
  all: rewrite ?loop_call_update, ?loop_connect_enter, ?now_resume_connect,
         ?now_resume_start_notify, ?loop_disconnect_enter,
         ?world_cancel_frames; simpl;
       rewrite ?exec_modify, ?now_disconnect, ?now_notification_handler,
         ?cancel_retry_run;
       simpl; lia.
Qed.

End clock.

(** ** The timeout of [wait_for] *)

Section expiry.
Context (globals : namespace).
Implicit Types (ts : Timed) (s : Sys) (l : label).

Lemma tstep_clock l ts ts' :
  tstep globals l ts = Some ts' →
  clock ts' = clock ts + elapsed l ∧ 0 ≤ elapsed l.
Proof. intros Hs%tstep_sstep. by apply sstep_now in Hs. Qed.

(** Time does not pass the instant at which [wait_for] expires. *)
Lemma punctual_expiry l ts x :
  punctual l ts = true → expiry ts = Some x → clock ts ≤ x →
  clock ts + elapsed l ≤ x.
Proof.
  destruct l; simpl; try (intros; lia).
  intros Ht%negb_true_iff Hx Hle. unfold tardy in Ht. rewrite Hx in Ht.
  apply orb_false_elim in Ht as [_ Ht]. simpl in Ht.
  apply bool_decide_eq_false in Ht. unfold clock. lia.
Qed.

Lemma tstep_expiry_ok l ts ts' :
  tstep globals l ts = Some ts' → expiry_ok ts → expiry_ok ts'.
Proof.
  intros Hstep Hok. destruct (tstep_clock _ _ _ Hstep) as [Hc Hl].
  apply tstep_Some in Hstep as (Hp & _ & Hx).
  unfold expiry_ok in *. rewrite Hx. unfold wait_for.
  destruct (dialling (sys ts')); [|done]. destruct (dialling (sys ts)).
  - destruct Hok as (x & Hex & Hlo & Hhi). exists x.
    pose proof (punctual_expiry l ts x Hp Hex Hlo). split; [done|lia].
  - eexists. split; [done|]. fold (clock ts'). lia.
Qed.

Lemma treachable_expiry_ok addr ts :
  treachable globals addr ts → expiry_ok ts.
Proof.
  induction 1 as [|ts l ts' _ IH Hstep]; [done|]. by eapply tstep_expiry_ok.
Qed.

End expiry.

(** ** The timeout of [connect()] *)

Section connect_deadline.
Context (globals : namespace).
Implicit Types (ts : Timed) (l : label).

Lemma expiring_gives_up x ls ts ts' :
  dialling (sys ts) = true → expiry ts = Some x → clock ts ≤ x →
  trun globals ls ts = Some ts' → x < clock ts' →
  ∃ ls1 ls2 ts1, ls = ls1 ++ ls2 ∧ trun globals ls1 ts = Some ts1
    ∧ clock ts1 ≤ x ∧ dialling (sys ts1) = false.
Proof.
  revert ts. induction ls as [|l ls IH]; intros ts Hd Hx Hnow; simpl.
  { intros [= <-] ?. lia. }
  destruct (tstep globals l ts) as [ts1|] eqn:E; [simpl|done]. intros Hrun HD.
  destruct (tstep_clock _ _ _ _ E) as [Hc _].
  pose proof E as (Hp & _ & Hx1)%tstep_Some.
  pose proof (punctual_expiry l ts x Hp Hx Hnow) as Hnow1.
  rewrite <- Hc in Hnow1. unfold wait_for in Hx1. rewrite Hd in Hx1.
  destruct (dialling (sys ts1)) eqn:Hd1.
  - destruct (IH ts1) as (ls1 & ls2 & ts2 & -> & Hrun1 & ? & ?);
      [done|congruence|done..|].
    exists (l :: ls1), ls2, ts2. simpl. by rewrite E.
  - exists [l], ls, ts1. simpl. by rewrite E.
Qed.

(** The discipline of [wait_for], unfolded: a coroutine that awaits
    [connect()] is resumed within 20 seconds, by an answer, by
    [TimeoutError] or by a cancellation.  When the clock shows more than
    20 seconds since a state in which [connect()] was awaited, the
    sensor has been through a state in which it was not, because
    [punctual] does not let the clock pass the expiry. *)
Theorem connect_gives_up addr ls ts ts' :
  treachable globals addr ts → dialling (sys ts) = true →
  trun globals ls ts = Some ts' → clock ts + 20 < clock ts' →
  ∃ ls1 ls2 ts1, ls = ls1 ++ ls2 ∧ trun globals ls1 ts = Some ts1
    ∧ clock ts1 ≤ clock ts + 20 ∧ dialling (sys ts1) = false.
Proof.
  intros Hok%treachable_expiry_ok Hd Hrun HD. unfold expiry_ok in Hok.
  rewrite Hd in Hok. destruct Hok as (x & Hx & Hlo & Hhi).
  destruct (expiring_gives_up x ls ts ts')
    as (ls1 & ls2 & ts1 & ? & ? & ? & ?); [done..|lia|].
  exists ls1, ls2, ts1. split_and!; [done..|lia|done].
Qed.

End connect_deadline.

(** ** What is due runs out *)

Section sums.
Context {A : Type} (f : A → nat).

Lemma sum_list_with_alter g i (l : list A) :
  (sum_list_with f (alter g i l) + from_option f 0 (l !! i)
   = sum_list_with f l + from_option (f ∘ g) 0 (l !! i))%nat.
Proof.
  revert i. induction l as [|x l IH]; intros [|i]; simpl; [done..|lia|].
  change (list_alter g i l) with (alter g i l). specialize (IH i). lia.
Qed.

Lemma sum_list_with_alter_le g i (l : list A) :
  (∀ x, f (g x) ≤ f x)%nat →
  (sum_list_with f (alter g i l) ≤ sum_list_with f l)%nat.
Proof.
  intros Hg. pose proof (sum_list_with_alter g i l) as H.
  destruct (l !! i) as [x|]; simpl in H; [specialize (Hg x)|]; lia.
Qed.

End sums.

Section backlog.
Context (globals : namespace).
Implicit Types (ts : Timed) (s : Sys) (l : Loop) (w : World).

Lemma due_timer_finish T (t : TimerHandle) : due_timer T (finish t) = 0%nat.
Proof. unfold due_timer. by rewrite is_pending_finish. Qed.

Lemma due_task_finish T (t : Task) : due_task T (finish t) = 0%nat.
Proof. unfold due_task. by rewrite is_pending_finish. Qed.

Lemma due_timer_fired h l :
  timer_due l h = true → (due (timer_fired h l) + 5 ≤ due l)%nat.
Proof.
  unfold timer_due, due, timer_fired, finish_at. cbn [now timers tasks].
  intros Hd.
  pose proof (sum_list_with_alter (due_timer (now l)) finish h (timers l)) as H.
  destruct (timers l !! h) as [t|]; [|done]. cbn [from_option compose] in H.
  rewrite due_timer_finish in H. unfold due_timer at 2 in H.
  rewrite Hd in H. lia.
Qed.

Lemma due_task_finished k l :
  task_due l k = true → (due (task_finished k l) + 4 ≤ due l)%nat.
Proof.
  unfold task_due, due, task_finished, finish_at. cbn [now timers tasks].
  intros Hd.
  pose proof (sum_list_with_alter (due_task (now l)) finish k (tasks l)) as H.
  destruct (tasks l !! k) as [t|]; [|done]. cbn [from_option compose] in H.
  rewrite due_task_finish in H. unfold due_task at 2 in H.
  rewrite Hd in H. lia.
Qed.

(** The task [disconnect] creates is due at once. *)
Lemma due_create_task co l :
  due (create_task co 0 l).1 = (due l + 4)%nat.
Proof.
  unfold due, create_task, alloc. cbn [now timers tasks fst].
  rewrite sum_list_with_app. cbn [sum_list_with].
  unfold due_task at 2. cbn [task_wake]. rewrite bool_decide_eq_true_2 by lia.
  change (is_pending _) with true. cbn [andb]. lia.
Qed.

Lemma due_task_cancel T (t : Task) :
  (due_task T (cancel t) ≤ due_task T t)%nat.
Proof. unfold due_task at 1. rewrite is_pending_cancel. simpl. lia. Qed.

(** The retry [_schedule_retry] creates is not due before its interval. *)
Lemma due_retry_scheduled w :
  0 < _connection_retry_interval (self w) →
  (due (loop (retry_scheduled w)) ≤ due (loop w))%nat.
Proof.
  intros Hi. unfold due, retry_scheduled. cbn [loop now timers tasks].
  rewrite sum_list_with_app. cbn [sum_list_with].
  unfold due_task at 2. cbn [task_wake retry_task_of].
  rewrite bool_decide_eq_false_2, andb_false_r by lia.
  assert (sum_list_with (due_task (now (loop w)))
            (cancel_opt (_retry_task (self w)) (tasks (loop w)))
          ≤ sum_list_with (due_task (now (loop w))) (tasks (loop w)))%nat;
    [|lia].
  destruct (_retry_task (self w)) as [k|]; [|done].
  apply sum_list_with_alter_le, due_task_cancel.
Qed.

Lemma due_timer_step h w :
  timer_due (loop w) h = true →
  (due (loop (exec (modify (on_loop (timer_fired h));; disconnect) w)) + 1
   ≤ due (loop w))%nat.
Proof.
  intros Hd%due_timer_fired. rewrite exec_modify. unfold exec.
  destruct (client_connected_cases (on_loop (timer_fired h) w)) as [Hc|Hc].
  - rewrite disconnect_connected by done. cbn [snd loop on_loop].
    rewrite due_create_task. lia.
  - rewrite disconnect_idle by done. cbn [snd loop on_loop]. lia.
Qed.

Lemma remaining_call_update t s :
  (remaining (call_update t s) ≤ remaining s + 3)%nat.
Proof.
  unfold call_update. destruct (linked (world s)); [lia|].
  destruct (contended s); [by rewrite remaining_suspend|].
  pose proof (remaining_connect_enter t s). lia.
Qed.

Lemma remaining_disconnect_enter s :
  (remaining (disconnect_enter s) ≤ remaining s + 1)%nat.
Proof.
  unfold disconnect_enter. destruct (_client (self (world s))).
  - by rewrite remaining_suspend.
  - unfold remaining. simpl. lia.
Qed.

(** A coroutine that resumes by itself leaves no more due than it found. *)
Lemma due_except e w s :
  0 < _connection_retry_interval (self w) →
  (due (loop (world (except_clause e (with_world w s)))) ≤ due (loop w))%nat.
Proof.
  intros Hi. unfold except_clause. rewrite world_cancel_frames. simpl.
  unfold exec. rewrite connect_except_run.
  by apply (due_retry_scheduled (on_self (set_available false) w)).
Qed.

Lemma urgent_due (lb : label) s s' :
  urgent lb = true → resumption lb = true →
  0 < _connection_retry_interval (self (world s)) →
  sstep globals lb s = Some s' →
  (due (loop (world s')) ≤ due (loop (world s)))%nat.
Proof.
  intros Hu Hr Hi. destruct lb as [| | i|i [|[]]| | | | | |i| | |]; try done.
  all: simpl; destruct (take_frame i s) as [[[] s1]|] eqn:Ht; try done.
  all: apply take_frame_Some in Ht as (_ & Hw & _).
  - case_match; [done|]. intros [= <-]. by rewrite loop_connect_enter, Hw.
  - intros [= <-]. unfold resume_connect. simpl. rewrite on_clients_same.
    rewrite <- Hw in Hi |- *. by apply (due_except _ (world s1) s1).
  - intros [= <-]. rewrite <- Hw. by destruct inside.
Qed.

(** Every step the loop takes by itself lowers the work. *)
Lemma urgent_load (lb : label) s s' :
  urgent lb = true → 0 < _connection_retry_interval (self (world s)) →
  sstep globals lb s = Some s' → (load s' < load s)%nat.
Proof.
  intros Hu Hi Hstep. unfold load.
  destruct (resumption lb) eqn:Hr.
  { pose proof (urgent_due lb s s' Hu Hr Hi Hstep).
    pose proof (sstep_remaining globals lb s s' (Is_true_true_2 _ Hr) Hstep).
    lia. }
  destruct lb as [|k| | |  |h|k| | | | | |]; try done; simpl in Hstep.
  - destruct (task_due (loop (world s)) k) eqn:Hd; [|done].
    case_match; [|done]. simplify_eq. rewrite loop_call_update. simpl.
    pose proof (due_task_finished k _ Hd).
    pose proof (remaining_call_update (Some k)
                  (on_world (on_loop (task_finished k)) s)).
    unfold remaining in *. simpl in *. lia.
  - destruct (timer_due (loop (world s)) h) eqn:Hd; [|done]. simplify_eq.
    pose proof (due_timer_step h (world s) Hd). unfold remaining. simpl. lia.
  - destruct (task_due (loop (world s)) k) eqn:Hd; [|done].
    case_match; [|done]. simplify_eq. rewrite loop_disconnect_enter. simpl.
    pose proof (due_task_finished k _ Hd).
    pose proof (remaining_disconnect_enter
                  (on_world (on_loop (task_finished k)) s)).
    unfold remaining in *. simpl in *. lia.
Qed.

End backlog.

(** ** Time goes on *)

Lemma existsb_lookup {A} (f : A → bool) (l : list A) :
  existsb f l = true → ∃ i x, l !! i = Some x ∧ f x = true.
Proof.
  intros (x & Hx & Hf)%Is_true_true%existb_True%Exists_exists.
  apply list_elem_of_lookup in Hx as [i Hi]. exists i, x.
  by apply Is_true_true in Hf.
Qed.

(** The coroutine that has waited longest. *)
Lemma existsb_first_waiting fs :
  existsb waiting fs = true →
  ∃ i t, fs !! i = Some (AtLock t)
    ∧ forallb (λ fr, negb (waiting fr)) (take i fs) = true.
Proof.
  induction fs as [|fr fs IH]; [done|]. simpl.
  destruct fr as [t0| | | |]; simpl; [by exists 0%nat, t0|..].
  all: intros (i & t1 & Hi & Hw)%IH; by exists (S i), t1.
Qed.

Section progress.
Context (globals : namespace).
Implicit Types (ts : Timed) (s : Sys) (l : label).

Lemma urgent_elapsed l : urgent l = true → elapsed l = 0.
Proof. by destruct l. Qed.

Lemma urgent_punctual l ts : urgent l = true → punctual l ts = true.
Proof. by destruct l. Qed.

Lemma overdue_urgent s :
  overdue (now (loop (world s)) + 1) (loop (world s)) = true →
  ∃ l s', urgent l = true ∧ at_connect_label l = false
    ∧ sstep globals l s = Some s'.
Proof.
  intros [H|H]%orb_prop; apply existsb_lookup in H as (i & t & Hi & H);
    apply andb_prop in H as [Hp Hd]; apply bool_decide_eq_true in Hd.
  - exists (LTimer i). eexists. split_and!; [done..|]. simpl.
    unfold timer_due. by rewrite Hi, Hp, bool_decide_eq_true_2 by lia.
  - assert (task_due (loop (world s)) i = true) as Hdue.
    { unfold task_due. by rewrite Hi, Hp, bool_decide_eq_true_2 by lia. }
    destruct (task_coro t) eqn:Hco.
    + exists (LRetry i). eexists. split_and!; [done..|]. simpl.
      unfold task_is.
      by rewrite Hdue, Hi, bool_decide_eq_true_2 by (simpl; congruence).
    + exists (LDisconnectTask i). eexists. split_and!; [done..|]. simpl.
      unfold task_is.
      by rewrite Hdue, Hi, bool_decide_eq_true_2 by (simpl; congruence).
Qed.

Lemma runnable_urgent s :
  runnable s = true →
  ∃ l s', urgent l = true ∧ at_connect_label l = false
    ∧ sstep globals l s = Some s'.
Proof.
  intros [H|[Hl H]%andb_prop]%orb_prop.
  - apply existsb_lookup in H as (i & [] & Hi & H); try done.
    exists (LCancelled i). eexists. split_and!; [done..|]. simpl.
    unfold take_frame. by rewrite Hi.
  - apply existsb_first_waiting in H as (i & t & Hi & Hw).
    apply negb_true_iff in Hl.
    exists (LLock i). eexists. split_and!; [done..|]. simpl.
    unfold take_frame, first_waiting. rewrite Hi. simpl. by rewrite Hl, Hw.
Qed.

Lemma expired_urgent ts x :
  expiry_ok ts → expiry ts = Some x →
  ∃ i s', sstep globals (LConnect i (Raise TimeoutError)) (sys ts) = Some s'.
Proof.
  unfold expiry_ok. intros Hok Hx.
  destruct (dialling (sys ts)) eqn:Hd; [|congruence].
  apply existsb_lookup in Hd as (i & [] & Hi & H); try done.
  exists i. eexists. simpl. unfold take_frame. by rewrite Hi.
Qed.

Lemma due_step_urgent l ts : due_step l ts = true → urgent l = true.
Proof. by intros [? _]%andb_prop. Qed.

(** When something is due, the loop has a step to take. *)
Lemma tardy_urgent ts :
  expiry_ok ts → tardy (clock ts + 1) ts = true →
  ∃ l ts', due_step l ts = true ∧ tstep globals l ts = Some ts'.
Proof.
  intros Hok Ht.
  assert (∃ l s', due_step l ts = true ∧ sstep globals l (sys ts) = Some s')
    as (l & s' & Hu & Hstep).
  { apply orb_prop in Ht as [[Ht|Ht]%orb_prop|Ht].
    - apply overdue_urgent in Ht as (l & s' & Hu & Hl & Hs).
      exists l, s'. unfold due_step. rewrite Hu. by destruct l.
    - apply andb_prop in Ht as [Ht _].
      apply runnable_urgent in Ht as (l & s' & Hu & Hl & Hs).
      exists l, s'. unfold due_step. rewrite Hu. by destruct l.
    - destruct (expiry ts) as [x|] eqn:Hx; [|done].
      destruct (expired_urgent ts x Hok Hx) as (i & s' & Hs).
      exists (LConnect i (Raise TimeoutError)), s'. split; [|done].
      unfold due_step. rewrite Hx. simpl in *.
      apply bool_decide_eq_true in Ht. apply bool_decide_eq_true_2. lia. }
  exists l. eexists. split; [done|]. unfold tstep.
  by rewrite (urgent_punctual l ts (due_step_urgent l ts Hu)), Hstep.
Qed.

Lemma treachable_interval addr ts :
  treachable globals addr ts →
  _connection_retry_interval (self (world (sys ts))) = 60.
Proof.
  intros Hts%treachable_sreachable. apply interval_ok. revert Hts.
  apply sreachable_invariant; [apply timing_ok_init|apply timing_ok_part].
Qed.

(** C23: Time always goes on.  From every state the timed loop reaches, the
    timers and tasks that are due, the coroutines that can resume and the
    [connect()] that has expired can be run, in no more steps than the
    work they stand for, until nothing is due and a second may pass. *)
Theorem time_goes_on addr ts :
  treachable globals addr ts →
  ∃ ls ts',
    due_run globals ls ts = true ∧ trun globals ls ts = Some ts'
    ∧ clock ts' = clock ts ∧ (length ls ≤ backlog ts)%nat
    ∧ is_Some (tstep globals (LAdvance 1) ts').
Proof.
  remember (backlog ts) as n eqn:Hn. revert ts Hn.
  induction (lt_wf n) as [n _ IH]. intros ts -> Hts.
  destruct (tardy (clock ts + 1) ts) eqn:Et.
  - destruct (tardy_urgent ts) as (l & ts1 & Hd & Hstep);
      [by eapply treachable_expiry_ok|done|].
    pose proof (due_step_urgent l ts Hd) as Hu.
    assert (backlog ts1 < backlog ts)%nat as Hlt.
    { apply (urgent_load globals l); [done| |by apply tstep_sstep].
      by rewrite (treachable_interval addr). }
    destruct (IH _ Hlt ts1 eq_refl) as (ls & ts' & Hls & Hrun & Hc & Hlen & Ha);
      [by eapply treachable_step|].
    exists (l :: ls), ts'. simpl. rewrite Hd, Hstep. simpl.
    destruct (tstep_clock _ _ _ _ Hstep) as [Hc1 _].
    rewrite (urgent_elapsed l Hu) in Hc1. split_and!; [done..|lia|lia|done].
  - exists [], ts. split_and!; [done..|simpl; lia|].
    unfold tstep, punctual. fold (clock ts). rewrite Et. simpl. by eexists.
Qed.

End progress.

(** ** Runs of a first connection *)

Lemma treachable_timed_after globals addr ls :
  is_Some (trun globals ls (tboot addr)) →
  treachable globals addr (timed_after globals ls (tboot addr)).
Proof.
  intros [ts Hrun]. unfold timed_after. rewrite Hrun.
  eapply trun_treachable; [constructor|done].
Qed.

Lemma time_goes_on_witness :
  let ts := timed_after hoisted_globals labels_busy
              (tboot "C8:B2:1E:3A:5F:01") in
  ∃ ls ts',
    due_run hoisted_globals ls ts = true
    ∧ trun hoisted_globals ls ts = Some ts'
    ∧ clock ts' = clock ts ∧ (length ls ≤ backlog ts)%nat
    ∧ is_Some (tstep hoisted_globals (LAdvance 1) ts').
Proof.
  apply (time_goes_on hoisted_globals "C8:B2:1E:3A:5F:01").
  apply treachable_timed_after. vm_compute. eauto.
Defined.

Lemma connect_gives_up_witness :
  let ts := timed_after hoisted_globals [LUpdate]
              (tboot "C8:B2:1E:3A:5F:01") in
  ∃ ls1 ls2 ts1,
    [LAdvance 20; LConnect 0 (Raise TimeoutError); LAdvance 21]
    = ls1 ++ ls2
    ∧ trun hoisted_globals ls1 ts = Some ts1
    ∧ clock ts1 ≤ clock ts + 20 ∧ dialling (sys ts1) = false.
Proof.
  apply (connect_gives_up hoisted_globals "C8:B2:1E:3A:5F:01" _ _
           (timed_after hoisted_globals
              [LUpdate; LAdvance 20; LConnect 0 (Raise TimeoutError);
               LAdvance 21] (tboot "C8:B2:1E:3A:5F:01")));
    [apply treachable_timed_after; vm_compute; eauto|by vm_compute..].
Defined.

(** C32: [start_notify] is awaited inside the lock with no timeout (line 105):
    as long as the peer does not answer, time passes with the lock held,
    the entity reported available since line 103, no subscription, no
    idle timer and nothing due; a poll finds a link and returns. *)
Theorem subscription_unbounded addr n :
  0 ≤ n →
  ∃ ts,
    trun hoisted_globals [LUpdate; LConnect 0 (Ok ()); LAdvance n]
      (tboot addr) = Some ts
    ∧ clock ts = n ∧ tardy (n + 1) ts = false
    ∧ locked (sys ts) = true ∧ frames (sys ts) = [AtStartNotify None 0]
    ∧ available (self (world (sys ts))) = true
    ∧ client_notifying (clients (world (sys ts))) 0 = false
    ∧ pending_timers (world (sys ts)) = []
    ∧ sstep hoisted_globals LUpdate (sys ts) = Some (sys ts).
Proof.
  intros Hn.
  set (ts2 := timed_after hoisted_globals [LUpdate; LConnect 0 (Ok ())]
                (tboot addr)).
  exists {| sys := on_world (on_loop (advance n)) (sys ts2); expiry := None |}.
  split; [|by vm_compute].
  change [LUpdate; LConnect 0 (Ok ()); LAdvance n]
    with ([LUpdate; LConnect 0 (Ok ())] ++ [LAdvance n]).
  rewrite trun_app.
  assert (trun hoisted_globals [LUpdate; LConnect 0 (Ok ())] (tboot addr)
          = Some ts2) as -> by by vm_compute.
  simpl. unfold tstep. simpl. by rewrite bool_decide_eq_true_2.
Qed.

Lemma subscription_unbounded_witness :
  ∃ ts,
    trun hoisted_globals [LUpdate; LConnect 0 (Ok ()); LAdvance 3600]
      (tboot "C8:B2:1E:3A:5F:01") = Some ts
    ∧ clock ts = 3600 ∧ tardy (3600 + 1) ts = false
    ∧ locked (sys ts) = true ∧ frames (sys ts) = [AtStartNotify None 0]
    ∧ available (self (world (sys ts))) = true
    ∧ client_notifying (clients (world (sys ts))) 0 = false
    ∧ pending_timers (world (sys ts)) = []
    ∧ sstep hoisted_globals LUpdate (sys ts) = Some (sys ts).
Proof. apply (subscription_unbounded "C8:B2:1E:3A:5F:01" 3600). lia. Defined.
