(* ===== verification/TimedDeadlines.v ===== *)
(** * TimedDeadlines: the timeouts of the sensor under every interleaving

    On the timed loop of [Timed] the two timeouts of the sensor are
    deadlines whatever the order in which the coroutines are resumed.

    - A linked sensor that gets no further reading lets its link go 60
      seconds after the last stable reading at the latest: by then
      [_disconnect] awaits [disconnect()] of the client the sensor holds
      or has forgotten the client ([letting_go]).  How long the
      transport takes to answer is not the sensor's to decide.
    - After a [connect()] that raised on a sensor without a link, a
      coroutine enters [connect] and builds a client 60 seconds later at
      the latest, unless the entity is removed: until then a retry is
      asleep or a coroutine waits for the lock, which is free
      ([idle_until]). *)

From S2P Require Import Prelude PyStruct Decoder EventLoop Transport Sensor.
From S2P Require Import Lifecycle Invariants Interleaving Schedule Deadlines.
From S2P Require Import Timed.

#[local] Open Scope Z_scope.

(** Steps that are neither a notification nor the loss of a link. *)
Definition still (l : label) : bool :=
  match l with
  | LNotify _ _ | LLinkLost _ => false
  | _ => true
  end.

(** The sensor lets its link go: [_disconnect] has forgotten the client,
    or awaits [disconnect()] of the client the sensor holds. *)
Definition letting_go (s : Sys) : Prop :=
  released (world s)
  ∨ ∃ c, _client (self (world s)) = Some c ∧ AtDisconnect c ∈ frames s.

(** Steps that leave the entity in Home Assistant. *)
Definition remaining_label (l : label) : bool :=
  match l with
  | LRemove => false
  | _ => true
  end.

(** An attempt to connect is to come at [D] at the latest: a retry is
    asleep until then, or a coroutine waits for the lock. *)
Definition attempt_due (D : Z) (s : Sys) : bool :=
  retrying D (loop (world s)) || existsb waiting (frames s).

(** The sensor has no link, nothing is inside [connect], and an attempt
    is to come at [D] at the latest. *)
Record idle_until (D : Z) (s : Sys) : Prop := {
  idle_free : locked s = false;
  idle_unlinked : linked (world s) = false;
  idle_due : attempt_due D s = true;
}.

(** A poll that connects and subscribes. *)
Definition labels_subscribed : list label :=
  [LUpdate; LConnect 0 (Ok ()); LStartNotify 0 (Ok ())].

(** A minute without a reading, the loop doing its work on time. *)
Definition labels_idle_minute : list label :=
  [LAdvance 60; LUpdate; LTimer 1; LDisconnectTask 0;
   LDisconnect 0 DisconnectOk; LAdvance 1].

(** A minute after a failure, the retry and its failure. *)
Definition labels_retry_minute : list label :=
  [LAdvance 60; LRetry 0; LConnect 0 (Raise TimeoutError); LAdvance 1].

(** ** The idle timeout *)

Section kept_closing.
Implicit Types (s : Sys) (w : World) (D : Z).

(** [cancel()] on a retry task leaves the tasks of other coroutines. *)
Lemma wakes_by_cancel_opt co D o ts :
  (∀ k, o = Some k → task_coro <$> ts !! k = Some CoRetryConnect) →
  co ≠ CoRetryConnect →
  existsb (wakes_by co D) ts = true →
  existsb (wakes_by co D) (cancel_opt o ts) = true.
Proof.
  intros Ho Hne Hex. destruct o as [k|]; [|done]. specialize (Ho k eq_refl).
  apply existsb_lookup in Hex as (i & t & Hi & Ha).
  apply Is_true_true, existb_True, Exists_exists. exists t.
  split; [|by apply Is_true_true]. apply list_elem_of_lookup. exists i.
  unfold cancel_opt, cancel_at. rewrite list_lookup_alter_ne; [done|].
  intros <-. rewrite Hi in Ho. apply wakes_by_elim in Ha as (_ & Hc & _).
  simpl in Ho. congruence.
Qed.

Lemma closing_retry_scheduled D w :
  refs_ok w → closing D (loop w) = true →
  closing D (loop (retry_scheduled w)) = true.
Proof.
  intros Hr [H|H]%orb_prop; unfold closing; simpl.
  - by rewrite H.
  - rewrite existsb_app, (wakes_by_cancel_opt _ _ _ _ (retry_ok w Hr));
      [|done..].
    apply orb_true_r.
Qed.

Lemma closing_except D e w s :
  refs_ok w → closing D (loop w) = true →
  closing D (loop (world (except_clause e (with_world w s)))) = true.
Proof.
  intros Hr Hc. unfold except_clause. rewrite world_cancel_frames. simpl.
  unfold exec. rewrite connect_except_run.
  apply (closing_retry_scheduled D (on_self (set_available false) w));
    [by destruct Hr|done].
Qed.

Lemma linked_except e w s :
  linked (world (except_clause e (with_world w s))) = linked w.
Proof.
  unfold except_clause. rewrite world_cancel_frames. simpl.
  unfold exec. by rewrite connect_except_run.
Qed.

(** A link that comes up takes no link away. *)
Lemma linked_link_up c n w :
  linked w = true → linked (on_clients (alter (with_link true n) c) w) = true.
Proof.
  unfold linked, eval, client_connected, gets. simpl.
  intros Hl%bool_decide_eq_true. apply bool_decide_eq_true.
  destruct (_client (self w)) as [c'|]; simpl in *; [|done].
  unfold client_is_connected in *. destruct (decide (c = c')) as [->|Hne].
  - rewrite list_lookup_alter_eq. by destruct (clients w !! c').
  - by rewrite list_lookup_alter_ne.
Qed.

Lemma closing_armed_timer D w :
  closing D (loop w) = true → closing D (loop (exec connect_arm w)) = true.
Proof.
  intros [H|H]%orb_prop; unfold closing; simpl.
  - by rewrite existsb_app, H.
  - rewrite H. apply orb_true_r.
Qed.

End kept_closing.

Section idle.
Context (globals : namespace).
Implicit Types (ts : Timed) (s : Sys) (w : World) (l : label) (D : Z).

Lemma closing_task_finished D k (lp : Loop) :
  task_is lp k CoRetryConnect = true → closing D lp = true →
  closing D (task_finished k lp) = true.
Proof.
  intros Hk [H|H]%orb_prop; unfold closing; simpl.
  - by rewrite H.
  - by rewrite (wakes_by_task_finished _ CoRetryConnect), orb_true_r.
Qed.

Lemma linked_client w : linked w = true → ∃ c, _client (self w) = Some c.
Proof.
  unfold linked, eval, client_connected, gets. simpl.
  intros Hl%bool_decide_eq_true. destruct (_client (self w)); [eauto|done].
Qed.

Lemma refs_ok_link c up n w :
  refs_ok w → refs_ok (on_clients (alter (with_link up n) c) w).
Proof. intros []. constructor; simpl; by rewrite ?length_alter. Qed.

Lemma call_update_linked t s : linked (world s) = true → call_update t s = s.
Proof. unfold call_update. by intros ->. Qed.

Lemma disconnect_enter_held s c :
  _client (self (world s)) = Some c →
  disconnect_enter s = suspend (AtDisconnect c) s.
Proof. unfold disconnect_enter. by intros ->. Qed.

(** The end of [connect()] takes neither the link of the sensor nor
    what will close it. *)
Lemma kept_resume_connect D t c oc s :
  refs_ok (world s) → linked (world s) = true →
  closing D (loop (world s)) = true →
  linked (world (resume_connect t c oc s)) = true
  ∧ closing D (loop (world (resume_connect t c oc s))) = true.
Proof.
  intros Hr Hl Hc. unfold resume_connect. destruct oc as [[]|e]; simpl.
  - pose proof (linked_link_up c None _ Hl) as Hl1.
    destruct (_client (self (world s))); [done|].
    rewrite linked_except. split; [done|].
    apply closing_except; [|done].
    by apply (refs_ok_link c true None) in Hr as [].
  - rewrite on_clients_same, linked_except. split; [done|].
    by apply closing_except.
Qed.

Lemma kept_resume_start_notify D c on s :
  refs_ok (world s) → linked (world s) = true →
  closing D (loop (world s)) = true →
  linked (world (resume_start_notify c on s)) = true
  ∧ closing D (loop (world (resume_start_notify c on s))) = true.
Proof.
  intros Hr Hl Hc. unfold resume_start_notify, client_start_notify.
  destruct (client_is_connected _ c), on as [[]|e]; simpl.
  2-4: rewrite on_clients_same, linked_except; split; [done|];
       by apply closing_except.
  split.
  - apply (linked_link_up c (Some NOTIFY_CHAR) _ Hl).
  - by apply (closing_armed_timer D
                (on_clients (alter (with_link true (Some NOTIFY_CHAR)) c)
                   (world s))).
Qed.

(** An idle timer that fires on a linked sensor leaves the task that
    closes the link. *)
Lemma kept_timer D h w :
  linked w = true → now (loop w) ≤ D →
  let w' := exec (modify (on_loop (timer_fired h));; disconnect) w in
  linked w' = true ∧ closing D (loop w') = true.
Proof.
  intros Hl Hnow. simpl. rewrite exec_modify. unfold exec.
  rewrite disconnect_connected by by apply linked_true.
  split; [done|]. unfold closing. simpl.
  rewrite (wakes_by_snoc _ _ _ _); [apply orb_true_r|].
  unfold wakes_by. simpl. apply bool_decide_eq_true_2. lia.
Qed.

(** One step on a linked sensor that gets no reading: the sensor lets
    the link go, or what closes the link is still there. *)
Lemma sstep_closing D l s s' :
  refs_ok (world s) → linked (world s) = true →
  closing D (loop (world s)) = true → now (loop (world s)) ≤ D →
  still l = true → sstep globals l s = Some s' →
  letting_go s'
  ∨ linked (world s') = true ∧ closing D (loop (world s')) = true.
Proof.
  intros Hr Hl Hc Hnow Hq. destruct (linked_client _ Hl) as [c0 Hc0].
  destruct l; try done; simpl.
  all: try (destruct (take_frame i s) as [[[] s1]|] eqn:Ht; try done;
            apply take_frame_Some in Ht as (_ & Hw & _ & _);
            rewrite <- Hw in Hr, Hl, Hc, Hc0).
  all: repeat case_match; try done; intros [= <-].
  all: try match goal with
       | H : _ && _ = true |- _ => apply andb_prop in H as [Hdue Hco]
       end.
  - right. by rewrite call_update_linked.
  - right. rewrite call_update_linked by done. split; [done|].
    by apply closing_task_finished.
  - right. unfold connect_enter. by rewrite Hl.
  - right. by apply kept_resume_connect.
  - right. by apply kept_resume_start_notify.
  - right. by apply (kept_timer D h (world s)).
  - left. right. exists c0. rewrite (disconnect_enter_held _ c0) by done.
    split; [done|]. apply elem_of_app. right. left.
  - by left; left.
  - assert (_client (self (world (cancel_frames (_retry_task (self (world s)))
                                     (on_world (exec cancel_retry) s))))
            = Some c0) as Hc1.
    { rewrite world_cancel_frames. simpl. by rewrite cancel_retry_run. }
    left. right. exists c0. rewrite (disconnect_enter_held _ c0 Hc1).
    split; [done|]. apply elem_of_app. right. left.
  - right. by destruct inside.
  - by right.
Qed.

End idle.

Section idle_deadline.
Context (globals : namespace).
Implicit Types (ts : Timed) (s : Sys) (w : World) (l : label) (D : Z).

(** Time does not pass the instant at which the link is to be closed. *)
Lemma punctual_closing D l ts :
  punctual l ts = true → closing D (loop (world (sys ts))) = true →
  clock ts ≤ D → clock ts + elapsed l ≤ D.
Proof.
  destruct l; simpl; try (intros; lia).
  intros Ht%negb_true_iff Hc _. unfold tardy in Ht.
  apply orb_false_elim in Ht as [[Ht _]%orb_false_elim _].
  apply (closing_overdue _ _ _ Hc Ht).
Qed.

Lemma tstep_closing D l ts ts' :
  refs_ok (world (sys ts)) → linked (world (sys ts)) = true →
  closing D (loop (world (sys ts))) = true → clock ts ≤ D →
  still l = true → tstep globals l ts = Some ts' →
  clock ts' ≤ D ∧ refs_ok (world (sys ts'))
  ∧ (letting_go (sys ts')
     ∨ linked (world (sys ts')) = true
       ∧ closing D (loop (world (sys ts'))) = true).
Proof.
  intros Hr Hl Hc Hnow Hq Hstep.
  destruct (tstep_clock _ _ _ _ Hstep) as [-> _].
  apply tstep_Some in Hstep as (Hp & Hstep & _). split_and!.
  - by apply punctual_closing.
  - revert Hstep Hr. apply sstep_invariant, refs_ok_part.
  - by apply (sstep_closing globals D l (sys ts)).
Qed.

Lemma closing_let_go D ls ts ts' :
  refs_ok (world (sys ts)) → linked (world (sys ts)) = true →
  closing D (loop (world (sys ts))) = true → clock ts ≤ D →
  forallb still ls = true →
  trun globals ls ts = Some ts' → D < clock ts' →
  ∃ ls1 ls2 ts1, ls = ls1 ++ ls2 ∧ trun globals ls1 ts = Some ts1
    ∧ clock ts1 ≤ D ∧ letting_go (sys ts1).
Proof.
  revert ts. induction ls as [|l ls IH]; intros ts Hr Hl Hc Hnow; simpl.
  { intros _ [= <-] ?. lia. }
  intros [Hq Hqs]%andb_prop.
  destruct (tstep globals l ts) as [ts1|] eqn:E; [simpl|done]. intros Hrun HD.
  destruct (tstep_closing D l ts ts1) as (Hnow1 & Hr1 & [Hg|[Hl1 Hc1]]);
    try done.
  - exists [l], ls, ts1. simpl. by rewrite E.
  - destruct (IH ts1) as (ls1 & ls2 & ts2 & -> & Hrun1 & ?); try done.
    exists (l :: ls1), ls2, ts2. simpl. by rewrite E.
Qed.

(** A stable reading on a linked sensor, and no other in the minute that
    follows. *)
Lemma reading_lets_go c data x ls ts ts' :
  refs_ok (world (sys ts)) → linked (world (sys ts)) = true →
  decode_weight globals data = Ok (Some x) →
  forallb still ls = true →
  trun globals (LNotify c data :: ls) ts = Some ts' →
  clock ts + 60 < clock ts' →
  ∃ ls1 ls2 ts1, ls = ls1 ++ ls2
    ∧ trun globals (LNotify c data :: ls1) ts = Some ts1
    ∧ clock ts1 ≤ clock ts + 60 ∧ letting_go (sys ts1).
Proof.
  intros Hr Hl Hd Hq Hrun HD. simpl in Hrun.
  destruct (tstep globals (LNotify c data) ts) as [ts0|] eqn:E; [|done].
  simpl in Hrun. pose proof (tstep_sstep _ _ _ _ E) as Hs.
  assert (refs_ok (world (sys ts0))) as Hr0.
  { revert Hs Hr. apply sstep_invariant, refs_ok_part. }
  simpl in Hs. destruct (client_notifying _ c); [|done]. injection Hs as Hs.
  destruct (tstep_clock _ _ _ _ E) as [Hc0 _]. simpl in Hc0.
  assert (world (sys ts0) = reading_taken x (world (sys ts))) as Hw.
  { rewrite <- Hs. simpl. unfold exec.
    by rewrite (notification_handler_stable _ _ _ _ Hd). }
  destruct (closing_let_go (clock ts + 60) ls ts0 ts')
    as (ls1 & ls2 & ts1 & -> & Hrun1 & ? & ?); try done.
  - by rewrite Hw.
  - rewrite Hw. unfold closing. simpl. by rewrite closing_armed.
  - lia.
  - exists ls1, ls2, ts1. simpl. rewrite E. simpl.
    split_and!; [done..|lia|done].
Qed.

(** C12: Under every interleaving of the coroutines in which the loop runs
    what is due before time passes, a link that carries no further
    reading is let go 60 seconds after the last stable reading at the
    latest: when the clock shows more than 60 seconds since the reading,
    the sensor has been through a state in which [_disconnect] awaits
    [disconnect()] of the client the sensor holds, or has forgotten the
    client and reported the entity unavailable. *)
Theorem idle_timeout_lets_go addr c data x ls ts ts' :
  treachable globals addr ts → linked (world (sys ts)) = true →
  decode_weight globals data = Ok (Some x) →
  forallb still ls = true →
  trun globals (LNotify c data :: ls) ts = Some ts' →
  clock ts + 60 < clock ts' →
  ∃ ls1 ls2 ts1, ls = ls1 ++ ls2
    ∧ trun globals (LNotify c data :: ls1) ts = Some ts1
    ∧ clock ts1 ≤ clock ts + 60 ∧ letting_go (sys ts1).
Proof.
  intros Hts%treachable_sreachable. apply reading_lets_go.
  revert Hts. apply sreachable_invariant; [apply refs_ok_init|].
  apply refs_ok_part.
Qed.

End idle_deadline.

(** ** The retry *)

Section retry.
Context (globals : namespace).
Implicit Types (ts : Timed) (s : Sys) (w : World) (l : label) (D : Z).

Lemma attempt_due_suspend D fr s :
  attempt_due D s = true ∨ waiting fr = true →
  attempt_due D (suspend fr s) = true.
Proof.
  unfold attempt_due. simpl. rewrite existsb_app. simpl.
  intros [[->| ->]%orb_prop| ->]; by rewrite ?orb_true_r.
Qed.

Lemma attempt_due_take D i s fr s1 :
  take_frame i s = Some (fr, s1) → waiting fr = false →
  attempt_due D s1 = attempt_due D s.
Proof.
  intros (Hi & Hw & _ & Hf)%take_frame_Some Hfr. unfold attempt_due.
  by rewrite Hf, Hw, (existsb_delete waiting i _ fr).
Qed.

(** A sensor without a link that is asked to connect while the lock is
    free builds a client, or waits behind the coroutines that wait. *)
Lemma call_update_unlinked t s :
  linked (world s) = false → locked s = false →
  (length (clients (world s)) < length (clients (world (call_update t s))))%nat
  ∨ call_update t s = suspend (AtLock t) s.
Proof.
  intros Hl Hk. unfold call_update, connect_enter. rewrite Hl.
  destruct (contended s); [by right|left].
  rewrite connect_open_run. simpl. rewrite length_app. simpl. lia.
Qed.

Lemma linked_forgot w : linked (exec disconnect_finally w) = false.
Proof. done. Qed.

Lemma idle_until_on_world D f s :
  linked (f (world s)) = false →
  tasks (loop (f (world s))) = tasks (loop (world s)) →
  idle_until D s → idle_until D (on_world f s).
Proof.
  intros Hl Ht [Hk _ Hd]. split; [done..|].
  unfold attempt_due, retrying in *. simpl. by rewrite Ht.
Qed.

(** Nothing is inside [connect] when the lock is free. *)
Lemma free_outside i s fr s1 :
  lock_ok s → locked s = false → take_frame i s = Some (fr, s1) →
  critical fr = false.
Proof.
  unfold lock_ok. intros Hok Hk (Hi & _)%take_frame_Some.
  rewrite Hk in Hok. apply (inside_0 _ _ Hok).
  by apply list_elem_of_lookup_2 in Hi.
Qed.

Lemma idle_until_call_update D t s :
  locked s = false → linked (world s) = false →
  (length (clients (world s)) < length (clients (world (call_update t s))))%nat
  ∨ length (clients (world (call_update t s))) = length (clients (world s))
    ∧ idle_until D (call_update t s).
Proof.
  intros Hk Hl. destruct (call_update_unlinked t s Hl Hk) as [?| ->];
    [by left|right].
  split; [done|]. split; [done..|]. apply attempt_due_suspend. by right.
Qed.

Lemma retrying_task_finished D k (lp : Loop) :
  task_is lp k CoDisconnect = true → retrying D lp = true →
  retrying D (task_finished k lp) = true.
Proof. intros Hk. by apply (wakes_by_task_finished _ CoDisconnect). Qed.

Lemma idle_until_take D i s fr s1 :
  take_frame i s = Some (fr, s1) → waiting fr = false →
  idle_until D s → world s1 = world s ∧ idle_until D s1.
Proof.
  intros Ht Hfr [Hk Hl Hd].
  rewrite <- (attempt_due_take D _ _ _ _ Ht Hfr) in Hd.
  apply take_frame_Some in Ht as (_ & Hw & Hk1 & _).
  split; [done|]. split; [congruence..|done].
Qed.

Lemma connect_enter_unlinked t s :
  linked (world s) = false →
  length (clients (world (connect_enter t s))) = S (length (clients (world s))).
Proof.
  intros Hl. unfold connect_enter. rewrite Hl, connect_open_run. simpl.
  rewrite length_app. simpl. lia.
Qed.

Lemma timer_idle h w :
  linked w = false →
  exec (modify (on_loop (timer_fired h));; disconnect) w
  = on_loop (timer_fired h) w.
Proof.
  intros Hl. rewrite exec_modify. unfold exec.
  rewrite disconnect_idle; [done|by apply linked_false].
Qed.

Lemma idle_until_disconnect_enter D s :
  idle_until D s →
  length (clients (world (disconnect_enter s))) = length (clients (world s))
  ∧ idle_until D (disconnect_enter s).
Proof.
  intros Hi. unfold disconnect_enter.
  destruct (_client (self (world s))) as [c|].
  - split; [done|]. destruct Hi. split; [done..|].
    apply attempt_due_suspend. by left.
  - split; [done|]. by apply idle_until_on_world.
Qed.

Lemma linked_notification_handler data w :
  linked (exec (notification_handler globals data) w) = linked w
  ∧ tasks (loop (exec (notification_handler globals data) w)) = tasks (loop w)
  ∧ clients (exec (notification_handler globals data) w) = clients w.
Proof.
  unfold exec. destruct (decode_weight globals data) as [[x|]|e] eqn:E.
  - by rewrite (notification_handler_stable _ _ _ _ E).
  - by rewrite notification_handler_unstable.
  - by rewrite (notification_handler_raise _ _ _ _ E).
Qed.

(** One step on a sensor that has no link and stays in Home Assistant: a
    client is built, or the attempt is still to come. *)
Lemma sstep_retrying D l s s' :
  lock_ok s → idle_until D s → remaining_label l = true →
  sstep globals l s = Some s' →
  (length (clients (world s)) < length (clients (world s')))%nat
  ∨ length (clients (world s')) = length (clients (world s))
    ∧ idle_until D s'.
Proof.
  intros Hok Hi Hq. destruct l; try done; simpl.
  all: try (destruct (take_frame i s) as [[fr s1]|] eqn:Ht; [|done];
            pose proof (free_outside _ _ _ _ Hok (idle_free _ _ Hi) Ht);
            destruct fr; try done).
  all: repeat case_match; try done; intros [= <-].
  all: try match goal with
       | H : _ && _ = true |- _ => apply andb_prop in H as [Hdue Hco]
       end.
  all: try (apply (idle_until_take D) in Ht as [Hw Hi1]; [|done..]).
  - apply idle_until_call_update; apply Hi.
  - apply (idle_until_call_update D (Some k)
             (on_world (on_loop (task_finished k)) s)); apply Hi.
  - left. apply take_frame_Some in Ht as (_ & Hw & _).
    rewrite connect_enter_unlinked, Hw; [lia|]. rewrite Hw. apply Hi.
  - right. pose proof (timer_idle h (world s) (idle_unlinked _ _ Hi)) as Ht.
    split; [simpl; by rewrite Ht|].
    apply idle_until_on_world; rewrite ?Ht; [apply Hi|done..].
  - right. apply (idle_until_disconnect_enter D
                    (on_world (on_loop (task_finished k)) s)).
    destruct Hi as [Hk Hl Hd]. split; [done..|].
    apply orb_prop in Hd as [Hd|Hd]; unfold attempt_due; simpl.
    + by rewrite (retrying_task_finished D k (loop (world s))).
    + rewrite Hd. apply orb_true_r.
  - right. rewrite <- Hw. unfold resume_disconnect. simpl.
    rewrite length_client_disconnect. split; [done|].
    by apply idle_until_on_world.
  - right. rewrite <- Hw. simpl in *. by subst.
  - right.
    destruct (linked_notification_handler data (world s)) as (Hl & Ht & Hc).
    simpl. rewrite Hc. split; [done|].
    apply idle_until_on_world; [rewrite Hl; apply Hi|done..].
  - right. simpl. unfold link_lost. rewrite length_alter. split; [done|].
    apply idle_until_on_world; [apply linked_link_lost, Hi|done..].
  - right. split; [done|]. apply idle_until_on_world; [apply Hi|done..].
Qed.

End retry.

Section retry_deadline.
Context (globals : namespace).
Implicit Types (ts : Timed) (s : Sys) (w : World) (l : label) (D : Z).

(** Time does not pass the instant at which the attempt is due. *)
Lemma punctual_attempt D l ts :
  punctual l ts = true → idle_until D (sys ts) → clock ts ≤ D →
  clock ts + elapsed l ≤ D.
Proof.
  destruct l; simpl; try (intros; lia).
  intros Ht%negb_true_iff [Hk _ Hd] Hnow. unfold tardy in Ht.
  apply orb_false_elim in Ht as [[Ht Hr]%orb_false_elim _].
  apply orb_prop in Hd as [Hd|Hd]; [by apply (wakes_by_overdue _ _ _ _ Hd)|].
  unfold runnable in Hr. rewrite Hk, Hd, orb_true_r in Hr. simpl in Hr.
  apply bool_decide_eq_false in Hr. unfold clock in *. lia.
Qed.

Lemma attempt_inevitable D ls ts ts' :
  lock_ok (sys ts) → idle_until D (sys ts) → clock ts ≤ D →
  forallb remaining_label ls = true → trun globals ls ts = Some ts' →
  D < clock ts' →
  ∃ ls1 ls2 ts1, ls = ls1 ++ ls2 ∧ trun globals ls1 ts = Some ts1
    ∧ clock ts1 ≤ D
    ∧ (length (clients (world (sys ts)))
       < length (clients (world (sys ts1))))%nat.
Proof.
  revert ts. induction ls as [|l ls IH]; intros ts Hok Hi Hnow; simpl.
  { intros _ [= <-] ?. lia. }
  intros [Hq Hqs]%andb_prop.
  destruct (tstep globals l ts) as [ts1|] eqn:E; [simpl|done]. intros Hrun HD.
  destruct (tstep_clock _ _ _ _ E) as [Hc _].
  pose proof E as (Hp & Hstep & _)%tstep_Some.
  pose proof (punctual_attempt D l ts Hp Hi Hnow) as Hnow1.
  rewrite <- Hc in Hnow1.
  destruct (sstep_retrying globals D l _ _ Hok Hi Hq Hstep) as [Hb|[Hn Hi1]].
  - exists [l], ls, ts1. simpl. by rewrite E.
  - destruct (IH ts1) as (ls1 & ls2 & ts2 & -> & Hrun1 & ? & ?); try done.
    { by eapply sstep_lock_ok. }
    exists (l :: ls1), ls2, ts2. simpl. rewrite E. split_and!; [done..|lia].
Qed.

Lemma with_world_same s : with_world (world s) s = s.
Proof. by destruct s. Qed.

(** The state a [connect()] that raises leaves. *)
Lemma failed_connect_idle i e s s' :
  lock_ok s → linked (world s) = false →
  _connection_retry_interval (self (world s)) = 60 →
  sstep globals (LConnect i (Raise e)) s = Some s' →
  clients (world s') = clients (world s)
  ∧ idle_until (now (loop (world s)) + 60) s'.
Proof.
  intros Hok Hl Hint. simpl.
  destruct (take_frame i s) as [[[] s1]|] eqn:Ht; try done.
  apply take_frame_Some in Ht as (_ & Hw & _). intros [= <-].
  unfold resume_connect. simpl. rewrite on_clients_same, with_world_same.
  unfold except_clause.
  assert (world (cancel_frames (_retry_task (self (world s1)))
                   (release (on_world (exec (connect_except e)) s1)))
          = retry_scheduled (on_self (set_available false) (world s))) as Hw'.
  { rewrite world_cancel_frames. simpl. unfold exec.
    by rewrite connect_except_run, Hw. }
  split; [by rewrite Hw'|]. split.
  - by rewrite locked_cancel_frames.
  - by rewrite Hw'.
  - unfold attempt_due. rewrite Hw'. unfold retrying. simpl.
    rewrite wakes_by_snoc; [done|]. unfold wakes_by. simpl.
    apply bool_decide_eq_true_2. lia.
Qed.

(** C10: Under every interleaving of the coroutines in which the loop runs
    what is due before time passes and the entity is not removed, a
    [connect()] that raises on a sensor without a link is followed by
    another attempt 60 seconds later at the latest: when the clock shows
    more than 60 seconds since the failure, a coroutine has entered
    [connect] and built a client. *)
Theorem retry_enters_connect addr i e ls ts ts' :
  treachable globals addr ts → linked (world (sys ts)) = false →
  forallb remaining_label ls = true →
  trun globals (LConnect i (Raise e) :: ls) ts = Some ts' →
  clock ts + 60 < clock ts' →
  ∃ ls1 ls2 ts1, ls = ls1 ++ ls2
    ∧ trun globals (LConnect i (Raise e) :: ls1) ts = Some ts1
    ∧ clock ts1 ≤ clock ts + 60
    ∧ (length (clients (world (sys ts)))
       < length (clients (world (sys ts1))))%nat.
Proof.
  intros Hts Hl Hq Hrun HD. simpl in Hrun.
  destruct (tstep globals (LConnect i (Raise e)) ts) as [ts0|] eqn:E; [|done].
  simpl in Hrun. destruct (tstep_clock _ _ _ _ E) as [Hc0 _]. simpl in Hc0.
  assert (lock_ok (sys ts)) as Hok
    by by apply treachable_sreachable, sreachable_sys_ok in Hts as [].
  destruct (failed_connect_idle i e (sys ts) (sys ts0)) as [Hcl Hi];
    [done..|by eapply treachable_interval|by apply tstep_sstep|].
  destruct (attempt_inevitable (clock ts + 60) ls ts0 ts')
    as (ls1 & ls2 & ts1 & -> & Hrun1 & ? & Hb); try done.
  - eapply sstep_lock_ok; [done|by apply tstep_sstep].
  - lia.
  - exists ls1, ls2, ts1. simpl. rewrite E. simpl. rewrite Hcl in Hb.
    split_and!; [done..|lia|done].
Qed.

End retry_deadline.

(** ** The deadlines on a first connection *)

Lemma idle_timeout_lets_go_witness :
  let ts := timed_after hoisted_globals labels_subscribed
              (tboot "C8:B2:1E:3A:5F:01") in
  ∃ ls1 ls2 ts1, labels_idle_minute = ls1 ++ ls2
    ∧ trun hoisted_globals (LNotify 0 scenario_stable :: ls1) ts = Some ts1
    ∧ clock ts1 ≤ clock ts + 60 ∧ letting_go (sys ts1).
Proof.
  apply (idle_timeout_lets_go hoisted_globals "C8:B2:1E:3A:5F:01" 0
           scenario_stable 500 labels_idle_minute _
           (timed_after hoisted_globals
              (labels_subscribed ++ LNotify 0 scenario_stable
                 :: labels_idle_minute) (tboot "C8:B2:1E:3A:5F:01")));
    [apply treachable_timed_after; vm_compute; eauto|by vm_compute..].
Defined.

Lemma retry_enters_connect_witness :
  let ts := timed_after hoisted_globals [LUpdate]
              (tboot "C8:B2:1E:3A:5F:01") in
  ∃ ls1 ls2 ts1, labels_retry_minute = ls1 ++ ls2
    ∧ trun hoisted_globals (LConnect 0 (Raise TimeoutError) :: ls1) ts
      = Some ts1
    ∧ clock ts1 ≤ clock ts + 60
    ∧ (length (clients (world (sys ts)))
       < length (clients (world (sys ts1))))%nat.
Proof.
  apply (retry_enters_connect hoisted_globals "C8:B2:1E:3A:5F:01" 0
           TimeoutError labels_retry_minute _
           (timed_after hoisted_globals
              (LUpdate :: LConnect 0 (Raise TimeoutError)
                 :: labels_retry_minute) (tboot "C8:B2:1E:3A:5F:01")));
    [apply treachable_timed_after; vm_compute; eauto|by vm_compute..].
Defined.
