(* ===== verification/Reported.v ===== *)
(** * Reported: what the sensor reports, as a function of what it receives

    The host reads the properties [state] and [available] of the entity
    and is told their values by [async_write_ha_state].  This file states
    what they are at the end of a run of the loop, whatever the order in
    which the coroutines ran, in terms of the notifications of the run
    alone:

    - [state] is the weight of the last notification that decoded to a
      stable reading ([last_reading]), and what it was before the run
      when there was none: neither [connect], nor [_disconnect], nor the
      removal of the entity, nor a reading that is not stable touches it;
    - the states the host was told with an available entity ([told]) are
      the stable readings of the run, each once and in their order
      ([readings]).

    Only [notification_handler] calls the decoder, so a step that is no
    notification is a step of the module as it is written, in which the
    decoder never returns: that is how the other steps are shown to keep
    what is reported. *)

From S2P Require Import Prelude PyStruct Decoder EventLoop Transport Sensor.
From S2P Require Import Lifecycle Invariants Interleaving Schedule.

#[local] Open Scope Z_scope.

(** The weight a step of the loop delivers: that of a notification that
    decodes to a stable reading. *)
Definition reading (globals : namespace) (l : label) : option Z :=
  match l with
  | LNotify _ data =>
      match decode_weight globals data with
      | Ok (Some x) => Some x
      | _ => None
      end
  | _ => None
  end.

(** The stable readings of a run, in the order of their arrival. *)
Definition readings (globals : namespace) (ls : list label) : list Z :=
  omap (reading globals) ls.

(** The last stable reading of a run, or the value before it. *)
Definition last_reading (globals : namespace) (ls : list label)
  (v : option Z) : option Z :=
  from_option Some v (last (readings globals ls)).

(** The weight of a state the host was told with an available entity. *)
Definition told_weight (p : ha_state) : option Z :=
  if p.2 then p.1 else None.

(** The weights the host was told, the oldest first.  [ha_states] has the
    newest first. *)
Definition told (w : World) : list Z :=
  omap told_weight (reverse (ha_states w)).

(** What the host can read and what it was told. *)
Record report := {
  r_state : option Z;
  r_told : list Z;
}.

Definition report_of (w : World) : report :=
  {| r_state := _state (self w); r_told := told w |}.

(** A reading arrives. *)
Definition report_reading (x : Z) (r : report) : report :=
  {| r_state := Some x; r_told := r_told r ++ [x] |}.

(** The report after a run: a fold over its stable readings. *)
Definition report_after (globals : namespace) (ls : list label) (r : report)
  : report :=
  foldl (λ r x, report_reading x r) r (readings globals ls).

(** 00 00 00 00 00 00 00 00 00 00 ff fe 00 00 ff: stable, -200 grams. *)
Definition scenario_negative : list byte :=
  [x00; x00; x00; x00; x00; x00; x00; x00; x00; x00; xff; xfe; x00; x00; xff].

(** A connection, two stable readings with one that is not stable in
    between, the idle disconnect, and a poll that fails to connect. *)
Definition labels_two_readings : list label :=
  [LUpdate; LConnect 0 (Ok ()); LStartNotify 0 (Ok ());
   LNotify 0 scenario_stable; LNotify 0 scenario_unstable;
   LNotify 0 scenario_negative;
   LAdvance 60; LTimer 2; LDisconnectTask 0; LDisconnect 0 DisconnectOk;
   LUpdate; LConnect 0 (Raise TimeoutError)].

Section reported.
Context (globals : namespace).
Implicit Types (s : Sys) (w : World) (l : label) (ls : list label).
Implicit Types (r : report).

(** ** The fold *)

Lemma report_after_state ls r :
  r_state (report_after globals ls r) = last_reading globals ls (r_state r).
Proof.
  unfold report_after, last_reading.
  induction (readings globals ls) as [|x xs IH] using rev_ind; [done|].
  by rewrite foldl_snoc, last_snoc.
Qed.

Lemma report_after_told ls r :
  r_told (report_after globals ls r) = r_told r ++ readings globals ls.
Proof.
  unfold report_after.
  induction (readings globals ls) as [|x xs IH] using rev_ind;
    [by rewrite app_nil_r|].
  by rewrite foldl_snoc, app_assoc, <- IH.
Qed.

Lemma report_after_cons l ls r :
  report_after globals (l :: ls) r
  = report_after globals ls
      (from_option (λ x, report_reading x r) r (reading globals l)).
Proof.
  unfold report_after, readings. simpl. by destruct (reading globals l).
Qed.

(** ** What the parts of a step keep *)

Lemma told_cons p w w' :
  ha_states w' = p :: ha_states w →
  told w' = told w ++ from_option (λ x, [x]) [] (told_weight p).
Proof.
  unfold told. intros ->. rewrite reverse_cons, omap_app. simpl.
  by destruct (told_weight p).
Qed.

(** The host is told that the entity is not available. *)
Lemma report_unavailable w w' :
  _state (self w') = _state (self w) →
  ha_states w' = (_state (self w), false) :: ha_states w →
  report_of w' = report_of w.
Proof.
  intros Hs Hh. unfold report_of. rewrite Hs, (told_cons _ _ _ Hh). simpl.
  by rewrite app_nil_r.
Qed.

(** No part of the module as it is written changes the report: the
    decoder never returns there, and nothing else assigns the state or
    tells the host that the entity is available. *)
Lemma report_part w w' :
  part module_globals w w' → report_of w' = report_of w.
Proof.
  destruct 1 as [w w' Hm| | | | | |]; try done.
  - destruct Hm as [| | |od w _|data x w Hd| | | | |]; try done.
    + by apply report_unavailable.
    + destruct (decode_weight_module_raises data) as [e He]. congruence.
  - by apply report_unavailable.
Qed.

(** Only a notification calls the decoder: any other step is a step of
    the module as it is written, and keeps the report. *)
Lemma sstep_kept l s s' :
  (∀ c data, l ≠ LNotify c data) →
  sstep globals l s = Some s' → report_of (world s') = report_of (world s).
Proof.
  intros Hl Hstep.
  assert (sstep module_globals l s = Some s') as Hm.
  { destruct l; try done. by destruct (Hl c data). }
  apply (sstep_invariant module_globals
           (λ w, report_of w = report_of (world s)) l s s'); [|done..].
  intros w w' Hp <-. by apply report_part.
Qed.

Lemma report_reading_taken x w :
  report_of (reading_taken x w) = report_reading x (report_of w).
Proof.
  unfold report_of, report_reading. f_equal.
  by apply (told_cons (Some x, true)).
Qed.

(** ** One step, then a run *)

Lemma sstep_report l s s' :
  sstep globals l s = Some s' →
  report_of (world s')
  = from_option (λ x, report_reading x (report_of (world s)))
      (report_of (world s)) (reading globals l).
Proof.
  destruct l as [| | | | | | | | | |c data| |];
    try (by apply sstep_kept).
  simpl. case_match; [|done]. intros [= <-]. simpl. unfold exec.
  destruct (decode_weight globals data) as [[x|]|e] eqn:E.
  - rewrite (notification_handler_stable _ _ _ _ E).
    apply report_reading_taken.
  - by rewrite notification_handler_unstable.
  - by rewrite (notification_handler_raise _ _ _ _ E).
Qed.

Lemma srun_report ls s s' :
  srun globals ls s = Some s' →
  report_of (world s') = report_after globals ls (report_of (world s)).
Proof.
  revert s. induction ls as [|l ls IH]; intros s; simpl.
  - by intros [= <-].
  - destruct (sstep globals l s) as [s1|] eqn:E; [|done]. simpl.
    intros Hrun. rewrite report_after_cons, <- (sstep_report _ _ _ E).
    by apply IH.
Qed.

(** C8: The entity reports the last stable reading it received, and the host
    was told every stable reading, once and in order, under every
    interleaving of the coroutines: no attempt to connect, no
    [_disconnect], no removal and no reading that is not stable changes
    the state or tells the host of an available entity. *)
Theorem reports_last_reading ls s s' :
  srun globals ls s = Some s' →
  state (self (world s')) = last_reading globals ls (state (self (world s)))
  ∧ told (world s') = told (world s) ++ readings globals ls.
Proof.
  intros Hr%srun_report. split.
  - change (state (self (world s'))) with (r_state (report_of (world s'))).
    by rewrite Hr, report_after_state.
  - change (told (world s')) with (r_told (report_of (world s'))).
    by rewrite Hr, report_after_told.
Qed.

(** In the module as it is written the run has no reading. *)
Lemma readings_module ls : readings module_globals ls = [].
Proof.
  unfold readings. induction ls as [|[] ls IH]; simpl; try done.
  by edestruct decode_weight_module_raises as [e ->].
Qed.

End reported.

(** ** The theorem at a concrete run *)

(** Two stable readings of 500 and -200 grams around one that is not
    stable, then the idle disconnect and a poll that times out: the
    entity reports -200 grams and the host was told 500 and -200. *)
Lemma reports_last_reading_witness :
  ∃ s', srun hoisted_globals labels_two_readings (boot "C8:B2:1E:3A:5F:01")
        = Some s'
    ∧ state (self (world s')) = Some (-200)
    ∧ told (world s') = [500; -200]
    ∧ available (self (world s')) = false.
Proof.
  destruct (srun hoisted_globals labels_two_readings
              (boot "C8:B2:1E:3A:5F:01")) as [s'|] eqn:E;
    [|by vm_compute in E].
  exists s'. split; [done|].
  destruct (reports_last_reading hoisted_globals _ _ _ E) as [-> ->].
  split_and!; [by vm_compute..|].
  vm_compute in E. by injection E as <-.
Defined.
