(* ===== verification/Payloads.v ===== *)
(** * Payloads: what the sensor cannot tell apart

    [decode_weight] slices bytes 9 to 14 out of a notification (line 66)
    and reads nothing else of it.  Two payloads with the same slice are
    the same to the decoder, to [notification_handler], and to every run
    of the loop: the header of nine bytes and whatever follows byte 14
    have no influence on the sensor.

    The relation is an equivalence on payloads ([same_fields]), lifted to
    the steps of the loop ([same_label]) and to runs; the decoder, the
    handler, a step and a run are morphisms for it, so that a payload can
    be rewritten inside a run. *)

From Stdlib Require Import Morphisms.
From S2P Require Import Prelude PyStruct Decoder EventLoop Transport Sensor.
From S2P Require Import Lifecycle Invariants Interleaving Schedule Reported.

#[local] Open Scope Z_scope.

(** Two payloads with the same bytes 9 to 14, as [data[9:15]] takes
    them. *)
Definition same_fields (data data' : list byte) : Prop :=
  py_slice 9 15 data = py_slice 9 15 data'.

(** Two steps of the loop that differ at most by the bytes of a
    notification that the decoder does not read. *)
Inductive same_label : label → label → Prop :=
  | same_notify c data data' :
      same_fields data data' → same_label (LNotify c data) (LNotify c data')
  | same_other l : same_label l l.

(** The scenario of the specification with another header and a trailing
    byte. *)
Definition scenario_reframed : list byte :=
  replicate 9 xff ++ drop 9 scenario_stable ++ [x42].

#[export] Instance same_fields_equivalence : Equivalence same_fields.
Proof.
  unfold same_fields. split.
  - by intros data.
  - by intros data data'.
  - intros d1 d2 d3. congruence.
Qed.

#[export] Instance same_label_equivalence : Equivalence same_label.
Proof.
  split.
  - intros l. constructor.
  - intros l l' [c data data' H|]; constructor. by symmetry.
  - intros l1 l2 l3 [c d1 d2 H12|]; [|done].
    inversion 1; subst; constructor; [by etrans|done].
Qed.

(** The decoder reads the slice and nothing else. *)
#[export] Instance decode_weight_proper globals :
  Proper (same_fields ==> eq) (decode_weight globals).
Proof. intros data data' H. unfold decode_weight. by rewrite H. Qed.

#[export] Instance notification_handler_proper globals :
  Proper (same_fields ==> eq) (notification_handler globals).
Proof. intros data data' H. unfold notification_handler. by rewrite H. Qed.

Section blind.
Context (globals : namespace).
Implicit Types (s : Sys) (l : label) (ls : list label).

#[export] Instance sstep_proper :
  Proper (same_label ==> eq ==> eq) (sstep globals).
Proof.
  intros l l' [c data data' H|] s s' <-; [simpl|done]. by rewrite H.
Qed.

#[export] Instance srun_proper :
  Proper (Forall2 same_label ==> eq ==> eq) (srun globals).
Proof.
  intros ls ls' H. induction H as [|l l' ls ls' Hl _ IH]; intros s s' <-;
    simpl; [done|].
  rewrite (sstep_proper _ _ Hl s s eq_refl).
  destruct (sstep globals l' s) as [s1|]; simpl; [by apply IH|done].
Qed.

#[export] Instance reading_proper :
  Proper (same_label ==> eq) (reading globals).
Proof. intros l l' [c data data' H|]; [simpl|done]. by rewrite H. Qed.

#[export] Instance readings_proper :
  Proper (Forall2 same_label ==> eq) (readings globals).
Proof.
  intros ls ls' H. unfold readings.
  induction H as [|l l' ls ls' Hl _ IH]; simpl; [done|].
  rewrite Hl. destruct (reading globals l'); [f_equal|]; exact IH.
Qed.

(** Payloads that agree on bytes 9 to 14, by their bytes. *)
Lemma same_fields_lookup data data' :
  (15 ≤ length data)%nat → (15 ≤ length data')%nat →
  (∀ i, (9 ≤ i < 15)%nat → data !! i = data' !! i) →
  same_fields data data'.
Proof. apply py_slice_ext. Qed.

(** Only the six bytes of a notification that the decoder slices out
    reach the sensor: two runs of the loop whose notifications agree on
    bytes 9 to 14 are possible together and end in the same state, and
    have the same readings. *)
Theorem srun_blind ls ls' s :
  Forall2 same_label ls ls' →
  srun globals ls s = srun globals ls' s
  ∧ readings globals ls = readings globals ls'.
Proof. intros H. by rewrite H. Qed.

End blind.

(** ** At a concrete run *)

Lemma same_fields_reframed : same_fields scenario_stable scenario_reframed.
Proof. reflexivity. Qed.

(** The run of [Reported] with the first payload in another frame. *)
Lemma srun_blind_witness :
  let ls' := [LUpdate; LConnect 0 (Ok ()); LStartNotify 0 (Ok ());
              LNotify 0 scenario_reframed; LNotify 0 scenario_unstable;
              LNotify 0 scenario_negative;
              LAdvance 60; LTimer 2; LDisconnectTask 0;
              LDisconnect 0 DisconnectOk;
              LUpdate; LConnect 0 (Raise TimeoutError)] in
  srun hoisted_globals labels_two_readings (boot "C8:B2:1E:3A:5F:01")
  = srun hoisted_globals ls' (boot "C8:B2:1E:3A:5F:01")
  ∧ readings hoisted_globals labels_two_readings
    = readings hoisted_globals ls'.
Proof.
  apply srun_blind. unfold labels_two_readings.
  do 3 (constructor; [apply same_other|]).
  constructor; [apply same_notify, same_fields_reframed|].
  apply Forall2_same_length_lookup_2; [done|].
  intros i l l' -> [= ->]. apply same_other.
Defined.
