(* ===== verification/Host.v ===== *)
(** * Host: the entity in the hands of Home Assistant

    The hooks of the entity are called by Home Assistant.  The module
    chooses one thing about it: [async_setup_entry] adds the entity with
    [update_before_add=True] (line 20), so that [async_update] is called
    once before [async_added_to_hass], which calls it again (line 154).
    The rest is the host's: it polls [async_update] as long as the entity
    is there, calls [async_will_remove_from_hass] when the entity goes,
    and calls no hook after that.

    - Set-up: a scale that does not answer is dialled twice in a row; the
      retry of the first failure is pending beside the second attempt.
    - Removal is final when no poll is inside [connect]: from the call of
      [async_will_remove_from_hass] on, whatever the loop and the
      transport do, no client is built, no retry is pending, no
      coroutine is inside [connect], and the client is forgotten as soon
      as [_disconnect] has ended.  A retry task that is inside [connect]
      does no harm, because line 159 cancels it; a poll does
      ([removal_races_with_connect] in [Interleaving]). *)

From S2P Require Import Prelude PyStruct Decoder EventLoop Transport Sensor.
From S2P Require Import Lifecycle Invariants Interleaving Schedule Deadlines.
From S2P Require Import Timed TimedDeadlines.

#[local] Open Scope Z_scope.

(** A coroutine that is inside [connect]: at the lock, or inside it. *)
Definition in_connect (fr : frame) : bool :=
  match fr with
  | AtLock _ | AtConnect _ _ | AtStartNotify _ _ => true
  | AtDisconnect _ | Cancelled _ => false
  end.

(** A poll that is inside [connect]: a coroutine of [async_update] that
    Home Assistant started, not a retry task. *)
Definition polling (fr : frame) : bool :=
  in_connect fr && bool_decide (owner fr = None).

(** The calls of [async_update] by Home Assistant. *)
Definition polled (l : label) : bool :=
  match l with
  | LUpdate => true
  | _ => false
  end.

(** The steps that are no part of [connect]. *)
Definition outside (l : label) : bool :=
  match l with
  | LUpdate | LRetry _ | LLock _ | LConnect _ _ | LStartNotify _ _ => false
  | _ => true
  end.

(** No client is built and the tasks are as they were, but for those
    that ended. *)
Record calm (w w' : World) : Prop := {
  calm_steady : steady w w';
  calm_clients : length (clients w') = length (clients w);
}.

(** The retry task the sensor holds, if it holds one, is not pending. *)
Definition retry_dead (w : World) : Prop :=
  ∀ k, _retry_task (self w) = Some k →
    pending_at (tasks (loop w)) k = false.

(** The sensor still holds a client only while [_disconnect] awaits
    [disconnect()] of that client. *)
Definition forgetting (s : Sys) : Prop :=
  ∀ c, _client (self (world s)) = Some c → AtDisconnect c ∈ frames s.

(** An entity that was removed, with [n] clients built so far. *)
Record retired (n : nat) (s : Sys) : Prop := {
  retired_ok : sys_ok s;
  retired_clients : length (clients (world s)) = n;
  retired_retry : retry_dead (world s);
  retired_frames : Forall (λ fr, in_connect fr = false) (frames s);
  retired_client : forgetting s;
}.

(** What Home Assistant calls when it sets up an entity whose scale does
    not answer, because of line 20: [async_update], then
    [async_added_to_hass], which calls [async_update] (line 154).  The
    first call has ended when the second is made; [e] is what
    [connect()] raised in the first. *)
Definition setup_labels (e : exn) : list label :=
  [LUpdate; LConnect 0 (Raise e); LUpdate].

(** The entity is removed while its retry task is inside [connect] and
    the idle timer of an earlier connection is pending; the timer fires
    an hour later. *)
Definition labels_removed_retrying : list label :=
  [LUpdate; LConnect 0 (Ok ()); LStartNotify 0 (Ok ()); LLinkLost 0;
   LUpdate; LConnect 0 (Raise BleakError); LAdvance 60; LRetry 0].

Definition labels_after_removal : list label :=
  [LDisconnect 1 (DisconnectRaise BleakError false); LCancelled 0;
   LAdvance 3600; LTimer 0; LRemove].

Section host.
Context (globals : namespace).
Implicit Types (s : Sys) (w : World) (l : label) (ls : list label).
Implicit Types (fr : frame) (fs : list frame).

(** ** What a step outside [connect] keeps *)

#[export] Instance calm_preorder : PreOrder calm.
Proof.
  split.
  - by intros w.
  - intros w1 w2 w3 [Hs1 Hc1] [Hs2 Hc2]. split; [by etrans|congruence].
Qed.

Lemma calm_same_tasks w w' :
  tasks (loop w') = tasks (loop w) →
  length (clients w') = length (clients w) →
  _retry_task (self w') = _retry_task (self w) → calm w w'.
Proof.
  intros Ht Hc Hr. split; [|done]. apply steady_same_tasks; [done|lia|done].
Qed.

Lemma calm_disconnect w : calm w (exec disconnect w).
Proof.
  split; [apply steady_disconnect|]. unfold exec.
  destruct (client_connected_cases w) as [Hc|Hc].
  - by rewrite disconnect_connected.
  - by rewrite disconnect_idle.
Qed.

Lemma calm_notification_handler data w :
  calm w (exec (notification_handler globals data) w).
Proof.
  split; [apply steady_notification_handler|]. unfold exec.
  destruct (decode_weight globals data) as [[x|]|e] eqn:E.
  - by rewrite (notification_handler_stable _ _ _ _ E).
  - by rewrite notification_handler_unstable.
  - by rewrite (notification_handler_raise _ _ _ _ E).
Qed.

Lemma calm_forgot w : calm w (exec disconnect_finally w).
Proof. by apply calm_same_tasks. Qed.

Lemma calm_disconnect_enter s :
  calm (world s) (world (disconnect_enter s)).
Proof.
  unfold disconnect_enter. destruct (_client (self (world s))); [done|].
  apply calm_forgot.
Qed.

Lemma calm_resume_disconnect c od s :
  calm (world s) (world (resume_disconnect c od s)).
Proof.
  unfold resume_disconnect. simpl. etrans; [|apply calm_forgot].
  apply calm_same_tasks; simpl; [done| |done].
  apply length_client_disconnect.
Qed.

(** Every step outside [connect] is calm: it builds no client and wakes
    no task. *)
Lemma sstep_calm l s s' :
  outside l = true → sstep globals l s = Some s' →
  calm (world s) (world s').
Proof.
  destruct l; try done; intros _; simpl.
  - case_match; [|done]. intros [= <-]. simpl. rewrite exec_modify.
    etrans; [|apply calm_disconnect]. by apply calm_same_tasks.
  - case_match; [|done]. intros [= <-].
    etrans; [|apply calm_disconnect_enter].
    split; [apply steady_task_finished|done].
  - destruct (take_frame i s) as [[[] s1]|] eqn:Ht; try done.
    apply take_frame_Some in Ht as (_ & <- & _).
    intros [= <-]. apply calm_resume_disconnect.
  - intros [= <-]. etrans; [|apply calm_disconnect_enter].
    rewrite world_cancel_frames. simpl. rewrite cancel_retry_run.
    split; [apply steady_retry_cancelled|done].
  - destruct (take_frame i s) as [[[] s1]|] eqn:Ht; try done.
    apply take_frame_Some in Ht as (_ & <- & _).
    intros [= <-]. by destruct inside.
  - case_match; [|done]. intros [= <-]. apply calm_notification_handler.
  - case_match; [|done]. intros [= <-].
    apply calm_same_tasks; simpl; [done| |done].
    unfold link_lost. by rewrite length_alter.
  - case_match; [|done]. intros [= <-]. by apply calm_same_tasks.
Qed.

(** ** The suspended coroutines outside [connect] *)

Lemma in_connect_cancel_frame k fr :
  in_connect fr = false → in_connect (cancel_frame k fr) = false.
Proof. unfold cancel_frame. by case_decide. Qed.

Lemma outside_cancel_frames task s :
  Forall (λ fr, in_connect fr = false) (frames s) →
  Forall (λ fr, in_connect fr = false) (frames (cancel_frames task s)).
Proof.
  rewrite frames_cancel_frames. intros Hfs. apply Forall_fmap.
  eapply Forall_impl; [done|]. intros fr Hfr. simpl.
  destruct task; [by apply in_connect_cancel_frame|done].
Qed.

Lemma outside_disconnect_enter s :
  Forall (λ fr, in_connect fr = false) (frames s) →
  Forall (λ fr, in_connect fr = false) (frames (disconnect_enter s)).
Proof.
  unfold disconnect_enter. destruct (_client (self (world s))); [|done].
  intros Hfs. simpl. apply Forall_app. auto.
Qed.

(** No step outside [connect] puts a coroutine inside. *)
Lemma sstep_frames_outside l s s' :
  outside l = true → sstep globals l s = Some s' →
  Forall (λ fr, in_connect fr = false) (frames s) →
  Forall (λ fr, in_connect fr = false) (frames s').
Proof.
  destruct l; try done; intros _; simpl.
  - case_match; [|done]. by intros [= <-].
  - case_match; [|done]. intros [= <-].
    apply (outside_disconnect_enter (on_world _ s)).
  - destruct (take_frame i s) as [[[] s1]|] eqn:Ht; try done.
    apply take_frame_Some in Ht as (_ & _ & _ & Hf).
    intros [= <-]. simpl. rewrite Hf. apply Forall_delete.
  - intros [= <-] Hfs.
    by apply outside_disconnect_enter, outside_cancel_frames.
  - destruct (take_frame i s) as [[[] s1]|] eqn:Ht; try done.
    apply take_frame_Some in Ht as (_ & _ & _ & Hf).
    intros [= <-]. replace (frames (resume_cancelled inside s1))
      with (frames s1) by (by destruct inside).
    rewrite Hf. apply Forall_delete.
  - case_match; [|done]. by intros [= <-].
  - case_match; [|done]. by intros [= <-].
  - case_match; [|done]. by intros [= <-].
Qed.

(** ** The client *)

Lemma elem_of_delete_ne {A} (x y : A) i (xs : list A) :
  xs !! i = Some y → x ≠ y → x ∈ xs → x ∈ delete i xs.
Proof.
  intros Hi Hne Hx. rewrite (delete_Permutation _ _ _ Hi) in Hx.
  by apply elem_of_cons in Hx as [|].
Qed.

Lemma forgetting_disconnect_enter s : forgetting (disconnect_enter s).
Proof.
  unfold forgetting, disconnect_enter.
  destruct (_client (self (world s))) as [c|] eqn:E; [|done].
  simpl. intros c' [= <-]%(eq_trans (eq_sym E)).
  apply elem_of_app. right. by left.
Qed.

Lemma forgetting_on_world f s :
  _client (self (f (world s))) = _client (self (world s)) →
  forgetting s → forgetting (on_world f s).
Proof. unfold forgetting. simpl. by intros ->. Qed.

Lemma client_disconnect_callback w :
  _client (self (exec disconnect w)) = _client (self w).
Proof.
  unfold exec. destruct (client_connected_cases w) as [Hc|Hc].
  - by rewrite disconnect_connected.
  - by rewrite disconnect_idle.
Qed.

Lemma client_notification_handler data w :
  _client (self (exec (notification_handler globals data) w))
  = _client (self w).
Proof.
  unfold exec. destruct (decode_weight globals data) as [[x|]|e] eqn:E.
  - by rewrite (notification_handler_stable _ _ _ _ E).
  - by rewrite notification_handler_unstable.
  - by rewrite (notification_handler_raise _ _ _ _ E).
Qed.

(** The sensor goes on forgetting: only [connect] stores a client. *)
Lemma sstep_forgetting l s s' :
  outside l = true → sstep globals l s = Some s' →
  forgetting s → forgetting s'.
Proof.
  destruct l; try done; intros _; simpl.
  - case_match; [|done]. intros [= <-]. apply forgetting_on_world.
    rewrite exec_modify.
    apply (client_disconnect_callback (on_loop _ (world s))).
  - case_match; [|done]. intros [= <-] _. apply forgetting_disconnect_enter.
  - destruct (take_frame i s) as [[[] s1]|] eqn:Ht; try done.
    by intros [= <-] _ c'.
  - intros [= <-] _. apply forgetting_disconnect_enter.
  - destruct (take_frame i s) as [[[] s1]|] eqn:Ht; try done.
    apply take_frame_Some in Ht as (Hi & Hw & _ & Hf).
    intros [= <-] Hc c.
    replace (frames (resume_cancelled inside s1)) with (frames s1)
      by (by destruct inside).
    replace (world (resume_cancelled inside s1)) with (world s)
      by (by destruct inside).
    rewrite Hf. intros Hin%Hc. by apply (elem_of_delete_ne _ _ _ _ Hi).
  - case_match; [|done]. intros [= <-]. apply forgetting_on_world.
    apply client_notification_handler.
  - case_match; [|done]. intros [= <-]. by apply forgetting_on_world.
  - case_match; [|done]. intros [= <-]. by apply forgetting_on_world.
Qed.

(** ** The retry *)

Lemma retry_dead_steady w w' :
  refs_ok w → steady w w' → retry_dead w → retry_dead w'.
Proof.
  intros Hrefs [[_ _ Hp] Hr] Hd k Hk. rewrite Hr in Hk.
  destruct (pending_at (tasks (loop w')) k) eqn:E; [|done].
  rewrite <- (Hd k Hk). symmetry. apply Hp; [|done].
  apply (retry_ok _ Hrefs) in Hk.
  destruct (tasks (loop w) !! k) eqn:El; [by eapply lookup_lt_Some|done].
Qed.

Lemma retry_dead_cancelled w : retry_dead (retry_cancelled w).
Proof.
  intros k Hk. simpl in *. rewrite pending_at_cancel_opt.
  by rewrite Hk, decide_True.
Qed.

(** With the retry dead no retry is pending at all. *)
Lemma retry_dead_none w :
  one_retry w → retry_dead w → pending_retries w = [].
Proof.
  intros Hone Hd. apply elem_of_nil_inv. intros k Hk.
  pose proof (one_retry_pending_retries _ _ Hone Hk) as Hh.
  apply list_elem_of_filter in Hk as [_ Hp%elem_of_pending].
  rewrite (Hd k Hh) in Hp. done.
Qed.

(** ** A removed entity *)

(** Nothing enters [connect] on a removed entity unless the host polls:
    no retry wakes up, and no coroutine is there to resume. *)
Lemma retired_outside n l s s' :
  retired n s → polled l = false → sstep globals l s = Some s' →
  outside l = true.
Proof.
  intros [[Hrefs Hone _ _] _ Hd Hfs _] Hl.
  assert (∀ i fr s1, take_frame i s = Some (fr, s1) → in_connect fr = false)
    as Hout.
  { intros i fr s1 (Hi & _)%take_frame_Some.
    by apply (Forall_lookup_1 _ _ _ _ Hfs Hi). }
  destruct l; try done; simpl.
  - case_match eqn:E; [|done]. intros _.
    apply andb_prop in E as [Hp%task_due_pending Hco%bool_decide_eq_true].
    destruct (tasks (loop (world s)) !! k) as [t0|] eqn:Et; [|done].
    rewrite (Hd k) in Hp; [done|]. apply (Hone k t0); [done|by injection Hco|].
    by rewrite <- (pending_at_Some _ _ _ Et).
  - destruct (take_frame i s) as [[[] s1]|] eqn:Ht; try done.
    by apply Hout in Ht.
  - destruct (take_frame i s) as [[[] s1]|] eqn:Ht; try done.
    by apply Hout in Ht.
  - destruct (take_frame i s) as [[[] s1]|] eqn:Ht; try done.
    by apply Hout in Ht.
Qed.

Lemma sstep_retired n l s s' :
  retired n s → polled l = false → sstep globals l s = Some s' →
  retired n s'.
Proof.
  intros Hr Hl Hstep. pose proof (retired_outside n l s s' Hr Hl Hstep) as Ho.
  destruct Hr as [Hok Hn Hd Hfs Hc].
  destruct (sstep_calm l s s' Ho Hstep) as [Hs Hcl]. split.
  - by eapply sstep_sys_ok.
  - congruence.
  - eapply retry_dead_steady; [by destruct Hok|done..].
  - by eapply sstep_frames_outside.
  - by eapply sstep_forgetting.
Qed.

Lemma srun_retired n ls s s' :
  retired n s → existsb polled ls = false → srun globals ls s = Some s' →
  retired n s'.
Proof.
  revert s. induction ls as [|l ls IH]; intros s Hr; simpl.
  - by intros _ [= <-].
  - intros [Hl Hls]%orb_false_elim.
    destruct (sstep globals l s) as [s1|] eqn:E; [|done]. simpl.
    apply IH; [|done]. by eapply sstep_retired.
Qed.

(** A coroutine of a retry task is cancelled by the removal, so that
    only a poll can be left inside [connect]. *)
Lemma cancelled_outside w fr :
  frame_ok w fr → polling fr = false →
  in_connect (from_option cancel_frame id (_retry_task (self w)) fr) = false.
Proof.
  intros [_ Ht]. unfold polling.
  destruct (in_connect fr) eqn:E;
    [|by destruct (_retry_task (self w)); simpl;
        rewrite ?in_connect_cancel_frame].
  simpl. intros Ho%bool_decide_eq_false.
  destruct (owner fr) as [k|] eqn:Ek; [|done].
  destruct (Ht k eq_refl) as (_ & _ & ->). simpl.
  unfold cancel_frame. by rewrite decide_True.
Qed.

Lemma refs_ok_retry_cancelled s :
  sys_ok s → refs_ok (retry_cancelled (world s)).
Proof.
  intros [Hrefs _ _ _].
  by eapply (refs_ok_part globals); [apply part_move, move_retry_cancelled|].
Qed.

(** The removal retires the entity, unless a poll is inside [connect]. *)
Lemma remove_retired s s' :
  sys_ok s → existsb polling (frames s) = false →
  sstep globals LRemove s = Some s' →
  retired (length (clients (world s))) s'.
Proof.
  intros Hok Hp Hstep.
  destruct (sstep_calm LRemove s s' eq_refl Hstep) as [_ Hcl].
  pose proof (sstep_sys_ok globals _ _ _ Hok Hstep) as Hok'.
  injection Hstep as <-. split; [done..| | |].
  - pose proof (calm_disconnect_enter
                  (cancel_frames (_retry_task (self (world s)))
                     (on_world (exec cancel_retry) s))) as [Hst _].
    rewrite world_cancel_frames in Hst. simpl in Hst.
    rewrite cancel_retry_run in Hst.
    apply (retry_dead_steady _ _ (refs_ok_retry_cancelled s Hok) Hst).
    apply retry_dead_cancelled.
  - apply outside_disconnect_enter. rewrite frames_cancel_frames.
    apply Forall_fmap, Forall_forall. intros fr Hin. simpl.
    destruct Hok as [_ _ _ [Hfs _]]. rewrite Forall_forall in Hfs.
    apply (cancelled_outside (world s)); [by apply Hfs|].
    destruct (polling fr) eqn:E; [|done].
    rewrite <- Hp. symmetry. apply existsb_exists. exists fr.
    split; [by apply list_elem_of_In|done].
  - apply forgetting_disconnect_enter.
Qed.

(** C15: Removal is final, unless a poll is inside [connect]: once
    [async_will_remove_from_hass] has been called, and as long as Home
    Assistant does not poll the entity it removed, no client is built,
    no retry is pending, no coroutine is inside [connect] or waits for
    the lock, and the sensor holds a client only as long as a
    [_disconnect] awaits [disconnect()] of it ([forgetting]); whatever the
    timers, the tasks, the transport and the clock do. *)
Theorem removal_final addr s ls s' :
  sreachable globals addr s →
  existsb polling (frames s) = false →
  existsb polled ls = false →
  srun globals (LRemove :: ls) s = Some s' →
  length (clients (world s')) = length (clients (world s))
  ∧ pending_retries (world s') = []
  ∧ existsb in_connect (frames s') = false
  ∧ forgetting s'.
Proof.
  intros Hs%sreachable_sys_ok Hp Hls Hrun.
  destruct (sstep globals LRemove s) as [s1|] eqn:E; [|done].
  rewrite (srun_cons _ _ _ _ _ E) in Hrun.
  apply remove_retired in E; [|done..].
  destruct (srun_retired _ ls s1 s' E Hls Hrun) as [Hok Hn Hd Hfs Hc].
  split_and!; [done| | |done].
  - apply retry_dead_none; [by destruct Hok|done].
  - destruct (existsb in_connect (frames s')) eqn:Ex; [|done].
    apply existsb_exists in Ex as (fr & Hin%list_elem_of_In & Hfr).
    rewrite Forall_forall in Hfs. by rewrite (Hfs fr Hin) in Hfr.
Qed.

End host.

(** ** Set-up *)

(** A scale that does not answer is dialled twice in a row when the
    entity is set up: [update_before_add=True] (line 20) makes Home
    Assistant call [async_update], and [async_added_to_hass] calls it
    again (line 154).  The second attempt is under way with a second
    client, and the retry of the first failure is pending beside it. *)
Example setup_dials_twice addr e :
  ∃ s, srun hoisted_globals (setup_labels e) (boot addr) = Some s
    ∧ length (clients (world s)) = 2%nat
    ∧ frames s = [AtConnect None 1]
    ∧ pending_retries (world s) = [0%nat].
Proof. destruct e; eexists; split_and!; reflexivity. Qed.

(** ** The theorems at concrete runs *)

(** The entity is removed while its retry task awaits [connect()] and an
    idle timer is pending.  [disconnect()] raises, the cancelled retry
    ends, an hour passes, the timer fires, the entity is removed once
    more: three clients were built and three there are. *)
Lemma removal_final_witness :
  let s := sys_after hoisted_globals labels_removed_retrying
             (boot "C8:B2:1E:3A:5F:01") in
  let s' := sys_after hoisted_globals (LRemove :: labels_after_removal) s in
  (frames s = [AtConnect (Some 0%nat) 2]
   ∧ length (clients (world s)) = 3%nat)
  ∧ length (clients (world s')) = length (clients (world s))
  ∧ pending_retries (world s') = []
  ∧ existsb in_connect (frames s') = false
  ∧ forgetting s'.
Proof.
  intros s s'. split; [by vm_compute|].
  apply (removal_final hoisted_globals "C8:B2:1E:3A:5F:01" s
           labels_after_removal s'); [|by vm_compute..].
  by apply (srun_sreachable _ _ labels_removed_retrying
              (boot "C8:B2:1E:3A:5F:01")); [constructor|vm_compute].
Defined.
