(* ===== verification/TimedAtomicity.v ===== *)
(** * TimedAtomicity: the two disciplines of the loop agree

    [Deadlines] states the discipline of the loop as a condition on the
    runs of the atomic model ([timely]); [Timed] builds it into the steps
    of the interleaved loop ([punctual]).  On the runs they share, the
    runs in which every coroutine is resumed as soon as it is suspended,
    they are the same condition: the run of the timed loop that is a
    sequence of events ([schedule] of [Atomicity]) is possible exactly
    when the events are possible and timely, and leaves the world they
    leave, with nothing suspended and no timeout armed.

    So the deadlines of [Deadlines] are deadlines of runs of the timed
    loop, and the theorems of [TimedDeadlines] extend them to the runs in
    which the coroutines interleave. *)

From S2P Require Import Prelude PyStruct Decoder EventLoop Transport Sensor.
From S2P Require Import Lifecycle Invariants Interleaving Schedule Atomicity.
From S2P Require Import Deadlines Timed.

#[local] Open Scope Z_scope.

(** A state of the timed loop with the lock free, no coroutine suspended
    and no timeout armed. *)
Definition tidle (w : World) : Timed := {| sys := idle w; expiry := None |}.

(** The steps in which no time passes. *)
Definition prompt (l : label) : bool :=
  match l with
  | LAdvance _ => false
  | _ => true
  end.

(** The events in which no time passes. *)
Definition instant (e : event) : bool :=
  match e with
  | EvAdvance _ => false
  | _ => true
  end.

Section agreement.
Context (globals : namespace).
Implicit Types (w : World) (e : event) (es : list event).
Implicit Types (ts : Timed) (l : label) (ls : list label).

(** ** Steps in which no time passes *)

(** Only the passage of time is subject to the discipline. *)
Lemma trun_prompt ls ts :
  forallb prompt ls = true →
  sys <$> trun globals ls ts = srun globals ls (sys ts).
Proof.
  revert ts. induction ls as [|l ls IH]; intros ts; simpl; [done|].
  intros [Hl Hls]%andb_prop. unfold tstep.
  replace (punctual l ts) with true by (by destruct l).
  destruct (sstep globals l (sys ts)) as [s1|]; simpl; [|done].
  by rewrite IH.
Qed.

(** When no coroutine is suspended no timeout is armed. *)
Lemma trun_expiry ls ts ts' :
  expiry ts = None → trun globals ls ts = Some ts' →
  frames (sys ts') = [] → expiry ts' = None.
Proof.
  intros Hx. induction ls as [|l ls _] using rev_ind; simpl.
  - by intros [= <-].
  - rewrite trun_app. destruct (trun globals ls ts) as [ts1|]; [simpl|done].
    destruct (tstep globals l ts1) as [ts2|] eqn:E; [simpl|done].
    intros [= <-] Hf. apply tstep_Some in E as (_ & _ & ->).
    unfold wait_for, dialling. by rewrite Hf.
Qed.

(** A run in which no time passes, from a state with nothing suspended
    to a state with nothing suspended. *)
Lemma trun_idle ls w w' :
  forallb prompt ls = true →
  srun globals ls (idle w) = Some (idle w') →
  trun globals ls (tidle w) = Some (tidle w').
Proof.
  intros Hp Hrun. pose proof (trun_prompt ls (tidle w) Hp) as Ht.
  simpl in Ht. rewrite Hrun in Ht.
  destruct (trun globals ls (tidle w)) as [[s x]|] eqn:E; [|done].
  injection Ht as ->.
  pose proof (trun_expiry ls (tidle w) _ eq_refl E eq_refl) as Hx.
  simpl in Hx. by rewrite Hx.
Qed.

(** ** Events *)

Lemma prompt_attempt n oc on : forallb prompt (attempt_labels n oc on) = true.
Proof. by destruct oc as [[]|]. Qed.

(** The labels of an event in which no time passes are prompt. *)
Lemma prompt_labels_of e w :
  instant e = true → forallb prompt (labels_of e w) = true.
Proof.
  destruct e; try done; intros _; simpl.
  - destruct (linked w); [done|apply prompt_attempt].
  - destruct (linked w); [done|apply prompt_attempt].
  - unfold close_labels. by destruct (_client (self w)).
  - destruct (linked w); [done|]. by destruct oc as [[]|].
  - unfold close_labels. by destruct (_client (self w)).
Qed.

(** On a state with nothing suspended and no timeout armed, time may
    pass exactly when no timer and no task is due before. *)
Lemma punctual_tidle dt w :
  punctual (LAdvance dt) (tidle w) = timely_step (EvAdvance dt) w.
Proof.
  unfold punctual, tardy, timely_step. simpl.
  by rewrite !orb_false_r.
Qed.

(** An event of [Lifecycle] is a run of the timed loop exactly when it is
    possible and skips nothing that is due. *)
Lemma step_punctual e w :
  trun globals (labels_of e w) (tidle w)
  = if timely_step e w then tidle <$> step globals e w else None.
Proof.
  destruct (instant e) eqn:Hi.
  - replace (timely_step e w) with true by (by destruct e).
    pose proof (step_interleaves globals e w) as Hs.
    destruct (step globals e w) as [w'|] eqn:E; simpl in *.
    + by apply trun_idle; [apply prompt_labels_of|].
    + pose proof (trun_prompt (labels_of e w) (tidle w)
                    (prompt_labels_of e w Hi)) as Ht.
      simpl in Ht. rewrite Hs in Ht.
      by destruct (trun globals (labels_of e w) (tidle w)).
  - destruct e; try done. simpl labels_of. simpl trun. unfold tstep.
    rewrite punctual_tidle. destruct (timely_step _ _); [|done].
    unfold step. simpl. by destruct (bool_decide _).
Qed.

(** The discipline of [Deadlines] is the discipline of the timed loop: a
    run of the atomic model is a run of the timed loop, with every
    coroutine resumed as soon as it is suspended, exactly when its events
    are possible and none of its passages of time skips a timer or a
    task that is due; the run leaves the world the events leave, the
    lock free, nothing suspended and no timeout armed. *)
Theorem timely_run_punctual es w :
  trun globals (schedule globals es w) (tidle w)
  = if timely globals es w then tidle <$> run globals es w else None.
Proof.
  revert w. induction es as [|e es IH]; intros w; simpl; [done|].
  rewrite trun_app, step_punctual.
  destruct (timely_step e w); [|done].
  destruct (step globals e w) as [w'|]; simpl; [apply IH|done].
Qed.

(** Every world the atomic model reaches by timely runs is a state the
    timed loop reaches. *)
Corollary timely_reachable addr es w :
  timely globals es (async_setup_entry addr) = true →
  run globals es (async_setup_entry addr) = Some w →
  treachable globals addr (tidle w).
Proof.
  intros Ht Hrun.
  apply (trun_treachable globals addr
           (schedule globals es (async_setup_entry addr)) (tboot addr));
    [constructor|].
  change (tboot addr) with (tidle (async_setup_entry addr)).
  by rewrite timely_run_punctual, Ht, Hrun.
Qed.

End agreement.

(** ** The theorem at a concrete run *)

(** A stable reading and sixty-one seconds without another, the loop
    doing its work on time: the run of [Deadlines] is a run of the timed
    loop; the same events with the timer skipped are not. *)
Example timely_run_punctual_idle :
  let es := EvNotify 0 scenario_stable :: events_idle in
  timely hoisted_globals es world_added = true
  ∧ trun hoisted_globals (schedule hoisted_globals es world_added)
      (tidle world_added)
    = tidle <$> run hoisted_globals es world_added
  ∧ trun hoisted_globals
      (schedule hoisted_globals
         [EvNotify 0 scenario_stable; EvAdvance 61] world_added)
      (tidle world_added)
    = None.
Proof.
  split; [by vm_compute|].
  rewrite !(timely_run_punctual hoisted_globals _ world_added).
  split; by vm_compute.
Qed.
