(* ===== verification/Weighing.v ===== *)
(** * Weighing: one use of the scale, from the first poll to the release

    The theorems of the other files each follow one mechanism.  This file
    composes two of them along the life of one weighing, in the timed
    loop of [Timed] and under every interleaving of the coroutines:

    - the first poll of Home Assistant connects and subscribes
      ([async_update], lines 162-165, and [connect], lines 94-125);
    - the scale sends a stable reading ([notification_handler], lines
      81-92): the entity reports it and the host is told of it, once;
    - no further reading comes: within 60 seconds of the reading the
      sensor lets the link go ([disconnect], lines 137-139, which the
      idle timer calls, and [_disconnect], lines 141-150), and whatever
      the loop runs in between, the entity still reports the reading and
      the host has been told nothing else.

    The report is the fold of [Reported], the deadline the one of
    [TimedDeadlines]; the run is one run of [trun].  [one_weighing] adds
    nothing to [reports_last_reading] and [idle_timeout_lets_go] but
    their composition at the state the first poll leaves; like them it
    needs a payload that decodes, which the module as it is written
    never gives ([decode_weight_module]). *)

From S2P Require Import Prelude PyStruct Decoder EventLoop Transport Sensor.
From S2P Require Import Lifecycle Invariants Interleaving Schedule.
From S2P Require Import Deadlines Timed TimedDeadlines Reported.

#[local] Open Scope Z_scope.

Section weighing.
Context (globals : namespace) (addr : string).
Implicit Types (l : label) (ls : list label) (ts : Timed).

(** The sensor after the first poll connected and subscribed. *)
Definition subscribed : Timed :=
  timed_after globals labels_subscribed (tboot addr).

(** The steps of one weighing: the first poll, one notification, and the
    steps [ls] that follow it. *)
Definition weighing (data : list byte) (ls : list label) : list label :=
  labels_subscribed ++ LNotify 0 data :: ls.

(** ** The first poll *)

Lemma trun_subscribed :
  trun globals labels_subscribed (tboot addr) = Some subscribed.
Proof. reflexivity. Qed.

Lemma treachable_subscribed : treachable globals addr subscribed.
Proof. apply treachable_timed_after. by rewrite trun_subscribed. Qed.

Lemma refs_ok_subscribed : refs_ok (world (sys subscribed)).
Proof.
  generalize (treachable_sreachable _ _ _ treachable_subscribed).
  apply sreachable_invariant; [apply refs_ok_init|apply refs_ok_part].
Qed.

Lemma trun_weighing data ls :
  trun globals (weighing data ls) (tboot addr)
  = trun globals (LNotify 0 data :: ls) subscribed.
Proof. unfold weighing. by rewrite trun_app, trun_subscribed. Qed.

(** ** The readings of a weighing *)

Lemma readings_app ls ls' :
  readings globals (ls ++ ls') = readings globals ls ++ readings globals ls'.
Proof. apply omap_app. Qed.

(** Steps that are no notification carry no reading. *)
Lemma readings_still ls : forallb still ls = true → readings globals ls = [].
Proof.
  induction ls as [|l ls IH]; simpl; [done|].
  intros [Hl Hls]%andb_prop. unfold readings in *. simpl.
  rewrite (IH Hls). by destruct l.
Qed.

Lemma readings_weighing data x ls :
  decode_weight globals data = Ok (Some x) → forallb still ls = true →
  readings globals (weighing data ls) = [x].
Proof.
  intros Hd Hq. unfold weighing. rewrite readings_app.
  change (LNotify 0 data :: ls) with ([LNotify 0 data] ++ ls).
  rewrite readings_app, (readings_still ls Hq). unfold readings. simpl.
  by rewrite Hd.
Qed.

(** The report of the entity after a weighing. *)
Lemma weighing_report data x ls ts' :
  decode_weight globals data = Ok (Some x) → forallb still ls = true →
  trun globals (weighing data ls) (tboot addr) = Some ts' →
  report_of (world (sys ts')) = {| r_state := Some x; r_told := [x] |}.
Proof.
  intros Hd Hq Hrun%trun_srun%srun_report. rewrite Hrun.
  pose proof (report_after_state globals (weighing data ls)
                (report_of (world (boot addr)))) as Hs.
  pose proof (report_after_told globals (weighing data ls)
                (report_of (world (boot addr)))) as Ht.
  unfold last_reading in Hs. rewrite (readings_weighing _ _ _ Hd Hq) in Hs, Ht.
  destruct (report_after _ _ _) as [st tl]. simpl in *. by subst.
Qed.

(** ** One weighing *)

(** One weighing, under every interleaving: after the first poll
    subscribed and a notification decoded to the stable weight [x], and
    with no further notification and no loss of the link, a run of the
    timed loop that takes the clock past 60 seconds has been through a
    state, at 60 seconds at the latest, in which the sensor lets the link
    go; there and at the end of the run the entity reports [x] and the
    host has been told [x] once and nothing else. *)
Theorem one_weighing data x ls ts' :
  decode_weight globals data = Ok (Some x) →
  forallb still ls = true →
  trun globals (weighing data ls) (tboot addr) = Some ts' →
  60 < clock ts' →
  report_of (world (sys ts')) = {| r_state := Some x; r_told := [x] |}
  ∧ ∃ ls1 ls2 ts1, ls = ls1 ++ ls2
      ∧ trun globals (weighing data ls1) (tboot addr) = Some ts1
      ∧ clock ts1 ≤ 60 ∧ letting_go (sys ts1)
      ∧ report_of (world (sys ts1)) = {| r_state := Some x; r_told := [x] |}.
Proof.
  intros Hd Hq Hrun HD. split; [by eapply weighing_report|].
  rewrite trun_weighing in Hrun.
  destruct (reading_lets_go globals 0%nat data x ls subscribed ts')
    as (ls1 & ls2 & ts1 & -> & Hrun1 & Hc & Hg);
    [apply refs_ok_subscribed|done..|].
  rewrite <- trun_weighing in Hrun1.
  exists ls1, ls2, ts1. split_and!; [done..|].
  rewrite forallb_app in Hq. apply andb_prop in Hq as [Hq1 _].
  by eapply weighing_report.
Qed.

End weighing.

(** ** The theorem at a concrete run *)

(** The scenario of the specification and a minute in which the loop does
    its work on time. *)
Lemma one_weighing_witness :
  let addr := "C8:B2:1E:3A:5F:01" in
  let ts' := timed_after hoisted_globals
               (weighing scenario_stable labels_idle_minute) (tboot addr) in
  report_of (world (sys ts')) = {| r_state := Some 500; r_told := [500] |}
  ∧ ∃ ls1 ls2 ts1, labels_idle_minute = ls1 ++ ls2
      ∧ trun hoisted_globals (weighing scenario_stable ls1) (tboot addr)
        = Some ts1
      ∧ clock ts1 ≤ 60 ∧ letting_go (sys ts1)
      ∧ report_of (world (sys ts1))
        = {| r_state := Some 500; r_told := [500] |}.
Proof.
  apply (one_weighing hoisted_globals "C8:B2:1E:3A:5F:01" scenario_stable
           500 labels_idle_minute); by vm_compute.
Defined.
