(* ===== verification/Orphans.v ===== *)
(** * Orphans: links the sensor has forgotten

    The specification (section 3) has at most one live connection, which
    exists exactly in the state [Connected].  The code has no such
    state: it is connected when the client in [self._client] has a link.
    A client that has a link and is not in [self._client] is an [orphan]:
    no test of lines 96, 138 and 164 sees it, and [_disconnect] (line
    143) closes the client in [self._client] only.

    The [finally] clause of [_disconnect] (lines 147-150) assigns [None]
    to [self._client] whatever [disconnect()] did and whatever a
    concurrent [connect] stored there since.  Three ways to an orphan
    follow, each for every state of the loop in which the coroutines
    stand as described:

    - [_disconnect] resumes while a coroutine awaits [connect()] (line
      101): when [connect()] returns, line 105 calls [start_notify] on
      [None], the [except] clause of line 122 schedules a retry, and the
      client that was connected is an orphan
      ([disturbed_connect_orphans]);
    - the entity is removed while a poll awaits [connect()]: the same,
      on an entity that is gone ([removal_orphans_poll]);
    - [disconnect()] raises and keeps the link (line 145 swallows the
      exception): the client is an orphan at once, and the next poll
      connects a second client ([failed_disconnect_two_links]).

    An orphan stays: no step of the loop but the loss of the link by the
    peer closes it ([orphan_stays]). *)

From S2P Require Import Prelude PyStruct Decoder EventLoop Transport Sensor.
From S2P Require Import Lifecycle Invariants Interleaving Schedule.

#[local] Open Scope Z_scope.

(** A client that holds a link and is not the client the sensor holds. *)
Definition orphan (c : nat) (w : World) : Prop :=
  client_is_connected (clients w) c = true ∧ _client (self w) ≠ Some c.

(** An orphan that no suspended [_disconnect] is about to close. *)
Definition orphaned (c : nat) (s : Sys) : Prop :=
  orphan c (world s) ∧ AtDisconnect c ∉ frames s.

(** The steps of the sensor and of the loop: all but the loss of the
    link of client [c], which is the peer's. *)
Definition ours (c : nat) (l : label) : bool :=
  match l with
  | LLinkLost c' => bool_decide (c' ≠ c)
  | _ => true
  end.

(** The place of frame [j] once frame [i] is resumed. *)
Definition shifted (i j : nat) : nat :=
  if decide (i < j)%nat then pred j else j.

(** The sensor has scheduled a retry that is pending. *)
Definition retrying_soon (w : World) : Prop :=
  ∃ k, _retry_task (self w) = Some k ∧ k ∈ pending_retries w.

(** The idle disconnect races with a poll, up to the point where both
    coroutines are suspended: [_disconnect] at [disconnect()] of client
    0, the poll at [connect()] of client 1. *)
Definition labels_both_suspended : list label :=
  [LUpdate; LConnect 0 (Ok ()); LStartNotify 0 (Ok ());
   LAdvance 60; LTimer 0; LDisconnectTask 0; LLinkLost 0; LUpdate].

Section orphans.
Context (globals : namespace).
Implicit Types (s : Sys) (w : World) (c : nat) (fr : frame).

(** ** Frames by their place *)

Lemma lookup_delete_shifted {A} (l : list A) i j x :
  i ≠ j → l !! j = Some x → delete i l !! shifted i j = Some x.
Proof.
  intros Hij Hj. unfold shifted. case_decide.
  - rewrite list_lookup_delete_ge by lia. by replace (S (pred j)) with j by lia.
  - by rewrite list_lookup_delete_lt by lia.
Qed.

Lemma take_frame_lookup i s fr :
  frames s !! i = Some fr →
  take_frame i s
  = Some (fr, {| world := world s; locked := locked s;
                 frames := delete i (frames s) |}).
Proof. unfold take_frame. by intros ->. Qed.

(** ** The segments *)

(** The [finally] clause forgets the client, whatever it is. *)
Lemma resume_disconnect_forgets c od s :
  _client (self (world (resume_disconnect c od s))) = None
  ∧ _available (self (world (resume_disconnect c od s))) = false
  ∧ clients (world (resume_disconnect c od s))
    = (client_disconnect c od (clients (world s))).2
  ∧ frames (resume_disconnect c od s) = frames s.
Proof. done. Qed.

(** The world the [except] clause leaves. *)
Lemma world_except_clause e s :
  world (except_clause e s)
  = retry_scheduled (on_self (set_available false) (world s)).
Proof.
  unfold except_clause. rewrite world_cancel_frames. simpl. unfold exec.
  by rewrite connect_except_run.
Qed.

Lemma retrying_soon_scheduled w : retrying_soon (retry_scheduled w).
Proof.
  exists (length (tasks (loop w))). split; [done|].
  unfold pending_retries. apply list_elem_of_filter. split.
  - unfold task_is. simpl.
    rewrite <- (length_cancel_opt (_retry_task (self w))).
    by rewrite lookup_snoc.
  - apply elem_of_pending. unfold pending_at. simpl.
    rewrite <- (length_cancel_opt (_retry_task (self w))).
    by rewrite lookup_snoc.
Qed.

(** [connect()] returns to a sensor that has forgotten the client: line
    105 raises [AttributeError] on [None], line 122 catches it. *)
Lemma resume_connect_forgotten t c s :
  _client (self (world s)) = None →
  (c < length (clients (world s)))%nat →
  let s' := resume_connect t c (Ok ()) s in
  orphan c (world s') ∧ _client (self (world s')) = None
  ∧ available (self (world s')) = false ∧ locked s' = false
  ∧ retrying_soon (world s').
Proof.
  intros Hc Hlt. unfold resume_connect. simpl. rewrite Hc.
  rewrite world_except_clause. split_and!; try done.
  - split; [|by simpl; rewrite Hc]. simpl.
    rewrite client_is_connected_alter, decide_True by done.
    by rewrite bool_decide_eq_true_2.
  - unfold except_clause. by rewrite locked_cancel_frames.
  - apply retrying_soon_scheduled.
Qed.

(** ** An orphan stays *)

(** What the sensor does to the world between two awaits leaves an
    orphan alone: it keeps the client it holds, forgets it, or stores
    one it has just built, and it changes the link of no client but
    the one a coroutine awaits. *)
Lemma orphan_same c w w' :
  clients w' = clients w → _client (self w') = _client (self w) →
  orphan c w → orphan c w'.
Proof. unfold orphan. by intros -> ->. Qed.

Lemma orphan_forgot c w : orphan c w → orphan c (exec disconnect_finally w).
Proof. by intros [Hup _]. Qed.

Lemma orphan_opened c w : orphan c w → orphan c (opened w).
Proof.
  intros [Hup _]. pose proof (client_is_connected_lt _ _ Hup). split; simpl.
  - rewrite client_is_connected_snoc. by rewrite decide_False by lia.
  - intros [= ?]. lia.
Qed.

Lemma orphan_link c c' up n w :
  c' ≠ c ∨ up = true →
  orphan c w → orphan c (on_clients (alter (with_link up n) c') w).
Proof.
  intros Hor [Hup Hne]. split; [|done]. simpl.
  rewrite client_is_connected_alter. case_decide as E; [|done].
  destruct Hor as [?| ->]; [done|].
  apply client_is_connected_lt in Hup. subst.
  by rewrite bool_decide_eq_true_2.
Qed.

Lemma orphan_client_disconnect c c' od w :
  c' ≠ c →
  orphan c w → orphan c (on_clients (λ cs, (client_disconnect c' od cs).2) w).
Proof.
  intros Hne. destruct od as [|e []]; simpl.
  1,2: by apply (orphan_link c c' false None); left.
  by destruct w.
Qed.

Lemma orphaned_on_world c f s :
  (orphan c (world s) → orphan c (f (world s))) →
  orphaned c s → orphaned c (on_world f s).
Proof. intros Hf [Ho Hfs]. split; [by apply Hf|done]. Qed.

Lemma orphaned_with_world c w s :
  (orphan c (world s) → orphan c w) →
  orphaned c s → orphaned c (with_world w s).
Proof. intros Hf [Ho Hfs]. split; [by apply Hf|done]. Qed.

Lemma orphaned_suspend c fr s :
  fr ≠ AtDisconnect c → orphaned c s → orphaned c (suspend fr s).
Proof.
  intros Hne [Ho Hfs]. split; [done|]. simpl.
  rewrite elem_of_app, list_elem_of_singleton. by intros [?|?].
Qed.

Lemma orphaned_cancel_frames c task s :
  orphaned c s → orphaned c (cancel_frames task s).
Proof.
  intros [Ho Hfs]. split; [by rewrite world_cancel_frames|].
  destruct task as [k|]; [simpl|done].
  intros (fr & Hfr & Hin)%list_elem_of_fmap. unfold cancel_frame in Hfr.
  case_decide; [done|]. by subst.
Qed.

Lemma orphaned_take c i s fr s1 :
  take_frame i s = Some (fr, s1) → orphaned c s →
  orphaned c s1 ∧ fr ≠ AtDisconnect c.
Proof.
  intros (Hi & Hw & _ & Hf)%take_frame_Some [Ho Hfs]. split; [split|].
  - by rewrite Hw.
  - rewrite Hf. intros Hin. apply Hfs.
    rewrite (delete_Permutation _ _ _ Hi). by right.
  - intros ->. by apply list_elem_of_lookup_2 in Hi.
Qed.

Lemma orphaned_except_clause c e s :
  orphaned c s → orphaned c (except_clause e s).
Proof.
  intros Ho. apply orphaned_cancel_frames.
  apply (orphaned_on_world c (exec (connect_except e)) (release _)); [|done].
  unfold exec. rewrite connect_except_run. by apply orphan_same.
Qed.

Lemma orphaned_connect_enter c t s :
  orphaned c s → orphaned c (connect_enter t s).
Proof.
  intros Ho. unfold connect_enter. destruct (linked (world s)); [done|].
  rewrite connect_open_run. apply orphaned_suspend; [done|].
  apply (orphaned_with_world c (opened (world s)) (acquire s)); [|done].
  apply orphan_opened.
Qed.

Lemma orphaned_call_update c t s :
  orphaned c s → orphaned c (call_update t s).
Proof.
  intros Ho. unfold call_update. destruct (linked (world s)); [done|].
  destruct (contended s); [by apply orphaned_suspend|].
  by apply orphaned_connect_enter.
Qed.

Lemma orphaned_resume_connect c t c' oc s :
  orphaned c s → orphaned c (resume_connect t c' oc s).
Proof.
  intros Ho. unfold resume_connect. destruct oc as [[]|e]; simpl.
  2:{ apply orphaned_except_clause. by rewrite on_clients_same. }
  set (w1 := on_clients _ _).
  assert (orphaned c (with_world (exec (assign (set_available true)) w1) s))
    as Ho1.
  { apply orphaned_with_world; [|done]. intros Hw.
    apply (orphan_link c c' true None) in Hw; [|by right].
    revert Hw. by apply orphan_same. }
  change (_client (self (exec (assign (set_available true)) w1)))
    with (_client (self (world s))).
  destruct (_client (self (world s))); [by apply orphaned_suspend|].
  by apply orphaned_except_clause.
Qed.

Lemma orphaned_resume_start_notify c c' on s :
  orphaned c s → orphaned c (resume_start_notify c' on s).
Proof.
  intros Ho. unfold resume_start_notify, client_start_notify.
  destruct (client_is_connected (clients (world s)) c');
    [destruct on as [[]|e]|]; simpl.
  2,3: apply orphaned_except_clause; by rewrite on_clients_same.
  apply (orphaned_with_world c _ (release s)); [|done]. intros Hw.
  apply (orphan_link c c' true (Some NOTIFY_CHAR)) in Hw; [|by right].
  revert Hw. by apply orphan_same.
Qed.

Lemma orphaned_disconnect_enter c s :
  orphaned c s → orphaned c (disconnect_enter s).
Proof.
  intros Ho. unfold disconnect_enter.
  destruct (_client (self (world s))) as [c'|] eqn:E.
  - apply orphaned_suspend; [|done]. intros [= ->]. by destruct Ho as [[_ ?] _].
  - apply orphaned_on_world; [apply orphan_forgot|done].
Qed.

Lemma orphaned_resume_disconnect c c' od s :
  c' ≠ c → orphaned c s → orphaned c (resume_disconnect c' od s).
Proof.
  intros Hne. apply orphaned_on_world. intros Ho.
  by apply orphan_forgot, orphan_client_disconnect.
Qed.

(** Every step but the loss of its link by the peer leaves an orphan
    an orphan. *)
Lemma sstep_orphaned c l s s' :
  ours c l = true → sstep globals l s = Some s' →
  orphaned c s → orphaned c s'.
Proof.
  intros Hl Hstep Ho. destruct l; simpl in Hstep.
  - injection Hstep as <-. by apply orphaned_call_update.
  - case_match; [|done]. injection Hstep as <-.
    by apply orphaned_call_update, orphaned_on_world.
  - destruct (take_frame i s) as [[[] s1]|] eqn:Ht; try done.
    case_match; [done|]. injection Hstep as <-.
    by eapply orphaned_connect_enter, orphaned_take.
  - destruct (take_frame i s) as [[[] s1]|] eqn:Ht; try done.
    injection Hstep as <-. by eapply orphaned_resume_connect, orphaned_take.
  - destruct (take_frame i s) as [[[] s1]|] eqn:Ht; try done.
    injection Hstep as <-.
    by eapply orphaned_resume_start_notify, orphaned_take.
  - case_match; [|done]. injection Hstep as <-.
    apply orphaned_on_world; [|done]. rewrite exec_modify.
    apply orphan_same; apply (disconnect_clients (on_loop _ _)).
  - case_match; [|done]. injection Hstep as <-.
    by apply orphaned_disconnect_enter, orphaned_on_world.
  - destruct (take_frame i s) as [[[] s1]|] eqn:Ht; try done.
    injection Hstep as <-.
    destruct (orphaned_take _ _ _ _ _ Ht Ho) as [Ho1 Hne].
    apply orphaned_resume_disconnect; [congruence|done].
  - injection Hstep as <-.
    apply orphaned_disconnect_enter, orphaned_cancel_frames.
    apply orphaned_on_world; [|done].
    apply orphan_same; apply cancel_retry_clients.
  - destruct (take_frame i s) as [[[] s1]|] eqn:Ht; try done.
    injection Hstep as <-. apply (orphaned_take _ _ _ _ _ Ht) in Ho as [Ho _].
    by destruct inside.
  - case_match; [|done]. injection Hstep as <-.
    apply orphaned_on_world; [|done].
    apply orphan_same; apply (notification_handler_clients globals).
  - case_match; [|done]. injection Hstep as <-.
    apply orphaned_on_world; [|done]. apply bool_decide_eq_true in Hl.
    apply (orphan_link c c0 false None). by left.
  - case_match; [|done]. injection Hstep as <-. by apply orphaned_on_world.
Qed.

(** ** The ways to an orphan *)

(** C13: The [finally] clause of [_disconnect] undoes the assignment of line
    100.  In every state in which a coroutine awaits [disconnect()] and
    another awaits [connect()] of a client, whatever [disconnect()]
    answers: when [_disconnect] resumes and [connect()] then returns,
    [connect] calls [start_notify] on [None], its [except] clause
    schedules a retry and releases the lock, and the client that was
    connected is an orphan of a sensor that is unavailable. *)
Theorem disturbed_connect_orphans i j t c c' od s :
  frames s !! i = Some (AtDisconnect c) →
  frames s !! j = Some (AtConnect t c') →
  (c' < length (clients (world s)))%nat →
  ∃ s', srun globals [LDisconnect i od; LConnect (shifted i j) (Ok ())] s
        = Some s'
    ∧ orphan c' (world s') ∧ _client (self (world s')) = None
    ∧ available (self (world s')) = false ∧ locked s' = false
    ∧ retrying_soon (world s').
Proof.
  intros Hi Hj Hlt. eexists. split.
  - simpl. rewrite (take_frame_lookup i s _ Hi). simpl.
    rewrite (take_frame_lookup (shifted i j) _ (AtConnect t c')); [done|].
    apply lookup_delete_shifted; [|done]. intros ->. congruence.
  - apply resume_connect_forgotten; [done|]. simpl.
    by rewrite length_client_disconnect.
Qed.

(** C14: The entity is removed while a poll awaits [connect()] of the client
    the sensor holds.  Line 159 cancels the retry task and not the poll;
    [_disconnect] closes the client, which has no link yet, and forgets
    it; both hooks have ended when [connect()] returns.  The entity that
    is gone then holds nothing, has an orphan, and has scheduled a
    retry. *)
Theorem removal_orphans_poll j c od s :
  frames s !! j = Some (AtConnect None c) →
  _client (self (world s)) = Some c →
  (c < length (clients (world s)))%nat →
  ∃ s', srun globals
          [LRemove; LDisconnect (length (frames s)) od; LConnect j (Ok ())] s
        = Some s'
    ∧ orphan c (world s') ∧ _client (self (world s')) = None
    ∧ available (self (world s')) = false ∧ locked s' = false
    ∧ retrying_soon (world s').
Proof.
  intros Hj Hc Hlt.
  set (s0 := cancel_frames (_retry_task (self (world s)))
               (on_world (exec cancel_retry) s)).
  assert (frames s0 !! j = Some (AtConnect None c)) as Hj0.
  { unfold s0. rewrite frames_cancel_frames, list_lookup_fmap. simpl.
    rewrite Hj. simpl. by destruct (_retry_task _). }
  assert (sstep globals LRemove s = Some (suspend (AtDisconnect c) s0)) as E.
  { simpl. unfold disconnect_enter. fold s0.
    replace (_client (self (world s0))) with (Some c); [done|].
    unfold s0. rewrite world_cancel_frames. simpl.
    by rewrite (proj2 (cancel_retry_clients (world s))). }
  assert (length (frames s) = length (frames s0)) as ->.
  { unfold s0. by rewrite frames_cancel_frames, length_fmap. }
  eexists. split.
  - rewrite (srun_cons _ _ _ _ _ E).
    rewrite (srun_cons _ _ _ _ _ (sstep_disconnect _ c od s0)).
    unfold srun, sstep.
    by rewrite (take_frame_lookup j (resume_disconnect c od s0) _ Hj0).
  - apply resume_connect_forgotten; [done|]. simpl.
    rewrite length_client_disconnect. unfold s0.
    rewrite world_cancel_frames. simpl.
    by rewrite (proj1 (cancel_retry_clients (world s))).
Qed.

(** C26: A [disconnect()] that raises and keeps the link.  Line 145 swallows
    the exception and the [finally] clause forgets the client, whose
    link is up: it is an orphan.  The sensor has no link to see at line
    164, so the next poll, when the lock is free, connects a second
    client: two links to one scale. *)
Theorem failed_disconnect_two_links i c e s :
  frames s !! i = Some (AtDisconnect c) →
  client_is_connected (clients (world s)) c = true →
  contended s = false →
  let n := length (clients (world s)) in
  ∃ s', srun globals
          (LDisconnect i (DisconnectRaise e false)
           :: attempt_labels (pred (length (frames s))) (Ok ()) (Ok ())) s
        = Some s'
    ∧ orphan c (world s') ∧ _client (self (world s')) = Some n
    ∧ client_is_connected (clients (world s')) n = true
    ∧ available (self (world s')) = true.
Proof.
  intros Hi Hup Hfree n.
  pose proof (client_is_connected_lt _ _ Hup) as Hlt.
  set (s1 := resume_disconnect c (DisconnectRaise e false)
               {| world := world s; locked := locked s;
                  frames := delete i (frames s) |}).
  assert (contended s1 = false) as Hfree1.
  { revert Hfree. unfold contended. simpl.
    by rewrite (existsb_delete _ _ _ _ Hi). }
  pose proof (sequential_update globals (Ok ()) (Ok ()) s1 Hfree1) as Hrun.
  change (linked (world s1)) with false in Hrun. cbv iota in Hrun.
  replace (length (frames s1)) with (pred (length (frames s))) in Hrun
    by (simpl; rewrite length_delete by done; lia).
  eexists. split.
  - simpl srun at 1. rewrite (take_frame_lookup i s _ Hi). simpl mbind.
    exact Hrun.
  - rewrite world_cancel_frames. simpl world. unfold exec.
    rewrite async_update_connect, connect_Ok by done.
    replace (on_clients _ (world s)) with (world s) by (by destruct (world s)).
    split_and!; try done; simpl.
    + split; simpl; [|intros [= ?]; lia].
      rewrite client_is_connected_snoc. by rewrite decide_False by lia.
    + by rewrite client_is_connected_snoc, decide_True.
Qed.

(** C25: An orphan stays.  Under every interleaving, whatever the sensor, the
    loop and Home Assistant do, a client that holds a link, that the
    sensor does not hold and that no suspended [_disconnect] is about to
    close is still such a client: nothing in the module closes it or
    finds it again.  Only the peer ends the link. *)
Theorem orphan_stays c ls s s' :
  forallb (ours c) ls = true → srun globals ls s = Some s' →
  orphaned c s → orphaned c s'.
Proof.
  revert s. induction ls as [|l ls IH]; intros s; simpl.
  - by intros _ [= <-].
  - intros [Hl Hls]%andb_prop.
    destruct (sstep globals l s) as [s1|] eqn:E; [|done]. simpl.
    intros Hrun Ho. apply (IH s1); [done..|]. by eapply sstep_orphaned.
Qed.

End orphans.

(** ** The theorems at concrete runs

    The runs are those of the module as it is written: no step of them
    needs a payload that decodes. *)

(** The idle disconnect races with a poll ([labels_race] of
    [Interleaving], from the state in which both are suspended). *)
Lemma disturbed_connect_orphans_witness :
  let s := sys_after module_globals labels_both_suspended
             (boot "C8:B2:1E:3A:5F:01") in
  ∃ s', srun module_globals
          [LDisconnect 0 DisconnectOk; LConnect (shifted 0 1) (Ok ())] s
        = Some s'
    ∧ orphan 1 (world s') ∧ _client (self (world s')) = None
    ∧ available (self (world s')) = false ∧ locked s' = false
    ∧ retrying_soon (world s').
Proof.
  apply (disturbed_connect_orphans module_globals 0 1 None 0 1 DisconnectOk);
    by vm_compute.
Defined.

(** The entity is removed while its first poll awaits [connect()]. *)
Lemma removal_orphans_poll_witness :
  let s := sys_after module_globals [LUpdate] (boot "C8:B2:1E:3A:5F:01") in
  ∃ s', srun module_globals
          [LRemove; LDisconnect (length (frames s)) DisconnectOk;
           LConnect 0 (Ok ())] s
        = Some s'
    ∧ orphan 0 (world s') ∧ _client (self (world s')) = None
    ∧ available (self (world s')) = false ∧ locked s' = false
    ∧ retrying_soon (world s').
Proof.
  apply (removal_orphans_poll module_globals 0 0 DisconnectOk); by vm_compute.
Defined.

(** The idle disconnect of the first connection, answered by an
    exception that keeps the link. *)
Lemma failed_disconnect_two_links_witness :
  let s := sys_after module_globals
             [LUpdate; LConnect 0 (Ok ()); LStartNotify 0 (Ok ());
              LAdvance 60; LTimer 0; LDisconnectTask 0]
             (boot "C8:B2:1E:3A:5F:01") in
  let n := length (clients (world s)) in
  ∃ s', srun module_globals
          (LDisconnect 0 (DisconnectRaise BleakError false)
           :: attempt_labels (pred (length (frames s))) (Ok ()) (Ok ())) s
        = Some s'
    ∧ orphan 0 (world s') ∧ _client (self (world s')) = Some n
    ∧ client_is_connected (clients (world s')) n = true
    ∧ available (self (world s')) = true.
Proof.
  apply (failed_disconnect_two_links module_globals 0 0 BleakError);
    by vm_compute.
Defined.

(** The orphan of [labels_race], through a retry that connects, an hour,
    the idle disconnect of the new connection and the removal of the
    entity. *)
Lemma orphan_stays_witness :
  let s := sys_after module_globals labels_race (boot "C8:B2:1E:3A:5F:01") in
  let ls := [LAdvance 60; LRetry 1; LConnect 0 (Ok ()); LStartNotify 0 (Ok ());
             LAdvance 3600; LTimer 1; LDisconnectTask 2;
             LDisconnect 0 DisconnectOk; LRemove] in
  orphaned 1 (sys_after module_globals ls s).
Proof.
  apply (orphan_stays module_globals 1
           [LAdvance 60; LRetry 1; LConnect 0 (Ok ()); LStartNotify 0 (Ok ());
            LAdvance 3600; LTimer 1; LDisconnectTask 2;
            LDisconnect 0 DisconnectOk; LRemove]
           (sys_after module_globals labels_race (boot "C8:B2:1E:3A:5F:01")));
    [by vm_compute..|].
  split; [split; [by vm_compute|by vm_compute]|]. by intros ?%elem_of_nil.
Defined.
