(* ===== verification/StaleTimers.v ===== *)
(** * StaleTimers: idle timers the sensor no longer holds

    [self._disconnect_timer] refers to one timer.  [notification_handler]
    cancels it before it arms the next (lines 90-92); [connect] arms a
    timer without cancelling the one the sensor holds (line 112), and
    nothing cancels a timer when the link goes.  A timer that is pending
    and that the sensor does not hold is [stale]: the only [cancel()] on
    a timer in the module is that of line 91, on the timer the sensor
    holds, so a stale timer is never cancelled.

    On the timed loop it therefore fires: when the clock is past its
    instant the loop has run its callback [disconnect] (lines 137-139),
    which closes whatever connection the sensor has then, however young
    ([stale_timer_fires]).  [stale_idle_timer_cuts_connection] of
    [Scenarios] is such a run. *)

From S2P Require Import Prelude PyStruct Decoder EventLoop Transport Sensor.
From S2P Require Import Lifecycle Invariants Interleaving Schedule Deadlines.
From S2P Require Import Timed.

#[local] Open Scope Z_scope.

(** The timer [h], due at [T], is pending and is not the timer the
    sensor holds. *)
Definition stale (h : nat) (T : Z) (w : World) : Prop :=
  ∃ t, timers (loop w) !! h = Some t ∧ th_when t = T
    ∧ th_status t = Pending ∧ _disconnect_timer (self w) ≠ Some h.

(** The loop has run the callback of timer [h], which was due at [T]. *)
Definition fired (h : nat) (T : Z) (w : World) : Prop :=
  ∃ t, timers (loop w) !! h = Some t ∧ th_when t = T
    ∧ th_status t = Finished.

(** The timer [h] is stale or has fired: it was not cancelled. *)
Definition uncancelled (h : nat) (T : Z) (w : World) : Prop :=
  stale h T w ∨ fired h T w.

(** A connection, the loss of the link after 30 seconds, and the poll
    that connects again: the timer of the first connection is stale. *)
Definition labels_reconnected : list label :=
  [LUpdate; LConnect 0 (Ok ()); LStartNotify 0 (Ok ()); LAdvance 30;
   LLinkLost 0; LUpdate; LConnect 0 (Ok ()); LStartNotify 0 (Ok ())].

(** Half a minute later, with a reading in between that re-arms the
    timer the sensor holds: the first timer fires and [_disconnect]
    starts. *)
Definition labels_half_minute (data : list byte) : list label :=
  [LAdvance 20; LNotify 1 data; LAdvance 10; LTimer 0; LDisconnectTask 0;
   LAdvance 1].

Section stale.
Context (globals : namespace).
Implicit Types (s : Sys) (w : World) (h : nat) (T : Z).

(** ** What the parts of a step do to a timer *)

(** A timer that has fired stays as it is: [cancel()] changes a timer
    that is pending only. *)
Lemma fired_same h T w w' :
  timers (loop w') = timers (loop w) → fired h T w → fired h T w'.
Proof. unfold fired. by intros ->. Qed.

Lemma fired_armed h T o t' w w' :
  timers (loop w') = cancel_opt o (timers (loop w)) ++ [t'] →
  fired h T w → fired h T w'.
Proof.
  intros Ht (t & Hh & HT & Hf). exists t. split; [|done].
  pose proof (lookup_lt_Some _ _ _ Hh).
  rewrite Ht, lookup_app_l by (by rewrite length_cancel_opt).
  destruct o as [i|]; [simpl|done]. unfold cancel_at.
  rewrite list_lookup_alter. case_decide; [subst|done].
  rewrite Hh. simpl. unfold cancel, is_pending. simpl. by rewrite Hf.
Qed.

Lemma fired_fired h h' T w :
  fired h T w → fired h T (on_loop (timer_fired h') w).
Proof.
  intros (t & Hh & HT & Hf). unfold fired, timer_fired, finish_at. simpl.
  rewrite list_lookup_alter. case_decide; [subst|by eauto].
  rewrite Hh. simpl. by eexists.
Qed.

Lemma fired_part h T w w' : part globals w w' → fired h T w → fired h T w'.
Proof.
  destruct 1 as [w w' Hm| | | | | |]; try (by apply fired_same).
  - destruct Hm; try (by apply fired_same).
    + by apply (fired_armed h T None (idle_timer_of w)).
    + by apply (fired_armed h T (_disconnect_timer (self w))
                  (idle_timer_of w)).
    + apply fired_fired.
  - by apply (fired_armed h T None (idle_timer_of w)).
Qed.

(** A stale timer stays stale when a timer is armed, after [cancel()] on
    the timer the sensor holds or without it: lines 90-92 and line 112. *)
Lemma stale_same h T w w' :
  timers (loop w') = timers (loop w) →
  _disconnect_timer (self w') = _disconnect_timer (self w) →
  stale h T w → stale h T w'.
Proof. unfold stale. by intros -> ->. Qed.

Lemma stale_armed h T o t' w w' :
  o = None ∨ o = _disconnect_timer (self w) →
  timers (loop w') = cancel_opt o (timers (loop w)) ++ [t'] →
  _disconnect_timer (self w') = Some (length (timers (loop w))) →
  stale h T w → stale h T w'.
Proof.
  intros Ho Ht Hd (t & Hh & HT & Hp & Hne).
  exists t. pose proof (lookup_lt_Some _ _ _ Hh).
  rewrite Ht, Hd, lookup_app_l by (by rewrite length_cancel_opt).
  split_and!; [|done..|intros [= ?]; lia].
  destruct o as [i|]; [simpl|done]. unfold cancel_at.
  rewrite list_lookup_alter_ne; [done|]. intros ->.
  by destruct Ho as [|[= ?]].
Qed.

(** A timer fires: the stale one, or another. *)
Lemma stale_fired h h' T w :
  stale h T w → uncancelled h T (on_loop (timer_fired h') w).
Proof.
  intros (t & Hh & HT & Hp & Hne).
  unfold uncancelled, stale, fired, timer_fired, finish_at. simpl.
  rewrite !list_lookup_alter. case_decide; [subst|left; by eauto].
  right. rewrite Hh. simpl. by eexists.
Qed.

(** No part of a step cancels a timer the sensor does not hold. *)
Lemma stale_part h T w w' :
  part globals w w' → stale h T w → uncancelled h T w'.
Proof.
  intros Hp Hs. destruct Hp as [w w' Hm| | | | | |];
    try (by left; revert Hs; apply stale_same).
  - destruct Hm; try (by left; revert Hs; apply stale_same).
    + left. revert Hs.
      by apply (stale_armed h T None (idle_timer_of w)); [left|..].
    + left. revert Hs.
      by apply (stale_armed h T (_disconnect_timer (self w))
                  (idle_timer_of w)); [right|..].
    + by apply stale_fired.
  - left. revert Hs.
    by apply (stale_armed h T None (idle_timer_of w)); [left|..].
Qed.

Lemma uncancelled_part h T w w' :
  part globals w w' → uncancelled h T w → uncancelled h T w'.
Proof.
  intros Hp [Hs|Hf]; [by eapply stale_part|right; by eapply fired_part].
Qed.

(** ** On the timed loop *)

(** The timer is stale and its instant has not passed, or it has
    fired. *)
Definition ticking (h : nat) (T : Z) (ts : Timed) : Prop :=
  (stale h T (world (sys ts)) ∧ clock ts ≤ T) ∨ fired h T (world (sys ts)).

(** Time does not pass the instant of a timer that is pending. *)
Lemma punctual_stale h T l ts :
  punctual l ts = true → stale h T (world (sys ts)) → clock ts ≤ T →
  clock ts + elapsed l ≤ T.
Proof.
  intros Hp (t & Hh & <- & Hst & _) Hc.
  destruct l; simpl in *; try lia.
  apply negb_true_iff in Hp. unfold tardy in Hp.
  apply orb_false_elim in Hp as [[Hov _]%orb_false_elim _].
  apply (overdue_timer _ _ t) in Hov; [done| |].
  - by apply list_elem_of_lookup_2 in Hh.
  - unfold is_pending. simpl. by rewrite Hst.
Qed.

Lemma tstep_ticking h T l ts ts' :
  tstep globals l ts = Some ts' → ticking h T ts → ticking h T ts'.
Proof.
  intros Hstep [[Hs Hc]|Hf].
  - pose proof (punctual_stale h T l ts) as Hle.
    apply tstep_Some in Hstep as (Hp & Hstep & _).
    destruct (sstep_now _ _ _ _ Hstep) as [Hnow _].
    assert (uncancelled h T (world (sys ts'))) as [Hs'|Hf'].
    { revert Hstep. intros Hstep.
      apply (sstep_invariant globals (uncancelled h T) l (sys ts) (sys ts'));
        [apply uncancelled_part|done|by left]. }
    + left. split; [done|]. unfold clock in *. rewrite Hnow. by apply Hle.
    + by right.
  - right. apply tstep_sstep in Hstep. revert Hstep Hf.
    apply (sstep_invariant globals (fired h T)), fired_part.
Qed.

(** [start_notify] returns and line 112 arms a timer: the timer the
    sensor held, if it is pending, is stale from then on. *)
Lemma subscribed_leaves_stale i t c h tm s :
  frames s !! i = Some (AtStartNotify t c) →
  client_is_connected (clients (world s)) c = true →
  _disconnect_timer (self (world s)) = Some h →
  timers (loop (world s)) !! h = Some tm → th_status tm = Pending →
  ∃ s', sstep globals (LStartNotify i (Ok ())) s = Some s'
    ∧ stale h (th_when tm) (world s')
    ∧ _disconnect_timer (self (world s'))
      = Some (length (timers (loop (world s))))
    ∧ state (self (world s')) = state (self (world s))
    ∧ locked s' = false.
Proof.
  intros Hi Hup Hd Hh Hst. eexists. split.
  - simpl. unfold take_frame. rewrite Hi. simpl.
    unfold resume_start_notify, client_start_notify. simpl.
    by rewrite Hup.
  - pose proof (lookup_lt_Some _ _ _ Hh). split; [|done].
    exists tm. simpl. rewrite lookup_app_l by done.
    split_and!; [done..|]. intros [= ?]. lia.
Qed.

(** C27: A stale timer fires.  Under every interleaving on the timed loop, a
    timer that is pending and that the sensor does not hold is never
    cancelled, whatever readings, connections and removals follow: once
    the clock is past its instant, the loop has run its callback
    [disconnect]. *)
Theorem stale_timer_fires h T ls ts ts' :
  stale h T (world (sys ts)) → clock ts ≤ T →
  trun globals ls ts = Some ts' → T < clock ts' →
  fired h T (world (sys ts')).
Proof.
  intros Hs Hc Hrun HT.
  assert (ticking h T ts') as [[_ ?]|Hf]; [|lia|done].
  assert (ticking h T ts) as Ht by (by left).
  clear Hs Hc HT. revert ts Ht Hrun.
  induction ls as [|l ls IH]; intros ts Ht; simpl.
  - by intros [= <-].
  - destruct (tstep globals l ts) as [ts1|] eqn:E; [simpl|done].
    apply IH. by eapply tstep_ticking.
Qed.

End stale.

(** ** The theorem at a concrete run *)

(** The timer of a connection that was lost after 30 seconds is stale
    when the next poll has connected again.  A reading re-arms the timer
    the sensor holds 20 seconds later; the stale timer fires on time all
    the same, 30 seconds after the second connection was made and 10
    seconds after the reading, and [_disconnect] closes the
    connection. *)
Lemma stale_timer_fires_witness :
  let ts := timed_after hoisted_globals labels_reconnected
              (tboot "C8:B2:1E:3A:5F:01") in
  let ts' := timed_after hoisted_globals (labels_half_minute scenario_stable)
               ts in
  fired 0 60 (world (sys ts'))
  ∧ state (self (world (sys ts'))) = Some 500
  ∧ frames (sys ts') = [AtDisconnect 1].
Proof.
  split; [|by vm_compute].
  apply (stale_timer_fires hoisted_globals 0 60
           (labels_half_minute scenario_stable)
           (timed_after hoisted_globals labels_reconnected
              (tboot "C8:B2:1E:3A:5F:01")));
    [|by vm_compute..].
  eexists. split_and!; [by vm_compute..|]. by vm_compute.
Defined.
