(* ===== verification/Early.v ===== *)
(** * Early: notifications that arrive before [connect] resumes

    In [Interleaving] a client delivers notifications from the step on
    in which [connect] resumes after [start_notify] (line 105): the
    subscription takes effect in [resume_start_notify], which also arms
    the idle timer and releases the lock.  That is an assumption on the
    transport.  bleak registers [self.notification_handler] when
    [start_notify] is called, and the scale may notify as soon as it has
    the subscription; the loop may then run the handler before it
    resumes the coroutine that awaits the call.  [Ordering] and
    [Protocol] depend on the assumption: with it no reading is processed
    while the lock is held.

    This file lifts it.  [estep] adds one step to the loop: a
    notification is delivered to the handler of a client whose
    [start_notify] a coroutine awaits ([EEarly]).

    - What survives: the new step is a run of [notification_handler], so
      every invariant that is proved part by part holds on the larger
      loop ([ereachable_sys_ok]), and so does the guard of the single
      link ([early_single_link]).
    - What does not: a reading is processed while [connect] holds the
      lock, on the plainest of runs ([early_reading_inside_connect]);
      the ordering guarantee of the specification (section 5) and the
      row [Connecting] of its table have no such reading.
    - What it costs: the handler arms an idle timer (line 92) that line
      112 replaces without [cancel()] when [connect] resumes.  The timer
      is stale ([early_reading_leaves_stale_timer]): by [StaleTimers] it
      fires 60 seconds after the early reading, whatever readings come
      later. *)

From S2P Require Import Prelude PyStruct Decoder EventLoop Transport Sensor.
From S2P Require Import Lifecycle Invariants Interleaving Schedule Deadlines.
From S2P Require Import Timed StaleTimers.

#[local] Open Scope Z_scope.

(** A step of the loop of [Interleaving], or a notification of the
    client whose [start_notify] the coroutine at place [i] awaits. *)
Inductive elabel : Type :=
  | EStep (l : label)
  | EEarly (i : nat) (data : list byte).

Section early_steps.
Context (globals : namespace).

(** The handler is registered and the link is up: bleak calls the
    handler with what the scale sends. *)
Definition estep (l : elabel) (s : Sys) : option Sys :=
  match l with
  | EStep l => sstep globals l s
  | EEarly i data =>
      match frames s !! i with
      | Some (AtStartNotify _ c) =>
          if client_is_connected (clients (world s)) c
          then Some (on_world (exec (notification_handler globals data)) s)
          else None
      | _ => None
      end
  end.

Fixpoint erun (ls : list elabel) (s : Sys) : option Sys :=
  match ls with
  | [] => Some s
  | l :: ls' => s' ← estep l s; erun ls' s'
  end.

Inductive ereachable (addr : string) : Sys → Prop :=
  | ereachable_boot : ereachable addr (boot addr)
  | ereachable_step s l s' :
      ereachable addr s → estep l s = Some s' → ereachable addr s'.

(** The runs in which [_disconnect] is not disturbed ([undisturbed] of
    [Interleaving]); an early notification disturbs nothing. *)
Definition eundisturbed (l : elabel) (s : Sys) : bool :=
  match l with
  | EStep l => undisturbed l s
  | EEarly _ _ => true
  end.

Fixpoint eundisturbed_run (ls : list elabel) (s : Sys) : bool :=
  match ls with
  | [] => true
  | l :: ls' =>
      eundisturbed l s && from_option (eundisturbed_run ls') true (estep l s)
  end.

End early_steps.

(** The first poll, with a reading that arrives while [connect] awaits
    [start_notify]. *)
Definition labels_early (data : list byte) : list elabel :=
  [EStep LUpdate; EStep (LConnect 0 (Ok ())); EEarly 0 data].

Section early.
Context (globals : namespace).
Implicit Types (s : Sys) (w : World) (l : elabel) (ls : list elabel).

(** ** What survives *)

(** An early notification is a run of the handler, as a late one is. *)
Lemma estep_early i data s s' :
  estep globals (EEarly i data) s = Some s' →
  s' = on_world (exec (notification_handler globals data)) s.
Proof. simpl. repeat case_match; try done. by intros [= <-]. Qed.

Lemma estep_parts l s s' :
  estep globals l s = Some s' → rtc (part globals) (world s) (world s').
Proof.
  destruct l as [l|i data]; [apply sstep_parts|].
  intros ->%estep_early. apply moves_parts, notification_handler_moves.
Qed.

Lemma erun_cons l ls s s1 :
  estep globals l s = Some s1 → erun globals (l :: ls) s = erun globals ls s1.
Proof. intros Hs. simpl. by rewrite Hs. Qed.

(** A property that every part keeps is kept by every step. *)
Lemma estep_invariant (I : World → Prop) l s s' :
  (∀ w w', part globals w w' → I w → I w') →
  estep globals l s = Some s' → I (world s) → I (world s').
Proof. intros Hpart Hstep%estep_parts. induction Hstep; eauto. Qed.

Lemma estep_sys_ok l s s' :
  sys_ok s → estep globals l s = Some s' → sys_ok s'.
Proof.
  destruct l as [l|i data]; [apply sstep_sys_ok|].
  intros [Hrefs Hone Hlock Hfs] Hstep. split.
  - eapply estep_invariant; [apply refs_ok_part|done..].
  - eapply estep_invariant; [apply one_retry_part|done..].
  - by apply estep_early in Hstep as ->.
  - apply estep_early in Hstep as ->.
    eapply frames_ok_steady; [apply steady_notification_handler|done].
Qed.

Lemma estep_guarded l s s' :
  eundisturbed l s → guarded s → estep globals l s = Some s' → guarded s'.
Proof.
  destruct l as [l|i data]; [apply sstep_guarded|].
  intros _ Hg ->%estep_early.
  apply guarded_on_world; [apply (notification_handler_clients globals)..|done].
Qed.

Lemma ereachable_erun addr ls s s' :
  ereachable globals addr s → erun globals ls s = Some s' →
  ereachable globals addr s'.
Proof.
  revert s. induction ls as [|l ls IH]; intros s Hr; simpl.
  - by intros [= <-].
  - destruct (estep globals l s) as [s1|] eqn:E; [simpl|done].
    apply IH. by eapply ereachable_step.
Qed.

(** C30: Every state the larger loop reaches is well formed, nothing in it
    waits for more than 60 seconds, and what is reported is a weight
    the decoder can produce. *)
Theorem ereachable_sys_ok addr s :
  ereachable globals addr s →
  sys_ok s ∧ timing_ok (world s) ∧ state_ok (world s).
Proof.
  induction 1 as [|s l s' _ (Hok & Ht & Hs) Hstep].
  - split_and!; [apply sys_ok_boot|apply timing_ok_init|apply state_ok_init].
  - split_and!; [by eapply estep_sys_ok|..].
    + eapply estep_invariant; [apply timing_ok_part|done..].
    + eapply estep_invariant; [apply state_ok_part|done..].
Qed.

(** C29: At most one client holds a link, and the sensor holds it, under
    every interleaving in which [_disconnect] is not disturbed, also
    when notifications arrive before [connect] resumes: the guard of
    [undisturbed_single_link] does not depend on when the subscription
    takes effect. *)
Theorem early_single_link addr ls s :
  eundisturbed_run globals ls (boot addr) →
  erun globals ls (boot addr) = Some s →
  (length (live (clients (world s))) ≤ 1)%nat
  ∧ ∀ c, c ∈ live (clients (world s)) → _client (self (world s)) = Some c.
Proof.
  intros Hq Hrun. apply held_link_single.
  assert (guarded s) as [_ ? _]; [|done].
  pose proof (guarded_boot addr) as Hg. revert Hq Hg Hrun.
  generalize (boot addr). induction ls as [|l ls IH]; intros s0; simpl.
  - by intros _ ? [= <-].
  - intros [Hl Hls]%andb_prop_elim Hg.
    destruct (estep globals l s0) as [s1|] eqn:E; [|done]. simpl in *.
    apply IH; [done|]. by eapply estep_guarded.
Qed.

(** ** What it costs *)

(** C28: A stable reading arrives while a coroutine awaits [start_notify],
    and [start_notify] then returns.  The handler has armed an idle
    timer (line 92); line 112 arms another and stores it without
    [cancel()] on the first, which is pending, is not the timer the
    sensor holds, and is due 60 seconds after the reading. *)
Theorem early_reading_leaves_stale_timer i t c data x s :
  frames s !! i = Some (AtStartNotify t c) →
  client_is_connected (clients (world s)) c = true →
  decode_weight globals data = Ok (Some x) →
  let h := length (timers (loop (world s))) in
  ∃ s', erun globals [EEarly i data; EStep (LStartNotify i (Ok ()))] s
        = Some s'
    ∧ stale h (now (loop (world s)) + 60) (world s')
    ∧ _disconnect_timer (self (world s')) = Some (S h)
    ∧ state (self (world s')) = Some x
    ∧ locked s' = false.
Proof.
  intros Hi Hup Hd h.
  set (s1 := with_world (reading_taken x (world s)) s).
  assert (estep globals (EEarly i data) s = Some s1) as E1.
  { simpl. rewrite Hi, Hup. unfold on_world, exec.
    by rewrite (notification_handler_stable _ _ _ _ Hd). }
  destruct (subscribed_leaves_stale globals i t c h
              (idle_timer_of (world s)) s1) as (s' & E & Hs & Hh & Hst & Hl);
    try done.
  { simpl. rewrite lookup_app_r by (by rewrite length_cancel_opt).
    by rewrite length_cancel_opt, Nat.sub_diag. }
  exists s'. rewrite (erun_cons _ _ _ _ E1).
  rewrite (erun_cons (EStep _) [] s1 s' E). split_and!; try done.
  rewrite Hh. simpl. rewrite length_app, length_cancel_opt. simpl.
  f_equal. unfold h. lia.
Qed.

End early.

(** ** At concrete runs *)

(** The first poll of an entity.  [connect()] has returned and [connect]
    awaits [start_notify] with the lock in hand when the scale sends a
    stable reading: the entity reports 500 g while its attempt to
    connect is under way.  No [_disconnect] runs and nothing races. *)
Example early_reading_inside_connect addr :
  ∃ s,
    erun hoisted_globals (labels_early scenario_stable) (boot addr) = Some s
    ∧ eundisturbed_run hoisted_globals (labels_early scenario_stable)
        (boot addr) = true
    ∧ locked s = true ∧ frames s = [AtStartNotify None 0]
    ∧ state (self (world s)) = Some 500
    ∧ available (self (world s)) = true
    ∧ pending_timers (world s) = [0%nat].
Proof. eexists. repeat (split; [by vm_compute|]). by vm_compute. Qed.

(** The state in which the reading has been processed and [connect]
    still awaits [start_notify]. *)
Lemma ereachable_sys_ok_witness :
  let s := on_world (exec (notification_handler hoisted_globals
                             scenario_stable))
             (sys_after hoisted_globals [LUpdate; LConnect 0 (Ok ())]
                (boot "C8:B2:1E:3A:5F:01")) in
  sys_ok s ∧ timing_ok (world s) ∧ state_ok (world s).
Proof.
  apply (ereachable_sys_ok hoisted_globals "C8:B2:1E:3A:5F:01").
  apply (ereachable_erun hoisted_globals _ (labels_early scenario_stable)
           (boot "C8:B2:1E:3A:5F:01")); [constructor|by vm_compute].
Defined.

Lemma early_single_link_witness :
  let s := default (boot "C8:B2:1E:3A:5F:01")
             (erun hoisted_globals
                (labels_early scenario_stable
                 ++ [EStep (LStartNotify 0 (Ok ()))])
                (boot "C8:B2:1E:3A:5F:01")) in
  (length (live (clients (world s))) ≤ 1)%nat
  ∧ ∀ c, c ∈ live (clients (world s)) → _client (self (world s)) = Some c.
Proof.
  apply (early_single_link hoisted_globals "C8:B2:1E:3A:5F:01"
           (labels_early scenario_stable
            ++ [EStep (LStartNotify 0 (Ok ()))])); by vm_compute.
Defined.

(** The first poll: the reading arrives before [start_notify] returns,
    and two idle timers are pending when [connect] has ended. *)
Lemma early_reading_leaves_stale_timer_witness :
  let s := sys_after hoisted_globals [LUpdate; LConnect 0 (Ok ())]
             (boot "C8:B2:1E:3A:5F:01") in
  ∃ s', erun hoisted_globals
          [EEarly 0 scenario_stable; EStep (LStartNotify 0 (Ok ()))] s
        = Some s'
    ∧ stale 0 60 (world s')
    ∧ _disconnect_timer (self (world s')) = Some 1%nat
    ∧ state (self (world s')) = Some 500
    ∧ locked s' = false.
Proof.
  apply (early_reading_leaves_stale_timer hoisted_globals 0 None 0
           scenario_stable 500); by vm_compute.
Defined.
